(* ===== verification/_CoqProject ===== *)
-Q . S2P
Prelude.v
Float64.v
Capnp.v
CapnpInstance.v
RaftTypes.v
Persistence.v
PersistenceSpec.v
Startup.v
Bus.v
QuorumMessage.v
QuorumWorker.v
Samples.v
RaftSm.v
LogModel.v
Follower.v
FollowerSpec.v
Leader.v
LeaderSpec.v
Candidate.v
CandidateSpec.v
Executor.v
Safety.v
NodeBroadcast.v
NodeTypes.v
NodeLog.v
ClusterLog.v
StartupSpec.v
NodeDurability.v
NodeAcks.v
LeaderCommit.v
FirstLeadership.v
LeaderTasks.v
LeaderDisk.v
ClusterCrash.v
QuorumWorkerSpec.v
ClusterRuns.v
WorkerFlow.v
ClusterDurable.v
ClusterDurableRun.v
WriteProxy.v
WriteProxySpec.v
Query.v
Codec.v
NetAddr.v
Config.v
Main.v
NodeReads.v
ServiceError.v
Metrics.v
TaskBuffer.v
ClientMessage.v
Connection.v
TcpClient.v
ClientSpec.v
LoadTest.v
LoadRequests.v
ClusterStreams.v
TestSupport.v
TestsLeader.v
TestsFollower.v
TestsOutstanding.v
TestsAppendEntries.v
TestsWriteBatch.v
TestsReplication.v
TestsPersistence.v
TestsConfig.v
TestsTransport.v
