(* ===== verification/Prelude.v ===== *)
(** * Kraft: a verification development for the Raft key-value store in src/

    Kraft is a key-value store of several nodes.  A node is a set of workers that talk
    through queues: the state machine worker owns the Raft state, the persistence worker owns
    the files, one quorum worker per other node owns the connection to it, the write proxy
    batches client writes and the query worker answers reads from the committed entries;
    clients talk to a node over TCP in frames.
    The development models the Rust code of these workers, of startup, of the connections and
    of the benchmark client, operation by operation, and proves what makes them correct; where
    the code does not do what its comments, its documentation or the Raft protocol say, a
    theorem states what it does instead.

    ** Files

    - [Prelude.v]: machine integers (the wrapping arithmetic of the release profile), vectors
      indexed by them, panics as [None], record updates, tactics and hints.
    - [Capnp.v]: the messages of [transport/capnp/raft.capnp] and the owned wrappers of
      [transport/capnp/internal_message.rs].  The [capnp] crate is the class [Capnp] with the
      laws [CapnpLaws]; [CapnpInstance.v] is a codec that satisfies them.
    - [RaftTypes.v]: the data of [raft/raft_sm.rs], [quorum/types.rs] and the task types of
      [persistence/worker.rs], and the state of the three delegates.
    - [Bus.v]: the broadcast bus to the query workers, an interface with four instances.
    - [RaftSm.v]: [impl SharedState] of [raft/raft_sm.rs] (broadcasting committed entries) and
      the default methods of the trait [RaftProtocol].
    - [LogModel.v]: well-formed logs, and when position and predecessor identify an entry.
    - [Follower.v], [Candidate.v], [Leader.v]: the handlers of [raft/follower/],
      [raft/candidate.rs] and [raft/leader/]; [FollowerSpec.v], [CandidateSpec.v] and
      [LeaderSpec.v] hold their theorems.
    - [Executor.v]: the dispatch of [raft/raft_sm.rs] and the loop body of
      [raft/state_machine_worker.rs], with the steps of a node as a relation and scripts of
      events as a function; [Safety.v] has the theorems about every step and [NodeTypes.v] the
      invariant that every integer keeps the range of its Rust type.
    - [Persistence.v], [PersistenceSpec.v]: [persistence/worker.rs] on files and a buffered
      writer; the [csv] crate is the class [Csv].
    - [QuorumMessage.v]: building and reading the messages between nodes
      ([transport/capnp/owned_message.rs]); [QuorumWorker.v], [QuorumWorkerSpec.v]: the
      workers of [quorum/quorum_worker/], one per other node, with the path of an entry, of an
      answer and of a forwarded write from one node to another.
    - [WriteProxy.v], [WriteProxySpec.v]: [transport/write_proxy/].
    - [Query.v]: [query/worker.rs] and its refinement of an abstract key-value store.
    - [Codec.v]: the client frames of [transport/datastore/codec.rs] and the byte streams of
      [transport/capnp/message_sender.rs] and [message_receiver.rs].
    - [Startup.v], [StartupSpec.v]: [startup/recovery.rs], [startup/state.rs] and the quorum
      computation of [main.rs].
    - [NodeDurability.v]: state machine and persistence worker as one system of interleaved
      steps, from a start on some files to a crash and the next start.
    - [NodeBroadcast.v]: what every handler does to the commit index and to what was broadcast;
      [NodeReads.v]: state machine, bus and query worker as one system, with clients that ask.
    - [NodeLog.v]: what every handler does to the log of its node; [ClusterLog.v]: several
      nodes and the entries sent between them, with the log matching property;
      [ClusterCrash.v]: the same nodes with their disks, crashes and restarts;
      [LeaderCommit.v]: a leadership from the election on, against what the leader is told,
      and [FirstLeadership.v]: the first one since a start is such a leadership;
      [NodeAcks.v]: a node and its disk again, with the requests it was asked and the states
      its log file has had; [ClusterRuns.v]: concrete runs of a cluster.
    - [LeaderTasks.v]: the tasks a leader gives to its workers; [LeaderDisk.v]: a leadership
      with the leader's persistence worker; [WorkerFlow.v]: what passes through a quorum
      worker in both directions; [ClusterDurable.v]: a leadership with all connections, the
      other nodes and every disk; [ClusterDurableRun.v]: scripts for that system and a run.
    - [NetAddr.v]: the parser of socket addresses of the standard library; [Config.v]:
      [config/config.rs] and what [main.rs] and [startup/workers.rs] derive from it.
    - [Main.v]: [main.rs] with [startup/queues.rs], from the configuration and the files to the
      running workers.
    - [Metrics.v]: [transport/metrics.rs] and the request handler of
      [transport/metrics_server.rs]; the [prometheus] crate is the class [Prometheus].
    - [ServiceError.v]: [service_utils/errors.rs]; [TaskBuffer.v]: [runtime_core/task_buffer.rs]
      with concurrent claims as a step relation.
    - [ClientMessage.v]: the messages of the client protocol, behind a class like those of
      [Capnp.v]; [Connection.v]: [transport/datastore/connection.rs], the handlers and the
      interleavings of reader loop, request tasks and writer; [TcpClient.v]: the connection of
      [tcp_client.rs] and the system it forms with the server; [ClientSpec.v]: a request from
      its bytes to its answer; [Float64.v]: the double precision
      arithmetic of [tcp_client.rs]; [LoadTest.v]: its pools, counters and loop; [LoadRequests.v]:
      what its load tests send, as one system with the connections and servers.
    - [ClusterStreams.v]: [transport/cluster_stream_manager.rs] and the tables of
      [transport/capnp/message_receiver.rs], with the tasks that fill and clean them.
    - [Samples.v]: concrete nodes the theorems are instantiated on.
    - [TestSupport.v] and [Tests*.v]: the unit tests of the Rust modules, run on the model.

    ** How code and model correspond

    A handler of the code is the definition of the same name.  It takes the shared state (and
    the delegate, where it changes it) and returns the new one; what it sends is appended to
    the queue, channel or callback it is sent on, so the order of effects is visible.  A
    handler that can reach an [unwrap], an [expect] or an index out of bounds returns an
    [option].  Clock readings and random numbers come from an [Env], in the order the body
    asks for them.  Tracing, logging and the calls that update metrics
    are left out, and so is the subtraction that
    only feeds a log line of [broadcast_committed_entries].

    One-shot channels are numbers; what [try_recv] on one answers is an argument, as are the
    answers of the stream manager.  A bounded channel that is full makes its sender wait, so a
    send fails only when the receiver is gone.

    Loops that pop a queue until it is empty are structural in the queue.  Loops with a bound
    in the code run on that bound: [retry_broadcast] on [MAX_RETRIES_PER_ENTRY], the loops
    over a range of indices on its length, [process_work_queue] and
    [process_incoming_messages] on [MAX_MESSAGES_PER_ITERATION].  The recovery loop has fuel, the length of the
    file, and [deserialize_total] proves that it is never used up; the reader loops of a
    connection have the length of the stream, and every frame or message is at least four
    bytes long.  A call of [claim_spot] has the 100 retries of the code, and
    [claim_spot_returns] counts its steps.

    Where several tasks run at once, the relation of a system has one step per piece of code
    between two awaits or two atomic operations: [step], [node_step], [history_step] and
    [reads_step] for a node, [reign_step] for a leader and its disk, [link_step] and
    [quorum_step] for a leader with the other nodes,
    [cluster_step] and, with disks and crashes, [disks_step] for a cluster, [connection_step]
    and [system_step] for a client connection, [stream_step] and [receiver_step] for the tables
    of connections, [claim_system_step] for the task buffer, [load_test_step] and, with its
    connections, [load_run_step] for a load test,
    [request_step] for the requests a server measures.

    ** What the theorems show

    - The log: a leader appends exactly one well-formed entry per batch and one no-op when it
      starts, and tells every worker ([write_batch_appends],
      [initialize_leadership_appends_noop]); a follower takes exactly the next entry of the
      leader's log, so its log stays a prefix ([follower_takes_exactly_the_next_entry]);
      truncation cuts where it is told ([truncate_log_cuts_after_named_entry]); outside
      truncation no step of any role removes an entry ([log_only_grows]).
    - The logs of a cluster match ([crash_log_matching], [log_matching]), the leader has every
      entry of its term ([crash_leader_holds_its_term], [leader_holds_its_term]), and the task
      for a node that asks for repair fits its log ([crash_repair_task_fits],
      [repair_task_fits]).  Messages may be lost, repeated and reordered; the first of each
      holds in a cluster whose nodes crash at any moment and start again from what their
      persistence workers have written (of a write that is torn in the middle of an entry, see
      [torn_write_is_not_cut_off]), the second with any answers of the persistence workers.
      They hold for the executions in which every term is won at most once, a truncate signal
      names an entry of its receiver, and a leader takes a time step before its first batch.
      The code ensures none of the three: see [lower_term_leader_causes_double_vote],
      [ahead_signal_breaks_matching] and [early_batch_reuses_index].
    - Commitment: the outstanding-message handlers implement the contract "own disk and a
      quorum of acknowledgements, in any order, exactly once" ([commit_tracking_refines]).  In a
      leadership of any length the commit index only moves to entries of the leader's term that
      were acknowledged by a quorum and stored ([commit_is_backed]), and a client is told of
      success only when the entry of its batch is committed ([answered_write_is_committed]).
      The leadership starts without write or no-op of an earlier one outstanding, as the first
      leadership since a start does ([first_leadership_is_new]); for a later one the code does
      not ensure it ([late_ack_commits_other_entry]).
    - From end to end: the entry of a write that was answered has been in the leader's own log
      file, and for every acknowledgement that was counted the node it came from has had the
      entry in its log file or was given it when it was no follower
      ([answered_write_is_on_disks], [committed_entry_is_on_disks]), over a network
      that may lose, delay, repeat and reorder messages; the quorum counts acknowledgements, and
      that a connection acknowledges an entry once is not shown.  A node that is no follower
      acknowledges without storing ([stepping_down_acknowledges_unstored_entry]): the model
      records such a request as one that asks for nothing ([asks]), because this is what the code
      does.  What the leader finds in its log at its election, in its queues and on its
      connections must have ids below its counter, which the code does not ensure
      ([backfill_commits_other_entry]).
    - The commit index of a follower does not go back ([follower_commit_monotone]); committed
      entries reach the readers in order without gap, all of them as long as the readers are
      patient, that is no entry is refused on all 100 attempts ([patient],
      [broadcast_committed_entries_delivers], [retry_deferred_broadcast_inv]).
    - Elections: the candidate's handlers implement the contract of an election
      ([election_refines]); a candidate answers a granted vote only when it is on disk
      ([vote_granted_after_persisted]; a follower does neither, see [follower_vote_is_lost]); a step keeps recorded votes while the voted terms are
      below the next term ([step_keeps_recorded_votes]).
    - The disk: answered entries are in the file ([answered_entries_are_in_the_file]), the file
      is what the tasks describe however they are batched ([run_turns_refines]), and a restart
      recovers exactly that ([deserialize_reads_back], [restart_recovers_node]).  For a running
      node in any interleaving with its worker, the tasks always describe the log and the votes,
      so a crash loses only what was never answered ([crash_recovers_node]) and the worker never
      panics and catches up ([worker_catches_up]).  In the same interleavings, and in whatever
      role the node is, an entry it has acknowledged was completely in the file before
      ([acknowledged_entries_were_written]); a candidate or a leader that steps down
      acknowledges an entry it does not store ([stepping_down_acknowledges_unstored_entry]).
    - Reads: in any interleaving of the state machine with the query worker and the clients,
      every read is answered once, in order, from the replay of a committed prefix of the log
      that reaches the index it names ([reads_see_log]), and the worker catches up
      ([reads_catch_up]).  This is about the runs in which the readers of the bus are patient, a
      heartbeat names a commit index inside the follower's log, a follower is not sent requests
      of an older term, a leader commits inside its log, truncation spares what was broadcast,
      and the log is well formed; [persistent_refusal_skips_entry],
      [stale_heartbeat_lowers_commit] and [parked_entry_lost] show what happens otherwise.
    - The tests of the authors: every unit test of the Rust modules holds on the definitions of
      the model ([leader_tests_pass], [follower_tests_pass], [integration_tests_pass] and so on,
      one theorem per test module).  A test that depends on the clock, on random numbers or on
      the scheduling of threads holds for all of them ([election_tests_pass],
      [outbound_tests_pass], [concurrent_test_passes]).
    - Between nodes: one entry travels from the task of the leader's worker to the follower's
      log and its acknowledgement back to the leader ([replication_round_trip]); a worker
      answers exactly the requests that are ready ([pending_tasks_polled]), asks for one
      backfill at a time ([one_backfill_at_a_time]) and does not panic as long as no batch or
      batch response is too large to be read back once it is rebuilt ([run_iteration_total]); a
      connection delivers what was sent ([connection_delivers]).
    - Clients: batches are taken in order ([next_write_batch_fifo]) and combined without loss,
      with a panic exactly when the combined batch is too large to be read back
      ([prepare_batch_combines]); they go to the leader ([batches_go_to_leader],
      [put_batch_forwarded]) and are answered once ([forwarded_answer_returns],
      [every_client_answered_once]); reads are answered from the replay of a prefix of the log
      ([query_iteration_refines]); frames read back ([frame_round_trip]).  From bytes to bytes,
      a client reads what it wrote ([put_then_get]) and gets an answer for bytes that are no
      request ([bad_request_answered]); over one connection every response reaches the request
      it answers ([responses_match_requests], [drained_system_has_answered_all]).
    - Configuration and connections: validation decides the documented bounds
      ([validate_decides_bounds]) and what it accepts starts a node ([read_config_starts]),
      where every index of a node leads to the worker of that node when the nodes are listed
      in the order of their numbers ([main_wires_workers]);
      channels lead to the configured endpoints ([streams_reach_configured_endpoints]) and
      queues belong to open connections ([inbound_table_is_exact]).
    - Sizes: a reader of [capnp] gives up after [traversal_limit_in_words], 8 Mi words, and the
      code reads with the default options.  The laws of [Capnp.v] say that a message the
      reader accepts reads back as itself and that one of at most that many words is accepted,
      and promise nothing for a larger one, so that the [expect("re-parse should not fail")] of
      the builders is a panic of the model too.  Theorems about a message the
      code builds name the bound on its size ([batch_fits], [commands_fit], [travels], [rebuilds],
      [put_fits], [answer_fits]); messages without a text or payload are always small enough.
    - Helpers: concurrent claims of the task buffer are exact and return
      ([claimed_spots_exact], [claim_spot_returns]); percentiles are order statistics, pools are
      round robin and a load test counts every request ([percentiles_are_order_statistics],
      [pool_is_round_robin], [load_test_counts]), requests are spread evenly over the endpoints
      ([requests_are_spread]), exactly the requests write whose hash is below the ratio, rounding
      or not ([write_ratio_is_exact]), and what is counted as completed was answered by the server
      ([completed_requests_were_answered]); the metrics are registered once, and the counter of
      an endpoint exceeds its measured times by the requests in flight
      ([register_metrics_once], [requests_accounted]).
    - Departures: acknowledgements that arrive in a later leadership
      ([late_ack_commits_other_entry]), are those of a backfilled entry with the id of another one
      ([backfill_commits_other_entry]) or stand for an entry that is not stored
      ([stepping_down_acknowledges_unstored_entry]), batches combined or rebuilt past the limit
      of the reader ([prepare_batch_combines]), refused writes reported as done ([refused_write_reported_ok]), truncation
      without a term check ([stale_truncate_removes_committed]), repair that stops
      ([empty_backfill_blocks_repair]), lost follower votes, votes that ignore the last term, terms that go back,
      votes that are replaced, entries skipped by the broadcast or left behind by a failed
      append, the truncate-everything signal, torn writes, the size of the quorums, node ids the
      validation does not check ([large_node_id_panics]), nodes listed out of order
      ([unordered_nodes_misroute]), a mixed load test
      whose reads never hit ([mixed_reads_never_hit]), a guard that measures twice ([observe_and_drop_counts_twice]), cleanups that remove a newer connection
      ([late_cleanup_unregisters_connection], [old_connection_unregisters_new]), and a task buffer
      that always panics ([task_buffer_always_panics]).

    ** Not modelled

    Sockets and files as devices (a stream is its bytes, a file its content, system calls on
    files succeed), the pauses and the backoff of the loops, the spawning of threads and tasks,
    tracing, logging, where the handlers call the metrics, the sockets of the metrics server, and of
    the benchmark client the timeouts that drop a write half way.  The [config] crate,
    [csv], [capnp] and the bus are arguments with laws. *)
From Stdlib Require Strings.Byte.
From stdpp Require Export gmap list fin_maps numbers.

#[global] Open Scope Z_scope.

(** ** Machine integers

    A [u64] (or a 64-bit [usize]) is a [Z]; the arithmetic of the release profile wraps. *)

Definition u64 (z : Z) : Prop := 0 <= z < 2 ^ 64.

Definition u64_add (a b : Z) : Z := (a + b) `mod` 2 ^ 64.

Definition u64_sub (a b : Z) : Z := (a - b) `mod` 2 ^ 64.

Definition saturating_sub (a b : Z) : Z := Z.max 0 (a - b).

(** [checked_add(1)]: [None] on overflow. *)
Definition checked_add (a b : Z) : option Z :=
  if decide (a + b < 2 ^ 64) then Some (a + b) else None.

Declare Scope kraft_scope.
Delimit Scope kraft_scope with kraft.
Notation "a +! b" := (u64_add a b) (at level 50, left associativity) : kraft_scope.
#[global] Open Scope kraft_scope.

#[export] Instance u64_dec z : Decision (u64 z) := _.

(** A byte is the 256-element type of the core library. *)
Abbreviation byte := Init.Byte.byte.

#[export] Instance byte_eq_dec : EqDecision byte := Byte.byte_eq_dec.

#[export] Program Instance byte_countable : Countable byte :=
  inj_countable Byte.to_N Byte.of_N _.
Next Obligation. intros b. apply Byte.of_to_N. Qed.

(** ** Vectors indexed by machine integers

    [Vec::get(i as usize)], [Vec::len() as u64], [Vec::truncate]. *)

Definition vget {A} (l : list A) (i : Z) : option A :=
  if decide (0 <= i) then l !! Z.to_nat i else None.

Definition vlen {A} (l : list A) : Z := Z.of_nat (length l).

Definition vtruncate {A} (n : Z) (l : list A) : list A := take (Z.to_nat n) l.

(** [Vec::last]. *)
Definition vlast {A} (l : list A) : option A := list.last l.

(** ** Panics

    Code that can reach [unwrap], [expect] or an index out of bounds returns an
    [option]; [None] is the panic. *)

Notation "'let*' x ':=' c 'in' k" := (mbind (fun x => k) c)
  (at level 10, x pattern, c at level 100, k at level 200,
   format "'let*'  x  ':='  c  'in' '//' k") : kraft_scope.

(** ** Record updates *)

Class Setter {R T : Type} (proj : R -> T) := rset : (T -> T) -> R -> R.
Arguments rset {R T} proj {_} _ _ / : assert.

Notation "s '<|' f ':=' v '|>'" := (rset f (fun _ => v) s)
  (at level 1, left associativity, f at level 0, v at level 99,
   format "s  '<|'  f  ':='  v  '|>'") : kraft_scope.
Notation "s '<|' f '::=' g '|>'" := (rset f g s)
  (at level 1, left associativity, f at level 0, g at level 99,
   format "s  '<|'  f  '::='  g  '|>'") : kraft_scope.
Notation "s '<|' f ';' g ':=' v '|>'" := (rset f (rset g (fun _ => v)) s)
  (at level 1, left associativity, f at level 0, g at level 0, v at level 99,
   format "s  '<|'  f ';' g  ':='  v  '|>'") : kraft_scope.
Notation "s '<|' f ';' g '::=' h '|>'" := (rset f (rset g h) s)
  (at level 1, left associativity, f at level 0, g at level 0, h at level 99,
   format "s  '<|'  f ';' g  '::='  h  '|>'") : kraft_scope.

(** ** Proof automation *)

Create HintDb kraft.

Create Rewrite HintDb kraft_rw.

Ltac u64_unfold := unfold u64, u64_add, u64_sub, saturating_sub in *.

(** Case analysis on every [decide], [match] and [if] of the goal or a hypothesis. *)
Ltac case_all :=
  repeat first [ case_decide | case_match ]; simplify_eq/=; try done.

(** Removes the wrap-around of [+!] when [lia] sees that it does not happen. *)
Ltac u64_small := repeat rewrite Z.mod_small in * by lia.

Ltac u64_lia := u64_unfold; u64_small; lia.

Lemma u64_add_0_r a : u64 a -> a +! 0 = a.
Proof. unfold u64, u64_add. intros. rewrite Z.add_0_r. by rewrite Z.mod_small. Qed.

Lemma u64_add_small a b : 0 <= a + b < 2 ^ 64 -> a +! b = a + b.
Proof. intros. unfold u64_add. by rewrite Z.mod_small. Qed.

Lemma u64_add_range a b : u64 (a +! b).
Proof. unfold u64, u64_add. apply Z.mod_pos_bound. lia. Qed.

#[export] Hint Resolve u64_add_range : kraft.

Section vec.
Context {A : Type}.
Implicit Types l : list A.

Lemma vget_nat l (n : nat) : vget l (Z.of_nat n) = l !! n.
Proof. unfold vget. case_decide; [|lia]. by rewrite Nat2Z.id. Qed.

Lemma vget_Some l i x : vget l i = Some x <-> 0 <= i /\ l !! Z.to_nat i = Some x.
Proof. unfold vget. case_decide; naive_solver. Qed.

Lemma vget_lt l i x : vget l i = Some x -> 0 <= i < vlen l.
Proof.
  intros [? Hx%lookup_lt_Some]%vget_Some. unfold vlen. lia.
Qed.

Lemma vget_is_Some l i : 0 <= i < vlen l -> is_Some (vget l i).
Proof.
  unfold vget, vlen. intros. case_decide; [|lia]. apply lookup_lt_is_Some_2. lia.
Qed.

Lemma vget_None l i : 0 <= i -> vget l i = None <-> vlen l <= i.
Proof.
  intros. unfold vget, vlen. case_decide; [|lia]. rewrite lookup_ge_None. lia.
Qed.

Lemma vlen_nonneg l : 0 <= vlen l.
Proof. unfold vlen. lia. Qed.

Lemma vlen_app l1 l2 : vlen (l1 ++ l2) = vlen l1 + vlen l2.
Proof. unfold vlen. rewrite length_app. lia. Qed.

Lemma vtruncate_mono a b l : a <= b -> vtruncate a l `prefix_of` vtruncate b l.
Proof.
  intros. unfold vtruncate. exists (drop (Z.to_nat a) (take (Z.to_nat b) l)).
  rewrite <- (take_drop (Z.to_nat a) (take _ l)) at 1. by rewrite take_take, Nat.min_l by lia.
Qed.

Lemma vlen_truncate n l : 0 <= n -> vlen (vtruncate n l) = Z.min n (vlen l).
Proof. unfold vlen, vtruncate. rewrite length_take. lia. Qed.

Lemma vget_app_last l x : vget (l ++ [x]) (vlen l) = Some x.
Proof. unfold vlen. rewrite vget_nat. by rewrite list_lookup_middle. Qed.

Lemma vget_app_l l1 l2 i : i < vlen l1 -> vget (l1 ++ l2) i = vget l1 i.
Proof.
  unfold vget, vlen. intros. case_decide; [|done]. apply lookup_app_l. lia.
Qed.

Lemma vget_snoc_Some l x i y : vget (l ++ [x]) i = Some y -> vget l i = Some y \/ i = vlen l /\ y = x.
Proof.
  intros Hget. pose proof (vget_lt _ _ _ Hget) as Hi. rewrite vlen_app in Hi.
  destruct (decide (i < vlen l)) as [Hlt|Hge]; [left; by rewrite vget_app_l in Hget|right].
  assert (i = vlen l) as ->; [|by rewrite vget_app_last in Hget; simplify_eq].
  change (vlen [x]) with 1 in Hi. lia.
Qed.

Lemma vget_truncate n l i : i < n -> vget (vtruncate n l) i = vget l i.
Proof.
  unfold vget, vtruncate. intros. case_decide; [|done]. apply lookup_take_lt. lia.
Qed.
Lemma vtruncate_S l i x : vget l i = Some x -> vtruncate (i + 1) l = vtruncate i l ++ [x].
Proof.
  intros [? Hx]%vget_Some. unfold vtruncate.
  replace (Z.to_nat (i + 1)) with (S (Z.to_nat i)) by lia. by apply take_S_r.
Qed.

Lemma vtruncate_ge n l : vlen l <= n -> vtruncate n l = l.
Proof. unfold vlen, vtruncate. intros. apply take_ge. lia. Qed.

End vec.

Lemma filter_all {A} (P : A -> Prop) `{forall x, Decision (P x)} (l : list A) :
  (forall x, x ∈ l -> P x) -> filter P l = l.
Proof.
  induction l as [|x l IH]; intros Hall; [done|].
  rewrite filter_cons_True by (apply Hall; set_solver). rewrite IH; [done|]. set_solver.
Qed.

#[export] Hint Rewrite @vlen_app @vget_app_last : kraft_rw.
