(* ===== verification/Float64.v ===== *)
(** * Double precision

    The [f64] arithmetic of [tcp_client.rs]: conversion of integers, products and quotients
    with rounding to nearest, comparison, and the saturating conversion back.  What is proved
    about them is what the client relies on: integers below 2^53 and their products are
    exact, and a quotient is off by at most half a unit in its last place. *)
From Stdlib Require Import SpecFloat.
From S2P Require Import Prelude.

#[local] Open Scope Z_scope.

Definition f64_of_Z (z : Z) : spec_float := binary_normalize 53 1024 z 0 false.
Definition f64_mul : spec_float -> spec_float -> spec_float := SFmul 53 1024.
Definition f64_div : spec_float -> spec_float -> spec_float := SFdiv 53 1024.
Definition f64_add : spec_float -> spec_float -> spec_float := SFadd 53 1024.
Definition f64_lt : spec_float -> spec_float -> bool := SFltb.

(** [x as usize]: towards zero, saturating. *)
Definition f64_to_usize (x : spec_float) : Z :=
  match x with
  | S754_finite false m e => Z.min (Z.shiftl (Z.pos m) e) (2 ^ 64 - 1)
  | S754_infinity false => 2 ^ 64 - 1
  | _ => 0
  end.

(** ** Rounding *)

Ltac cases :=
  repeat match goal with
  | |- context [?a <=? ?b] => destruct (Z.leb_spec a b)
  | |- context [?a =? ?b] => destruct (Z.eqb_spec a b)
  end; simpl; done || lia.

Lemma digits2_spec p : 2 ^ (Z.pos (digits2_pos p) - 1) <= Z.pos p < 2 ^ Z.pos (digits2_pos p).
Proof.
  induction p as [p IH|p IH|]; simpl digits2_pos; [..|done].
  all: rewrite Pos2Z.inj_succ; set (d := Z.pos (digits2_pos p)) in *; replace (Z.succ d - 1) with (1 + (d - 1)) by lia.
  all: rewrite Z.pow_add_r, Z.pow_succ_r by lia; lia.
Qed.

Lemma digits2_unique m d : 0 < d -> 2 ^ (d - 1) <= m < 2 ^ d -> Zdigits2 m = d.
Proof.
  intros Hd [Hlo Hhi]. assert (0 < 2 ^ (d - 1)) by (apply Z.pow_pos_nonneg; lia).
  destruct m as [|p|p]; [lia| |lia]. simpl. destruct (digits2_spec p) as [Hl Hh].
  assert (d - 1 < Z.pos (digits2_pos p)) by (apply (Z.pow_lt_mono_r_iff 2); lia).
  assert (Z.pos (digits2_pos p) - 1 < d) by (apply (Z.pow_lt_mono_r_iff 2); lia). lia.
Qed.

(** The mantissa of the record is the whole part of [N / D]; the two bits tell the rest. *)
Definition tracks (r : shr_record) (N D : Z) : Prop :=
  0 < D /\ 0 <= N /\ shr_m r = N / D /\ shr_r r = (D <=? 2 * (N mod D)) /\
  shr_s r = negb ((N mod D =? 0) || (2 * (N mod D) =? D)).

Lemma tracks_shr_1 r N D : tracks r N D -> tracks (shr_1 r) N (2 * D).
Proof.
  intros (HD & HN & Hm & Hr & Hs). destruct r as [m r s]. simpl in *.
  pose proof (Z.mod_pos_bound N D HD) as Hrem. pose proof (Z.div_pos N D HN HD) as Hm0.
  pose proof (Z.div_mod N D ltac:(lia)) as HNd. rewrite <- Hm in *.
  assert (Hor : (r || s)%bool = negb (N mod D =? 0)).
  { rewrite Hr, Hs. cases. }
  set (rem := N mod D) in *.
  assert (Hstep : forall h b, m = 2 * h + b -> 0 <= b < 2 -> N / (2 * D) = h /\ N mod (2 * D) = rem + D * b).
  { intros h b Hh Hb. assert (HNh : N = (2 * D) * h + (rem + D * b)) by (rewrite HNd, Hh; ring).
    assert (0 <= rem + D * b < 2 * D) by nia.
    split; [symmetry; by apply (Z.div_unique_pos N (2 * D) h (rem + D * b))|symmetry; by apply (Z.mod_unique_pos N (2 * D) h (rem + D * b))]. }
  assert (Hbits : forall h b, m = 2 * h + b -> 0 <= b < 2 ->
    tracks {| shr_m := h; shr_r := b =? 1; shr_s := (r || s)%bool |} N (2 * D)).
  { intros h b Hh Hb. destruct (Hstep h b Hh Hb) as [Hq Hre]. rewrite Hor. split_and!; simpl; [lia|done|done|rewrite Hre..].
    - assert (b = 0 \/ b = 1) as [-> | ->] by lia; simpl; symmetry; [apply Z.leb_gt|apply Z.leb_le]; lia.
    - assert (b = 0 \/ b = 1) as [-> | ->] by lia; rewrite ?Z.mul_0_r, ?Z.mul_1_r;
        cases. }
  destruct m as [|[p|p|]|p]; simpl.
  - by apply (Hbits 0 0).
  - apply (Hbits (Z.pos p) 1); lia.
  - apply (Hbits (Z.pos p) 0); lia.
  - by apply (Hbits 0 1).
  - lia.
Qed.

Lemma tracks_iter p r N D : tracks r N D -> tracks (SpecFloat.iter_pos shr_1 p r) N (2 ^ Z.pos p * D).
Proof.
  revert r D. induction p as [p IH|p IH|]; intros r D Hr; simpl SpecFloat.iter_pos.
  - replace (2 ^ Z.pos p~1 * D) with (2 ^ Z.pos p * (2 ^ Z.pos p * (2 * D))).
    + by apply IH, IH, tracks_shr_1.
    + replace (Z.pos p~1) with (1 + Z.pos p + Z.pos p) by lia. rewrite !Z.pow_add_r by lia. ring.
  - replace (2 ^ Z.pos p~0 * D) with (2 ^ Z.pos p * (2 ^ Z.pos p * D)).
    + by apply IH, IH.
    + replace (Z.pos p~0) with (Z.pos p + Z.pos p) by lia. rewrite Z.pow_add_r by lia. ring.
  - by apply tracks_shr_1.
Qed.

(** What a quotient starts with. *)
Lemma tracks_location N D : 0 < D -> 0 <= N -> tracks (shr_record_of_loc (N / D) (new_location D (N mod D))) N D.
Proof.
  intros HD HN. pose proof (Z.mod_pos_bound N D HD) as Hk.
  assert (Hcases : forall c, (c = Lt -> 2 * (N mod D) < D) -> (c = Eq -> 2 * (N mod D) = D) -> (c = Gt -> D < 2 * (N mod D)) ->
    N mod D <> 0 -> tracks (shr_record_of_loc (N / D) (loc_Inexact c)) N D).
  { intros [] H1 H2 H3 Hne; [specialize (H2 eq_refl)|specialize (H1 eq_refl)|specialize (H3 eq_refl)];
      split_and!; simpl; try done; cases. }
  assert (Hexact : N mod D = 0 -> tracks (shr_record_of_loc (N / D) loc_Exact) N D).
  { intros Hz. split_and!; simpl; try done; cases. }
  unfold new_location, new_location_even, new_location_odd. destruct (Z.even D) eqn:He.
  - destruct (Z.eqb_spec (N mod D) 0); [by apply Hexact|].
    apply Hcases; [intros Hc..|done]; [by apply Z.compare_lt_iff|by apply Z.compare_eq_iff|by apply Z.compare_gt_iff].
  - assert (2 * (N mod D) <> D) by (intros Hd; by rewrite <- Hd, Z.even_mul in He).
    destruct (Z.eqb_spec (N mod D) 0); [by apply Hexact|].
    apply Hcases; destruct (Z.compare_spec (2 * (N mod D) + 1) D); intros ?; done || lia.
Qed.

(** Rounding to nearest is off by at most one half. *)
Lemma round_tracks r N D :
  tracks r N D -> let R := round_nearest_even (shr_m r) (loc_of_shr_record r) in
  2 * Z.abs (R * D - N) <= D /\ shr_m r <= R <= shr_m r + 1.
Proof.
  intros (HD & HN & Hm & Hr & Hs). destruct r as [m r s]. simpl in *. subst m r s.
  pose proof (Z.mod_pos_bound N D HD). pose proof (Z.div_mod N D ltac:(lia)) as HNd.
  set (q := N / D) in *. set (rem := N mod D) in *.
  destruct (Z.leb_spec D (2 * rem)), (Z.eqb_spec rem 0), (Z.eqb_spec (2 * rem) D); simpl; try lia;
    try (destruct (Z.even q); simpl); split; try lia; nia.
Qed.

Lemma shr_fexp_tracks mx ex loc n N D :
  tracks (shr_record_of_loc mx loc) N D -> 0 <= n -> 2 ^ (52 + n) <= mx < 2 ^ (53 + n) -> - 1074 <= ex + n ->
  exists r, shr_fexp 53 1024 mx ex loc = (r, ex + n) /\ tracks r N (2 ^ n * D).
Proof.
  intros Hr Hn Hmx Hex. unfold shr_fexp. rewrite (digits2_unique mx (53 + n)); [|lia|].
  2: { replace (53 + n - 1) with (52 + n) by lia. done. }
  unfold fexp, emin. replace (Z.max _ _ - ex) with n by lia.
  destruct n as [|p|p]; simpl shr; [exists (shr_record_of_loc mx loc); split; [by rewrite Z.add_0_r|by rewrite Z.mul_1_l]| |lia].
  eexists. split; [done|by apply tracks_iter].
Qed.

(** Rounding in the range of the normal numbers. *)
Lemma binary_round_spec mx ex loc n N D :
  tracks (shr_record_of_loc mx loc) N D -> 0 <= n -> 2 ^ (52 + n) <= mx < 2 ^ (53 + n) -> - 1074 <= ex + n -> ex + n < 971 ->
  exists M E, binary_round_aux 53 1024 false mx ex loc = S754_finite false M E /\ 2 ^ 52 <= Z.pos M < 2 ^ 53 /\
    ex + n <= E <= ex + n + 1 /\ 2 * Z.abs (Z.pos M * 2 ^ (E - ex) * D - N) <= 2 ^ n * D.
Proof.
  intros Hr Hn Hmx Hex Hmax. destruct (shr_fexp_tracks mx ex loc n N D Hr Hn Hmx Hex) as (r & Hs & Ht).
  unfold binary_round_aux. rewrite Hs. destruct (round_tracks _ _ _ Ht) as [Herr Hle].
  set (R := round_nearest_even _ _) in *. destruct Ht as (HD' & HN & Hm & _).
  destruct Hr as (HD & _ & Hmx' & _). assert (Hmeq : mx = N / D) by (destruct loc as [|[]]; exact Hmx').
  assert (Hp : 0 < 2 ^ n) by (apply Z.pow_pos_nonneg; lia).
  assert (Hm2 : 2 ^ 52 <= shr_m r < 2 ^ 53).
  { rewrite Hm, Z.mul_comm, <- Z.div_div, <- Hmeq by lia. rewrite !Z.pow_add_r in Hmx by lia. split.
    - apply Z.div_le_lower_bound; lia.
    - apply Z.div_lt_upper_bound; lia. }
  assert (Hcase : R < 2 ^ 53 \/ R = 2 ^ 53) by lia. destruct Hcase as [Hlt|Heq].
  - unfold shr_fexp at 1. rewrite (digits2_unique R 53); [|lia|change (53 - 1) with 52; lia].
    unfold fexp, emin. replace (Z.max _ _ - (ex + n)) with 0 by lia. simpl shr. cbn [shr_m shr_record_of_loc].
    destruct R as [|M|]; [lia| |lia]. rewrite (proj2 (Z.leb_le _ _)) by lia. exists M, (ex + n).
    split_and!; [done|lia|lia|lia|lia|]. replace (ex + n - ex) with n by lia. lia.
  - rewrite Heq. unfold shr_fexp at 1. rewrite (digits2_unique (2 ^ 53) 54) by (lia || done).
    unfold fexp, emin. replace (Z.max _ _ - (ex + n)) with 1 by lia.
    change (shr (shr_record_of_loc (2 ^ 53) loc_Exact) (ex + n) 1) with
      ({| shr_m := 2 ^ 52; shr_r := false; shr_s := false |}, ex + n + 1). cbn [shr_m]. change (2 ^ 52) with (Z.pos (2 ^ 52)) at 1.
    cbv iota. rewrite (proj2 (Z.leb_le _ _)) by lia. exists (2 ^ 52)%positive, (ex + n + 1).
    split_and!; [done|done|done|lia|lia|]. replace (ex + n + 1 - ex) with (1 + n) by lia. rewrite Z.pow_add_r by lia.
    change (Z.pos (2 ^ 52)) with (2 ^ 52). rewrite Heq in Herr. lia.
Qed.

(** ** Integers *)

(** [x] is the integer [a], normalised. *)
Definition exact (a : Z) (x : spec_float) : Prop :=
  exists k m, x = S754_finite false m (- k) /\ 0 <= k <= 52 /\ Z.pos m = a * 2 ^ k /\ 2 ^ 52 <= Z.pos m < 2 ^ 53.

(** Normalising by one power of two: there is only one. *)
Lemma scale_unique a k k' : 0 <= k -> 0 <= k' -> 2 ^ 52 <= a * 2 ^ k < 2 ^ 53 -> 2 ^ 52 <= a * 2 ^ k' < 2 ^ 53 -> k = k'.
Proof.
  intros Hk Hk' Ha Ha'. assert (Hgen : forall i j, 0 <= i < j -> 2 ^ 52 <= a * 2 ^ i -> a * 2 ^ j < 2 ^ 53 -> False).
  { intros i j Hij Hi Hj. replace j with (i + 1 + (j - i - 1)) in Hj by lia. rewrite !Z.pow_add_r in Hj by lia.
    assert (0 < 2 ^ (j - i - 1)) by (apply Z.pow_pos_nonneg; lia). nia. }
  destruct (Z.lt_trichotomy k k') as [Hlt|[Heq|Hlt]]; [|done|]; exfalso.
  - apply (Hgen k k'); [lia|apply Ha|apply Ha'].
  - apply (Hgen k' k); [lia|apply Ha'|apply Ha].
Qed.

Lemma exact_unique a x y : exact a x -> exact a y -> x = y.
Proof.
  intros (k & m & -> & Hk & Hm & Hr) (k' & m' & -> & Hk' & Hm' & Hr'). rewrite Hm in Hr. rewrite Hm' in Hr'.
  assert (k = k') as <- by (eapply (scale_unique a); lia). f_equal. apply Pos2Z.inj. lia.
Qed.

Lemma pos_iter_xO m d : Z.pos (Pos.iter xO m d) = Z.pos m * 2 ^ Z.pos d.
Proof.
  induction d as [|d IH] using Pos.peano_ind; [simpl; lia|].
  rewrite Pos.iter_succ, Pos2Z.inj_succ, Z.pow_succ_r by lia. rewrite Pos2Z.inj_xO, IH. ring.
Qed.

(** Rounding an integer of 53 bits does nothing. *)
Lemma round_exact m e : 2 ^ 52 <= Z.pos m < 2 ^ 53 -> - 1074 <= e < 971 -> binary_round_aux 53 1024 false (Z.pos m) e loc_Exact = S754_finite false m e.
Proof.
  intros Hm He. destruct (binary_round_spec (Z.pos m) e loc_Exact 0 (Z.pos m) 1) as (M & E & -> & HM & HE & Herr); [|lia..|].
  { split_and!; simpl; try lia; rewrite ?Z.mod_1_r, ?Z.div_1_r; done. }
  rewrite !Z.mul_1_r in Herr. assert (E = e \/ E = e + 1) as [-> | ->] by lia.
  - rewrite Z.sub_diag in Herr. f_equal. lia.
  - replace (e + 1 - e) with 1 in Herr by lia. exfalso. lia.
Qed.

Lemma f64_of_Z_exact a : 0 < a < 2 ^ 53 -> exact a (f64_of_Z a).
Proof.
  intros Ha. destruct a as [|p|p]; [lia| |lia]. unfold f64_of_Z, binary_normalize, binary_round.
  destruct (digits2_spec p) as [Hlo Hhi]. set (d := Z.pos (digits2_pos p)) in *.
  assert (Hd : d <= 53).
  { assert (d - 1 < 53); [|lia]. apply (Z.pow_lt_mono_r_iff 2); lia. }
  assert (1 <= d) by lia. unfold fexp, emin. replace (Z.max _ _) with (- (53 - d)) by lia.
  assert (Hscale : 2 ^ 52 <= Z.pos p * 2 ^ (53 - d) < 2 ^ 53).
  { replace (2 ^ 52) with (2 ^ (d - 1) * 2 ^ (53 - d)) by (rewrite <- Z.pow_add_r by lia; f_equal; lia).
    replace (2 ^ 53) with (2 ^ d * 2 ^ (53 - d)) by (rewrite <- Z.pow_add_r by lia; f_equal; lia).
    assert (0 < 2 ^ (53 - d)) by (apply Z.pow_pos_nonneg; lia). nia. }
  unfold shl_align. destruct (- (53 - d) - 0) as [|q|q] eqn:Hq; [|lia|].
  - assert (53 - d = 0) as Hz by lia. rewrite Hz, Z.mul_1_r in Hscale. rewrite round_exact by lia. exists 0, p. split_and!; done || lia.
  - assert (Hpq : 53 - d = Z.pos q) by lia. rewrite Hpq in *. rewrite <- pos_iter_xO in Hscale.
    rewrite round_exact by lia. exists (Z.pos q), (Pos.iter xO p q). split_and!; [done|lia|lia|apply pos_iter_xO|lia|lia].
Qed.

(** A product below 2^53 is exact. *)
Lemma f64_mul_exact a b : 0 < a -> 0 < b -> a * b < 2 ^ 53 -> f64_mul (f64_of_Z a) (f64_of_Z b) = f64_of_Z (a * b).
Proof.
  intros Ha Hb Hab. destruct (f64_of_Z_exact a) as (ka & ma & -> & Hka & Hma & Hra); [nia|].
  destruct (f64_of_Z_exact b) as (kb & mb & -> & Hkb & Hmb & Hrb); [nia|].
  destruct (f64_of_Z_exact (a * b)) as (k & m & Hx & Hk & Hm & Hr); [nia|]. rewrite Hx. clear Hx. unfold f64_mul, SFmul. cbn [xorb].
  set (N := Z.pos (ma * mb)). assert (HN : N = a * b * 2 ^ (ka + kb)).
  { unfold N. rewrite Pos2Z.inj_mul, Hma, Hmb, Z.pow_add_r by lia. ring. }
  set (n := ka + kb - k). assert (Hn : 0 <= n).
  { unfold n. assert (~ ka + kb < k); [|lia]. intros Hlt. assert (HNlo : 2 ^ 52 * 2 ^ 52 <= N) by (unfold N; rewrite Pos2Z.inj_mul; nia).
    assert (2 ^ (ka + kb) <= 2 ^ k) by (apply Z.pow_le_mono_r; lia). nia. }
  assert (HNn : N = Z.pos m * 2 ^ n).
  { rewrite HN, Hm. replace (ka + kb) with (k + n) by (unfold n; lia). rewrite Z.pow_add_r by lia. ring. }
  assert (0 < 2 ^ n) by (apply Z.pow_pos_nonneg; lia).
  destruct (binary_round_spec N (- ka + - kb) loc_Exact n N 1) as (M & E & -> & HM & HE & Herr); try lia.
  { split_and!; simpl; try lia; rewrite ?Z.mod_1_r, ?Z.div_1_r; done. }
  { rewrite !Z.pow_add_r by lia. nia. }
  rewrite !Z.mul_1_r in Herr. assert (E - (- ka + - kb) = n \/ E - (- ka + - kb) = n + 1) as [HEn|HEn] by lia; rewrite HEn in Herr.
  - f_equal; [|lia]. apply Pos2Z.inj. rewrite HNn, <- Z.mul_sub_distr_r, Z.abs_mul in Herr. nia.
  - exfalso. rewrite Z.pow_add_r in Herr by lia. rewrite HNn in Herr. nia.
Qed.

(** ** Quotients *)

(** [x] is the quotient of [a] by [b], off by at most half a unit in the last place. *)
Definition quotient (a b : Z) (x : spec_float) : Prop :=
  exists K m, x = S754_finite false m (- K) /\ 0 <= K /\ 2 ^ 52 <= Z.pos m < 2 ^ 53 /\
    2 * Z.abs (Z.pos m * b - a * 2 ^ K) <= b.

Lemma f64_div_quotient a b : 0 < a < 2 ^ 52 -> 0 < b < 2 ^ 53 -> quotient a b (f64_div (f64_of_Z a) (f64_of_Z b)).
Proof.
  intros Ha Hb. destruct (f64_of_Z_exact a) as (ka & ma & -> & Hka & Hma & Hra); [lia|].
  destruct (f64_of_Z_exact b) as (kb & mb & -> & Hkb & Hmb & Hrb); [lia|].
  unfold f64_div, SFdiv, SFdiv_core_binary. rewrite !(digits2_unique _ 53) by (lia || (change (53 - 1) with 52; lia)).
  unfold fexp, emin. set (ex := kb - ka - 53). replace (Z.min _ _) with ex by (unfold ex; lia).
  replace (- ka - - kb - ex) with 53 by (unfold ex; lia). cbv iota. rewrite Z.shiftl_mul_pow2 by lia.
  set (N := Z.pos ma * 2 ^ 53). set (D := Z.pos mb). destruct (Z.div_eucl N D) as [q r] eqn:Hdiv.
  assert (q = N / D /\ r = N mod D) as [-> ->] by (unfold Z.div, Z.modulo; by rewrite Hdiv). cbn [xorb].
  pose proof (tracks_location N D ltac:(done) ltac:(done)) as Ht.
  assert (Hq : 2 ^ 52 <= N / D < 2 ^ 54).
  { unfold N, D in *. split; [apply Z.div_le_lower_bound; lia|apply Z.div_lt_upper_bound; lia]. }
  assert (exists n, 0 <= n <= 1 /\ 2 ^ (52 + n) <= N / D < 2 ^ (53 + n)) as (n & Hn & Hqn).
  { destruct (Z.lt_ge_cases (N / D) (2 ^ 53)); [exists 0|exists 1]; simpl Z.add; lia. }
  destruct (binary_round_spec (N / D) ex (new_location D (N mod D)) n N D Ht) as (M & E & -> & HM & HE & Herr); try (unfold ex; lia).
  exists (- E), M. rewrite Z.opp_involutive. assert (1 <= ka).
  { assert (ka <> 0); [|lia]. intros ->. lia. }
  split_and!; [done|unfold ex in *; lia|lia|lia|].
  set (t := E - ex) in *. set (c := 2 ^ (kb + t)). assert (0 < c) by (apply Z.pow_pos_nonneg; unfold t; lia).
  assert (Hc : c = 2 ^ kb * 2 ^ t) by (unfold c; rewrite Z.pow_add_r; unfold t; lia).
  assert (HN : N = c * (a * 2 ^ (- E))).
  { unfold N, c. rewrite Hma. replace (a * 2 ^ ka * 2 ^ 53) with (a * (2 ^ ka * 2 ^ 53)) by ring.
    rewrite <- Z.pow_add_r by lia. replace (ka + 53) with (kb + t + - E) by (unfold t, ex; lia).
    rewrite (Z.pow_add_r 2 (kb + t)) by (unfold t, ex in *; lia). ring. }
  assert (HD : Z.pos M * 2 ^ t * D = c * (Z.pos M * b)) by (unfold D; rewrite Hmb, Hc; ring).
  rewrite HD, HN, <- Z.mul_sub_distr_l, Z.abs_mul, (Z.abs_eq c) in Herr by lia.
  assert (Hle : 2 ^ n * D <= c * b).
  { unfold D. rewrite Hmb, Hc. assert (2 ^ n <= 2 ^ t) by (apply Z.pow_le_mono_r; unfold t; lia).
    assert (0 < 2 ^ kb) by (apply Z.pow_pos_nonneg; lia). nia. }
  apply (Z.mul_le_mono_pos_l _ _ c); [done|]. lia.
Qed.

(** Truncating a quotient gives the integer quotient, as long as the unit in its last place is
    small enough. *)
Lemma f64_quotient_trunc a b : 0 <= a < 2 ^ 46 -> 0 < b <= 100 -> f64_to_usize (f64_div (f64_of_Z a) (f64_of_Z b)) = a / b.
Proof.
  intros Ha Hb. destruct (Z.eq_dec a 0) as [->|Hne].
  { destruct (f64_of_Z_exact b) as (k & m & -> & _); [lia|done]. }
  destruct (f64_div_quotient a b) as (K & m & -> & HK & Hm & Herr); [lia..|]. simpl f64_to_usize.
  set (k := a / b). pose proof (Z.div_mod a b ltac:(lia)) as Hdm. pose proof (Z.mod_pos_bound a b ltac:(lia)). fold k in Hdm.
  set (P := 2 ^ K) in *. assert (HP : 0 < P) by (apply Z.pow_pos_nonneg; lia).
  assert (HPb : 64 * b < 128 * P).
  { assert (7 <= K); [|assert (2 ^ 7 <= P) by (apply Z.pow_le_mono_r; lia); lia].
    assert (~ K < 7); [|lia]. intros HK7. assert (P <= 2 ^ 6) by (apply Z.pow_le_mono_r; lia). nia. }
  assert (Hfloor : k * P <= Z.pos m < (k + 1) * P) by nia.
  rewrite Z.shiftl_div_pow2, Z.opp_involutive by lia. fold P.
  assert (Z.pos m / P = k) as -> by (symmetry; apply (Z.div_unique_pos _ _ _ (Z.pos m - k * P)); lia).
  assert (k <= a) by (apply Z.div_le_upper_bound; nia). lia.
Qed.

(** Quotients by the same number compare as what was divided. *)
Lemma quotient_lt a a' b x y :
  0 < a < a' -> a' < 2 ^ 50 -> 0 < b -> quotient a b x -> quotient a' b y -> f64_lt x y = true /\ f64_lt y x = false.
Proof.
  intros Ha Ha' Hb (K & m & -> & HK & Hm & He) (K' & m' & -> & HK' & Hm' & He').
  assert (Hbig : forall c k n, 0 < c < 2 ^ 50 -> 0 <= k -> 2 ^ 52 <= n -> 2 * Z.abs (n * b - c * 2 ^ k) <= b -> 2 * b < 2 ^ k).
  { intros c k n Hc Hk Hn Herr. assert (~ 2 ^ k <= 2 * b); [intros Hle|lia].
    assert (2 ^ 52 * b <= n * b) by (apply Z.mul_le_mono_nonneg_r; lia).
    assert (c * 2 ^ k <= 2 ^ 50 * (2 * b)) by (apply Z.mul_le_mono_nonneg; [lia..| |done]; by apply Z.pow_nonneg). lia. }
  pose proof (Hbig a K (Z.pos m) ltac:(lia) HK ltac:(lia) He) as HKb. clear Hbig.
  set (P := 2 ^ K) in *. assert (HaP : a * P + P <= a' * P) by nia.
  unfold f64_lt, SFltb, SFcompare. destruct (Z.lt_trichotomy K K') as [Hlt|[<-|Hlt]].
  - exfalso. assert (HQ : 2 * (a' * P) <= a' * 2 ^ K').
    { replace K' with (K + 1 + (K' - K - 1)) by lia. rewrite !Z.pow_add_r by lia. fold P.
      assert (0 < 2 ^ (K' - K - 1)) by (apply Z.pow_pos_nonneg; lia). nia. }
    assert (2 ^ 52 * b <= Z.pos m * b) by (apply Z.mul_le_mono_nonneg_r; lia).
    assert (Z.pos m' * b <= (2 ^ 53 - 1) * b) by (apply Z.mul_le_mono_nonneg_r; lia). lia.
  - rewrite !Z.compare_refl. fold P in He'. assert (Hmm : Z.pos m < Z.pos m') by (apply (Z.mul_lt_mono_pos_r b); lia).
    change (Pos.compare_cont Eq m m') with (m ?= m')%positive. change (Pos.compare_cont Eq m' m) with (m' ?= m)%positive.
    rewrite (proj2 (Pos.compare_lt_iff m m')), (proj2 (Pos.compare_gt_iff m' m)) by lia. done.
  - rewrite (proj2 (Z.compare_lt_iff (- K) (- K'))), (proj2 (Z.compare_gt_iff (- K') (- K))) by lia. done.
Qed.

Lemma f64_quotient_lt a a' b :
  0 <= a < 2 ^ 50 -> 0 <= a' < 2 ^ 50 -> 0 < b < 2 ^ 53 ->
  f64_lt (f64_div (f64_of_Z a) (f64_of_Z b)) (f64_div (f64_of_Z a') (f64_of_Z b)) = (a <? a').
Proof.
  intros Ha Ha' Hb. destruct (f64_of_Z_exact b) as (kb & mb & Hx & _ & _ & Hrb); [lia|].
  destruct (Z.eq_dec a 0) as [->|Hne], (Z.eq_dec a' 0) as [->|Hne'].
  - by rewrite Hx.
  - destruct (f64_div_quotient a' b) as (K & m & -> & _); [lia..|]. rewrite Hx. simpl. symmetry. apply Z.ltb_lt. lia.
  - destruct (f64_div_quotient a b) as (K & m & -> & _); [lia..|]. rewrite Hx. simpl. symmetry. apply Z.ltb_ge. lia.
  - pose proof (f64_div_quotient a b ltac:(lia) Hb) as Hq. pose proof (f64_div_quotient a' b ltac:(lia) Hb) as Hq'.
    destruct (Z.ltb_spec a a') as [Hlt|Hge].
    + by destruct (quotient_lt a a' b _ _ ltac:(lia) ltac:(lia) ltac:(lia) Hq Hq').
    + destruct (Z.eq_dec a a') as [->|].
      * destruct Hq as (K & m & -> & _). unfold f64_lt, SFltb, SFcompare. rewrite Z.compare_refl.
        change (Pos.compare_cont Eq m m) with (m ?= m)%positive. by rewrite Pos.compare_refl.
      * by destruct (quotient_lt a' a b _ _ ltac:(lia) ltac:(lia) ltac:(lia) Hq' Hq).
Qed.
