(* ===== verification/Capnp.v ===== *)
(** * Cap'n Proto messages

    The structs of [src/transport/capnp/raft.capnp] and the owned wrappers of
    [src/transport/capnp/internal_message.rs].  The [capnp] crate and the code generated
    from the schema are not under src/: they are the parameter [Capnp], with the documented
    behaviour the program relies on in [CapnpLaws].  A struct is what its reader shows: a
    pointer field whose getter can fail is an [option]. *)
From S2P Require Import Prelude.

(** ** Schema *)

Abbreviation Text := (list byte).
Abbreviation Data := (list byte).

Inductive RemoteResponseType := Unspecified | ROk | Invalid.

Record InternalPutRequest := mkInternalPutRequest {
  put_id : option Text;
  put_payload : option Data;
  put_node_id : Z
}.

Record InternalWriteBatch := mkInternalWriteBatch {
  wb_batch_id : option Text;
  wb_requests : option (list InternalPutRequest)
}.

Record InternalLogEntry := mkInternalLogEntry {
  le_index : Z;
  le_term : Z;
  le_prev_log_index : Z;
  le_prev_log_term : Z;
  le_message_id : Z;
  le_timestamp : Z;
  le_commands : option (list InternalPutRequest);
  le_data : option Data
}.

Record InternalPutResponse := mkInternalPutResponse {
  pr_id : option Text;
  pr_response_type : option RemoteResponseType;
  pr_message : option Text;
  pr_node_id : Z;
  pr_batch_id : option Text
}.

Record InternalWriteBatchResponse := mkInternalWriteBatchResponse {
  wr_responses : option (list InternalPutResponse);
  wr_batch_id : option Text
}.

Record RemoteLogEntry := mkRemoteLogEntry {
  re_index : Z;
  re_data : option Data;
  re_batch_index : Z;
  re_term : Z;
  re_prev_log_term : Z;
  re_prev_log_index : Z;
  re_message_id : Z
}.

(** [ae_entry]: [None] when [has_entry()] is false, [Some None] when [get_entry()] fails. *)
Record RemoteAppendEntriesRequest := mkRemoteAppendEntriesRequest {
  ae_term : Z;
  ae_leader_id : Z;
  ae_prev_log_index : Z;
  ae_prev_log_term : Z;
  ae_request_id : Z;
  ae_entry : option (option RemoteLogEntry);
  ae_commit_index : Z
}.

Record RemoteAppendEntriesAcknowledge := mkRemoteAppendEntriesAcknowledge {
  ack_last_log_term : Z;
  ack_last_log_index : Z;
  ack_request_id : Z;
  ack_ok : bool
}.

Record RemoteVoteRequest := mkRemoteVoteRequest {
  vr_term : Z;
  vr_candidate_id : Z;
  vr_last_log_index : Z;
  vr_last_log_term : Z;
  vr_request_id : Z
}.

Record RemoteVoteResponse := mkRemoteVoteResponse {
  vs_vote_granted : bool;
  vs_request_id : Z;
  vs_term : Z
}.

Record RemotePutRequest := mkRemotePutRequest {
  rp_id : option Text;
  rp_payload : option Text;
  rp_node_id : Z
}.

Record RemotePutBatchRequest := mkRemotePutBatchRequest {
  rb_put_requests : option (list RemotePutRequest);
  rb_batch_id : option Text
}.

Record RemotePutBatchResponse := mkRemotePutBatchResponse {
  rr_responses : option (list InternalPutResponse);
  rr_batch_id : option Text
}.

Record RemoteTruncateLogRequest := mkRemoteTruncateLogRequest {
  tr_prev_term : Z;
  tr_prev_index : Z;
  tr_term : Z;
  tr_leader_id : Z;
  tr_request_id : Z
}.

Record RemoteTruncateLogResponse := mkRemoteTruncateLogResponse {
  ts_request_id : Z;
  ts_ok : bool
}.

(** The union [messagePayload] of [RemoteQuorumMessage]. *)
Inductive RemoteQuorumMessage :=
| ConnectRequest (node_id : Z)
| ConnectResponse (ok : bool)
| VoteRequest (r : RemoteVoteRequest)
| VoteResponse (r : RemoteVoteResponse)
| AppendEntriesRequest (r : RemoteAppendEntriesRequest)
| AppendEntriesAcknowledge (r : RemoteAppendEntriesAcknowledge)
| PutBatchRequest (r : RemotePutBatchRequest)
| PutBatchResponse (r : RemotePutBatchResponse)
| TruncateLogRequest (r : RemoteTruncateLogRequest)
| TruncateLogResponse (r : RemoteTruncateLogResponse).

(** ** The Cap'n Proto runtime

    [read_message_from_flat_slice] returns a reader and the bytes after the message;
    a root getter is [reader.get_root::<T>()]; a writer is [serialize::write_message] of the
    finished builder. *)

Class Capnp := {
  Reader : Type;
  read_message_from_flat_slice : list byte -> option (Reader * list byte);
  log_entry_root : Reader -> option InternalLogEntry;
  write_batch_root : Reader -> option InternalWriteBatch;
  write_batch_response_root : Reader -> option InternalWriteBatchResponse;
  quorum_message_root : Reader -> option RemoteQuorumMessage;
  write_log_entry : InternalLogEntry -> list byte;
  write_write_batch : InternalWriteBatch -> list byte;
  write_write_batch_response : InternalWriteBatchResponse -> list byte;
  write_quorum_message : RemoteQuorumMessage -> list byte
}.

(** Messages a builder can produce: integers fit their fields and every pointer is set
    (or reads as its default). *)
Definition u32 (z : Z) : Prop := 0 <= z < 2 ^ 32.

Definition put_request_built (r : InternalPutRequest) : Prop :=
  is_Some (put_id r) /\ is_Some (put_payload r) /\ u32 (put_node_id r).

Definition log_entry_ranges (e : InternalLogEntry) : Prop :=
  u64 (le_index e) /\ u64 (le_term e) /\ u64 (le_prev_log_index e) /\
  u64 (le_prev_log_term e) /\ u64 (le_message_id e) /\ u64 (le_timestamp e).

Definition log_entry_made (e : InternalLogEntry) : Prop :=
  log_entry_ranges e /\
  (exists cs, le_commands e = Some cs /\ Forall put_request_built cs) /\
  is_Some (le_data e).

Definition write_batch_ranges (b : InternalWriteBatch) : Prop :=
  forall rs, wb_requests b = Some rs -> Forall (fun r => u32 (put_node_id r)) rs.

Definition write_batch_made (b : InternalWriteBatch) : Prop :=
  is_Some (wb_batch_id b) /\
  exists rs, wb_requests b = Some rs /\ Forall put_request_built rs.

Definition put_response_built (r : InternalPutResponse) : Prop :=
  is_Some (pr_id r) /\ is_Some (pr_response_type r) /\ is_Some (pr_message r) /\
  u32 (pr_node_id r) /\ is_Some (pr_batch_id r).

Definition write_batch_response_made (r : InternalWriteBatchResponse) : Prop :=
  is_Some (wr_batch_id r) /\
  exists rs, wr_responses r = Some rs /\ Forall put_response_built rs.

Definition write_batch_response_ranges (b : InternalWriteBatchResponse) : Prop :=
  forall rs, wr_responses b = Some rs -> Forall (fun r => u32 (pr_node_id r)) rs.

Definition remote_entry_ranges (e : RemoteLogEntry) : Prop :=
  u64 (re_index e) /\ u64 (re_batch_index e) /\ u64 (re_term e) /\
  u64 (re_prev_log_term e) /\ u64 (re_prev_log_index e) /\ u64 (re_message_id e).

Definition quorum_message_ranges (m : RemoteQuorumMessage) : Prop :=
  match m with
  | ConnectRequest n => u32 n
  | ConnectResponse _ => True
  | VoteRequest r =>
    u64 (vr_term r) /\ u32 (vr_candidate_id r) /\ u64 (vr_last_log_index r) /\
    u64 (vr_last_log_term r) /\ u64 (vr_request_id r)
  | VoteResponse r => u64 (vs_request_id r) /\ u64 (vs_term r)
  | AppendEntriesRequest r =>
    u64 (ae_term r) /\ u32 (ae_leader_id r) /\ u64 (ae_prev_log_index r) /\
    u64 (ae_prev_log_term r) /\ u64 (ae_request_id r) /\ u64 (ae_commit_index r) /\
    match ae_entry r with Some (Some e) => remote_entry_ranges e | _ => True end
  | AppendEntriesAcknowledge r =>
    u64 (ack_last_log_term r) /\ u64 (ack_last_log_index r) /\ u64 (ack_request_id r)
  | PutBatchRequest r => Forall (fun p => u32 (rp_node_id p)) (default [] (rb_put_requests r))
  | PutBatchResponse r => Forall (fun p => u32 (pr_node_id p)) (default [] (rr_responses r))
  | TruncateLogRequest r =>
    u64 (tr_prev_term r) /\ u64 (tr_prev_index r) /\ u64 (tr_term r) /\
    u32 (tr_leader_id r) /\ u64 (tr_request_id r)
  | TruncateLogResponse r => u64 (ts_request_id r)
  end.

Definition remote_put_pointers (r : RemotePutRequest) : Prop :=
  is_Some (rp_id r) /\ is_Some (rp_payload r).

Definition put_response_pointers (r : InternalPutResponse) : Prop :=
  is_Some (pr_id r) /\ is_Some (pr_response_type r) /\ is_Some (pr_message r) /\
  is_Some (pr_batch_id r).

Definition quorum_message_pointers (m : RemoteQuorumMessage) : Prop :=
  match m with
  | AppendEntriesRequest r =>
    match ae_entry r with
    | Some (Some e) => is_Some (re_data e)
    | Some None => False
    | None => True
    end
  | PutBatchRequest r =>
    is_Some (rb_batch_id r) /\
    exists rs, rb_put_requests r = Some rs /\ Forall remote_put_pointers rs
  | PutBatchResponse r =>
    is_Some (rr_batch_id r) /\
    exists rs, rr_responses r = Some rs /\ Forall put_response_pointers rs
  | _ => True
  end.

Definition quorum_message_made (m : RemoteQuorumMessage) : Prop :=
  quorum_message_ranges m /\ quorum_message_pointers m.

(** *** Sizes

    [ReaderOptions::default()] lets a reader traverse 8 Mi words of eight bytes; a message
    with more words is refused when it is read.  The closures the program passes to
    [with_message] take each part of a message once, so a message that is not refused can be
    read in full.  The functions below bound the words of a message from above: the root
    pointer, the structs of the schema, the tags of lists, the texts and blobs rounded up,
    and two words for every pointer that leads to another segment. *)

Definition traversal_limit_in_words : Z := 8 * 1024 * 1024.

(** A text has a final zero byte. *)
Definition blob_words (b : option (list byte)) : Z := vlen (default [] b) / 8 + 1.

Definition sum_words {A} (f : A -> Z) (l : list A) : Z := foldr (fun x n => f x + n) 0 l.

Definition put_request_words (r : InternalPutRequest) : Z :=
  7 + blob_words (put_id r) + blob_words (put_payload r).

Definition log_entry_words (e : InternalLogEntry) : Z :=
  16 + sum_words put_request_words (default [] (le_commands e)) + blob_words (le_data e).

Definition write_batch_words (b : InternalWriteBatch) : Z :=
  16 + blob_words (wb_batch_id b) + sum_words put_request_words (default [] (wb_requests b)).

Definition put_response_words (r : InternalPutResponse) : Z :=
  10 + blob_words (pr_id r) + blob_words (pr_message r) + blob_words (pr_batch_id r).

Definition write_batch_response_words (b : InternalWriteBatchResponse) : Z :=
  16 + blob_words (wr_batch_id b) + sum_words put_response_words (default [] (wr_responses b)).

Definition remote_put_words (r : RemotePutRequest) : Z :=
  7 + blob_words (rp_id r) + blob_words (rp_payload r).

Definition quorum_message_words (m : RemoteQuorumMessage) : Z :=
  32 + match m with
       | AppendEntriesRequest r =>
         match ae_entry r with Some (Some e) => blob_words (re_data e) | _ => 0 end
       | PutBatchRequest r =>
         blob_words (rb_batch_id r) + sum_words remote_put_words (default [] (rb_put_requests r))
       | PutBatchResponse r =>
         blob_words (rr_batch_id r) + sum_words put_response_words (default [] (rr_responses r))
       | _ => 0
       end.

(** *** What a builder has written and a reader accepts *)

Section built.
Context {CP : Capnp}.

(** The reader does not refuse the bytes. *)
Definition within_limits (bs : list byte) : Prop := is_Some (read_message_from_flat_slice bs).

Definition log_entry_built (e : InternalLogEntry) : Prop :=
  log_entry_made e /\ within_limits (write_log_entry e).

Definition write_batch_built (b : InternalWriteBatch) : Prop :=
  write_batch_made b /\ within_limits (write_write_batch b).

Definition write_batch_response_built (b : InternalWriteBatchResponse) : Prop :=
  write_batch_response_made b /\ within_limits (write_write_batch_response b).

Definition quorum_message_built (m : RemoteQuorumMessage) : Prop :=
  quorum_message_made m /\ within_limits (write_quorum_message m).

End built.

(** What the program relies on: a written message that is not refused reads back, one of at
    most [traversal_limit_in_words] words is not refused, the bytes after a message do not
    matter and are left over, a reader always takes a non-empty front of
    its slice, no message is empty, a proper prefix of a
    message does not read, and an integer getter returns a value of its schema type. *)
Class CapnpLaws `{Capnp} : Prop := {
  log_entry_reads_back e r rest : log_entry_made e ->
    read_message_from_flat_slice (write_log_entry e) = Some (r, rest) ->
    rest = [] /\ log_entry_root r = Some e;
  write_batch_reads_back b r rest : write_batch_made b ->
    read_message_from_flat_slice (write_write_batch b) = Some (r, rest) ->
    rest = [] /\ write_batch_root r = Some b;
  batch_response_reads_back b r rest : write_batch_response_made b ->
    read_message_from_flat_slice (write_write_batch_response b) = Some (r, rest) ->
    rest = [] /\ write_batch_response_root r = Some b;
  quorum_message_reads_back m r rest : quorum_message_made m ->
    read_message_from_flat_slice (write_quorum_message m) = Some (r, rest) ->
    rest = [] /\ quorum_message_root r = Some m;
  small_log_entry e : log_entry_made e -> log_entry_words e <= traversal_limit_in_words ->
    within_limits (write_log_entry e);
  small_write_batch b : write_batch_made b -> write_batch_words b <= traversal_limit_in_words ->
    within_limits (write_write_batch b);
  small_batch_response b : write_batch_response_made b ->
    write_batch_response_words b <= traversal_limit_in_words -> within_limits (write_write_batch_response b);
  small_quorum_message m : quorum_message_made m -> quorum_message_words m <= traversal_limit_in_words ->
    within_limits (write_quorum_message m);
  read_message_app bs r rest more : read_message_from_flat_slice bs = Some (r, rest) ->
    read_message_from_flat_slice (bs ++ more) = Some (r, rest ++ more);
  read_message_front bs r rest : read_message_from_flat_slice bs = Some (r, rest) ->
    exists m, m <> [] /\ bs = m ++ rest;
  write_log_entry_nonempty e : write_log_entry e <> [];
  read_log_entry_prefix e p s : write_log_entry e = p ++ s -> s <> [] ->
    read_message_from_flat_slice p = None;
  log_entry_root_ranges r e : log_entry_root r = Some e -> log_entry_ranges e;
  write_batch_root_ranges r b : write_batch_root r = Some b -> write_batch_ranges b;
  write_batch_response_root_ranges r b : write_batch_response_root r = Some b ->
    write_batch_response_ranges b;
  quorum_message_root_ranges r m : quorum_message_root r = Some m -> quorum_message_ranges m
}.

(** A built message reads back in front of any bytes. *)
Section reads_back.
Context `{CapnpLaws}.

Lemma read_back {M} (write : M -> list byte) (root : Reader -> option M) (made : M -> Prop) m rest :
  (forall m r rest, made m -> read_message_from_flat_slice (write m) = Some (r, rest) -> rest = [] /\ root r = Some m) ->
  made m -> within_limits (write m) ->
  exists r, read_message_from_flat_slice (write m ++ rest) = Some (r, rest) /\ root r = Some m.
Proof.
  intros Hlaw Hm [[r left] Hr]. destruct (Hlaw _ _ _ Hm Hr) as [-> Hroot]. exists r.
  split; [by apply (read_message_app _ _ _ rest) in Hr|done].
Qed.

Lemma read_write_log_entry e rest : log_entry_built e ->
  exists r, read_message_from_flat_slice (write_log_entry e ++ rest) = Some (r, rest) /\ log_entry_root r = Some e.
Proof. intros [He Hw]. eapply read_back; [apply log_entry_reads_back|done..]. Qed.

Lemma read_write_write_batch b rest : write_batch_built b ->
  exists r, read_message_from_flat_slice (write_write_batch b ++ rest) = Some (r, rest) /\ write_batch_root r = Some b.
Proof. intros [Hb Hw]. eapply read_back; [apply write_batch_reads_back|done..]. Qed.

Lemma read_write_batch_response b rest : write_batch_response_built b ->
  exists r, read_message_from_flat_slice (write_write_batch_response b ++ rest) = Some (r, rest) /\
            write_batch_response_root r = Some b.
Proof. intros [Hb Hw]. eapply read_back; [apply batch_response_reads_back|done..]. Qed.

Lemma read_write_quorum_message m rest : quorum_message_built m ->
  exists r, read_message_from_flat_slice (write_quorum_message m ++ rest) = Some (r, rest) /\ quorum_message_root r = Some m.
Proof. intros [Hm Hw]. eapply read_back; [apply quorum_message_reads_back|done..]. Qed.

Lemma log_entry_small_built e : log_entry_made e -> log_entry_words e <= traversal_limit_in_words -> log_entry_built e.
Proof. intros He Hw. split; [done|]. by apply small_log_entry. Qed.

Lemma write_batch_small_built b :
  write_batch_made b -> write_batch_words b <= traversal_limit_in_words -> write_batch_built b.
Proof. intros Hb Hw. split; [done|]. by apply small_write_batch. Qed.

Lemma write_batch_response_small_built b :
  write_batch_response_made b -> write_batch_response_words b <= traversal_limit_in_words -> write_batch_response_built b.
Proof. intros Hb Hw. split; [done|]. by apply small_batch_response. Qed.

Lemma quorum_message_small_built m :
  quorum_message_made m -> quorum_message_words m <= traversal_limit_in_words -> quorum_message_built m.
Proof. intros Hm Hw. split; [done|]. by apply small_quorum_message. Qed.

(** What [from_bytes] lets pass was not refused. *)
Lemma log_entry_read_built e r rest :
  log_entry_made e -> read_message_from_flat_slice (write_log_entry e) = Some (r, rest) -> log_entry_built e.
Proof. intros He Hr. split; [done|]. by eexists. Qed.

End reads_back.

(** ** UTF-8

    [str::from_utf8] of the standard library: the well-formed byte sequences of RFC 3629. *)

Definition byte_between (lo hi : Z) (b : byte) : bool :=
  let n := Z.of_N (Byte.to_N b) in (lo <=? n) && (n <=? hi).

Definition utf8_tail : byte -> bool := byte_between 128 191.

(** The second byte of a sequence of three and of four bytes. *)
Definition utf8_second3 (b0 b1 : byte) : bool :=
  if byte_between 224 224 b0 then byte_between 160 191 b1
  else if byte_between 237 237 b0 then byte_between 128 159 b1
  else utf8_tail b1.

Definition utf8_second4 (b0 b1 : byte) : bool :=
  if byte_between 240 240 b0 then byte_between 144 191 b1
  else if byte_between 244 244 b0 then byte_between 128 143 b1
  else utf8_tail b1.

Fixpoint utf8_valid (bs : list byte) : bool :=
  match bs with
  | [] => true
  | b0 :: rest =>
    if byte_between 0 127 b0 then utf8_valid rest
    else if byte_between 194 223 b0 then
      match rest with b1 :: rest1 => utf8_tail b1 && utf8_valid rest1 | [] => false end
    else if byte_between 224 239 b0 then
      match rest with
      | b1 :: b2 :: rest2 => utf8_second3 b0 b1 && utf8_tail b2 && utf8_valid rest2
      | _ => false
      end
    else if byte_between 240 244 b0 then
      match rest with
      | b1 :: b2 :: b3 :: rest3 =>
        utf8_second4 b0 b1 && utf8_tail b2 && utf8_tail b3 && utf8_valid rest3
      | _ => false
      end
    else false
  end.

(** U+FFFD, the replacement character. *)
Definition replacement : list byte := [Init.Byte.xef; Init.Byte.xbf; Init.Byte.xbd].

(** [String::from_utf8_lossy]: every maximal front of an ill-formed sequence is replaced. *)
Fixpoint from_utf8_lossy (bs : list byte) : list byte :=
  match bs with
  | [] => []
  | b0 :: rest =>
    if byte_between 0 127 b0 then b0 :: from_utf8_lossy rest
    else if byte_between 194 223 b0 then
      match rest with
      | b1 :: rest1 =>
        if utf8_tail b1 then b0 :: b1 :: from_utf8_lossy rest1
        else replacement ++ from_utf8_lossy rest
      | [] => replacement
      end
    else if byte_between 224 239 b0 then
      match rest with
      | b1 :: rest1 =>
        if utf8_second3 b0 b1 then
          match rest1 with
          | b2 :: rest2 =>
            if utf8_tail b2 then b0 :: b1 :: b2 :: from_utf8_lossy rest2
            else replacement ++ from_utf8_lossy rest1
          | [] => replacement
          end
        else replacement ++ from_utf8_lossy rest
      | [] => replacement
      end
    else if byte_between 240 244 b0 then
      match rest with
      | b1 :: rest1 =>
        if utf8_second4 b0 b1 then
          match rest1 with
          | b2 :: rest2 =>
            if utf8_tail b2 then
              match rest2 with
              | b3 :: rest3 =>
                if utf8_tail b3 then b0 :: b1 :: b2 :: b3 :: from_utf8_lossy rest3
                else replacement ++ from_utf8_lossy rest2
              | [] => replacement
              end
            else replacement ++ from_utf8_lossy rest1
          | [] => replacement
          end
        else replacement ++ from_utf8_lossy rest
      | [] => replacement
      end
    else replacement ++ from_utf8_lossy rest
  end.

Lemma from_utf8_lossy_valid_id bs : utf8_valid bs = true -> from_utf8_lossy bs = bs.
Proof.
  remember (length bs) as n eqn:Hn. assert (Hle : (length bs <= n)%nat) by lia. clear Hn.
  revert bs Hle. induction n as [|n IH]; intros [|b0 rest] Hle; simpl in Hle; try done; try lia.
  simpl. intros Hv. destruct (byte_between 0 127 b0); [by rewrite IH by (done || lia)|].
  destruct (byte_between 194 223 b0).
  { destruct rest as [|b1 rest1]; [done|]. simpl in Hle. apply andb_true_iff in Hv as [-> Hv].
    by rewrite IH by (done || lia). }
  destruct (byte_between 224 239 b0).
  { destruct rest as [|b1 [|b2 rest2]]; try done. simpl in Hle.
    rewrite !andb_true_iff in Hv. destruct Hv as [[-> ->] Hv]. by rewrite IH by (done || lia). }
  destruct (byte_between 240 244 b0); [|done].
  destruct rest as [|b1 [|b2 [|b3 rest3]]]; try done. simpl in Hle.
  rewrite !andb_true_iff in Hv. destruct Hv as [[[-> ->] ->] Hv]. by rewrite IH by (done || lia).
Qed.

Lemma utf8_valid_replacement bs : utf8_valid (replacement ++ bs) = utf8_valid bs.
Proof. done. Qed.

(** What the lossy conversion produces is well formed. *)
Lemma from_utf8_lossy_utf8 bs : utf8_valid (from_utf8_lossy bs) = true.
Proof.
  remember (length bs) as n eqn:Hn. assert (Hle : (length bs <= n)%nat) by lia. clear Hn.
  revert bs Hle. induction n as [|n IH]; intros [|b0 rest] Hle; simpl in Hle; try done; try lia.
  cbn [from_utf8_lossy].
  repeat lazymatch goal with
  | |- context [if ?b then _ else _] => destruct b eqn:?
  | |- context [match ?l with [] => _ | _ => _ end] => is_var l; destruct l
  end; rewrite ?utf8_valid_replacement; simpl in Hle; try (apply IH; simpl; lia); try done;
  simpl; repeat match goal with H : _ = true |- _ => rewrite H | H : _ = false |- _ => rewrite H end;
  simpl; apply IH; lia.
Qed.

(** [text.to_str()] / [text.to_string()]. *)
Definition to_str (t : Text) : option Text := if utf8_valid t then Some t else None.

(** ** Owned messages *)

Section owned.
Context {CP : Capnp}.

(** [OwnedLogEntry { bytes: Arc<[u8]> }]; clones share the bytes, so a clone is the value. *)
Record OwnedLogEntry := mkOwnedLogEntry { as_bytes : list byte }.

Record OwnedWriteBatch := mkOwnedWriteBatch { batch_bytes : list byte }.

Record OwnedWriteBatchResponse := mkOwnedWriteBatchResponse { response_bytes : list byte }.

(** [OwnedLogEntry::from_bytes]: validates the framing only, not the root. *)
Definition from_bytes (bytes : list byte) : option OwnedLogEntry :=
  match read_message_from_flat_slice bytes with
  | Some _ => Some (mkOwnedLogEntry bytes)
  | None => None
  end.

(** [OwnedLogEntry::with_message]. *)
Definition with_message {R} (e : OwnedLogEntry) (f : InternalLogEntry -> R) : option R :=
  match read_message_from_flat_slice (as_bytes e) with
  | Some (reader, _) =>
    match log_entry_root reader with
    | Some msg => Some (f msg)
    | None => None
    end
  | None => None
  end.

Definition index (e : OwnedLogEntry) : Z := default 0 (with_message e le_index).
Definition term (e : OwnedLogEntry) : Z := default 0 (with_message e le_term).
Definition prev_log_index (e : OwnedLogEntry) : Z := default 0 (with_message e le_prev_log_index).
Definition prev_log_term (e : OwnedLogEntry) : Z := default 0 (with_message e le_prev_log_term).
Definition message_id (e : OwnedLogEntry) : Z := default 0 (with_message e le_message_id).
Definition timestamp (e : OwnedLogEntry) : Z := default 0 (with_message e le_timestamp).

(** [OwnedLogEntry::command_count]. *)
Definition command_count (e : OwnedLogEntry) : Z :=
  default 0 (with_message e (fun r => default 0 (vlen <$> le_commands r))).

(** [OwnedLogEntry::data]. *)
Definition data (e : OwnedLogEntry) : list byte :=
  default [] (with_message e (fun r => default [] (le_data r))).

(** The arguments [for_each_command] passes to its closure for one command. *)
Definition command_args (c : InternalPutRequest) : Text * Data * Z :=
  (default [] (mbind to_str (put_id c)), default [] (put_payload c), put_node_id c).

(** [OwnedLogEntry::for_each_command] with a closure that updates a captured state. *)
Definition for_each_command {S} (e : OwnedLogEntry) (f : Text -> Data -> Z -> S -> S) (s : S) : S :=
  default s (with_message e (fun r =>
    match le_commands r with
    | Some commands =>
      fold_left (fun s c => let '(i, p, n) := command_args c in f i p n s) commands s
    | None => s
    end)).

(** [build_owned_log_entry]: [None] is the panic of [expect("re-parse should not fail")]. *)
Definition build_owned_log_entry (msg : InternalLogEntry) : option OwnedLogEntry :=
  from_bytes (write_log_entry msg).

(** [OwnedWriteBatch::from_bytes]. *)
Definition batch_from_bytes (bytes : list byte) : option OwnedWriteBatch :=
  match read_message_from_flat_slice bytes with
  | Some _ => Some (mkOwnedWriteBatch bytes)
  | None => None
  end.

(** [OwnedWriteBatch::with_message]. *)
Definition batch_with_message {R} (b : OwnedWriteBatch) (f : InternalWriteBatch -> R) : option R :=
  match read_message_from_flat_slice (batch_bytes b) with
  | Some (reader, _) =>
    match write_batch_root reader with
    | Some msg => Some (f msg)
    | None => None
    end
  | None => None
  end.

(** [OwnedWriteBatch::request_count]. *)
Definition request_count (b : OwnedWriteBatch) : option Z :=
  mjoin (batch_with_message b (fun r => vlen <$> wb_requests r)).

(** [OwnedWriteBatch::len]. *)
Definition batch_len (b : OwnedWriteBatch) : Z := default 0 (request_count b).

(** [OwnedWriteBatch::is_empty]. *)
Definition is_empty (b : OwnedWriteBatch) : bool :=
  default true (batch_with_message b (fun r =>
    default true ((fun reqs => bool_decide (reqs = [])) <$> wb_requests r))).

(** The [u64] sum of payload lengths in [OwnedWriteBatch::size] and [WriteBatch::size]. *)
Definition payload_sum (reqs : list InternalPutRequest) : Z :=
  fold_left (fun acc r => acc +! default 0 (vlen <$> put_payload r)) reqs 0.

(** [OwnedWriteBatch::size]. *)
Definition batch_size (b : OwnedWriteBatch) : Z :=
  default 0 (batch_with_message b (fun r => default 0 (payload_sum <$> wb_requests r))).

(** [OwnedWriteBatch::batch_id]; a text that is not UTF-8 gives the empty string. *)
Definition batch_id (b : OwnedWriteBatch) : option Text :=
  mjoin (batch_with_message b (fun r => (fun t => default [] (to_str t)) <$> wb_batch_id r)).

(** [build_owned_write_batch]. *)
Definition build_owned_write_batch (msg : InternalWriteBatch) : option OwnedWriteBatch :=
  batch_from_bytes (write_write_batch msg).

(** [OwnedWriteBatchResponse::from_bytes]. *)
Definition response_from_bytes (bytes : list byte) : option OwnedWriteBatchResponse :=
  match read_message_from_flat_slice bytes with
  | Some _ => Some (mkOwnedWriteBatchResponse bytes)
  | None => None
  end.

(** [OwnedWriteBatchResponse::with_message]. *)
Definition response_with_message {R} (b : OwnedWriteBatchResponse)
    (f : InternalWriteBatchResponse -> R) : option R :=
  match read_message_from_flat_slice (response_bytes b) with
  | Some (reader, _) =>
    match write_batch_response_root reader with
    | Some msg => Some (f msg)
    | None => None
    end
  | None => None
  end.

(** [build_owned_write_batch_response]. *)
Definition build_owned_write_batch_response (msg : InternalWriteBatchResponse)
    : option OwnedWriteBatchResponse :=
  response_from_bytes (write_write_batch_response msg).

(** [build_owned_write_batch_response(|_| {})]: every field at its default. *)
Definition empty_response : InternalWriteBatchResponse :=
  mkInternalWriteBatchResponse (Some []) (Some []).

End owned.

(** ** Facts about built messages *)

Section facts.
Context `{CapnpLaws}.

Lemma from_bytes_written e :
  log_entry_built e -> from_bytes (write_log_entry e) = Some (mkOwnedLogEntry (write_log_entry e)).
Proof.
  intros He. destruct (read_write_log_entry e [] He) as (r & Hr & _).
  rewrite app_nil_r in Hr. unfold from_bytes. by rewrite Hr.
Qed.

Lemma from_bytes_nil : from_bytes [] = None.
Proof.
  unfold from_bytes. destruct (read_message_from_flat_slice []) as [[r rest]|] eqn:Hr; [|done].
  apply read_message_front in Hr as (m & Hne & Heq). by destruct m.
Qed.

Lemma build_owned_log_entry_ok e :
  log_entry_built e -> build_owned_log_entry e = Some (mkOwnedLogEntry (write_log_entry e)).
Proof. apply from_bytes_written. Qed.

Lemma build_owned_log_entry_made m e :
  log_entry_made m -> build_owned_log_entry m = Some e -> log_entry_built m /\ e = mkOwnedLogEntry (write_log_entry m).
Proof.
  intros Hm. unfold build_owned_log_entry, from_bytes. destruct (read_message_from_flat_slice _) as [[r rest]|] eqn:Hr; [|done].
  intros [= <-]. split; [by eapply log_entry_read_built|done].
Qed.

Lemma with_message_written {R} e (f : InternalLogEntry -> R) :
  log_entry_built e -> with_message (mkOwnedLogEntry (write_log_entry e)) f = Some (f e).
Proof.
  intros He. destruct (read_write_log_entry e [] He) as (r & Hr & Hroot).
  rewrite app_nil_r in Hr. unfold with_message. simpl. by rewrite Hr, Hroot.
Qed.

Lemma term_u64 e : u64 (term e).
Proof.
  unfold term, with_message. destruct (read_message_from_flat_slice _) as [[r rest]|]; simpl; [|done].
  destruct (log_entry_root r) eqn:He; simpl; [|done]. by apply log_entry_root_ranges in He as (_ & ? & _).
Qed.

Lemma index_u64 e : u64 (index e).
Proof.
  unfold index, with_message. destruct (read_message_from_flat_slice _) as [[r rest]|]; simpl; [|done].
  destruct (log_entry_root r) eqn:He; simpl; [|done]. by apply log_entry_root_ranges in He as (? & _).
Qed.

Lemma batch_with_message_written {R} b (f : InternalWriteBatch -> R) :
  write_batch_built b -> batch_with_message (mkOwnedWriteBatch (write_write_batch b)) f = Some (f b).
Proof.
  intros He. destruct (read_write_write_batch b [] He) as (r & Hr & Hroot).
  rewrite app_nil_r in Hr. unfold batch_with_message. simpl. by rewrite Hr, Hroot.
Qed.

Lemma build_owned_write_batch_ok b :
  write_batch_built b ->
  build_owned_write_batch b = Some (mkOwnedWriteBatch (write_write_batch b)).
Proof.
  intros He. destruct (read_write_write_batch b [] He) as (r & Hr & _).
  rewrite app_nil_r in Hr. unfold build_owned_write_batch, batch_from_bytes. by rewrite Hr.
Qed.

Lemma empty_response_built : write_batch_response_built empty_response.
Proof. apply write_batch_response_small_built; [|done]. split; [done|]. by exists []. Qed.

Lemma build_empty_response_ok :
  build_owned_write_batch_response empty_response =
  Some (mkOwnedWriteBatchResponse (write_write_batch_response empty_response)).
Proof.
  destruct (read_write_batch_response _ [] empty_response_built) as (r & Hr & _).
  rewrite app_nil_r in Hr.
  unfold build_owned_write_batch_response, response_from_bytes. by rewrite Hr.
Qed.

End facts.
