(* ===== verification/CapnpInstance.v ===== *)
(** * A codec that satisfies the Cap'n Proto laws

    A message is the countable code of its value, one marked byte per bit and an end mark,
    so it delimits itself.  It stands in for the [capnp] crate where a concrete run is
    wanted; it is not the crate's wire format. *)
From S2P Require Import Prelude Capnp.


#[export] Instance RemoteResponseType_eq_dec : EqDecision RemoteResponseType.
Proof. solve_decision. Defined.
#[export] Instance InternalPutRequest_eq_dec : EqDecision InternalPutRequest.
Proof. solve_decision. Defined.
#[export] Instance InternalWriteBatch_eq_dec : EqDecision InternalWriteBatch.
Proof. solve_decision. Defined.
#[export] Instance InternalLogEntry_eq_dec : EqDecision InternalLogEntry.
Proof. solve_decision. Defined.
#[export] Instance InternalPutResponse_eq_dec : EqDecision InternalPutResponse.
Proof. solve_decision. Defined.
#[export] Instance InternalWriteBatchResponse_eq_dec : EqDecision InternalWriteBatchResponse.
Proof. solve_decision. Defined.

#[export] Instance RemoteLogEntry_eq_dec : EqDecision RemoteLogEntry.
Proof. solve_decision. Defined.
#[export] Instance RemoteAppendEntriesRequest_eq_dec : EqDecision RemoteAppendEntriesRequest.
Proof. solve_decision. Defined.
#[export] Instance RemoteAppendEntriesAcknowledge_eq_dec : EqDecision RemoteAppendEntriesAcknowledge.
Proof. solve_decision. Defined.
#[export] Instance RemoteVoteRequest_eq_dec : EqDecision RemoteVoteRequest.
Proof. solve_decision. Defined.
#[export] Instance RemoteVoteResponse_eq_dec : EqDecision RemoteVoteResponse.
Proof. solve_decision. Defined.
#[export] Instance RemotePutRequest_eq_dec : EqDecision RemotePutRequest.
Proof. solve_decision. Defined.
#[export] Instance RemotePutBatchRequest_eq_dec : EqDecision RemotePutBatchRequest.
Proof. solve_decision. Defined.
#[export] Instance RemotePutBatchResponse_eq_dec : EqDecision RemotePutBatchResponse.
Proof. solve_decision. Defined.
#[export] Instance RemoteTruncateLogRequest_eq_dec : EqDecision RemoteTruncateLogRequest.
Proof. solve_decision. Defined.
#[export] Instance RemoteTruncateLogResponse_eq_dec : EqDecision RemoteTruncateLogResponse.
Proof. solve_decision. Defined.
#[export] Instance RemoteQuorumMessage_eq_dec : EqDecision RemoteQuorumMessage.
Proof. solve_decision. Defined.

#[export] Instance RemoteResponseType_countable : Countable RemoteResponseType.
Proof.
  refine (inj_countable'
    (fun t => match t with Unspecified => None | ROk => Some false | Invalid => Some true end)
    (fun n => match n with None => Unspecified | Some false => ROk | Some true => Invalid end) _).
  by intros [].
Defined.

#[export] Program Instance InternalPutRequest_countable : Countable InternalPutRequest :=
  inj_countable' (fun r => (put_id r, put_payload r, put_node_id r))
    (fun '(a, b, c) => mkInternalPutRequest a b c) _.
Next Obligation. by intros []. Qed.

#[export] Program Instance InternalWriteBatch_countable : Countable InternalWriteBatch :=
  inj_countable' (fun r => (wb_batch_id r, wb_requests r))
    (fun '(a, b) => mkInternalWriteBatch a b) _.
Next Obligation. by intros []. Qed.

#[export] Program Instance InternalLogEntry_countable : Countable InternalLogEntry :=
  inj_countable' (fun e => (le_index e, le_term e, le_prev_log_index e, le_prev_log_term e,
                            le_message_id e, le_timestamp e, le_commands e, le_data e))
    (fun '(a, b, c, d, e, f, g, h) => mkInternalLogEntry a b c d e f g h) _.
Next Obligation. by intros []. Qed.

#[export] Program Instance InternalPutResponse_countable : Countable InternalPutResponse :=
  inj_countable' (fun r => (pr_id r, pr_response_type r, pr_message r, pr_node_id r, pr_batch_id r))
    (fun '(a, b, c, d, e) => mkInternalPutResponse a b c d e) _.
Next Obligation. by intros []. Qed.

#[export] Program Instance InternalWriteBatchResponse_countable : Countable InternalWriteBatchResponse :=
  inj_countable' (fun r => (wr_responses r, wr_batch_id r))
    (fun '(a, b) => mkInternalWriteBatchResponse a b) _.
Next Obligation. by intros []. Qed.

#[export] Program Instance RemoteLogEntry_countable : Countable RemoteLogEntry :=
  inj_countable' (fun e => (re_index e, re_data e, re_batch_index e, re_term e,
                            re_prev_log_term e, re_prev_log_index e, re_message_id e))
    (fun '(a, b, c, d, e, f, g) => mkRemoteLogEntry a b c d e f g) _.
Next Obligation. by intros []. Qed.

#[export] Program Instance RemoteAppendEntriesRequest_countable : Countable RemoteAppendEntriesRequest :=
  inj_countable' (fun e => (ae_term e, ae_leader_id e, ae_prev_log_index e, ae_prev_log_term e,
                            ae_request_id e, ae_entry e, ae_commit_index e))
    (fun '(a, b, c, d, e, f, g) => mkRemoteAppendEntriesRequest a b c d e f g) _.
Next Obligation. by intros []. Qed.

#[export] Program Instance RemoteAppendEntriesAcknowledge_countable : Countable RemoteAppendEntriesAcknowledge :=
  inj_countable' (fun e => (ack_last_log_term e, ack_last_log_index e, ack_request_id e, ack_ok e))
    (fun '(a, b, c, d) => mkRemoteAppendEntriesAcknowledge a b c d) _.
Next Obligation. by intros []. Qed.

#[export] Program Instance RemoteVoteRequest_countable : Countable RemoteVoteRequest :=
  inj_countable' (fun e => (vr_term e, vr_candidate_id e, vr_last_log_index e, vr_last_log_term e,
                            vr_request_id e))
    (fun '(a, b, c, d, e) => mkRemoteVoteRequest a b c d e) _.
Next Obligation. by intros []. Qed.

#[export] Program Instance RemoteVoteResponse_countable : Countable RemoteVoteResponse :=
  inj_countable' (fun e => (vs_vote_granted e, vs_request_id e, vs_term e))
    (fun '(a, b, c) => mkRemoteVoteResponse a b c) _.
Next Obligation. by intros []. Qed.

#[export] Program Instance RemotePutRequest_countable : Countable RemotePutRequest :=
  inj_countable' (fun e => (rp_id e, rp_payload e, rp_node_id e))
    (fun '(a, b, c) => mkRemotePutRequest a b c) _.
Next Obligation. by intros []. Qed.

#[export] Program Instance RemotePutBatchRequest_countable : Countable RemotePutBatchRequest :=
  inj_countable' (fun e => (rb_put_requests e, rb_batch_id e))
    (fun '(a, b) => mkRemotePutBatchRequest a b) _.
Next Obligation. by intros []. Qed.

#[export] Program Instance RemotePutBatchResponse_countable : Countable RemotePutBatchResponse :=
  inj_countable' (fun e => (rr_responses e, rr_batch_id e))
    (fun '(a, b) => mkRemotePutBatchResponse a b) _.
Next Obligation. by intros []. Qed.

#[export] Program Instance RemoteTruncateLogRequest_countable : Countable RemoteTruncateLogRequest :=
  inj_countable' (fun e => (tr_prev_term e, tr_prev_index e, tr_term e, tr_leader_id e, tr_request_id e))
    (fun '(a, b, c, d, e) => mkRemoteTruncateLogRequest a b c d e) _.
Next Obligation. by intros []. Qed.

#[export] Program Instance RemoteTruncateLogResponse_countable : Countable RemoteTruncateLogResponse :=
  inj_countable' (fun e => (ts_request_id e, ts_ok e))
    (fun '(a, b) => mkRemoteTruncateLogResponse a b) _.
Next Obligation. by intros []. Qed.

#[export] Program Instance RemoteQuorumMessage_countable : Countable RemoteQuorumMessage :=
  inj_countable' (fun m => match m with
    | ConnectRequest n => inl (inl (inl n))
    | ConnectResponse ok => inl (inl (inr ok))
    | VoteRequest r => inl (inr (inl r))
    | VoteResponse r => inl (inr (inr (inl r)))
    | AppendEntriesRequest r => inl (inr (inr (inr r)))
    | AppendEntriesAcknowledge r => inr (inl (inl r))
    | PutBatchRequest r => inr (inl (inr r))
    | PutBatchResponse r => inr (inr (inl r))
    | TruncateLogRequest r => inr (inr (inr (inl r)))
    | TruncateLogResponse r => inr (inr (inr (inr r)))
    end)
    (fun c => match c with
    | inl (inl (inl n)) => ConnectRequest n
    | inl (inl (inr ok)) => ConnectResponse ok
    | inl (inr (inl r)) => VoteRequest r
    | inl (inr (inr (inl r))) => VoteResponse r
    | inl (inr (inr (inr r))) => AppendEntriesRequest r
    | inr (inl (inl r)) => AppendEntriesAcknowledge r
    | inr (inl (inr r)) => PutBatchRequest r
    | inr (inr (inl r)) => PutBatchResponse r
    | inr (inr (inr (inl r))) => TruncateLogRequest r
    | inr (inr (inr (inr r))) => TruncateLogResponse r
    end) _.
Next Obligation. by intros []. Qed.

(** ** Framing *)

Fixpoint frame (p : positive) : list byte :=
  match p with
  | xH => [Init.Byte.x00]
  | xO p => Init.Byte.x01 :: frame p
  | xI p => Init.Byte.x02 :: frame p
  end.

Fixpoint unframe (bs : list byte) : option (positive * list byte) :=
  match bs with
  | Init.Byte.x00 :: rest => Some (xH, rest)
  | Init.Byte.x01 :: rest => prod_map xO id <$> unframe rest
  | Init.Byte.x02 :: rest => prod_map xI id <$> unframe rest
  | _ => None
  end.

Lemma unframe_frame p rest : unframe (frame p ++ rest) = Some (p, rest).
Proof. induction p as [p IH|p IH|]; simpl; [by rewrite IH..|done]. Qed.

Lemma frame_nonempty p : frame p <> [].
Proof. by destruct p. Qed.

Lemma unframe_prefix p bs rest : frame p = bs ++ rest -> rest <> [] -> unframe bs = None.
Proof.
  revert bs. induction p as [p IH|p IH|]; intros [|b bs]; simpl; intros Heq Hne; simplify_eq; try done.
  - by rewrite (IH bs).
  - by rewrite (IH bs).
  - destruct bs; naive_solver.
Qed.

Lemma unframe_front bs p rest : unframe bs = Some (p, rest) -> exists m, m <> [] /\ bs = m ++ rest.
Proof.
  revert p. induction bs as [|b bs IH]; intros p Hu; [done|].
  destruct b; simpl in Hu; try done; [simplify_eq; by exists [Init.Byte.x00]|..];
    apply fmap_Some in Hu as ([p' rest'] & Hu & Heq); simplify_eq/=;
    destruct (IH _ Hu) as (m & _ & ->); by eexists (_ :: m).
Qed.

(** A code outside the schema's integer ranges is not a message. *)
#[export] Instance log_entry_ranges_dec e : Decision (log_entry_ranges e).
Proof. unfold log_entry_ranges, u64. apply _. Defined.

Definition batch_in_range (b : InternalWriteBatch) : bool :=
  match wb_requests b with
  | Some rs => forallb (fun r => (0 <=? put_node_id r) && (put_node_id r <? 2 ^ 32)) rs
  | None => true
  end.

#[export] Instance u32_dec z : Decision (u32 z).
Proof. unfold u32. apply _. Defined.

#[export] Instance remote_entry_ranges_dec e : Decision (remote_entry_ranges e).
Proof. unfold remote_entry_ranges, u64. apply _. Defined.

#[export] Instance quorum_message_ranges_dec m : Decision (quorum_message_ranges m).
Proof.
  destruct m as [| | | |r| | | | |]; simpl; unfold u64; try apply _.
  assert (Decision match ae_entry r with Some (Some e) => remote_entry_ranges e | _ => True end)
    by (destruct (ae_entry r) as [[e|]|]; apply _). apply _.
Defined.

Definition responses_in_range (b : InternalWriteBatchResponse) : bool :=
  match wr_responses b with
  | Some rs => forallb (fun r => (0 <=? pr_node_id r) && (pr_node_id r <? 2 ^ 32)) rs
  | None => true
  end.

#[export] Instance bit_capnp : Capnp := {|
  Reader := positive;
  read_message_from_flat_slice := unframe;
  log_entry_root := fun p =>
    match decode p with
    | Some e => if decide (log_entry_ranges e) then Some e else None
    | None => None
    end;
  write_batch_root := fun p =>
    match decode p with
    | Some b => if batch_in_range b then Some b else None
    | None => None
    end;
  write_batch_response_root := fun p =>
    match decode p with
    | Some b => if responses_in_range b then Some b else None
    | None => None
    end;
  quorum_message_root := fun p =>
    match decode p with
    | Some m => if decide (quorum_message_ranges m) then Some m else None
    | None => None
    end;
  write_log_entry := fun e => frame (encode e);
  write_write_batch := fun b => frame (encode b);
  write_write_batch_response := fun b => frame (encode b);
  write_quorum_message := fun m => frame (encode m)
|}.

Lemma all_in_range_spec {A} (f : A -> Z) rs :
  forallb (fun r => (0 <=? f r) && (f r <? 2 ^ 32)) rs = true <-> Forall (fun r => u32 (f r)) rs.
Proof.
  rewrite forallb_forall, List.Forall_forall. unfold u32.
  split; intros Hall r Hr; specialize (Hall r Hr); lia.
Qed.

Lemma batch_in_range_spec b : batch_in_range b = true <-> write_batch_ranges b.
Proof.
  unfold batch_in_range, write_batch_ranges. destruct (wb_requests b) as [rs|]; [|naive_solver].
  rewrite all_in_range_spec. naive_solver.
Qed.

Lemma responses_in_range_spec b : responses_in_range b = true <-> write_batch_response_ranges b.
Proof.
  unfold responses_in_range, write_batch_response_ranges.
  destruct (wr_responses b) as [rs|]; [|naive_solver]. rewrite all_in_range_spec. naive_solver.
Qed.

Lemma unframe_written p r rest : unframe (frame p) = Some (r, rest) -> rest = [] /\ r = p.
Proof. rewrite <- (app_nil_r (frame p)), unframe_frame. by intros [= <- <-]. Qed.

Lemma frame_within p : is_Some (unframe (frame p)).
Proof. rewrite <- (app_nil_r (frame p)), unframe_frame. by eexists. Qed.

Lemma unframe_app bs p rest more : unframe bs = Some (p, rest) -> unframe (bs ++ more) = Some (p, rest ++ more).
Proof.
  revert p. induction bs as [|b bs IH]; intros p Hu; [done|].
  destruct b; simpl in Hu |- *; try done; [by simplify_eq|..];
    apply fmap_Some in Hu as ([p' rest'] & Hu & Heq); simplify_eq/=; by rewrite (IH _ Hu).
Qed.

#[export] Instance bit_capnp_laws : CapnpLaws.
Proof.
  split; simpl.
  - intros e r rest (Hr & _) [-> ->]%unframe_written. rewrite decode_encode. by rewrite decide_True.
  - intros b r rest (_ & rs & Hrs & Hall) [-> ->]%unframe_written. rewrite decode_encode.
    rewrite (proj2 (batch_in_range_spec b)); [done|]. intros rs' ?. simplify_eq.
    eapply Forall_impl; [|done]. by intros r (_ & _ & ?).
  - intros b r rest (_ & rs & Hrs & Hall) [-> ->]%unframe_written. rewrite decode_encode.
    rewrite (proj2 (responses_in_range_spec b)); [done|]. intros rs' ?. simplify_eq.
    eapply Forall_impl; [|done]. by intros r (_ & _ & _ & ? & _).
  - intros m r rest (Hr & _) [-> ->]%unframe_written. rewrite decode_encode. by rewrite decide_True.
  - intros. apply frame_within.
  - intros. apply frame_within.
  - intros. apply frame_within.
  - intros. apply frame_within.
  - intros bs r rest more. apply unframe_app.
  - intros bs r rest. apply unframe_front.
  - intros. apply frame_nonempty.
  - intros. by eapply unframe_prefix.
  - intros r e. destruct (decode r); [|done]. case_decide; [|done]. intros. by simplify_eq.
  - intros r b. destruct (decode r) as [b'|]; [|done]. destruct (batch_in_range b') eqn:Hb; [|done].
    intros. simplify_eq. by apply batch_in_range_spec.
  - intros r b. destruct (decode r) as [b'|]; [|done]. destruct (responses_in_range b') eqn:Hb; [|done].
    intros. simplify_eq. by apply responses_in_range_spec.
  - intros r m. destruct (decode r); [|done]. case_decide; [|done]. intros. by simplify_eq.
Qed.
