(* ===== verification/RaftTypes.v ===== *)
(** * The data of the Raft state machine

    The types of [src/raft/raft_sm.rs], [src/quorum/types.rs] and the task types of
    [src/persistence/worker.rs], with the state of the three delegates
    ([follower/mod.rs], [follower/election.rs], [candidate.rs], [leader/mod.rs]).  Tracing
    spans and the [Instant]s kept for metrics are left out.  Enum constructors carry a
    prefix where two enums of the source share a variant name. *)
From stdpp Require Import strings.
From S2P Require Import Prelude Capnp.

(** ** Channels and callbacks *)

(** A one-shot sender is named by the channel it belongs to. *)
Definition Callback := nat.

(** The unbounded crossbeam channel to the persistence worker: the messages sent and not
    yet received, and whether a receiver is still there. *)
Record Sender (T : Type) := mkSender { chan_open : bool; chan_queue : list T }.
Arguments mkSender {T}.
Arguments chan_open {T}.
Arguments chan_queue {T}.

(** [Sender::send]; [None] is the error of a channel with no receiver. *)
Definition send {T} (c : Sender T) (x : T) : option (Sender T) :=
  if chan_open c then Some (mkSender true (chan_queue c ++ [x])) else None.

(** ** src/persistence/worker.rs: tasks and responses *)

Inductive PersistenceTaskType :=
| PT_AppendVote (id term candidate_id : Z)
| PT_AppendLog (id : Z) (data : list byte) (request_id : Z)
| PT_TruncateLog (target_length : Z).

Inductive PersistenceResponseType :=
| PR_VotePersisted (id term candidate_id : Z)
| PR_LogPersisted (id : Z).

(** ** src/transport/write_proxy/mod.rs: a client batch *)

Record WriteBatch := mkWriteBatch {
  write_batch_id : Text;
  write_message : OwnedWriteBatch;
  write_callback : Callback
}.

Inductive WriteStatus := WS_Ok | WS_InternalServerError.

Record WriteResponse := mkWriteResponse {
  response_message : OwnedWriteBatchResponse;
  response_status : WriteStatus
}.

(** [WriteResponse::success]. *)
Definition WriteResponse_success (message : OwnedWriteBatchResponse) : WriteResponse :=
  mkWriteResponse message WS_Ok.

(** ** src/quorum/types.rs *)

Inductive LocalQuorumWorkerTaskType :=
| QT_StartHeartbeats (id term prev_term prev_log_index commit_index : Z)
| QT_StopHeartbeats (id : Z)
| QT_RequestVote (id term last_term last_index : Z)
| QT_AppendEntries (id : Z) (entry : OwnedLogEntry) (commit_index : Z)
| QT_BackfillLog (data : list OwnedLogEntry)
| QT_WriteBatch (write_batch : WriteBatch)
| QT_TruncateLog (id prev_term prev_index : Z)
| QT_UpdateCommitIndex (commit_index : Z).

Inductive LocalQuorumTaskResponseType :=
| QR_RequestVoteResponse (id term : Z) (received_vote : bool)
| QR_AppendEntries (id : Z) (ok : bool)
| QR_BackfillLog (quorum_node_id last_log_term last_log_index : Z)
| QR_TruncateLog (quorum_node_id prev_term prev_index : Z)
| QR_TruncateLogResponse (id : Z) (ok : bool).

(** ** src/raft/raft_sm.rs *)

Record RaftServerState := mkRaftServerState {
  current_term : Z;
  leader_id : Z
}.

Record CommitState := mkCommitState {
  cs_commit_index : Z;
  cs_version : Z
}.

Record RaftVolatileState := mkRaftVolatileState {
  commit_index : Z;
  last_applied : Z;
  last_log_index : Z;
  last_log_term : Z;
  next_term : Z;
  next_log_index : Z;
  replication_log : list OwnedLogEntry;
  replication_log_term_starts : gmap Z Z;
  commit_state : CommitState;
  last_broadcast_index : option Z;
  has_deferred_broadcast : bool
}.

Inductive OutstandingMessageType :=
| OM_RequestVote (callback : Callback)
| OM_CandidateElection (persistence_done : bool) (quorum_votes : Z)
| OM_AppendLog (callback : Callback)
| OM_WriteBatch (persistence_done : bool) (quorum_acks : Z) (callback : Callback)
    (index batch_size : Z)
| OM_NoOp (persistence_done : bool) (quorum_acks index : Z).

Record OutstandingMessage := mkOutstandingMessage {
  om_id : Z;
  outstanding_responses : Z;
  message_type : OutstandingMessageType
}.

Record LocalRequestVoteRequest := mkLocalRequestVoteRequest {
  rv_term : Z;
  rv_candidate_id : Z;
  rv_last_log_index : Z;
  rv_last_log_term : Z
}.

Record LogEntry := mkLogEntry {
  e_index : Z;
  e_data : list byte;
  e_batch_index : Z;
  e_term : Z;
  e_prev_log_term : Z;
  e_prev_log_index : Z;
  e_message_id : Z
}.

Record LocalAppendEntries := mkLocalAppendEntries {
  a_term : Z;
  a_leader_id : Z;
  a_prev_index : Z;
  a_prev_term : Z;
  a_request_id : Z;
  a_entry : option LogEntry;
  a_commit_index : Z
}.

Inductive LocalAppendEntriesCallbackResponse :=
| AE_Ok
| AE_UnrecognizedLeader
| AE_WantedPreviousEntry (last_term last_index : Z)
| AE_TruncateLog (prev_term prev_index : Z).

Record LocalRaftWriteBatchResponse := mkLocalRaftWriteBatchResponse {
  wbr_message : OwnedWriteBatchResponse;
  wbr_err : option string
}.

Inductive LocalRaftResponsePayload :=
| RP_None
| RP_RequestVote (granted : bool)
| RP_AppendEntries (r : LocalAppendEntriesCallbackResponse)
| RP_RaftState (leader_id : Z)
| RP_WriteBatch (r : LocalRaftWriteBatchResponse).

(** [LocalRaftMessage]; the batch of [WriteBatch] is the [OwnedWriteBatch] of
    [LocalRaftWriteBatchRequest]. *)
Inductive LocalRaftMessagePayload :=
| RM_RequestVote (r : LocalRequestVoteRequest)
| RM_AppendEntries (r : LocalAppendEntries)
| RM_GetRaftState
| RM_WriteBatch (message : OwnedWriteBatch).

Record LocalRaftMessage := mkLocalRaftMessage {
  lrm_payload : LocalRaftMessagePayload;
  lrm_callback : Callback
}.

(** The receivers of the one-shot callbacks: the responses they hold, in the order they
    were sent, and the channels whose receiver was dropped. *)
Record Callbacks := mkCallbacks {
  cb_sent : list (Callback * LocalRaftResponsePayload);
  cb_dropped : gset nat
}.

Record SharedState (B : Type) := mkSharedState {
  server_state : RaftServerState;
  volatile_server_state : RaftVolatileState;
  persistence_work : Sender PersistenceTaskType;
  persistence_response : list PersistenceResponseType;
  quorum_response : list LocalQuorumTaskResponseType;
  identity : Z;
  term_votes : gmap Z Z;
  next_message_id : Z;
  outstanding_messages : gmap Z OutstandingMessage;
  quorum_size : Z;
  quorum_worker_tasks : list (list LocalQuorumWorkerTaskType);
  max_message_size_bytes : Z;
  log_entry_bus : B;
  callbacks : Callbacks
}.
Arguments mkSharedState {B}.
Arguments server_state {B}.
Arguments volatile_server_state {B}.
Arguments persistence_work {B}.
Arguments persistence_response {B}.
Arguments quorum_response {B}.
Arguments identity {B}.
Arguments term_votes {B}.
Arguments next_message_id {B}.
Arguments outstanding_messages {B}.
Arguments quorum_size {B}.
Arguments quorum_worker_tasks {B}.
Arguments max_message_size_bytes {B}.
Arguments log_entry_bus {B}.
Arguments callbacks {B}.

(** ** The delegates *)

Record ElectionTimer := mkElectionTimer {
  election_timeout : Z;
  election_timeout_min : Z;
  election_timeout_max : Z
}.

Record RaftFollowerStateDelegate := mkRaftFollowerStateDelegate {
  election_timer : ElectionTimer
}.

Record OngoingElection := mkOngoingElection {
  oe_term : Z;
  started_millis : Z
}.

Record RaftCandidateStateDelegate := mkRaftCandidateStateDelegate {
  initiate_election_timeout : Z;
  ongoing_election : option OngoingElection
}.

Record RaftLeaderStateDelegate := mkRaftLeaderStateDelegate {
  leader_election_timeout : Z;
  initialized : bool
}.

(** [Box<dyn RaftProtocol>]: one of the three implementations. *)
Inductive Delegate :=
| D_Follower (d : RaftFollowerStateDelegate)
| D_Candidate (d : RaftCandidateStateDelegate)
| D_Leader (d : RaftLeaderStateDelegate).

Inductive RaftMessageStateChange :=
| SC_None
| SC_Follower (d : RaftFollowerStateDelegate)
| SC_Candidate (d : RaftCandidateStateDelegate)
| SC_Leader (d : RaftLeaderStateDelegate).

Inductive RaftNodeType := Follower | Candidate | Leader.

#[export] Instance RaftNodeType_eq_dec : EqDecision RaftNodeType.
Proof. solve_decision. Defined.

(** ** Time and randomness

    The clock readings and the random words one handler call observes, in the order its
    body asks for them. *)

Record Env := mkEnv {
  clock : nat -> Z;
  rand : nat -> Z
}.

(** [rng.gen_range(lo..hi)]: some value of the half-open range. *)
Definition gen_range (r lo hi : Z) : Z := lo + r `mod` (hi - lo).

(** ** Field updates *)

#[export] Instance set_current_term : Setter current_term := fun g (s : RaftServerState) =>
  mkRaftServerState (g (current_term s)) (leader_id s).
Arguments set_current_term _ _ /.
#[export] Instance set_leader_id : Setter leader_id := fun g (s : RaftServerState) =>
  mkRaftServerState (current_term s) (g (leader_id s)).
Arguments set_leader_id _ _ /.
#[export] Instance set_cs_commit_index : Setter cs_commit_index := fun g (s : CommitState) =>
  mkCommitState (g (cs_commit_index s)) (cs_version s).
Arguments set_cs_commit_index _ _ /.
#[export] Instance set_cs_version : Setter cs_version := fun g (s : CommitState) =>
  mkCommitState (cs_commit_index s) (g (cs_version s)).
Arguments set_cs_version _ _ /.
#[export] Instance set_commit_index : Setter commit_index := fun g (s : RaftVolatileState) =>
  mkRaftVolatileState (g (commit_index s)) (last_applied s) (last_log_index s) (last_log_term s) (next_term s) (next_log_index s) (replication_log s) (replication_log_term_starts s) (commit_state s) (last_broadcast_index s) (has_deferred_broadcast s).
Arguments set_commit_index _ _ /.
#[export] Instance set_last_applied : Setter last_applied := fun g (s : RaftVolatileState) =>
  mkRaftVolatileState (commit_index s) (g (last_applied s)) (last_log_index s) (last_log_term s) (next_term s) (next_log_index s) (replication_log s) (replication_log_term_starts s) (commit_state s) (last_broadcast_index s) (has_deferred_broadcast s).
Arguments set_last_applied _ _ /.
#[export] Instance set_last_log_index : Setter last_log_index := fun g (s : RaftVolatileState) =>
  mkRaftVolatileState (commit_index s) (last_applied s) (g (last_log_index s)) (last_log_term s) (next_term s) (next_log_index s) (replication_log s) (replication_log_term_starts s) (commit_state s) (last_broadcast_index s) (has_deferred_broadcast s).
Arguments set_last_log_index _ _ /.
#[export] Instance set_last_log_term : Setter last_log_term := fun g (s : RaftVolatileState) =>
  mkRaftVolatileState (commit_index s) (last_applied s) (last_log_index s) (g (last_log_term s)) (next_term s) (next_log_index s) (replication_log s) (replication_log_term_starts s) (commit_state s) (last_broadcast_index s) (has_deferred_broadcast s).
Arguments set_last_log_term _ _ /.
#[export] Instance set_next_term : Setter next_term := fun g (s : RaftVolatileState) =>
  mkRaftVolatileState (commit_index s) (last_applied s) (last_log_index s) (last_log_term s) (g (next_term s)) (next_log_index s) (replication_log s) (replication_log_term_starts s) (commit_state s) (last_broadcast_index s) (has_deferred_broadcast s).
Arguments set_next_term _ _ /.
#[export] Instance set_next_log_index : Setter next_log_index := fun g (s : RaftVolatileState) =>
  mkRaftVolatileState (commit_index s) (last_applied s) (last_log_index s) (last_log_term s) (next_term s) (g (next_log_index s)) (replication_log s) (replication_log_term_starts s) (commit_state s) (last_broadcast_index s) (has_deferred_broadcast s).
Arguments set_next_log_index _ _ /.
#[export] Instance set_replication_log : Setter replication_log := fun g (s : RaftVolatileState) =>
  mkRaftVolatileState (commit_index s) (last_applied s) (last_log_index s) (last_log_term s) (next_term s) (next_log_index s) (g (replication_log s)) (replication_log_term_starts s) (commit_state s) (last_broadcast_index s) (has_deferred_broadcast s).
Arguments set_replication_log _ _ /.
#[export] Instance set_replication_log_term_starts : Setter replication_log_term_starts := fun g (s : RaftVolatileState) =>
  mkRaftVolatileState (commit_index s) (last_applied s) (last_log_index s) (last_log_term s) (next_term s) (next_log_index s) (replication_log s) (g (replication_log_term_starts s)) (commit_state s) (last_broadcast_index s) (has_deferred_broadcast s).
Arguments set_replication_log_term_starts _ _ /.
#[export] Instance set_commit_state : Setter commit_state := fun g (s : RaftVolatileState) =>
  mkRaftVolatileState (commit_index s) (last_applied s) (last_log_index s) (last_log_term s) (next_term s) (next_log_index s) (replication_log s) (replication_log_term_starts s) (g (commit_state s)) (last_broadcast_index s) (has_deferred_broadcast s).
Arguments set_commit_state _ _ /.
#[export] Instance set_last_broadcast_index : Setter last_broadcast_index := fun g (s : RaftVolatileState) =>
  mkRaftVolatileState (commit_index s) (last_applied s) (last_log_index s) (last_log_term s) (next_term s) (next_log_index s) (replication_log s) (replication_log_term_starts s) (commit_state s) (g (last_broadcast_index s)) (has_deferred_broadcast s).
Arguments set_last_broadcast_index _ _ /.
#[export] Instance set_has_deferred_broadcast : Setter has_deferred_broadcast := fun g (s : RaftVolatileState) =>
  mkRaftVolatileState (commit_index s) (last_applied s) (last_log_index s) (last_log_term s) (next_term s) (next_log_index s) (replication_log s) (replication_log_term_starts s) (commit_state s) (last_broadcast_index s) (g (has_deferred_broadcast s)).
Arguments set_has_deferred_broadcast _ _ /.
#[export] Instance set_om_id : Setter om_id := fun g (s : OutstandingMessage) =>
  mkOutstandingMessage (g (om_id s)) (outstanding_responses s) (message_type s).
Arguments set_om_id _ _ /.
#[export] Instance set_outstanding_responses : Setter outstanding_responses := fun g (s : OutstandingMessage) =>
  mkOutstandingMessage (om_id s) (g (outstanding_responses s)) (message_type s).
Arguments set_outstanding_responses _ _ /.
#[export] Instance set_message_type : Setter message_type := fun g (s : OutstandingMessage) =>
  mkOutstandingMessage (om_id s) (outstanding_responses s) (g (message_type s)).
Arguments set_message_type _ _ /.
#[export] Instance set_cb_sent : Setter cb_sent := fun g (s : Callbacks) =>
  mkCallbacks (g (cb_sent s)) (cb_dropped s).
Arguments set_cb_sent _ _ /.
#[export] Instance set_cb_dropped : Setter cb_dropped := fun g (s : Callbacks) =>
  mkCallbacks (cb_sent s) (g (cb_dropped s)).
Arguments set_cb_dropped _ _ /.
#[export] Instance set_election_timeout : Setter election_timeout := fun g (s : ElectionTimer) =>
  mkElectionTimer (g (election_timeout s)) (election_timeout_min s) (election_timeout_max s).
Arguments set_election_timeout _ _ /.
#[export] Instance set_election_timeout_min : Setter election_timeout_min := fun g (s : ElectionTimer) =>
  mkElectionTimer (election_timeout s) (g (election_timeout_min s)) (election_timeout_max s).
Arguments set_election_timeout_min _ _ /.
#[export] Instance set_election_timeout_max : Setter election_timeout_max := fun g (s : ElectionTimer) =>
  mkElectionTimer (election_timeout s) (election_timeout_min s) (g (election_timeout_max s)).
Arguments set_election_timeout_max _ _ /.
#[export] Instance set_initiate_election_timeout : Setter initiate_election_timeout := fun g (s : RaftCandidateStateDelegate) =>
  mkRaftCandidateStateDelegate (g (initiate_election_timeout s)) (ongoing_election s).
Arguments set_initiate_election_timeout _ _ /.
#[export] Instance set_ongoing_election : Setter ongoing_election := fun g (s : RaftCandidateStateDelegate) =>
  mkRaftCandidateStateDelegate (initiate_election_timeout s) (g (ongoing_election s)).
Arguments set_ongoing_election _ _ /.
#[export] Instance set_server_state {B : Type} : Setter (@server_state B) := fun g (s : SharedState B) =>
  mkSharedState (g (server_state s)) (volatile_server_state s) (persistence_work s) (persistence_response s) (quorum_response s) (identity s) (term_votes s) (next_message_id s) (outstanding_messages s) (quorum_size s) (quorum_worker_tasks s) (max_message_size_bytes s) (log_entry_bus s) (callbacks s).
Arguments set_server_state {_} _ _ /.
#[export] Instance set_volatile_server_state {B : Type} : Setter (@volatile_server_state B) := fun g (s : SharedState B) =>
  mkSharedState (server_state s) (g (volatile_server_state s)) (persistence_work s) (persistence_response s) (quorum_response s) (identity s) (term_votes s) (next_message_id s) (outstanding_messages s) (quorum_size s) (quorum_worker_tasks s) (max_message_size_bytes s) (log_entry_bus s) (callbacks s).
Arguments set_volatile_server_state {_} _ _ /.
#[export] Instance set_persistence_work {B : Type} : Setter (@persistence_work B) := fun g (s : SharedState B) =>
  mkSharedState (server_state s) (volatile_server_state s) (g (persistence_work s)) (persistence_response s) (quorum_response s) (identity s) (term_votes s) (next_message_id s) (outstanding_messages s) (quorum_size s) (quorum_worker_tasks s) (max_message_size_bytes s) (log_entry_bus s) (callbacks s).
Arguments set_persistence_work {_} _ _ /.
#[export] Instance set_persistence_response {B : Type} : Setter (@persistence_response B) := fun g (s : SharedState B) =>
  mkSharedState (server_state s) (volatile_server_state s) (persistence_work s) (g (persistence_response s)) (quorum_response s) (identity s) (term_votes s) (next_message_id s) (outstanding_messages s) (quorum_size s) (quorum_worker_tasks s) (max_message_size_bytes s) (log_entry_bus s) (callbacks s).
Arguments set_persistence_response {_} _ _ /.
#[export] Instance set_quorum_response {B : Type} : Setter (@quorum_response B) := fun g (s : SharedState B) =>
  mkSharedState (server_state s) (volatile_server_state s) (persistence_work s) (persistence_response s) (g (quorum_response s)) (identity s) (term_votes s) (next_message_id s) (outstanding_messages s) (quorum_size s) (quorum_worker_tasks s) (max_message_size_bytes s) (log_entry_bus s) (callbacks s).
Arguments set_quorum_response {_} _ _ /.
#[export] Instance set_identity {B : Type} : Setter (@identity B) := fun g (s : SharedState B) =>
  mkSharedState (server_state s) (volatile_server_state s) (persistence_work s) (persistence_response s) (quorum_response s) (g (identity s)) (term_votes s) (next_message_id s) (outstanding_messages s) (quorum_size s) (quorum_worker_tasks s) (max_message_size_bytes s) (log_entry_bus s) (callbacks s).
Arguments set_identity {_} _ _ /.
#[export] Instance set_term_votes {B : Type} : Setter (@term_votes B) := fun g (s : SharedState B) =>
  mkSharedState (server_state s) (volatile_server_state s) (persistence_work s) (persistence_response s) (quorum_response s) (identity s) (g (term_votes s)) (next_message_id s) (outstanding_messages s) (quorum_size s) (quorum_worker_tasks s) (max_message_size_bytes s) (log_entry_bus s) (callbacks s).
Arguments set_term_votes {_} _ _ /.
#[export] Instance set_next_message_id {B : Type} : Setter (@next_message_id B) := fun g (s : SharedState B) =>
  mkSharedState (server_state s) (volatile_server_state s) (persistence_work s) (persistence_response s) (quorum_response s) (identity s) (term_votes s) (g (next_message_id s)) (outstanding_messages s) (quorum_size s) (quorum_worker_tasks s) (max_message_size_bytes s) (log_entry_bus s) (callbacks s).
Arguments set_next_message_id {_} _ _ /.
#[export] Instance set_outstanding_messages {B : Type} : Setter (@outstanding_messages B) := fun g (s : SharedState B) =>
  mkSharedState (server_state s) (volatile_server_state s) (persistence_work s) (persistence_response s) (quorum_response s) (identity s) (term_votes s) (next_message_id s) (g (outstanding_messages s)) (quorum_size s) (quorum_worker_tasks s) (max_message_size_bytes s) (log_entry_bus s) (callbacks s).
Arguments set_outstanding_messages {_} _ _ /.
#[export] Instance set_quorum_size {B : Type} : Setter (@quorum_size B) := fun g (s : SharedState B) =>
  mkSharedState (server_state s) (volatile_server_state s) (persistence_work s) (persistence_response s) (quorum_response s) (identity s) (term_votes s) (next_message_id s) (outstanding_messages s) (g (quorum_size s)) (quorum_worker_tasks s) (max_message_size_bytes s) (log_entry_bus s) (callbacks s).
Arguments set_quorum_size {_} _ _ /.
#[export] Instance set_quorum_worker_tasks {B : Type} : Setter (@quorum_worker_tasks B) := fun g (s : SharedState B) =>
  mkSharedState (server_state s) (volatile_server_state s) (persistence_work s) (persistence_response s) (quorum_response s) (identity s) (term_votes s) (next_message_id s) (outstanding_messages s) (quorum_size s) (g (quorum_worker_tasks s)) (max_message_size_bytes s) (log_entry_bus s) (callbacks s).
Arguments set_quorum_worker_tasks {_} _ _ /.
#[export] Instance set_max_message_size_bytes {B : Type} : Setter (@max_message_size_bytes B) := fun g (s : SharedState B) =>
  mkSharedState (server_state s) (volatile_server_state s) (persistence_work s) (persistence_response s) (quorum_response s) (identity s) (term_votes s) (next_message_id s) (outstanding_messages s) (quorum_size s) (quorum_worker_tasks s) (g (max_message_size_bytes s)) (log_entry_bus s) (callbacks s).
Arguments set_max_message_size_bytes {_} _ _ /.
#[export] Instance set_log_entry_bus {B : Type} : Setter (@log_entry_bus B) := fun g (s : SharedState B) =>
  mkSharedState (server_state s) (volatile_server_state s) (persistence_work s) (persistence_response s) (quorum_response s) (identity s) (term_votes s) (next_message_id s) (outstanding_messages s) (quorum_size s) (quorum_worker_tasks s) (max_message_size_bytes s) (g (log_entry_bus s)) (callbacks s).
Arguments set_log_entry_bus {_} _ _ /.
#[export] Instance set_callbacks {B : Type} : Setter (@callbacks B) := fun g (s : SharedState B) =>
  mkSharedState (server_state s) (volatile_server_state s) (persistence_work s) (persistence_response s) (quorum_response s) (identity s) (term_votes s) (next_message_id s) (outstanding_messages s) (quorum_size s) (quorum_worker_tasks s) (max_message_size_bytes s) (log_entry_bus s) (g (callbacks s)).
Arguments set_callbacks {_} _ _ /.

(** ** Operations every handler uses *)

Section ops.
Context {B : Type}.
Implicit Types s : SharedState B.

(** [callback.send(..)] on a one-shot channel: [None] when the receiver was dropped. *)
Definition callback_send (cb : Callback) (p : LocalRaftResponsePayload) s : option (SharedState B) :=
  if decide (cb ∈ cb_dropped (callbacks s)) then None
  else Some (s <| callbacks ; cb_sent ::= fun l => l ++ [(cb, p)] |>).

(** [callback.send(..)] whose error is ignored or only logged. *)
Definition callback_send_ok (cb : Callback) (p : LocalRaftResponsePayload) s : SharedState B :=
  default s (callback_send cb p s).

(** [shared_state.persistence_work.send(..)]. *)
Definition persistence_send (t : PersistenceTaskType) s : option (SharedState B) :=
  (fun c => s <| persistence_work := c |>) <$> send (persistence_work s) t.

(** [quorum_worker_tasks.iter().for_each(|q| q.push(task))]. *)
Definition push_all_quorum (t : LocalQuorumWorkerTaskType) s : SharedState B :=
  s <| quorum_worker_tasks ::= map (fun q => q ++ [t]) |>.

(** [quorum_worker_tasks[i].push(task)]. *)
Definition push_quorum (i : nat) (t : LocalQuorumWorkerTaskType) s : SharedState B :=
  s <| quorum_worker_tasks ::= alter (fun q => q ++ [t]) i |>.

(** [commit_state.version.fetch_add(1, Release)]. *)
Definition bump_version s : SharedState B :=
  s <| volatile_server_state ; commit_state ::= fun c => c <| cs_version ::= fun v => v +! 1 |> |>.

End ops.

Lemma gen_range_bounds r lo hi : lo < hi -> lo <= gen_range r lo hi < hi.
Proof. unfold gen_range. intros. pose proof (Z.mod_pos_bound r (hi - lo)). lia. Qed.

(** ** Normal forms of the callback and queue operations *)

(** The receivers after a send whose error is ignored. *)
Definition respond (cb : Callback) (p : LocalRaftResponsePayload) (c : Callbacks) : Callbacks :=
  if decide (cb ∈ cb_dropped c) then c else c <| cb_sent ::= fun l => l ++ [(cb, p)] |>.

Section normal_forms.
Context {B : Type}.
Implicit Types s : SharedState B.

Lemma callback_send_ok_eq cb p s :
  callback_send_ok cb p s = s <| callbacks ::= respond cb p |>.
Proof.
  unfold callback_send_ok, callback_send, respond. simpl. case_decide; [|done]. by destruct s.
Qed.

Lemma callback_send_Some cb p s s' :
  callback_send cb p s = Some s' -> s' = s <| callbacks ::= respond cb p |>.
Proof.
  intros Hs. rewrite <- callback_send_ok_eq. unfold callback_send_ok. by rewrite Hs.
Qed.

Lemma persistence_send_Some t s s' :
  persistence_send t s = Some s' ->
  chan_open (persistence_work s) = true /\
  s' = s <| persistence_work := mkSender true (chan_queue (persistence_work s) ++ [t]) |>.
Proof.
  unfold persistence_send, send. destruct (chan_open (persistence_work s)); intros; by simplify_eq/=.
Qed.

Lemma persistence_send_open t s :
  chan_open (persistence_work s) = true ->
  persistence_send t s =
  Some (s <| persistence_work := mkSender true (chan_queue (persistence_work s) ++ [t]) |>).
Proof. unfold persistence_send, send. by intros ->. Qed.

End normal_forms.
