(* ===== verification/Persistence.v ===== *)
(** * The persistence worker

    [src/persistence/worker.rs]: the worker that appends log entries to [log.capnp] and votes
    to [votes.csv].  Files and the buffered writer are those of the standard library, on a
    file system whose calls succeed (a failing call is a panic of the worker).  The [csv]
    crate is not under src/: it is the parameter [Csv]. *)
From S2P Require Import Prelude Capnp RaftTypes.

(** ** Votes on disk *)

Record VoteRow := mkVoteRow { vote_term : Z; vote_candidate_id : Z }.

(** The [csv] crate: one serialized row, and the rows of a whole file. *)
Class Csv := {
  csv_row : VoteRow -> list byte;
  csv_rows : list byte -> option (list VoteRow)
}.

Class CsvLaws `{Csv} : Prop :=
  csv_rows_written rows : csv_rows (mjoin (csv_row <$> rows)) = Some rows.

(** ** Files *)

(** [File::set_len]: cuts the file or extends it with zeros. *)
Definition set_len (n : Z) (file : list byte) : list byte :=
  take (Z.to_nat n) file ++ replicate (Z.to_nat n - length file) Init.Byte.x00.

(** [BufWriter<File>] on a file opened for appending. *)
Record BufWriter := mkBufWriter { bw_file : list byte; bw_buf : list byte }.

(** The capacity of [BufWriter::new]. *)
Definition BUF_CAPACITY : Z := 8192.

(** [BufWriter::flush]. *)
Definition bw_flush (w : BufWriter) : BufWriter := mkBufWriter (bw_file w ++ bw_buf w) [].

(** [BufWriter::write_all]: small writes stay in the buffer, a write that does not fit
    flushes the buffer first, and a write of at least the capacity goes to the file. *)
Definition write_all (data : list byte) (w : BufWriter) : BufWriter :=
  let spare := BUF_CAPACITY - vlen (bw_buf w) in
  if decide (vlen data < spare) then mkBufWriter (bw_file w) (bw_buf w ++ data)
  else
    let w := if decide (spare < vlen data) then bw_flush w else w in
    if decide (BUF_CAPACITY <= vlen data) then mkBufWriter (bw_file w ++ data) (bw_buf w)
    else mkBufWriter (bw_file w) (bw_buf w ++ data).

(** ** The worker *)

(** [PersistenceWorker] with the locals of [run]. *)
Record PersistenceWorker := mkPersistenceWorker {
  response_queue : list PersistenceResponseType;
  entry_end_offsets : list Z;
  log_write_buffer : BufWriter;
  vote_file : list byte;
  pending_log_responses : list PersistenceResponseType
}.

#[export] Instance set_response_queue : Setter response_queue := fun g w =>
  mkPersistenceWorker (g (response_queue w)) (entry_end_offsets w) (log_write_buffer w) (vote_file w) (pending_log_responses w).
Arguments set_response_queue _ _ /.
#[export] Instance set_entry_end_offsets' : Setter entry_end_offsets := fun g w =>
  mkPersistenceWorker (response_queue w) (g (entry_end_offsets w)) (log_write_buffer w) (vote_file w) (pending_log_responses w).
Arguments set_entry_end_offsets' _ _ /.
#[export] Instance set_log_write_buffer : Setter log_write_buffer := fun g w =>
  mkPersistenceWorker (response_queue w) (entry_end_offsets w) (g (log_write_buffer w)) (vote_file w) (pending_log_responses w).
Arguments set_log_write_buffer _ _ /.
#[export] Instance set_vote_file : Setter vote_file := fun g w =>
  mkPersistenceWorker (response_queue w) (entry_end_offsets w) (log_write_buffer w) (g (vote_file w)) (pending_log_responses w).
Arguments set_vote_file _ _ /.
#[export] Instance set_pending_log_responses : Setter pending_log_responses := fun g w =>
  mkPersistenceWorker (response_queue w) (entry_end_offsets w) (log_write_buffer w) (vote_file w) (g (pending_log_responses w)).
Arguments set_pending_log_responses _ _ /.

Definition BATCH_SIZE : Z := 32.

Section worker.
Context {CSV : Csv}.
Implicit Types w : PersistenceWorker.

(** [PersistenceWorker::persist_vote]. *)
Definition persist_vote (term candidate_id : Z) w : PersistenceWorker :=
  w <| vote_file ::= fun f => f ++ csv_row (mkVoteRow term candidate_id) |>.

(** [PersistenceWorker::write_log_entry]. *)
Definition write_log_entry_buffer (data : list byte) w : PersistenceWorker :=
  w <| log_write_buffer ::= write_all data |>.

(** [PersistenceWorker::flush_pending_logs]. *)
Definition flush_pending_logs w : PersistenceWorker :=
  if decide (pending_log_responses w = []) then w
  else
    let w := w <| log_write_buffer ::= bw_flush |> in
    let w := w <| response_queue ::= fun q => q ++ pending_log_responses w |> in
    w <| pending_log_responses := [] |>.

(** [PersistenceWorker::process_task]; [None] is the index panic of [TruncateLog]. *)
Definition process_task (task : PersistenceTaskType) (batch_size : Z) w : option PersistenceWorker :=
  match task with
  | PT_AppendVote id term candidate_id =>
    let w := flush_pending_logs w in
    let w := persist_vote term candidate_id w in
    Some (w <| response_queue ::= fun q => q ++ [PR_VotePersisted id term candidate_id] |>)
  | PT_AppendLog id data _ =>
    let data_len := vlen data in
    let w := write_log_entry_buffer data w in
    let last_end := default 0 (vlast (entry_end_offsets w)) in
    let w := w <| entry_end_offsets ::= fun o => o ++ [last_end +! data_len] |> in
    let w := w <| pending_log_responses ::= fun p => p ++ [PR_LogPersisted id] |> in
    Some (if decide (batch_size <= vlen (pending_log_responses w)) then flush_pending_logs w else w)
  | PT_TruncateLog target_length =>
    let w := flush_pending_logs w in
    let* truncation_position :=
      if decide (target_length = 0) then Some 0 else vget (entry_end_offsets w) (target_length - 1) in
    let w := w <| log_write_buffer ::= fun b => mkBufWriter (set_len truncation_position (bw_file b)) (bw_buf b) |> in
    Some (w <| entry_end_offsets ::= vtruncate target_length |>)
  end.

Fixpoint process_tasks (tasks : list PersistenceTaskType) w : option PersistenceWorker :=
  match tasks with
  | [] => Some w
  | task :: tasks => let* w := process_task task BATCH_SIZE w in process_tasks tasks w
  end.

(** One turn of the loop of [run]: the tasks received by [recv_timeout] and [try_recv], or
    none after the timeout, and the flush. *)
Definition run_turn (tasks : list PersistenceTaskType) w : option PersistenceWorker :=
  let* w := process_tasks tasks w in
  Some (flush_pending_logs w).

Fixpoint run_turns (turns : list (list PersistenceTaskType)) w : option PersistenceWorker :=
  match turns with
  | [] => Some w
  | tasks :: turns => let* w := run_turn tasks w in run_turns turns w
  end.

(** [PersistenceWorker::read_votes] and [read_log]. *)
Definition read_votes (file : list byte) : option (list VoteRow) := csv_rows file.
Definition read_log (file : list byte) : list byte := file.

(** A worker on the files of an earlier run. *)
Definition PersistenceWorker_new (log_file votes : list byte) (offsets : list Z) : PersistenceWorker :=
  mkPersistenceWorker [] offsets (mkBufWriter log_file []) votes [].

End worker.
