(* ===== verification/PersistenceSpec.v ===== *)
(** * What the persistence worker guarantees

    The log file as a list of entries, and the refinement of that view by the worker of
    [Persistence.v]: bytes, offsets, responses and votes. *)
From S2P Require Import Prelude Capnp CapnpInstance RaftTypes Persistence.

(** ** The abstract log file *)

(** What a task does to the entries on disk; [None] for a truncation past the end. *)
Definition disk_step (es : list Data) (t : PersistenceTaskType) : option (list Data) :=
  match t with
  | PT_AppendVote _ _ _ => Some es
  | PT_AppendLog _ data _ => Some (es ++ [data])
  | PT_TruncateLog n => if decide (0 <= n <= vlen es) then Some (vtruncate n es) else None
  end.

Fixpoint disk_run (ts : list PersistenceTaskType) (es : list Data) : option (list Data) :=
  match ts with
  | [] => Some es
  | t :: ts => let* es := disk_step es t in disk_run ts es
  end.

(** The responses a task is owed. *)
Definition owed (t : PersistenceTaskType) : list PersistenceResponseType :=
  match t with
  | PT_AppendVote id term candidate_id => [PR_VotePersisted id term candidate_id]
  | PT_AppendLog id _ _ => [PR_LogPersisted id]
  | PT_TruncateLog _ => []
  end.

Definition vote_rows (t : PersistenceTaskType) : list VoteRow :=
  match t with PT_AppendVote _ term candidate_id => [mkVoteRow term candidate_id] | _ => [] end.

Definition task_bytes (t : PersistenceTaskType) : Z :=
  match t with PT_AppendLog _ data _ => vlen data | _ => 0 end.

Fixpoint tasks_bytes (ts : list PersistenceTaskType) : Z :=
  match ts with [] => 0 | t :: ts => task_bytes t + tasks_bytes ts end.

(** The end offsets of entries written from position [acc]. *)
Fixpoint offsets_from (acc : Z) (es : list Data) : list Z :=
  match es with
  | [] => []
  | e :: es => (acc + vlen e) :: offsets_from (acc + vlen e) es
  end.

Lemma tasks_bytes_nonneg ts : 0 <= tasks_bytes ts.
Proof. induction ts as [|[] ts IH]; simpl; pose proof (vlen_nonneg (A := byte)); try lia. specialize (H data). lia. Qed.

Lemma offsets_from_app acc es1 es2 :
  offsets_from acc (es1 ++ es2) = offsets_from acc es1 ++ offsets_from (acc + vlen (mjoin es1)) es2.
Proof.
  revert acc. induction es1 as [|e es1 IH]; intros acc; simpl; [by rewrite Z.add_0_r|].
  rewrite IH, vlen_app. by rewrite Z.add_assoc.
Qed.

Lemma length_offsets_from acc es : length (offsets_from acc es) = length es.
Proof. revert acc. induction es as [|e es IH]; intros acc; simpl; [done|]. by rewrite IH. Qed.

Lemma offsets_from_last acc es : default acc (vlast (offsets_from acc es)) = acc + vlen (mjoin es).
Proof.
  induction es as [|e es _] using rev_ind; [simpl; unfold vlen; simpl; lia|].
  rewrite offsets_from_app. simpl. unfold vlast. rewrite last_snoc. simpl.
  rewrite join_app. simpl. rewrite app_nil_r, vlen_app. lia.
Qed.

Lemma offsets_from_truncate acc n es : vtruncate n (offsets_from acc es) = offsets_from acc (vtruncate n es).
Proof.
  unfold vtruncate. generalize (Z.to_nat n). clear n. intros n. revert acc es.
  induction n as [|n IH]; intros acc [|e es]; simpl; [done..|]. by rewrite IH.
Qed.

(** The offset of entry [n - 1] is where the first [n] entries end. *)
Lemma offsets_from_get acc n es :
  0 < n <= vlen es -> vget (offsets_from acc es) (n - 1) = Some (acc + vlen (mjoin (vtruncate n es))).
Proof.
  intros Hn. rewrite <- (vget_truncate n) by lia. rewrite offsets_from_truncate.
  rewrite <- offsets_from_last. unfold vlast. rewrite last_lookup, length_offsets_from.
  assert (Hlen : length (vtruncate n es) = Z.to_nat n).
  { unfold vtruncate, vlen in *. rewrite length_take. lia. }
  rewrite Hlen. unfold vget. rewrite decide_True by lia.
  replace (Z.to_nat (n - 1)) with (pred (Z.to_nat n)) by lia.
  destruct (lookup_lt_is_Some_2 (offsets_from acc (vtruncate n es)) (pred (Z.to_nat n))) as [x Hx].
  { rewrite length_offsets_from, Hlen. lia. }
  by rewrite Hx.
Qed.

Lemma mjoin_take_prefix n (es : list Data) : mjoin (take n es) `prefix_of` mjoin es.
Proof. exists (mjoin (drop n es)). by rewrite <- join_app, take_drop. Qed.

Lemma set_len_prefix n (es : list Data) :
  set_len (vlen (mjoin (vtruncate n es))) (mjoin es) = mjoin (vtruncate n es).
Proof.
  unfold set_len, vlen, vtruncate. destruct (mjoin_take_prefix (Z.to_nat n) es) as [k Hk]. rewrite Hk.
  rewrite Nat2Z.id, take_app_length, length_app.
  replace (_ - _)%nat with 0%nat by lia. by rewrite app_nil_r.
Qed.

(** ** The worker represents a list of entries *)

(** The file and the buffer together hold the entries, the offsets are their ends, and the
    entries whose response was sent are in the file completely. *)
Record represents (es : list Data) (w : PersistenceWorker) : Prop := mkRepresents {
  rep_bytes : bw_file (log_write_buffer w) ++ bw_buf (log_write_buffer w) = mjoin es;
  rep_offsets : entry_end_offsets w = offsets_from 0 es;
  rep_idle : pending_log_responses w = [] -> bw_buf (log_write_buffer w) = [];
  rep_pending : (length (pending_log_responses w) <= length es)%nat;
  rep_durable : mjoin (take (length es - length (pending_log_responses w)) es)
                  `prefix_of` bw_file (log_write_buffer w)
}.

Section refinement.
Context {CSV : Csv}.
Implicit Types w : PersistenceWorker.

Lemma write_all_bytes data b :
  bw_file (write_all data b) ++ bw_buf (write_all data b) = (bw_file b ++ bw_buf b) ++ data /\
  bw_file b `prefix_of` bw_file (write_all data b).
Proof.
  unfold write_all, bw_flush. destruct b as [f u]. simpl.
  assert (Hbig : BUF_CAPACITY <= vlen data -> ~ BUF_CAPACITY - vlen u < vlen data -> u = []).
  { intros. pose proof (vlen_nonneg u). destruct u; [done|]. unfold vlen in *. simpl in *. lia. }
  repeat case_decide; simpl; rewrite <- ?(assoc_L (++)); split; rewrite ?app_nil_r; try done;
    try by eexists. by rewrite Hbig, ?app_nil_r.
Qed.

Lemma flush_represents es w :
  represents es w ->
  represents es (flush_pending_logs w) /\ pending_log_responses (flush_pending_logs w) = [] /\
  bw_file (log_write_buffer (flush_pending_logs w)) = mjoin es /\
  response_queue (flush_pending_logs w) = response_queue w ++ pending_log_responses w /\
  vote_file (flush_pending_logs w) = vote_file w.
Proof.
  intros Hr. pose proof Hr as [Hb Ho Hi Hp Hd]. unfold flush_pending_logs. case_decide as Hnil; simpl.
  - rewrite Hnil, app_nil_r. rewrite (Hi Hnil), app_nil_r in Hb. done.
  - split_and!; try done. split; simpl; try done; [by rewrite app_nil_r|lia|].
    rewrite Nat.sub_0_r, firstn_all, Hb. done.
Qed.

Lemma append_represents es w id data :
  represents es w -> vlen (mjoin es) + vlen data < 2 ^ 64 ->
  represents (es ++ [data])
    (w <| log_write_buffer ::= write_all data |>
       <| entry_end_offsets ::= fun o => o ++ [default 0 (vlast (entry_end_offsets w)) +! vlen data] |>
       <| pending_log_responses ::= fun p => p ++ [PR_LogPersisted id] |>).
Proof.
  intros [Hb Ho Hi Hp Hd] Hsize. destruct (write_all_bytes data (log_write_buffer w)) as [Hw Hpre].
  pose proof (vlen_nonneg (mjoin es)). pose proof (vlen_nonneg data). split; simpl.
  - rewrite Hw, Hb, join_app. simpl. by rewrite app_nil_r.
  - rewrite Ho, offsets_from_last, offsets_from_app. simpl. rewrite u64_add_small by lia. done.
  - intros Hnil. by destruct (pending_log_responses w).
  - rewrite !length_app. simpl. lia.
  - rewrite !length_app. simpl.
    replace (length es + 1 - (length (pending_log_responses w) + 1))%nat
      with (length es - length (pending_log_responses w))%nat by lia.
    rewrite take_app_le by lia. by etrans.
Qed.

(** One task: the entries change as the abstract step says, and its response is sent after
    those of the tasks before it. *)
Lemma process_task_refines es es' t w :
  represents es w -> disk_step es t = Some es' -> vlen (mjoin es) + task_bytes t < 2 ^ 64 ->
  exists w', process_task t BATCH_SIZE w = Some w' /\ represents es' w' /\
    response_queue w' ++ pending_log_responses w' =
      (response_queue w ++ pending_log_responses w) ++ owed t /\
    vote_file w' = vote_file w ++ mjoin (csv_row <$> vote_rows t).
Proof.
  intros Hr Hs Hsize. destruct (flush_represents es w Hr) as (Hrf & Hpf & Hff & Hqf & Hvf).
  destruct t as [id t c|id data rid|n]; simpl in *.
  - simplify_eq. eexists. split; [reflexivity|]. destruct Hrf as [Hb Ho Hi Hp Hd].
    split_and!; [split; done| |]; simpl; [|by rewrite app_nil_r, Hvf].
    rewrite Hqf, Hpf. by rewrite app_nil_r.
  - simplify_eq. pose proof (append_represents es w id data Hr Hsize) as Ha.
    eexists. split; [reflexivity|]. case_decide; simpl.
    + destruct (flush_represents _ _ Ha) as (Hra & Hpa & _ & Hqa & Hva).
      split; [exact Hra|]. unfold write_log_entry_buffer. simpl in *. rewrite Hpa, Hqa, Hva. simpl.
      rewrite !app_nil_r. by rewrite (assoc_L (++)).
    + split; [exact Ha|]. simpl. rewrite app_nil_r. by rewrite (assoc_L (++)).
  - case_decide as Hn; [|done]. simplify_eq.
    assert (Hpos : (if decide (n = 0) then Some 0 else vget (entry_end_offsets (flush_pending_logs w)) (n - 1))
                   = Some (vlen (mjoin (vtruncate n es)))).
    { case_decide as Hz; [by rewrite Hz|]. rewrite (rep_offsets _ _ Hrf). rewrite offsets_from_get by lia. done. }
    rewrite Hpos. simpl. eexists. split; [reflexivity|]. destruct Hrf as [Hb Ho Hi Hp Hd].
    split_and!; simpl; [split; simpl| |].
    + rewrite Hff, set_len_prefix, (Hi Hpf). apply app_nil_r.
    + rewrite Ho. apply offsets_from_truncate.
    + intros _. by apply Hi.
    + rewrite Hpf. simpl. lia.
    + rewrite Hff, set_len_prefix. apply mjoin_take_prefix.
    + by rewrite Hqf, Hpf, !app_nil_r.
    + by rewrite Hvf, app_nil_r.
Qed.

Lemma disk_step_bytes es es' t :
  disk_step es t = Some es' -> vlen (mjoin es') <= vlen (mjoin es) + task_bytes t.
Proof.
  destruct t as [| |n]; simpl; intros Hs; simplify_eq; [lia| |].
  - rewrite join_app. simpl. rewrite app_nil_r, vlen_app. lia.
  - case_decide; [|done]. simplify_eq. destruct (mjoin_take_prefix (Z.to_nat n) es) as [k Hk].
    unfold vtruncate. rewrite Hk, vlen_app. pose proof (vlen_nonneg k). lia.
Qed.

(** Any number of tasks. *)
Lemma process_tasks_refines ts es es' w :
  represents es w -> disk_run ts es = Some es' -> vlen (mjoin es) + tasks_bytes ts < 2 ^ 64 ->
  exists w', process_tasks ts w = Some w' /\ represents es' w' /\
    response_queue w' ++ pending_log_responses w' =
      (response_queue w ++ pending_log_responses w) ++ mjoin (owed <$> ts) /\
    vote_file w' = vote_file w ++ mjoin (csv_row <$> mjoin (vote_rows <$> ts)).
Proof.
  revert es w. induction ts as [|t ts IH]; intros es w Hr Hd Hsize; simpl in *.
  { simplify_eq. exists w. by rewrite !app_nil_r. }
  destruct (disk_step es t) as [es1|] eqn:Hs; [|done]. simpl in Hd.
  pose proof (tasks_bytes_nonneg ts). pose proof (disk_step_bytes _ _ _ Hs).
  destruct (process_task_refines es es1 t w Hr Hs) as (w1 & -> & Hr1 & Hq1 & Hv1); [lia|]. simpl.
  destruct (IH es1 w1 Hr1 Hd) as (w2 & -> & Hr2 & Hq2 & Hv2); [lia|].
  exists w2. split_and!; [done|done| |].
  - rewrite Hq2, Hq1. by rewrite (assoc_L (++)).
  - rewrite Hv2, Hv1, <- (assoc_L (++)). by rewrite fmap_app, join_app.
Qed.

(** However many tasks the worker has taken, a response it has sent for a log entry means
    that the entry is in the file and not only in the buffer: only the last entries, as many
    as responses are held back, may still be buffered.  File and buffer together always hold
    exactly the entries the tasks describe, and no task panics unless it truncates past the
    end. *)
Theorem answered_entries_are_in_the_file ts es es' w :
  represents es w -> disk_run ts es = Some es' -> vlen (mjoin es) + tasks_bytes ts < 2 ^ 64 ->
  exists w', process_tasks ts w = Some w' /\
    let unanswered := length (pending_log_responses w') in
    let file := bw_file (log_write_buffer w') in
    (unanswered <= length es')%nat /\ mjoin (take (length es' - unanswered) es') `prefix_of` file /\
    file ++ bw_buf (log_write_buffer w') = mjoin es' /\
    response_queue w' ++ pending_log_responses w' =
      (response_queue w ++ pending_log_responses w) ++ mjoin (owed <$> ts).
Proof.
  intros Hr Hd Hsize. destruct (process_tasks_refines ts es es' w Hr Hd Hsize) as (w' & -> & [] & Hq & _).
  exists w'. done.
Qed.

Lemma disk_run_app ts1 ts2 es : disk_run (ts1 ++ ts2) es = let* es := disk_run ts1 es in disk_run ts2 es.
Proof.
  revert es. induction ts1 as [|t ts1 IH]; intros es; simpl; [done|].
  destruct (disk_step es t); simpl; [apply IH|done].
Qed.

Lemma tasks_bytes_app ts1 ts2 : tasks_bytes (ts1 ++ ts2) = tasks_bytes ts1 + tasks_bytes ts2.
Proof. induction ts1 as [|t ts1 IH]; simpl; [done|]. rewrite IH. lia. Qed.

Lemma disk_run_bytes ts es es' :
  disk_run ts es = Some es' -> vlen (mjoin es') <= vlen (mjoin es) + tasks_bytes ts.
Proof.
  revert es. induction ts as [|t ts IH]; intros es Hd; simpl in *; [simplify_eq; lia|].
  destruct (disk_step es t) as [es1|] eqn:Hs; [|done]. simpl in Hd.
  apply IH in Hd. apply disk_step_bytes in Hs. lia.
Qed.

(** Any number of turns of the loop. *)
Lemma run_turns_spec turns es es' w :
  represents es w -> pending_log_responses w = [] ->
  disk_run (mjoin turns) es = Some es' -> vlen (mjoin es) + tasks_bytes (mjoin turns) < 2 ^ 64 ->
  exists w', run_turns turns w = Some w' /\ pending_log_responses w' = [] /\
    bw_file (log_write_buffer w') = mjoin es' /\ bw_buf (log_write_buffer w') = [] /\
    entry_end_offsets w' = offsets_from 0 es' /\
    response_queue w' = response_queue w ++ mjoin (owed <$> mjoin turns) /\
    vote_file w' = vote_file w ++ mjoin (csv_row <$> mjoin (vote_rows <$> mjoin turns)).
Proof.
  revert es w. induction turns as [|ts turns IH]; intros es w Hr Hp Hd Hsize; simpl in *.
  { simplify_eq. exists w. rewrite !app_nil_r. destruct Hr as [Hb Ho Hi _ _]. specialize (Hi Hp).
    rewrite Hi, app_nil_r in Hb. done. }
  rewrite disk_run_app in Hd. destruct (disk_run ts es) as [es1|] eqn:Hd1; [|done]. simpl in Hd.
  rewrite tasks_bytes_app in Hsize. pose proof (tasks_bytes_nonneg (mjoin turns)).
  pose proof (disk_run_bytes _ _ _ Hd1). unfold run_turn.
  destruct (process_tasks_refines ts es es1 w Hr Hd1) as (w1 & -> & Hr1 & Hq1 & Hv1); [lia|]. simpl.
  destruct (flush_represents es1 w1 Hr1) as (Hrf & Hpf & _ & Hqf & Hvf).
  destruct (IH es1 (flush_pending_logs w1) Hrf Hpf Hd) as (w2 & -> & Hp2 & Hf2 & Hb2 & Ho2 & Hq2 & Hv2); [lia|].
  exists w2. split_and!; try done.
  - rewrite Hq2, Hqf, Hq1, Hp, app_nil_r. by rewrite fmap_app, join_app, (assoc_L (++)).
  - rewrite Hv2, Hvf, Hv1, <- (assoc_L (++)). by rewrite !fmap_app, !join_app, fmap_app, join_app.
Qed.

(** C20: After every turn of its loop the worker has written exactly the entries the tasks
    describe, in order, with the offsets at their ends; it has sent one response per vote and
    log task, in the order of the tasks; and the vote file has one row per vote, in order.
    How the tasks are split into turns makes no difference. *)
Theorem run_turns_refines turns turns' es es' w :
  represents es w -> pending_log_responses w = [] ->
  disk_run (mjoin turns) es = Some es' -> vlen (mjoin es) + tasks_bytes (mjoin turns) < 2 ^ 64 ->
  mjoin turns' = mjoin turns ->
  exists w', run_turns turns w = Some w' /\ run_turns turns' w = Some w' /\
    log_write_buffer w' = mkBufWriter (mjoin es') [] /\
    entry_end_offsets w' = offsets_from 0 es' /\
    response_queue w' = response_queue w ++ mjoin (owed <$> mjoin turns) /\
    vote_file w' = vote_file w ++ mjoin (csv_row <$> mjoin (vote_rows <$> mjoin turns)).
Proof.
  intros Hr Hp Hd Hsize Heq.
  destruct (run_turns_spec turns es es' w Hr Hp Hd Hsize) as (w1 & -> & Hp1 & Hf1 & Hb1 & Ho1 & Hq1 & Hv1).
  rewrite <- Heq in Hd, Hsize.
  destruct (run_turns_spec turns' es es' w Hr Hp Hd Hsize) as (w2 & -> & Hp2 & Hf2 & Hb2 & Ho2 & Hq2 & Hv2).
  rewrite Heq in Hq2, Hv2. exists w1.
  destruct w1 as [q1 o1 [f1 b1] v1 p1], w2 as [q2 o2 [f2 b2] v2 p2]. simpl in *. by simplify_eq.
Qed.

(** A turn with one log task. *)
Lemma run_turn_single id data rid w :
  pending_log_responses w = [] ->
  run_turn [PT_AppendLog id data rid] w =
  Some (mkPersistenceWorker (response_queue w ++ [PR_LogPersisted id])
          (entry_end_offsets w ++ [default 0 (vlast (entry_end_offsets w)) +! vlen data])
          (bw_flush (write_all data (log_write_buffer w))) (vote_file w) []).
Proof.
  intros Hp. unfold run_turn, process_tasks, process_task, write_log_entry_buffer. cbn [mbind option_bind].
  simpl. rewrite Hp. rewrite decide_False by (vm_compute; by intros []). done.
Qed.

End refinement.

(** ** A concrete worker *)

(** Rows as the bits of their code, one marked byte per bit and an end mark. *)
#[export] Instance VoteRow_eq_dec : EqDecision VoteRow.
Proof. solve_decision. Defined.

#[export] Program Instance VoteRow_countable : Countable VoteRow :=
  inj_countable' (fun r => (vote_term r, vote_candidate_id r)) (fun '(t, c) => mkVoteRow t c) _.
Next Obligation. by intros []. Qed.

Fixpoint bit_rows (fuel : nat) (bs : list byte) : option (list VoteRow) :=
  match bs, fuel with
  | [], _ => Some []
  | _, O => None
  | _, S fuel =>
    let* (p, rest) := unframe bs in
    let* row := decode p in
    let* rows := bit_rows fuel rest in
    Some (row :: rows)
  end.

#[export] Instance bit_csv : Csv := {|
  csv_row := fun r => frame (encode r);
  csv_rows := fun bs => bit_rows (length bs) bs
|}.

#[export] Instance bit_csv_laws : CsvLaws.
Proof.
  intros rows. unfold csv_rows, csv_row. simpl.
  assert (Hfuel : forall n, (length (mjoin ((fun r => frame (encode r)) <$> rows)) <= n)%nat ->
    bit_rows n (mjoin ((fun r => frame (encode r)) <$> rows)) = Some rows); [|by apply Hfuel].
  induction rows as [|r rows IH]; intros n Hn; [by destruct n|].
  change (mjoin (?f <$> r :: rows)) with (f r ++ mjoin (f <$> rows)) in *. cbv beta in *.
  rewrite length_app in Hn. pose proof (frame_nonempty (encode r)) as Hne.
  destruct (frame (encode r)) as [|b f] eqn:Hf; [done|]. cbn [length] in Hn.
  destruct n as [|n]; [lia|]. cbn [bit_rows app]. change (b :: f ++ ?x) with ((b :: f) ++ x).
  rewrite <- Hf, unframe_frame. simpl. rewrite decode_encode. simpl. rewrite IH by lia. done.
Qed.

Definition new_worker : PersistenceWorker := PersistenceWorker_new [] [] [].

Lemma new_worker_represents : represents [] new_worker.
Proof. by split. Qed.

Lemma answered_entries_are_in_the_file_witness :
  exists w', process_tasks [PT_AppendLog 1 [Init.Byte.x07] 1; PT_AppendVote 2 1 1] new_worker = Some w' /\
    response_queue w' ++ pending_log_responses w' = [PR_LogPersisted 1; PR_VotePersisted 2 1 1].
Proof.
  destruct (answered_entries_are_in_the_file [PT_AppendLog 1 [Init.Byte.x07] 1; PT_AppendVote 2 1 1] []
    [[Init.Byte.x07]] new_worker new_worker_represents) as (w' & Hw & _ & _ & _ & Hq);
    [reflexivity|vm_compute; reflexivity|]. exists w'. split; [exact Hw|exact Hq].
Defined.

Lemma run_turns_refines_witness :
  exists w', run_turns [[PT_AppendLog 1 [Init.Byte.x07] 1; PT_AppendLog 2 [Init.Byte.x08] 2]; [PT_TruncateLog 1]] new_worker = Some w' /\
    entry_end_offsets w' = [1].
Proof.
  destruct (run_turns_refines [[PT_AppendLog 1 [Init.Byte.x07] 1; PT_AppendLog 2 [Init.Byte.x08] 2]; [PT_TruncateLog 1]]
    [[PT_AppendLog 1 [Init.Byte.x07] 1; PT_AppendLog 2 [Init.Byte.x08] 2; PT_TruncateLog 1]]
    [] [[Init.Byte.x07]] new_worker new_worker_represents) as (w' & Hw & _ & _ & Ho & _);
    [reflexivity|reflexivity|vm_compute; reflexivity|reflexivity|]. exists w'. split; [exact Hw|exact Ho].
Defined.
