(* ===== verification/Startup.v ===== *)
(** * Startup and recovery

    [src/startup/recovery.rs], [src/startup/state.rs], [src/startup/queues.rs] and the part
    of [src/main.rs] that computes the quorum and wires a node together. *)
From S2P Require Import Prelude Capnp RaftTypes Persistence.

Section recovery.
Context {CP : Capnp}.

Record RecoveredData := mkRecoveredData {
  rd_replication_log : list OwnedLogEntry;
  rd_term_start_index : gmap Z Z;
  rd_last_log_index : Z;
  rd_last_log_term : Z;
  rd_term_votes : gmap Z Z;
  rd_next_term : Z;
  rd_log_entry_end_offsets : list Z
}.

(** The [while offset < log_bytes.len()] loop of [deserialize_replication_log] on the bytes
    from [offset] on; [None] when the fuel runs out. *)
Fixpoint parse_entries (fuel : nat) (offset : Z) (bytes : list byte)
    : option (list OwnedLogEntry * list Z) :=
  match bytes with
  | [] => Some ([], [])
  | _ =>
    match fuel with
    | O => None
    | S fuel =>
      match read_message_from_flat_slice bytes with
      | Some (_, slice) =>
        let bytes_consumed := (length bytes - length slice)%nat in
        let entry_bytes := take bytes_consumed bytes in
        let offset := offset + Z.of_nat bytes_consumed in
        let* (entries, offsets) := parse_entries fuel offset (drop bytes_consumed bytes) in
        match from_bytes entry_bytes with
        | Some entry => Some (entry :: entries, offset :: offsets)
        | None => Some (entries, offsets)
        end
      | None => Some ([], [])
      end
    end
  end.

(** "Build term start index map". *)
Fixpoint term_starts (i prev_term : Z) (l : list OwnedLogEntry) (m : gmap Z Z) : gmap Z Z :=
  match l with
  | [] => m
  | entry :: l =>
    let entry_term := term entry in
    if decide (entry_term <> prev_term)
    then term_starts (i + 1) entry_term l (<[entry_term := i]> m)
    else term_starts (i + 1) prev_term l m
  end.

(** [deserialize_replication_log]; a message takes at least one byte, so the length of the
    file is fuel enough. *)
Definition deserialize_replication_log (log_bytes : list byte)
    : option (list OwnedLogEntry * gmap Z Z * Z * Z * list Z) :=
  if decide (log_bytes = []) then Some ([], ∅, 0, 0, [])
  else
    let* (replication_log, entry_end_offsets) := parse_entries (length log_bytes) 0 log_bytes in
    let term_start_index := term_starts 0 0 replication_log ∅ in
    let last_entry := vlast replication_log in
    let last_log_index := default 0 (index <$> last_entry) in
    let last_log_term := default 0 (term <$> last_entry) in
    Some (replication_log, term_start_index, last_log_index, last_log_term, entry_end_offsets).

(** [process_votes]. *)
Definition process_votes (votes : list VoteRow) (last_log_term : Z) : gmap Z Z * Z :=
  let highest_term := fold_left (fun m v => Z.max m (vote_term v)) votes 0 in
  let next_term := Z.max highest_term last_log_term +! 1 in
  let term_votes := fold_left (fun m v => <[vote_term v := vote_candidate_id v]> m) votes ∅ in
  (term_votes, next_term).

(** [recover_persisted_data]. *)
Definition recover_persisted_data (log_bytes : list byte) (votes : list VoteRow) : option RecoveredData :=
  let* (replication_log, term_start_index, last_log_index, last_log_term, log_entry_end_offsets) :=
    deserialize_replication_log log_bytes in
  let '(term_votes, next_term) := process_votes votes last_log_term in
  Some (mkRecoveredData replication_log term_start_index last_log_index last_log_term term_votes
          next_term log_entry_end_offsets).

(** ** [startup/state.rs] *)

Definition create_commit_state : CommitState := mkCommitState 0 0.

Definition create_server_state : RaftServerState := mkRaftServerState 0 0.

Definition create_volatile_state (recovered : RecoveredData) (commit_state : CommitState) : RaftVolatileState :=
  mkRaftVolatileState 0 0 (rd_last_log_index recovered) (rd_last_log_term recovered)
    (rd_next_term recovered) (rd_last_log_index recovered +! 1) (rd_replication_log recovered)
    (rd_term_start_index recovered) commit_state None false.

(** [create_shared_state] on new queues ([AppQueues::new]), for the new bus [bus]. *)
Definition create_shared_state {B} (recovered : RecoveredData) (commit_state : CommitState)
    (quorum_worker_tasks : list (list LocalQuorumWorkerTaskType)) (node_id quorum_size : Z)
    (max_message_size_bytes : Z) (bus : B) : SharedState B :=
  mkSharedState create_server_state (create_volatile_state recovered commit_state)
    (mkSender true []) [] [] node_id (rd_term_votes recovered) 0 ∅ quorum_size quorum_worker_tasks
    max_message_size_bytes bus (mkCallbacks [] ∅).

End recovery.

(** ** [main.rs] *)

(** [(cfg.cluster_nodes.len() as u32).div_ceil(2)]. *)
Definition calculate_quorum_size (cluster_nodes : Z) : Z := (cluster_nodes + 1) / 2.

(** The nodes other than [node_id], in the configured order: one quorum worker each. *)
Definition cluster_nodes_without_self (cluster_nodes : list Z) (node_id : Z) : list Z :=
  filter (fun n => n <> node_id) cluster_nodes.

(** What [main] starts a node with: the recovered files, one empty task queue per other
    node, and the persistence worker with the recovered offsets. *)
Definition start_node {CP : Capnp} {CSV : Csv} {B} (log_file vote_file : list byte)
    (cluster_nodes : list Z) (node_id max_message_size_bytes : Z) (bus : B)
    : option (SharedState B * PersistenceWorker) :=
  let* votes := read_votes vote_file in
  let* recovered := recover_persisted_data (read_log log_file) votes in
  let worker := PersistenceWorker_new log_file vote_file (rd_log_entry_end_offsets recovered) in
  let others := cluster_nodes_without_self cluster_nodes node_id in
  Some (create_shared_state recovered create_commit_state (map (fun _ => []) others) node_id
          (calculate_quorum_size (vlen cluster_nodes)) max_message_size_bytes bus, worker).
