(* ===== verification/Bus.v ===== *)
(** * The broadcast bus

    The [bus] crate that carries committed entries from the state machine to the query
    workers is not under src/: [Bus] is its interface and [BusLaws] what its documentation
    promises.  Four implementations show that the laws can hold. *)
From S2P Require Import Prelude Capnp.

(** ** Interface

    [Bus::try_broadcast] either hands the entry to every reader or, when the ring is full,
    refuses it.  The readers run concurrently, so what a later call answers is up to the
    implementation; the state after a call is part of its answer. *)

Class Bus (B : Type) := try_broadcast : OwnedLogEntry -> B -> bool * B.

(** What the readers of the bus were given, in order. *)
Class BusLog (B : Type) := bus_log : B -> list OwnedLogEntry.

Class BusLaws (B : Type) `{Bus B, BusLog B} : Prop := {
  try_broadcast_ok e b b' : try_broadcast e b = (true, b') -> bus_log b' = bus_log b ++ [e];
  try_broadcast_full e b b' : try_broadcast e b = (false, b') -> bus_log b' = bus_log b
}.

(** ** A bus whose refusals are scripted

    [answers] says what the next calls answer; an exhausted script accepts. *)

Record ScriptedBus := mkScriptedBus {
  sb_sent : list OwnedLogEntry;
  sb_answers : list bool
}.

#[export] Instance scripted_bus : Bus ScriptedBus := fun e b =>
  match sb_answers b with
  | false :: answers => (false, mkScriptedBus (sb_sent b) answers)
  | _ :: answers => (true, mkScriptedBus (sb_sent b ++ [e]) answers)
  | [] => (true, mkScriptedBus (sb_sent b ++ [e]) [])
  end.

#[export] Instance scripted_bus_log : BusLog ScriptedBus := sb_sent.

#[export] Instance scripted_bus_laws : BusLaws ScriptedBus.
Proof.
  split; intros e [sent answers] b'; unfold try_broadcast, scripted_bus; simpl;
    destruct answers as [|[] answers]; intros; by simplify_eq/=.
Qed.

(** ** A ring of fixed capacity whose readers do not move *)

Record RingBus := mkRingBus {
  rb_capacity : nat;
  rb_delivered : list OwnedLogEntry;
  rb_pending : list OwnedLogEntry
}.

#[export] Instance ring_bus : Bus RingBus := fun e b =>
  if decide (length (rb_pending b) < rb_capacity b)%nat
  then (true, mkRingBus (rb_capacity b) (rb_delivered b) (rb_pending b ++ [e]))
  else (false, b).

#[export] Instance ring_bus_log : BusLog RingBus := fun b => rb_delivered b ++ rb_pending b.

#[export] Instance ring_bus_laws : BusLaws RingBus.
Proof.
  split; intros e b b'; unfold try_broadcast, ring_bus, bus_log, ring_bus_log;
    case_decide; intros; simplify_eq/=; [|done]. by rewrite (assoc_L (++)).
Qed.

(** ** A full ring whose readers have stopped *)

Record FullBus := mkFullBus { fb_delivered : list OwnedLogEntry }.

#[export] Instance full_bus : Bus FullBus := fun _ b => (false, b).

#[export] Instance full_bus_log : BusLog FullBus := fb_delivered.

#[export] Instance full_bus_laws : BusLaws FullBus.
Proof. split; intros ? ? ? Hb; unfold try_broadcast, full_bus in Hb; by simplify_eq. Qed.

(** ** A ring whose reader makes room between two attempts *)

Record StutterBus := mkStutterBus {
  st_delivered : list OwnedLogEntry;
  st_ready : bool
}.

#[export] Instance stutter_bus : Bus StutterBus := fun e b =>
  if st_ready b then (true, mkStutterBus (st_delivered b ++ [e]) false)
  else (false, mkStutterBus (st_delivered b) true).

#[export] Instance stutter_bus_log : BusLog StutterBus := st_delivered.

#[export] Instance stutter_bus_laws : BusLaws StutterBus.
Proof. split; intros e [l []] b' Hb; unfold try_broadcast, stutter_bus in Hb; simpl in Hb; by simplify_eq. Qed.
