(* ===== verification/QuorumMessage.v ===== *)
(** * Messages between nodes

    [src/transport/capnp/owned_message.rs]: the bytes of a quorum message and the functions
    that build one. *)
From S2P Require Import Prelude Capnp.

Section messages.
Context {CP : Capnp}.

(** [OwnedQuorumMessage { bytes: Arc<[u8]> }]. *)
Record OwnedQuorumMessage := mkOwnedQuorumMessage { quorum_bytes : list byte }.

(** [OwnedQuorumMessage::from_bytes]. *)
Definition quorum_from_bytes (bytes : list byte) : option OwnedQuorumMessage :=
  match read_message_from_flat_slice bytes with
  | Some _ => Some (mkOwnedQuorumMessage bytes)
  | None => None
  end.

(** [OwnedQuorumMessage::with_message]. *)
Definition quorum_with_message {R} (m : OwnedQuorumMessage) (f : RemoteQuorumMessage -> R) : option R :=
  match read_message_from_flat_slice (quorum_bytes m) with
  | Some (reader, _) =>
    match quorum_message_root reader with
    | Some msg => Some (f msg)
    | None => None
    end
  | None => None
  end.

(** [build_owned_message]: not re-parsed, so it cannot fail. *)
Definition build_owned_message (m : RemoteQuorumMessage) : OwnedQuorumMessage :=
  mkOwnedQuorumMessage (write_quorum_message m).

Definition build_heartbeat_message (term leader_id prev_log_index prev_log_term commit_index
    request_id : Z) : OwnedQuorumMessage :=
  build_owned_message (AppendEntriesRequest
    (mkRemoteAppendEntriesRequest term leader_id prev_log_index prev_log_term request_id None
       commit_index)).

Definition build_vote_request_message (term candidate_id last_log_index last_log_term
    request_id : Z) : OwnedQuorumMessage :=
  build_owned_message (VoteRequest
    (mkRemoteVoteRequest term candidate_id last_log_index last_log_term request_id)).

Definition build_vote_response_message (vote_granted : bool) (request_id term : Z)
    : OwnedQuorumMessage :=
  build_owned_message (VoteResponse (mkRemoteVoteResponse vote_granted request_id term)).

(** What the closure of [build_append_entries_message] writes into [init_entry]: the header
    of the entry, and all its bytes as data. *)
Definition remote_log_entry (log_entry : OwnedLogEntry) (reader : InternalLogEntry) : RemoteLogEntry :=
  mkRemoteLogEntry (le_index reader) (Some (as_bytes log_entry)) (le_index reader) (le_term reader)
    (le_prev_log_term reader) (le_prev_log_index reader) (le_message_id reader).

(** An entry that does not parse is only logged, and the message goes out without it. *)
Definition build_append_entries_message (term leader_id prev_log_index prev_log_term request_id
    commit_index : Z) (entry : option OwnedLogEntry) : OwnedQuorumMessage :=
  build_owned_message (AppendEntriesRequest
    (mkRemoteAppendEntriesRequest term leader_id prev_log_index prev_log_term request_id
       (match entry with
        | Some log_entry => Some <$> with_message log_entry (remote_log_entry log_entry)
        | None => None
        end)
       commit_index)).

Definition build_append_entries_ack_message (last_log_term last_log_index request_id : Z)
    (ok : bool) : OwnedQuorumMessage :=
  build_owned_message (AppendEntriesAcknowledge
    (mkRemoteAppendEntriesAcknowledge last_log_term last_log_index request_id ok)).

(** A fresh union is its first variant with a null pointer, which reads as the default. *)
Definition uninitialized_payload : RemoteQuorumMessage := ConnectRequest 0.

(** One request of [build_put_batch_request_message]; a pointer that is not set reads as
    its default. *)
Definition to_remote_put (r : InternalPutRequest) : RemotePutRequest :=
  mkRemotePutRequest (Some (default [] (put_id r)))
    (Some (default [] (from_utf8_lossy <$> put_payload r))) (put_node_id r).

Definition build_put_batch_request_message (batch : OwnedWriteBatch) : OwnedQuorumMessage :=
  build_owned_message (default uninitialized_payload
    (batch_with_message batch (fun reader =>
       PutBatchRequest (mkRemotePutBatchRequest
         (Some (to_remote_put <$> default [] (wb_requests reader)))
         (Some (default [] (wb_batch_id reader))))))).

(** One response of [build_put_batch_response_message], of [on_put_batch_response_capnp] and
    of [respond_to_batch_callbacks]. *)
Definition copy_put_response (r : InternalPutResponse) : InternalPutResponse :=
  mkInternalPutResponse (Some (default [] (pr_id r)))
    (Some (default Unspecified (pr_response_type r))) (Some (default [] (pr_message r)))
    (pr_node_id r) (Some (default [] (pr_batch_id r))).

Definition build_put_batch_response_message (response : OwnedWriteBatchResponse) (batch_id : Text)
    : OwnedQuorumMessage :=
  build_owned_message (default uninitialized_payload
    (response_with_message response (fun reader =>
       PutBatchResponse (mkRemotePutBatchResponse
         (Some (copy_put_response <$> default [] (wr_responses reader)))
         (Some batch_id))))).

Definition build_truncate_log_request_message (prev_term prev_index term leader_id request_id : Z)
    : OwnedQuorumMessage :=
  build_owned_message (TruncateLogRequest
    (mkRemoteTruncateLogRequest prev_term prev_index term leader_id request_id)).

Definition build_truncate_log_response_message (request_id : Z) (ok : bool) : OwnedQuorumMessage :=
  build_owned_message (TruncateLogResponse (mkRemoteTruncateLogResponse request_id ok)).

End messages.

Section facts.
Context `{CapnpLaws}.

Lemma quorum_with_message_built {R} m (f : RemoteQuorumMessage -> R) :
  quorum_message_built m -> quorum_with_message (build_owned_message m) f = Some (f m).
Proof.
  intros Hm. destruct (read_write_quorum_message m [] Hm) as (r & Hr & Hroot).
  rewrite app_nil_r in Hr. unfold quorum_with_message. simpl. by rewrite Hr, Hroot.
Qed.

Lemma quorum_with_message_small {R} m (f : RemoteQuorumMessage -> R) :
  quorum_message_made m -> quorum_message_words m <= traversal_limit_in_words ->
  quorum_with_message (build_owned_message m) f = Some (f m).
Proof. intros Hm Hw. by apply quorum_with_message_built, quorum_message_small_built. Qed.

(** A message read back is the one that was written, whatever its size. *)
Lemma quorum_with_message_made m m' :
  quorum_message_made m -> quorum_with_message (build_owned_message m) id = Some m' -> m' = m.
Proof.
  intros Hm. unfold quorum_with_message. simpl. destruct (read_message_from_flat_slice _) as [[r rest]|] eqn:Hr; [|done].
  destruct (quorum_message_reads_back _ _ _ Hm Hr) as [_ ->]. by intros [= <-].
Qed.

Lemma remote_log_entry_ranges e reader :
  log_entry_ranges reader -> remote_entry_ranges (remote_log_entry e reader).
Proof. intros (? & ? & ? & ? & ? & ?). unfold remote_entry_ranges. naive_solver. Qed.

Lemma with_message_ranges e reader :
  with_message e id = Some reader -> log_entry_ranges reader.
Proof.
  unfold with_message. destruct (read_message_from_flat_slice _) as [[r rest]|]; [|done].
  destruct (log_entry_root r) eqn:He; [|done]. intros. simplify_eq/=. by apply log_entry_root_ranges in He.
Qed.

(** A readable entry: every field accessor reads the same root. *)
Lemma with_message_fields e reader :
  with_message e id = Some reader ->
  forall R (f : InternalLogEntry -> R), with_message e f = Some (f reader).
Proof.
  unfold with_message. destruct (read_message_from_flat_slice _) as [[r rest]|]; [|done].
  destruct (log_entry_root r); [|done]. intros. by simplify_eq/=.
Qed.

Lemma copy_put_response_built r : u32 (pr_node_id r) -> put_response_built (copy_put_response r).
Proof. intros. unfold put_response_built. split_and!; simpl; first [done|by eexists]. Qed.

Lemma Forall_fmap_built {A C} (f : A -> C) (P : A -> Prop) (Q : C -> Prop) l :
  (forall x, P x -> Q (f x)) -> Forall P l -> Forall Q (f <$> l).
Proof. intros Hf Hl. apply Forall_fmap. revert Hl. by apply Forall_impl. Qed.

Lemma copy_put_response_id p : put_response_built p -> copy_put_response p = p.
Proof. intros ([] & [] & [] & ? & []). destruct p; simpl in *. by subst. Qed.

Lemma copy_put_responses_id rs : Forall put_response_built rs -> copy_put_response <$> rs = rs.
Proof.
  induction 1 as [|p rs Hp Hrs IH]; [done|]. rewrite fmap_cons, IH. by rewrite copy_put_response_id.
Qed.

Lemma response_with_message_written {R} b (f : InternalWriteBatchResponse -> R) :
  write_batch_response_built b ->
  response_with_message (mkOwnedWriteBatchResponse (write_write_batch_response b)) f = Some (f b).
Proof.
  intros Hb. destruct (read_write_batch_response b [] Hb) as (r & Hr & Hroot).
  rewrite app_nil_r in Hr. unfold response_with_message. simpl. by rewrite Hr, Hroot.
Qed.

Lemma build_owned_write_batch_response_ok b :
  write_batch_response_built b ->
  build_owned_write_batch_response b = Some (mkOwnedWriteBatchResponse (write_write_batch_response b)).
Proof.
  intros Hb. destruct (read_write_batch_response b [] Hb) as (r & Hr & _).
  rewrite app_nil_r in Hr. unfold build_owned_write_batch_response, response_from_bytes. by rewrite Hr.
Qed.

End facts.
