(* ===== verification/QuorumWorker.v ===== *)
(** * The quorum worker

    [src/quorum/quorum_worker/]: one worker per other node.  It turns the tasks of the state
    machine into messages to that node and the messages of that node into requests and
    responses for the state machine.  Receiver and sender halves of connections come from the
    stream manager, whose answers are arguments; the [Instant]s kept for metrics are left
    out. *)
From S2P Require Import Prelude Capnp RaftTypes QuorumMessage.

Definition MAX_MESSAGES_PER_ITERATION : nat := 32.

Definition HEARTBEAT_INTERVAL_MS : Z := 100.

Section worker.
Context {CP : Capnp}.

(** ** Data *)

(** A crossbeam receiver: what is waiting, and whether a sender is still there. *)
Record Receiver := mkReceiver { rx_queue : list OwnedQuorumMessage; rx_connected : bool }.

Record OngoingBackfill := mkOngoingBackfill { from_term : Z; from_index : Z }.

Inductive PendingQuorumTaskEnum :=
| PQ_Vote (request_id term : Z)
| PQ_AppendEntries (request_id log_index term : Z)
| PQ_PutBatch (batch_id : Text).

Record PendingQuorumTask := mkPendingQuorumTask {
  pq_callback : Callback;
  pq_task : PendingQuorumTaskEnum
}.

(** What [try_recv] of a one-shot receiver answers. *)
Inductive TryRecv :=
| TR_Received (response : LocalRaftResponsePayload)
| TR_Empty
| TR_Closed.

(** The worker with the local variable [pending_tasks] of its [run]; [qw_next_channel] names
    the next one-shot channel it creates and [qw_write_responses] are the responses it has
    sent to write callbacks. *)
Record QuorumWorker := mkQuorumWorker {
  qw_work_queue : list LocalQuorumWorkerTaskType;
  qw_response_queue : list LocalQuorumTaskResponseType;
  qw_task_queue : list LocalRaftMessage;
  qw_outbound_tx : option (Sender OwnedQuorumMessage);
  qw_inbound_rx : option Receiver;
  qw_self_id : Z;
  qw_member_id : Z;
  qw_term : Z;
  qw_prev_log_index : Z;
  qw_prev_log_term : Z;
  qw_commit_index : Z;
  qw_next_index : Z;
  qw_send_heartbeats : bool;
  qw_last_heartbeat : Z;
  qw_ongoing_backfill : option OngoingBackfill;
  qw_pending_write_batches : gmap Text Callback;
  qw_pending_append_entries : gset Z;
  qw_max_message_size_bytes : Z;
  qw_pending_tasks : list PendingQuorumTask;
  qw_next_channel : nat;
  qw_write_responses : list (Callback * WriteResponse)
}.

#[export] Instance set_qw_work_queue : Setter qw_work_queue := fun g (w : QuorumWorker) =>
  mkQuorumWorker (g (qw_work_queue w)) (qw_response_queue w) (qw_task_queue w) (qw_outbound_tx w) (qw_inbound_rx w) (qw_self_id w) (qw_member_id w) (qw_term w) (qw_prev_log_index w) (qw_prev_log_term w) (qw_commit_index w) (qw_next_index w) (qw_send_heartbeats w) (qw_last_heartbeat w) (qw_ongoing_backfill w) (qw_pending_write_batches w) (qw_pending_append_entries w) (qw_max_message_size_bytes w) (qw_pending_tasks w) (qw_next_channel w) (qw_write_responses w).
Arguments set_qw_work_queue _ _ /.
#[export] Instance set_qw_response_queue : Setter qw_response_queue := fun g (w : QuorumWorker) =>
  mkQuorumWorker (qw_work_queue w) (g (qw_response_queue w)) (qw_task_queue w) (qw_outbound_tx w) (qw_inbound_rx w) (qw_self_id w) (qw_member_id w) (qw_term w) (qw_prev_log_index w) (qw_prev_log_term w) (qw_commit_index w) (qw_next_index w) (qw_send_heartbeats w) (qw_last_heartbeat w) (qw_ongoing_backfill w) (qw_pending_write_batches w) (qw_pending_append_entries w) (qw_max_message_size_bytes w) (qw_pending_tasks w) (qw_next_channel w) (qw_write_responses w).
Arguments set_qw_response_queue _ _ /.
#[export] Instance set_qw_task_queue : Setter qw_task_queue := fun g (w : QuorumWorker) =>
  mkQuorumWorker (qw_work_queue w) (qw_response_queue w) (g (qw_task_queue w)) (qw_outbound_tx w) (qw_inbound_rx w) (qw_self_id w) (qw_member_id w) (qw_term w) (qw_prev_log_index w) (qw_prev_log_term w) (qw_commit_index w) (qw_next_index w) (qw_send_heartbeats w) (qw_last_heartbeat w) (qw_ongoing_backfill w) (qw_pending_write_batches w) (qw_pending_append_entries w) (qw_max_message_size_bytes w) (qw_pending_tasks w) (qw_next_channel w) (qw_write_responses w).
Arguments set_qw_task_queue _ _ /.
#[export] Instance set_qw_outbound_tx : Setter qw_outbound_tx := fun g (w : QuorumWorker) =>
  mkQuorumWorker (qw_work_queue w) (qw_response_queue w) (qw_task_queue w) (g (qw_outbound_tx w)) (qw_inbound_rx w) (qw_self_id w) (qw_member_id w) (qw_term w) (qw_prev_log_index w) (qw_prev_log_term w) (qw_commit_index w) (qw_next_index w) (qw_send_heartbeats w) (qw_last_heartbeat w) (qw_ongoing_backfill w) (qw_pending_write_batches w) (qw_pending_append_entries w) (qw_max_message_size_bytes w) (qw_pending_tasks w) (qw_next_channel w) (qw_write_responses w).
Arguments set_qw_outbound_tx _ _ /.
#[export] Instance set_qw_inbound_rx : Setter qw_inbound_rx := fun g (w : QuorumWorker) =>
  mkQuorumWorker (qw_work_queue w) (qw_response_queue w) (qw_task_queue w) (qw_outbound_tx w) (g (qw_inbound_rx w)) (qw_self_id w) (qw_member_id w) (qw_term w) (qw_prev_log_index w) (qw_prev_log_term w) (qw_commit_index w) (qw_next_index w) (qw_send_heartbeats w) (qw_last_heartbeat w) (qw_ongoing_backfill w) (qw_pending_write_batches w) (qw_pending_append_entries w) (qw_max_message_size_bytes w) (qw_pending_tasks w) (qw_next_channel w) (qw_write_responses w).
Arguments set_qw_inbound_rx _ _ /.
#[export] Instance set_qw_self_id : Setter qw_self_id := fun g (w : QuorumWorker) =>
  mkQuorumWorker (qw_work_queue w) (qw_response_queue w) (qw_task_queue w) (qw_outbound_tx w) (qw_inbound_rx w) (g (qw_self_id w)) (qw_member_id w) (qw_term w) (qw_prev_log_index w) (qw_prev_log_term w) (qw_commit_index w) (qw_next_index w) (qw_send_heartbeats w) (qw_last_heartbeat w) (qw_ongoing_backfill w) (qw_pending_write_batches w) (qw_pending_append_entries w) (qw_max_message_size_bytes w) (qw_pending_tasks w) (qw_next_channel w) (qw_write_responses w).
Arguments set_qw_self_id _ _ /.
#[export] Instance set_qw_member_id : Setter qw_member_id := fun g (w : QuorumWorker) =>
  mkQuorumWorker (qw_work_queue w) (qw_response_queue w) (qw_task_queue w) (qw_outbound_tx w) (qw_inbound_rx w) (qw_self_id w) (g (qw_member_id w)) (qw_term w) (qw_prev_log_index w) (qw_prev_log_term w) (qw_commit_index w) (qw_next_index w) (qw_send_heartbeats w) (qw_last_heartbeat w) (qw_ongoing_backfill w) (qw_pending_write_batches w) (qw_pending_append_entries w) (qw_max_message_size_bytes w) (qw_pending_tasks w) (qw_next_channel w) (qw_write_responses w).
Arguments set_qw_member_id _ _ /.
#[export] Instance set_qw_term : Setter qw_term := fun g (w : QuorumWorker) =>
  mkQuorumWorker (qw_work_queue w) (qw_response_queue w) (qw_task_queue w) (qw_outbound_tx w) (qw_inbound_rx w) (qw_self_id w) (qw_member_id w) (g (qw_term w)) (qw_prev_log_index w) (qw_prev_log_term w) (qw_commit_index w) (qw_next_index w) (qw_send_heartbeats w) (qw_last_heartbeat w) (qw_ongoing_backfill w) (qw_pending_write_batches w) (qw_pending_append_entries w) (qw_max_message_size_bytes w) (qw_pending_tasks w) (qw_next_channel w) (qw_write_responses w).
Arguments set_qw_term _ _ /.
#[export] Instance set_qw_prev_log_index : Setter qw_prev_log_index := fun g (w : QuorumWorker) =>
  mkQuorumWorker (qw_work_queue w) (qw_response_queue w) (qw_task_queue w) (qw_outbound_tx w) (qw_inbound_rx w) (qw_self_id w) (qw_member_id w) (qw_term w) (g (qw_prev_log_index w)) (qw_prev_log_term w) (qw_commit_index w) (qw_next_index w) (qw_send_heartbeats w) (qw_last_heartbeat w) (qw_ongoing_backfill w) (qw_pending_write_batches w) (qw_pending_append_entries w) (qw_max_message_size_bytes w) (qw_pending_tasks w) (qw_next_channel w) (qw_write_responses w).
Arguments set_qw_prev_log_index _ _ /.
#[export] Instance set_qw_prev_log_term : Setter qw_prev_log_term := fun g (w : QuorumWorker) =>
  mkQuorumWorker (qw_work_queue w) (qw_response_queue w) (qw_task_queue w) (qw_outbound_tx w) (qw_inbound_rx w) (qw_self_id w) (qw_member_id w) (qw_term w) (qw_prev_log_index w) (g (qw_prev_log_term w)) (qw_commit_index w) (qw_next_index w) (qw_send_heartbeats w) (qw_last_heartbeat w) (qw_ongoing_backfill w) (qw_pending_write_batches w) (qw_pending_append_entries w) (qw_max_message_size_bytes w) (qw_pending_tasks w) (qw_next_channel w) (qw_write_responses w).
Arguments set_qw_prev_log_term _ _ /.
#[export] Instance set_qw_commit_index : Setter qw_commit_index := fun g (w : QuorumWorker) =>
  mkQuorumWorker (qw_work_queue w) (qw_response_queue w) (qw_task_queue w) (qw_outbound_tx w) (qw_inbound_rx w) (qw_self_id w) (qw_member_id w) (qw_term w) (qw_prev_log_index w) (qw_prev_log_term w) (g (qw_commit_index w)) (qw_next_index w) (qw_send_heartbeats w) (qw_last_heartbeat w) (qw_ongoing_backfill w) (qw_pending_write_batches w) (qw_pending_append_entries w) (qw_max_message_size_bytes w) (qw_pending_tasks w) (qw_next_channel w) (qw_write_responses w).
Arguments set_qw_commit_index _ _ /.
#[export] Instance set_qw_next_index : Setter qw_next_index := fun g (w : QuorumWorker) =>
  mkQuorumWorker (qw_work_queue w) (qw_response_queue w) (qw_task_queue w) (qw_outbound_tx w) (qw_inbound_rx w) (qw_self_id w) (qw_member_id w) (qw_term w) (qw_prev_log_index w) (qw_prev_log_term w) (qw_commit_index w) (g (qw_next_index w)) (qw_send_heartbeats w) (qw_last_heartbeat w) (qw_ongoing_backfill w) (qw_pending_write_batches w) (qw_pending_append_entries w) (qw_max_message_size_bytes w) (qw_pending_tasks w) (qw_next_channel w) (qw_write_responses w).
Arguments set_qw_next_index _ _ /.
#[export] Instance set_qw_send_heartbeats : Setter qw_send_heartbeats := fun g (w : QuorumWorker) =>
  mkQuorumWorker (qw_work_queue w) (qw_response_queue w) (qw_task_queue w) (qw_outbound_tx w) (qw_inbound_rx w) (qw_self_id w) (qw_member_id w) (qw_term w) (qw_prev_log_index w) (qw_prev_log_term w) (qw_commit_index w) (qw_next_index w) (g (qw_send_heartbeats w)) (qw_last_heartbeat w) (qw_ongoing_backfill w) (qw_pending_write_batches w) (qw_pending_append_entries w) (qw_max_message_size_bytes w) (qw_pending_tasks w) (qw_next_channel w) (qw_write_responses w).
Arguments set_qw_send_heartbeats _ _ /.
#[export] Instance set_qw_last_heartbeat : Setter qw_last_heartbeat := fun g (w : QuorumWorker) =>
  mkQuorumWorker (qw_work_queue w) (qw_response_queue w) (qw_task_queue w) (qw_outbound_tx w) (qw_inbound_rx w) (qw_self_id w) (qw_member_id w) (qw_term w) (qw_prev_log_index w) (qw_prev_log_term w) (qw_commit_index w) (qw_next_index w) (qw_send_heartbeats w) (g (qw_last_heartbeat w)) (qw_ongoing_backfill w) (qw_pending_write_batches w) (qw_pending_append_entries w) (qw_max_message_size_bytes w) (qw_pending_tasks w) (qw_next_channel w) (qw_write_responses w).
Arguments set_qw_last_heartbeat _ _ /.
#[export] Instance set_qw_ongoing_backfill : Setter qw_ongoing_backfill := fun g (w : QuorumWorker) =>
  mkQuorumWorker (qw_work_queue w) (qw_response_queue w) (qw_task_queue w) (qw_outbound_tx w) (qw_inbound_rx w) (qw_self_id w) (qw_member_id w) (qw_term w) (qw_prev_log_index w) (qw_prev_log_term w) (qw_commit_index w) (qw_next_index w) (qw_send_heartbeats w) (qw_last_heartbeat w) (g (qw_ongoing_backfill w)) (qw_pending_write_batches w) (qw_pending_append_entries w) (qw_max_message_size_bytes w) (qw_pending_tasks w) (qw_next_channel w) (qw_write_responses w).
Arguments set_qw_ongoing_backfill _ _ /.
#[export] Instance set_qw_pending_write_batches : Setter qw_pending_write_batches := fun g (w : QuorumWorker) =>
  mkQuorumWorker (qw_work_queue w) (qw_response_queue w) (qw_task_queue w) (qw_outbound_tx w) (qw_inbound_rx w) (qw_self_id w) (qw_member_id w) (qw_term w) (qw_prev_log_index w) (qw_prev_log_term w) (qw_commit_index w) (qw_next_index w) (qw_send_heartbeats w) (qw_last_heartbeat w) (qw_ongoing_backfill w) (g (qw_pending_write_batches w)) (qw_pending_append_entries w) (qw_max_message_size_bytes w) (qw_pending_tasks w) (qw_next_channel w) (qw_write_responses w).
Arguments set_qw_pending_write_batches _ _ /.
#[export] Instance set_qw_pending_append_entries : Setter qw_pending_append_entries := fun g (w : QuorumWorker) =>
  mkQuorumWorker (qw_work_queue w) (qw_response_queue w) (qw_task_queue w) (qw_outbound_tx w) (qw_inbound_rx w) (qw_self_id w) (qw_member_id w) (qw_term w) (qw_prev_log_index w) (qw_prev_log_term w) (qw_commit_index w) (qw_next_index w) (qw_send_heartbeats w) (qw_last_heartbeat w) (qw_ongoing_backfill w) (qw_pending_write_batches w) (g (qw_pending_append_entries w)) (qw_max_message_size_bytes w) (qw_pending_tasks w) (qw_next_channel w) (qw_write_responses w).
Arguments set_qw_pending_append_entries _ _ /.
#[export] Instance set_qw_max_message_size_bytes : Setter qw_max_message_size_bytes := fun g (w : QuorumWorker) =>
  mkQuorumWorker (qw_work_queue w) (qw_response_queue w) (qw_task_queue w) (qw_outbound_tx w) (qw_inbound_rx w) (qw_self_id w) (qw_member_id w) (qw_term w) (qw_prev_log_index w) (qw_prev_log_term w) (qw_commit_index w) (qw_next_index w) (qw_send_heartbeats w) (qw_last_heartbeat w) (qw_ongoing_backfill w) (qw_pending_write_batches w) (qw_pending_append_entries w) (g (qw_max_message_size_bytes w)) (qw_pending_tasks w) (qw_next_channel w) (qw_write_responses w).
Arguments set_qw_max_message_size_bytes _ _ /.
#[export] Instance set_qw_pending_tasks : Setter qw_pending_tasks := fun g (w : QuorumWorker) =>
  mkQuorumWorker (qw_work_queue w) (qw_response_queue w) (qw_task_queue w) (qw_outbound_tx w) (qw_inbound_rx w) (qw_self_id w) (qw_member_id w) (qw_term w) (qw_prev_log_index w) (qw_prev_log_term w) (qw_commit_index w) (qw_next_index w) (qw_send_heartbeats w) (qw_last_heartbeat w) (qw_ongoing_backfill w) (qw_pending_write_batches w) (qw_pending_append_entries w) (qw_max_message_size_bytes w) (g (qw_pending_tasks w)) (qw_next_channel w) (qw_write_responses w).
Arguments set_qw_pending_tasks _ _ /.
#[export] Instance set_qw_next_channel : Setter qw_next_channel := fun g (w : QuorumWorker) =>
  mkQuorumWorker (qw_work_queue w) (qw_response_queue w) (qw_task_queue w) (qw_outbound_tx w) (qw_inbound_rx w) (qw_self_id w) (qw_member_id w) (qw_term w) (qw_prev_log_index w) (qw_prev_log_term w) (qw_commit_index w) (qw_next_index w) (qw_send_heartbeats w) (qw_last_heartbeat w) (qw_ongoing_backfill w) (qw_pending_write_batches w) (qw_pending_append_entries w) (qw_max_message_size_bytes w) (qw_pending_tasks w) (g (qw_next_channel w)) (qw_write_responses w).
Arguments set_qw_next_channel _ _ /.
#[export] Instance set_qw_write_responses : Setter qw_write_responses := fun g (w : QuorumWorker) =>
  mkQuorumWorker (qw_work_queue w) (qw_response_queue w) (qw_task_queue w) (qw_outbound_tx w) (qw_inbound_rx w) (qw_self_id w) (qw_member_id w) (qw_term w) (qw_prev_log_index w) (qw_prev_log_term w) (qw_commit_index w) (qw_next_index w) (qw_send_heartbeats w) (qw_last_heartbeat w) (qw_ongoing_backfill w) (qw_pending_write_batches w) (qw_pending_append_entries w) (qw_max_message_size_bytes w) (qw_pending_tasks w) (qw_next_channel w) (g (qw_write_responses w)).
Arguments set_qw_write_responses _ _ /.

Implicit Types w : QuorumWorker.

(** [QuorumWorker::new]. *)
Definition QuorumWorker_new (self_id next_index member_id max_message_size_bytes : Z) : QuorumWorker :=
  mkQuorumWorker [] [] [] None None self_id member_id 0 0 0 0 next_index false 0 None ∅ ∅
    max_message_size_bytes [] 0 [].

Definition push_response (r : LocalQuorumTaskResponseType) w : QuorumWorker :=
  w <| qw_response_queue ::= fun q => q ++ [r] |>.

(** ** outbound.rs *)

(** [send_message]; a send on a connected channel that is full waits. *)
Definition send_message (msg : OwnedQuorumMessage) w : bool * QuorumWorker :=
  match qw_outbound_tx w with
  | Some tx =>
    match send tx msg with
    | Some tx => (true, w <| qw_outbound_tx := Some tx |>)
    | None => (false, w)
    end
  | None => (false, w)
  end.

(** The [u128] difference of [send_heartbeat_if_needed]. *)
Definition u128_sub (a b : Z) : Z := (a - b) `mod` 2 ^ 128.

(** [send_heartbeat_if_needed]. *)
Definition send_heartbeat_if_needed (now : Z) w : QuorumWorker :=
  if negb (qw_send_heartbeats w) then w
  else if decide (u128_sub now (qw_last_heartbeat w) < HEARTBEAT_INTERVAL_MS) then w
  else
    let w := w <| qw_last_heartbeat := now |> in
    (send_message (build_heartbeat_message (qw_term w) (qw_self_id w) (qw_prev_log_index w)
                     (qw_prev_log_term w) (qw_commit_index w) 0) w).2.

(** [send_vote_request]. *)
Definition send_vote_request (id term last_index last_term : Z) w : QuorumWorker :=
  (send_message (build_vote_request_message term (qw_self_id w) last_index last_term id) w).2.

(** [send_append_entries]. *)
Definition send_append_entries (now id : Z) (entry : OwnedLogEntry) (new_commit_index : Z) w
    : QuorumWorker :=
  let prev_idx := prev_log_index entry in
  let w := w <| qw_prev_log_term := term entry |> in
  let w := w <| qw_prev_log_index := index entry |> in
  let w := w <| qw_commit_index := new_commit_index |> in
  let w := w <| qw_pending_append_entries ::= fun p => {[ id ]} ∪ p |> in
  let w := (send_message (build_append_entries_message (qw_term w) (qw_self_id w) prev_idx
                            (prev_log_term entry) id new_commit_index (Some entry)) w).2 in
  w <| qw_last_heartbeat := now |>.

(** [send_write_batch]. *)
Definition send_write_batch (write_batch : WriteBatch) w : QuorumWorker :=
  let w := w <| qw_pending_write_batches ::=
                  <[ write_batch_id write_batch := write_callback write_batch ]> |> in
  (send_message (build_put_batch_request_message (write_message write_batch)) w).2.

(** [send_truncate_log]. *)
Definition send_truncate_log (prev_term prev_index : Z) w : QuorumWorker :=
  (send_message (build_truncate_log_request_message prev_term prev_index (qw_term w)
                   (qw_self_id w) 0) w).2.

(** The loop of [send_backfill_entries], left at the first failed send. *)
Fixpoint send_backfill_loop (entries : list OwnedLogEntry) w : QuorumWorker :=
  match entries with
  | [] => w
  | entry :: entries =>
    let '(sent, w) := send_message
      (build_append_entries_message (qw_term w) (qw_self_id w) (prev_log_index entry)
         (prev_log_term entry) (message_id entry) (qw_commit_index w) (Some entry)) w in
    if sent then send_backfill_loop entries w else w
  end.

(** [send_backfill_entries]. *)
Definition send_backfill_entries (now : Z) (entries : list OwnedLogEntry) w : QuorumWorker :=
  if decide (entries = []) then w
  else
    let w := send_backfill_loop entries w in
    let w := w <| qw_ongoing_backfill := None |> in
    w <| qw_last_heartbeat := now |>.

(** ** pending.rs *)

(** What an [AppendEntries] answer is turned into: the acknowledged flag and the last index
    and term to report. *)
Definition append_answer (log_index term : Z) (r : LocalAppendEntriesCallbackResponse) : bool * Z * Z :=
  match r with
  | AE_Ok => (true, log_index, term)
  | AE_UnrecognizedLeader => (false, log_index, term)
  | AE_WantedPreviousEntry last_term last_index => (false, last_index, last_term)
  | AE_TruncateLog prev_term prev_index => (false, prev_index, prev_term)
  end.

(** [handle_pending_task_response]. *)
Definition handle_pending_task_response (task : PendingQuorumTaskEnum)
    (response : LocalRaftResponsePayload) w : QuorumWorker :=
  match response with
  | RP_RequestVote granted =>
    match task with
    | PQ_Vote request_id term => (send_message (build_vote_response_message granted request_id term) w).2
    | _ => w
    end
  | RP_AppendEntries ae_resp =>
    match task with
    | PQ_AppendEntries request_id log_index term =>
      let w := match ae_resp with
               | AE_TruncateLog prev_term prev_index =>
                 push_response (QR_TruncateLog (qw_member_id w) prev_term prev_index) w
               | _ => w
               end in
      let '(ok, last_log_index, last_log_term) := append_answer log_index term ae_resp in
      (send_message (build_append_entries_ack_message last_log_term last_log_index request_id ok) w).2
    | _ => w
    end
  | RP_WriteBatch write_resp =>
    match task with
    | PQ_PutBatch batch_id =>
      (send_message (build_put_batch_response_message (wbr_message write_resp) batch_id) w).2
    | _ => w
    end
  | _ => w
  end.

(** The loop of [process_pending_task_responses] over [pending_tasks], with the positions of
    the tasks that are done. *)
Fixpoint poll_pending (try_recv : Callback -> TryRecv) (i : nat) (tasks : list PendingQuorumTask)
    (to_remove : list nat) w : list nat * QuorumWorker :=
  match tasks with
  | [] => (to_remove, w)
  | pt :: tasks =>
    match try_recv (pq_callback pt) with
    | TR_Received response =>
      poll_pending try_recv (S i) tasks (to_remove ++ [i])
        (handle_pending_task_response (pq_task pt) response w)
    | TR_Empty => poll_pending try_recv (S i) tasks to_remove w
    | TR_Closed => poll_pending try_recv (S i) tasks (to_remove ++ [i]) w
    end
  end.

(** [Vec::remove]; [None] is its panic. *)
Definition vec_remove {A} (i : nat) (l : list A) : option (list A) :=
  if decide (i < length l)%nat then Some (delete i l) else None.

Fixpoint remove_all {A} (idxs : list nat) (l : list A) : option (list A) :=
  match idxs with
  | [] => Some l
  | i :: idxs => let* l := vec_remove i l in remove_all idxs l
  end.

(** [process_pending_task_responses]. *)
Definition process_pending_task_responses (try_recv : Callback -> TryRecv) w : option QuorumWorker :=
  let '(to_remove, w) := poll_pending try_recv 0 (qw_pending_tasks w) [] w in
  let* tasks := remove_all (rev to_remove) (qw_pending_tasks w) in
  Some (w <| qw_pending_tasks := tasks |>).

(** ** inbound.rs: responses *)

Definition on_vote_response (request_id term : Z) (vote_granted : bool) w : QuorumWorker :=
  push_response (QR_RequestVoteResponse request_id term vote_granted) w.

Definition on_append_entries_ack (request_id last_log_index last_log_term : Z) (ok : bool) w
    : QuorumWorker :=
  let w := w <| qw_pending_append_entries ::= fun p => p ∖ {[ request_id ]} |> in
  if negb ok then
    match qw_ongoing_backfill w with
    | None =>
      let w := w <| qw_ongoing_backfill := Some (mkOngoingBackfill last_log_term last_log_index) |> in
      push_response (QR_BackfillLog (qw_member_id w) last_log_term last_log_index) w
    | Some _ => w
    end
  else if decide (request_id <> 0) then push_response (QR_AppendEntries request_id ok) w
  else w.

(** [s.to_string().unwrap_or_default()] of an optional text. *)
Definition text_or_empty (t : option Text) : Text := default [] (mbind to_str t).

(** [on_put_batch_response_capnp]; [None] is the panic of the builder. *)
Definition on_put_batch_response_capnp (resp : RemotePutBatchResponse) w : option QuorumWorker :=
  let batch_id := text_or_empty (rr_batch_id resp) in
  match qw_pending_write_batches w !! batch_id with
  | Some callback =>
    let w := w <| qw_pending_write_batches ::= delete batch_id |> in
    let* message := build_owned_write_batch_response
      (mkInternalWriteBatchResponse (Some (copy_put_response <$> default [] (rr_responses resp)))
         (Some batch_id)) in
    Some (w <| qw_write_responses ::= fun l => l ++ [(callback, WriteResponse_success message)] |>)
  | None => Some w
  end.

Definition on_truncate_log_response (request_id : Z) (ok : bool) w : QuorumWorker :=
  let w := push_response (QR_TruncateLogResponse request_id ok) w in
  w <| qw_ongoing_backfill := None |>.

(** ** inbound.rs: requests *)

(** A new one-shot channel: its sender goes to the state machine with the request, its
    receiver waits in [pending_tasks]. *)
Definition ask_state_machine (payload : LocalRaftMessagePayload) (task : PendingQuorumTaskEnum) w
    : QuorumWorker :=
  let callback := qw_next_channel w in
  let w := w <| qw_next_channel := S callback |> in
  let w := w <| qw_task_queue ::= fun q => q ++ [mkLocalRaftMessage payload callback] |> in
  w <| qw_pending_tasks ::= fun p => p ++ [mkPendingQuorumTask callback task] |>.

(** The entry of a request with its index and term. *)
Definition received_entry (req : RemoteAppendEntriesRequest) : Z * Z * option LogEntry :=
  match ae_entry req with
  | Some (Some e) =>
    (re_index e, re_term e,
     Some (mkLogEntry (re_index e) (default [] (re_data e)) (re_batch_index e) (re_term e)
             (re_prev_log_term e) (re_prev_log_index e) (re_message_id e)))
  | _ => (0, 0, None)
  end.

Definition on_append_entries_request_capnp (req : RemoteAppendEntriesRequest) w : QuorumWorker :=
  let '(entry_index, entry_term, entry) := received_entry req in
  ask_state_machine
    (RM_AppendEntries (mkLocalAppendEntries (ae_term req) (ae_leader_id req) (ae_prev_log_index req)
       (ae_prev_log_term req) (ae_request_id req) entry (ae_commit_index req)))
    (PQ_AppendEntries (ae_request_id req) entry_index entry_term) w.

(** [on_truncate_log_request]; the term of the request is not used. *)
Definition on_truncate_log_request (prev_term prev_index request_id : Z) w : QuorumWorker :=
  let w := push_response (QR_TruncateLog (qw_member_id w) prev_term prev_index) w in
  (send_message (build_truncate_log_response_message request_id true) w).2.

Definition on_vote_request (term candidate_id last_log_index last_log_term request_id : Z) w
    : QuorumWorker :=
  ask_state_machine
    (RM_RequestVote (mkLocalRequestVoteRequest term candidate_id last_log_index last_log_term))
    (PQ_Vote request_id term) w.

(** One request of [on_put_batch_request_capnp]. *)
Definition from_remote_put (r : RemotePutRequest) : InternalPutRequest :=
  mkInternalPutRequest (Some (default [] (rp_id r))) (Some (default [] (rp_payload r))) (rp_node_id r).

Definition on_put_batch_request_capnp (req : RemotePutBatchRequest) w : option QuorumWorker :=
  let batch_id := text_or_empty (rb_batch_id req) in
  let* message := build_owned_write_batch
    (mkInternalWriteBatch (Some batch_id) (Some (from_remote_put <$> default [] (rb_put_requests req)))) in
  Some (ask_state_machine (RM_WriteBatch message) (PQ_PutBatch batch_id) w).

(** [handle_inbound_message]; an unreadable message is only logged. *)
Definition handle_inbound_message (msg : OwnedQuorumMessage) w : option QuorumWorker :=
  match quorum_with_message msg id with
  | None => Some w
  | Some payload =>
    match payload with
    | VoteResponse r => Some (on_vote_response (vs_request_id r) (vs_term r) (vs_vote_granted r) w)
    | AppendEntriesAcknowledge a =>
      Some (on_append_entries_ack (ack_request_id a) (ack_last_log_index a) (ack_last_log_term a)
              (ack_ok a) w)
    | PutBatchResponse r => on_put_batch_response_capnp r w
    | TruncateLogResponse r => Some (on_truncate_log_response (ts_request_id r) (ts_ok r) w)
    | AppendEntriesRequest r => Some (on_append_entries_request_capnp r w)
    | VoteRequest r =>
      Some (on_vote_request (vr_term r) (vr_candidate_id r) (vr_last_log_index r)
              (vr_last_log_term r) (vr_request_id r) w)
    | PutBatchRequest r => on_put_batch_request_capnp r w
    | TruncateLogRequest r =>
      Some (on_truncate_log_request (tr_prev_term r) (tr_prev_index r) (tr_request_id r) w)
    | ConnectRequest _ | ConnectResponse _ => Some w
    end
  end.

(** The collecting loop of [process_incoming_messages]: at most [n] messages; the flag says
    that the channel was found disconnected. *)
Fixpoint collect_messages (n : nat) (rx : Receiver) (msgs : list OwnedQuorumMessage)
    : list OwnedQuorumMessage * bool * Receiver :=
  match n with
  | O => (msgs, false, rx)
  | S n =>
    match rx_queue rx with
    | msg :: rest => collect_messages n (mkReceiver rest (rx_connected rx)) (msgs ++ [msg])
    | [] => if rx_connected rx then (msgs, false, rx) else (msgs, true, rx)
    end
  end.

Fixpoint handle_messages (msgs : list OwnedQuorumMessage) w : option QuorumWorker :=
  match msgs with
  | [] => Some w
  | msg :: msgs =>
    let* w := handle_inbound_message msg w in
    handle_messages msgs w
  end.

(** [process_incoming_messages]. *)
Definition process_incoming_messages w : option QuorumWorker :=
  match qw_inbound_rx w with
  | None => Some w
  | Some rx =>
    let '(messages, disconnected, rx) := collect_messages MAX_MESSAGES_PER_ITERATION rx [] in
    let w := w <| qw_inbound_rx := if disconnected then None else Some rx |> in
    handle_messages messages w
  end.

(** ** mod.rs *)

(** [ensure_connections]: [has_outbound], [connect] and [inbound] are what the stream manager
    answers to [has_outbound_connection], [get_or_connect] and [get_inbound_queue]. *)
Definition ensure_connections (has_outbound : bool) (connect : option (Sender OwnedQuorumMessage))
    (inbound : option Receiver) w : bool * QuorumWorker :=
  let w := match qw_outbound_tx w with
           | Some _ => if has_outbound then w else w <| qw_outbound_tx := None |>
           | None => w
           end in
  let take_inbound w :=
    match qw_inbound_rx w with
    | None => match inbound with Some rx => w <| qw_inbound_rx := Some rx |> | None => w end
    | Some _ => w
    end in
  match qw_outbound_tx w with
  | Some _ => (true, take_inbound w)
  | None =>
    match connect with
    | Some tx => (true, take_inbound (w <| qw_outbound_tx := Some tx |>))
    | None => (false, w)
    end
  end.

Definition reset_connections w : QuorumWorker :=
  let w := w <| qw_outbound_tx := None |> in
  w <| qw_inbound_rx := None |>.

(** The body of the loop of [process_work_queue] for one task. *)
Definition process_task (now : Z) (task : LocalQuorumWorkerTaskType) w : QuorumWorker :=
  match task with
  | QT_StartHeartbeats _ term prev_term prev_log_index commit_index =>
    let w := w <| qw_send_heartbeats := true |> in
    let w := w <| qw_term := term |> in
    let w := w <| qw_prev_log_term := prev_term |> in
    let w := w <| qw_prev_log_index := prev_log_index |> in
    w <| qw_commit_index := commit_index |>
  | QT_StopHeartbeats _ => w <| qw_send_heartbeats := false |>
  | QT_RequestVote id term last_term last_index => send_vote_request id term last_index last_term w
  | QT_AppendEntries id entry commit_index => send_append_entries now id entry commit_index w
  | QT_BackfillLog data => send_backfill_entries now data w
  | QT_WriteBatch write_batch => send_write_batch write_batch w
  | QT_TruncateLog _ prev_term prev_index => send_truncate_log prev_term prev_index w
  | QT_UpdateCommitIndex commit_index => w <| qw_commit_index := commit_index |>
  end.

Fixpoint work_loop (now : nat -> Z) (n : nat) w : QuorumWorker :=
  match n with
  | O => w
  | S n =>
    match qw_work_queue w with
    | task :: rest => work_loop now n (process_task (now n) task (w <| qw_work_queue := rest |>))
    | [] => w
    end
  end.

(** [process_work_queue]. *)
Definition process_work_queue (now : nat -> Z) w : QuorumWorker :=
  work_loop now MAX_MESSAGES_PER_ITERATION w.

(** One iteration of [run] up to its pause.  The clock is read for the heartbeat
    ([now MAX_MESSAGES_PER_ITERATION]) and at most once per task. *)
Definition run_iteration (has_outbound : bool) (connect : option (Sender OwnedQuorumMessage))
    (inbound : option Receiver) (try_recv : Callback -> TryRecv) (now : nat -> Z) w
    : option QuorumWorker :=
  let '(connected, w) := ensure_connections has_outbound connect inbound w in
  if negb connected then Some w
  else
    let* w := process_incoming_messages w in
    let* w := process_pending_task_responses try_recv w in
    let w := send_heartbeat_if_needed (now MAX_MESSAGES_PER_ITERATION) w in
    Some (process_work_queue now w).

End worker.
