(* ===== verification/Samples.v ===== *)
(** * Concrete nodes

    States and messages the concrete instances of the theorems run on: a node of a cluster
    of three, with two quorum workers, a scripted bus and the codec of [CapnpInstance.v]. *)
From S2P Require Import Prelude Capnp CapnpInstance RaftTypes Bus.

Definition sample_env : Env := mkEnv (fun n => 1000 + Z.of_nat n) (fun n => Z.of_nat n).

Definition sample_volatile (log : list OwnedLogEntry) (last_index last_term commit : Z)
    (cursor : option Z) : RaftVolatileState :=
  mkRaftVolatileState commit 0 last_index last_term (last_term + 1) (vlen log) log ∅
    (mkCommitState commit 0) cursor false.

Definition sample_state (v : RaftVolatileState) (term leader : Z) (bus : ScriptedBus)
    : SharedState ScriptedBus :=
  mkSharedState (mkRaftServerState term leader) v (mkSender true []) [] [] 1 ∅ 1 ∅ 2 [[]; []] 1048576
    bus (mkCallbacks [] ∅).

Definition empty_bus : ScriptedBus := mkScriptedBus [] [].

(** A node of term 1 with an empty log. *)
Definition fresh_node : SharedState ScriptedBus :=
  sample_state (sample_volatile [] 0 0 0 None) 1 1 empty_bus.

(** What a node without any file on disk starts with. *)
Definition startup_node : SharedState ScriptedBus :=
  (sample_state (sample_volatile [] 0 0 0 None) 0 0 empty_bus) <| next_message_id := 0 |>.

(** An entry without commands. *)
Definition sample_message (i t pi pt id : Z) : InternalLogEntry :=
  mkInternalLogEntry i t pi pt id 0 (Some []) (Some []).

Definition sample_entry (i t pi pt id : Z) : OwnedLogEntry :=
  mkOwnedLogEntry (write_log_entry (sample_message i t pi pt id)).

(** Two entries of term 1. *)
Definition sample_log : list OwnedLogEntry := [sample_entry 0 1 0 0 1; sample_entry 1 1 0 1 2].

(** A leader of term 1 that holds [sample_log] and has broadcast its first entry. *)
Definition sample_leader (answers : list bool) : SharedState ScriptedBus :=
  sample_state (sample_volatile sample_log 1 1 0 (Some 0)) 1 1
    (mkScriptedBus [sample_entry 0 1 0 0 1] answers).

Definition sample_put : InternalPutRequest :=
  mkInternalPutRequest (Some [Init.Byte.x6b]) (Some [Init.Byte.x76]) 1.

Definition sample_batch : InternalWriteBatch :=
  mkInternalWriteBatch (Some [Init.Byte.x62]) (Some [sample_put]).

Lemma sample_batch_built : write_batch_built sample_batch.
Proof.
  apply write_batch_small_built; [|by vm_compute]. split; [done|]. eexists. split; [reflexivity|].
  constructor; [|constructor]. repeat split; simpl; try by eexists. lia.
Qed.

Lemma sample_message_built i t pi pt id :
  u64 i -> u64 t -> u64 pi -> u64 pt -> u64 id -> log_entry_built (sample_message i t pi pt id).
Proof.
  intros. apply log_entry_small_built; [|by vm_compute]. split; [|split; [by exists []|by eexists]].
  unfold log_entry_ranges. simpl. unfold u64 in *. lia.
Qed.
