(* ===== verification/RaftSm.v ===== *)
(** * Shared state of the Raft state machine

    [impl SharedState] of [src/raft/raft_sm.rs] (broadcasting committed entries to the query
    workers) and the default methods of the trait [RaftProtocol].  The broadcast bus is the
    interface of [Bus.v]. *)
From S2P Require Import Prelude Capnp CapnpInstance RaftTypes Bus Samples.

Section broadcast.
Context {B : Type} `{Bus B}.
Implicit Types s : SharedState B.

Definition MAX_RETRIES_PER_ENTRY : nat := 100.
Definition YIELD_INTERVAL : nat := 10.

(** [self.log_entry_bus.try_broadcast(e)]. *)
Definition bus_try (e : OwnedLogEntry) s : bool * SharedState B :=
  let '(ok, b) := try_broadcast e (log_entry_bus s) in (ok, s <| log_entry_bus := b |>).

(** The inner [loop] of [broadcast_committed_entries_when_bus_full]; [false] is the return
    after [MAX_RETRIES_PER_ENTRY] refusals.  [fuel] is the number of attempts left. *)
Fixpoint retry_broadcast (fuel retries : nat) (e : OwnedLogEntry) s : bool * SharedState B :=
  match fuel with
  | O => (false, s)
  | S fuel' =>
    let '(ok, s) := bus_try e s in
    if ok then (true, s)
    else
      let retries := S retries in
      if decide (MAX_RETRIES_PER_ENTRY <= retries)%nat then (false, s)
      else if decide (retries `mod` YIELD_INTERVAL = 0)%nat
           then retry_broadcast fuel' retries e (bump_version s)
           else retry_broadcast fuel' retries e s
  end.

(** The [while idx <= new_absolute_commit_index] loop; [n] is the number of indices left. *)
Fixpoint when_bus_full_loop (n : nat) (new_absolute_commit_index start_index idx : Z) s
    : Z * SharedState B :=
  match n with
  | O => (new_absolute_commit_index, s)
  | S n' =>
    match vget (replication_log (volatile_server_state s)) idx with
    | Some e =>
      let '(ok, s) := retry_broadcast MAX_RETRIES_PER_ENTRY 0 e s in
      if ok then when_bus_full_loop n' new_absolute_commit_index start_index (idx + 1) s
      else (if decide (start_index < idx) then idx - 1 else start_index, s)
    | None => (if decide (start_index < idx) then idx - 1 else start_index, s)
    end
  end.

(** [SharedState::broadcast_committed_entries_when_bus_full]. *)
Definition broadcast_committed_entries_when_bus_full
    (new_absolute_commit_index start_index : Z) s : Z * SharedState B :=
  let s := bump_version s in
  when_bus_full_loop (Z.to_nat (new_absolute_commit_index + 1 - start_index))
    new_absolute_commit_index start_index start_index s.

(** The [for i in start_index..=new_commit_index] loop of [broadcast_committed_entries];
    returns the loop's [last_broadcast_index]. *)
Fixpoint broadcast_loop (n : nat) (new_commit_index i last : Z) s : Z * SharedState B :=
  match n with
  | O => (last, s)
  | S n' =>
    match vget (replication_log (volatile_server_state s)) i with
    | Some e =>
      let '(ok, s) := bus_try e s in
      if ok then broadcast_loop n' new_commit_index (i + 1) i s
      else broadcast_committed_entries_when_bus_full new_commit_index i s
    | None => broadcast_loop n' new_commit_index (i + 1) last s
    end
  end.

(** The first index that was not broadcast yet. *)
Definition broadcast_start s : Z :=
  match last_broadcast_index (volatile_server_state s) with
  | Some last => last +! 1
  | None => 0
  end.

(** [SharedState::broadcast_committed_entries]. *)
Definition broadcast_committed_entries (new_commit_index : Z) s : SharedState B :=
  let start_index := broadcast_start s in
  if decide (new_commit_index < start_index) then s
  else
    let '(last, s) :=
      broadcast_loop (Z.to_nat (new_commit_index + 1 - start_index)) new_commit_index
        start_index 0 s in
    bump_version
      (s <| volatile_server_state ; last_broadcast_index := Some last |>
         <| volatile_server_state ; has_deferred_broadcast := bool_decide (last < new_commit_index) |>).

Definition MAX_BROADCAST_PER_TIMESTEP : Z := 5000.

(** The loop of [retry_deferred_broadcast]; the flag is the early [return count]. *)
Fixpoint retry_deferred_loop (n : nat) (i count : Z) s : bool * Z * SharedState B :=
  match n with
  | O => (false, count, s)
  | S n' =>
    match vget (replication_log (volatile_server_state s)) i with
    | Some e =>
      let '(ok, s) := bus_try e s in
      if ok
      then retry_deferred_loop n' (i + 1) (count + 1)
             (s <| volatile_server_state ; last_broadcast_index := Some i |>)
      else (true, count, s)
    | None => retry_deferred_loop n' (i + 1) count s
    end
  end.

(** [SharedState::retry_deferred_broadcast]. *)
Definition retry_deferred_broadcast s : Z * SharedState B :=
  if negb (has_deferred_broadcast (volatile_server_state s)) then (0, s)
  else
    let ci := commit_index (volatile_server_state s) in
    let start_index := broadcast_start s in
    if decide (ci < start_index)
    then (0, s <| volatile_server_state ; has_deferred_broadcast := false |>)
    else
      let end_index := Z.min ci (u64_sub (start_index +! MAX_BROADCAST_PER_TIMESTEP) 1) in
      let '(returned, count, s) :=
        retry_deferred_loop (Z.to_nat (end_index + 1 - start_index)) start_index 0 s in
      if (returned : bool) then (count, s)
      else
        let s :=
          if decide (last_broadcast_index (volatile_server_state s) = Some ci)
          then s <| volatile_server_state ; has_deferred_broadcast := false |> else s in
        let s := if decide (0 < count) then bump_version s else s in
        (count, s).

(** ** Default methods of [RaftProtocol] *)

(** [RaftProtocol::validate_append_entries]. *)
Definition protocol_validate_append_entries (r : LocalAppendEntries) (prev_index prev_term : Z) : bool :=
  if decide (a_prev_term r <> prev_term) then false
  else if decide (a_prev_index r <> prev_index) then false
  else true.

(** [RaftProtocol::should_accept_vote]. *)
Definition should_accept_vote (term last_log_term last_log_index' : Z) s : bool :=
  match term_votes s !! term with
  | Some _ => false
  | None =>
    if decide (term <= current_term (server_state s)) then false
    else if decide (last_log_index' < last_log_index (volatile_server_state s)) then false
    else true
  end.


(** One attempt of [retry_broadcast]. *)
Lemma retry_broadcast_S fuel retries e s :
  retry_broadcast (S fuel) retries e s =
  let '(ok, s) := bus_try e s in
  if ok then (true, s)
  else if decide (MAX_RETRIES_PER_ENTRY <= S retries)%nat then (false, s)
  else if decide (S retries `mod` YIELD_INTERVAL = 0)%nat
       then retry_broadcast fuel (S retries) e (bump_version s)
       else retry_broadcast fuel (S retries) e s.
Proof. reflexivity. Qed.

Lemma retry_broadcast_0 retries e s : retry_broadcast 0 retries e s = (false, s).
Proof. reflexivity. Qed.

End broadcast.

Arguments retry_broadcast : simpl never.

(** ** What a broadcast leaves alone

    Broadcasting touches the bus, the version counter, the broadcast cursor and the deferred
    flag, and nothing else of the shared state. *)

Section frame.
Context {B : Type} `{Bus B}.
Implicit Types s : SharedState B.

Definition with_broadcast (b : B) (version : Z) (cursor : option Z) (deferred : bool) s : SharedState B :=
  s <| log_entry_bus := b |>
    <| volatile_server_state ; commit_state ::= fun c => c <| cs_version := version |> |>
    <| volatile_server_state ; last_broadcast_index := cursor |>
    <| volatile_server_state ; has_deferred_broadcast := deferred |>.

Definition same_but_broadcast s s' : Prop :=
  exists b version cursor deferred, s' = with_broadcast b version cursor deferred s.

Ltac solve_same s :=
  destruct s as [? [????????[] ??] ????????????];
  unfold same_but_broadcast, with_broadcast; do 4 eexists; simpl; reflexivity.

#[export] Instance same_but_broadcast_preorder : PreOrder same_but_broadcast.
Proof.
  split.
  - intros s. solve_same s.
  - intros s1 s2 s3 (b1 & v1 & c1 & d1 & ->) (b2 & v2 & c2 & d2 & ->).
    by exists b2, v2, c2, d2.
Qed.

Lemma same_bus b s : same_but_broadcast s (s <| log_entry_bus := b |>).
Proof. solve_same s. Qed.

Lemma same_version s : same_but_broadcast s (bump_version s).
Proof. solve_same s. Qed.

Lemma same_cursor c s :
  same_but_broadcast s (s <| volatile_server_state ; last_broadcast_index := c |>).
Proof. solve_same s. Qed.

Lemma same_deferred d s :
  same_but_broadcast s (s <| volatile_server_state ; has_deferred_broadcast := d |>).
Proof. solve_same s. Qed.

Lemma bus_try_frame e s : same_but_broadcast s (bus_try e s).2.
Proof. unfold bus_try. destruct (try_broadcast _ _). apply same_bus. Qed.

End frame.

#[export] Hint Resolve same_bus same_version same_cursor same_deferred bus_try_frame : kraft.

(** Follows a chain of [same_but_broadcast] steps backwards from the final state. *)
Ltac same_step := first [ reflexivity | solve [eauto 2 with kraft] | etrans; [|solve [eauto 2 with kraft]] ].

Section frame_loops.
Context {B : Type} `{Bus B}.
Implicit Types s : SharedState B.

Lemma bus_try_frame_eq e s ok s' : bus_try e s = (ok, s') -> same_but_broadcast s s'.
Proof. intros Heq. pose proof (bus_try_frame e s) as Hf. by rewrite Heq in Hf. Qed.

Lemma retry_broadcast_frame fuel retries e s :
  same_but_broadcast s (retry_broadcast fuel retries e s).2.
Proof.
  revert retries s. induction fuel as [|fuel IH]; intros retries s; [reflexivity|].
  rewrite retry_broadcast_S.
  destruct (bus_try e s) as [ok s1] eqn:Htry. apply bus_try_frame_eq in Htry.
  destruct ok; [done|]. repeat case_decide; [done|..]; (etrans; [exact Htry|]).
  - etrans; [apply same_version|apply IH].
  - apply IH.
Qed.

Lemma when_bus_full_loop_frame n new start idx s :
  same_but_broadcast s (when_bus_full_loop n new start idx s).2.
Proof.
  revert idx s. induction n as [|n IH]; intros idx s; simpl; [reflexivity|].
  destruct (vget _ _) as [e|]; [|reflexivity].
  destruct (retry_broadcast MAX_RETRIES_PER_ENTRY 0 e s) as [ok s1] eqn:Hr.
  pose proof (retry_broadcast_frame MAX_RETRIES_PER_ENTRY 0 e s) as Hf. rewrite Hr in Hf. simpl in Hf.
  destruct ok; simpl; [|done]. etrans; [exact Hf|apply IH].
Qed.

Lemma broadcast_loop_frame n new i last s :
  same_but_broadcast s (broadcast_loop n new i last s).2.
Proof.
  revert i last s. induction n as [|n IH]; intros i last s; simpl; [reflexivity|].
  destruct (vget _ _) as [e|]; [|apply IH].
  destruct (bus_try e s) as [ok s1] eqn:Htry. apply bus_try_frame_eq in Htry.
  destruct ok; (etrans; [exact Htry|]); [apply IH|].
  etrans; [apply same_version|apply when_bus_full_loop_frame].
Qed.

Lemma broadcast_committed_entries_frame new s :
  same_but_broadcast s (broadcast_committed_entries new s).
Proof.
  unfold broadcast_committed_entries. case_decide; [reflexivity|].
  match goal with |- context [broadcast_loop ?n ?c ?i ?l s] =>
    pose proof (broadcast_loop_frame n c i l s) as Hf; destruct (broadcast_loop n c i l s) as [last s1] end.
  etrans; [exact Hf|]. etrans; [apply same_cursor|]. etrans; [apply same_deferred|apply same_version].
Qed.

Lemma retry_deferred_loop_frame n i count s :
  same_but_broadcast s (retry_deferred_loop n i count s).2.
Proof.
  revert i count s. induction n as [|n IH]; intros i count s; simpl; [reflexivity|].
  destruct (vget _ _) as [e|]; [|apply IH].
  destruct (bus_try e s) as [ok s1] eqn:Htry. apply bus_try_frame_eq in Htry.
  destruct ok; (etrans; [exact Htry|]); [|reflexivity]. etrans; [apply same_cursor|apply IH].
Qed.

Lemma retry_deferred_broadcast_frame s :
  same_but_broadcast s (retry_deferred_broadcast s).2.
Proof.
  unfold retry_deferred_broadcast. destruct (negb _); [reflexivity|]. case_decide; [apply same_deferred|].
  match goal with |- context [retry_deferred_loop ?n ?i ?c s] =>
    pose proof (retry_deferred_loop_frame n i c s) as Hf;
    destruct (retry_deferred_loop n i c s) as [[returned count] s1] end.
  simpl in Hf. destruct returned; [done|]. etrans; [exact Hf|].
  repeat case_decide; simpl; (etrans; [|apply same_version]) || idtac;
    first [apply same_deferred | reflexivity].
Qed.

(** *** How far the bus gets

    The bus changes only when an entry is offered. *)
Definition bus_step (b b' : B) : Prop := exists e ok, try_broadcast e b = (ok, b').

Definition offers_only s s' : Prop := rtc bus_step (log_entry_bus s) (log_entry_bus s').

#[export] Instance offers_only_preorder : PreOrder offers_only.
Proof. unfold offers_only. split; [by intros s|]. intros s1 s2 s3 H12 H23. by etrans. Qed.

Lemma bus_try_offers e s ok s' : bus_try e s = (ok, s') -> offers_only s s'.
Proof.
  unfold bus_try, offers_only. destruct (try_broadcast e _) as [ok1 b] eqn:He. intros [= <- <-]. apply rtc_once. by eexists _, _.
Qed.

Lemma retry_broadcast_offers fuel retries e s : offers_only s (retry_broadcast fuel retries e s).2.
Proof.
  revert retries s. induction fuel as [|fuel IH]; intros retries s; [reflexivity|]. rewrite retry_broadcast_S.
  destruct (bus_try e s) as [ok s1] eqn:Htry. apply bus_try_offers in Htry.
  destruct ok; [done|]. repeat case_decide; [done|..]; etrans; [exact Htry|apply (IH _ (bump_version s1))|exact Htry|apply IH].
Qed.

Lemma when_bus_full_loop_offers n new start idx s : offers_only s (when_bus_full_loop n new start idx s).2.
Proof.
  revert idx s. induction n as [|n IH]; intros idx s; simpl; [reflexivity|].
  destruct (vget _ _) as [e|]; [|reflexivity]. pose proof (retry_broadcast_offers MAX_RETRIES_PER_ENTRY 0 e s) as Hr.
  destruct (retry_broadcast _ _ e s) as [[] s1]; simpl in *; [|done]. etrans; [exact Hr|apply IH].
Qed.

Lemma broadcast_loop_offers n new i last s : offers_only s (broadcast_loop n new i last s).2.
Proof.
  revert i last s. induction n as [|n IH]; intros i last s; simpl; [reflexivity|].
  destruct (vget _ _) as [e|]; [|apply IH]. destruct (bus_try e s) as [ok s1] eqn:Htry. apply bus_try_offers in Htry.
  destruct ok; etrans; [exact Htry|apply IH|exact Htry|apply (when_bus_full_loop_offers _ _ _ _ (bump_version s1))].
Qed.

Lemma broadcast_committed_entries_offers new s : offers_only s (broadcast_committed_entries new s).
Proof.
  unfold broadcast_committed_entries. case_decide; [reflexivity|].
  match goal with |- context [broadcast_loop ?n ?c ?i ?l s] =>
    pose proof (broadcast_loop_offers n c i l s) as Hf; destruct (broadcast_loop n c i l s) as [last s1] end. exact Hf.
Qed.

Lemma retry_deferred_loop_offers n i count s : offers_only s (retry_deferred_loop n i count s).2.
Proof.
  revert i count s. induction n as [|n IH]; intros i count s; simpl; [reflexivity|].
  destruct (vget _ _) as [e|]; [|apply IH]. destruct (bus_try e s) as [ok s1] eqn:Htry. apply bus_try_offers in Htry.
  destruct ok; [|exact Htry]. etrans; [exact Htry|].
  match goal with |- offers_only _ (retry_deferred_loop n ?j ?c ?x).2 => exact (IH j c x) end.
Qed.

Lemma retry_deferred_broadcast_offers s : offers_only s (retry_deferred_broadcast s).2.
Proof.
  unfold retry_deferred_broadcast. destruct (negb _); [reflexivity|]. case_decide; [by unfold offers_only|].
  match goal with |- context [retry_deferred_loop ?n ?i ?c s] =>
    pose proof (retry_deferred_loop_offers n i c s) as Hf; destruct (retry_deferred_loop n i c s) as [[[] count] s1] end;
    [exact Hf|]. repeat case_decide; exact Hf.
Qed.

(** *** When a retry gives up *)

(** The bus refuses the entry [n] times in a row. *)
Fixpoint refuses (n : nat) (e : OwnedLogEntry) (b : B) : bool :=
  match n with
  | O => true
  | S n => let '(ok, b) := try_broadcast e b in negb ok && refuses n e b
  end.

(** The readers take entries off the ring fast enough: from [b] on, no entry is refused as
    often as a broadcast tries.  This is about the readers, not a promise of the bus. *)
Definition patient (b : B) : Prop := forall b' e, rtc bus_step b b' -> refuses MAX_RETRIES_PER_ENTRY e b' = false.

Lemma patient_offers s s' : offers_only s s' -> patient (log_entry_bus s) -> patient (log_entry_bus s').
Proof. intros Ho Hp b e Hb. apply Hp. by etrans. Qed.

Lemma retry_broadcast_refuses fuel retries e s :
  (retries + fuel = MAX_RETRIES_PER_ENTRY)%nat ->
  (retry_broadcast fuel retries e s).1 = negb (refuses fuel e (log_entry_bus s)).
Proof.
  revert retries s. induction fuel as [|fuel IH]; intros retries s Hf; [done|]. rewrite retry_broadcast_S. cbn [refuses].
  unfold bus_try. destruct (try_broadcast e (log_entry_bus s)) as [[] b]; [done|]. simpl.
  case_decide; [assert (fuel = 0)%nat as -> by lia; done|]. case_decide; apply IH; lia.
Qed.

(** A broadcast has given up on the entry at index [k] of the log. *)
Definition gave_up s (k : Z) : Prop :=
  exists e b, vget (replication_log (volatile_server_state s)) k = Some e /\ rtc bus_step (log_entry_bus s) b /\
    refuses MAX_RETRIES_PER_ENTRY e b = true.

Lemma gave_up_later s s' k :
  replication_log (volatile_server_state s') = replication_log (volatile_server_state s) ->
  offers_only s s' -> gave_up s' k -> gave_up s k.
Proof. intros Hl Ho (e & b & Hg & Hb & Hr). exists e, b. rewrite <- Hl. split_and!; [done|by etrans|done]. Qed.

Lemma patient_never_gives_up s k : patient (log_entry_bus s) -> ~ gave_up s k.
Proof. intros Hp (e & b & _ & Hb & Hr). by rewrite (Hp b e Hb) in Hr. Qed.

End frame_loops.

(** ** What the readers of the bus see *)

Section delivery.
Context {B : Type} `{BusLaws B}.
Implicit Types s : SharedState B.

Abbreviation log s := (replication_log (volatile_server_state s)).
Abbreviation delivered s := (bus_log (log_entry_bus s)).

(** The number of entries the cursor says were broadcast. *)
Definition broadcast_count s : Z :=
  match last_broadcast_index (volatile_server_state s) with Some i => i + 1 | None => 0 end.

(** The readers got exactly the prefix of the log below the cursor, in order, each once. *)
Definition broadcast_inv s : Prop :=
  0 <= broadcast_count s <= vlen (log s) /\ vlen (log s) < 2 ^ 64 /\
  delivered s = vtruncate (broadcast_count s) (log s).

(** The bus has refused the entry at index [k] of the log. *)
Definition refused_at s (k : Z) : Prop :=
  exists e b b', vget (log s) k = Some e /\ try_broadcast e b = (false, b').

Lemma broadcast_start_count s : broadcast_inv s -> broadcast_start s = broadcast_count s.
Proof.
  unfold broadcast_inv, broadcast_start, broadcast_count. destruct (last_broadcast_index _); [|done].
  intros (? & ? & _). apply u64_add_small. lia.
Qed.

Lemma bus_try_spec e s ok s' :
  bus_try e s = (ok, s') ->
  volatile_server_state s' = volatile_server_state s /\
  delivered s' = delivered s ++ (if ok then [e] else []) /\
  (ok = false -> exists b b', try_broadcast e b = (false, b')).
Proof.
  unfold bus_try. destruct (try_broadcast e _) as [[] b] eqn:He; intros; simplify_eq/=.
  - split_and!; [done| |done]. by apply try_broadcast_ok.
  - split_and!; [done| |eauto]. rewrite app_nil_r. by eapply try_broadcast_full.
Qed.

Lemma retry_broadcast_spec fuel retries e s ok s' :
  retry_broadcast (S fuel) retries e s = (ok, s') ->
  log s' = log s /\ delivered s' = delivered s ++ (if ok then [e] else []) /\
  (ok = false -> exists b b', try_broadcast e b = (false, b')).
Proof.
  revert retries s. induction fuel as [|fuel IH]; intros retries s; rewrite retry_broadcast_S;
    destruct (bus_try e s) as [ok1 s1] eqn:Htry; apply bus_try_spec in Htry as (Hv & Hd & Hr);
    (destruct ok1; [intros ?; simplify_eq; rewrite Hv; by eauto|]); rewrite app_nil_r in Hd;
    repeat case_decide; intros Heq;
    try (rewrite ?retry_broadcast_0 in Heq; simplify_eq; simpl; rewrite ?Hv, ?app_nil_r; by eauto).
  - apply IH in Heq as (Hl & Hd' & Hr'). simpl in *. rewrite Hv in Hl. by rewrite Hd in Hd'.
  - apply IH in Heq as (Hl & Hd' & Hr'). rewrite Hv in Hl. by rewrite Hd in Hd'.
Qed.

Lemma when_bus_full_loop_spec n new start idx s r s' :
  when_bus_full_loop n new start idx s = (r, s') ->
  n = Z.to_nat (new + 1 - idx) -> 0 <= start <= idx -> start <= new -> idx <= new + 1 <= vlen (log s) ->
  delivered s = vtruncate idx (log s) ->
  exists k, idx <= k <= new + 1 /\ delivered s' = vtruncate k (log s) /\
    (k <= new -> gave_up s k) /\ ((start < k /\ r = k - 1) \/ (k = start /\ r = start)).
Proof.
  revert idx s. induction n as [|n IH]; intros idx s; cbn [when_bus_full_loop];
    intros Heq Hn Hstart Hnew Hidx Hd.
  { simplify_eq. exists idx. split_and!; [lia..|done|lia|]. left. lia. }
  destruct (vget (log s) idx) as [e|] eqn:Hget; [|apply vget_None in Hget; lia].
  destruct (retry_broadcast MAX_RETRIES_PER_ENTRY 0 e s) as [ok s1] eqn:Hr.
  pose proof (retry_broadcast_offers MAX_RETRIES_PER_ENTRY 0 e s) as Ho.
  pose proof (retry_broadcast_refuses MAX_RETRIES_PER_ENTRY 0 e s eq_refl) as Hrefuse. rewrite Hr in Ho, Hrefuse. simpl in Ho, Hrefuse.
  apply retry_broadcast_spec in Hr as (Hl & Hd1 & _). destruct ok.
  - apply IH in Heq as (k & Hk & Hdk & Href & Hcase); rewrite ?Hl in *; try lia.
    + exists k. split_and!; [lia..|done| |lia]. intros Hkn. by eapply gave_up_later; [..|apply Href].
    + rewrite Hd1, Hd. by rewrite vtruncate_S with (x := e).
  - simplify_eq. exists idx. rewrite app_nil_r in Hd1. split_and!; [lia..|by rewrite Hd1| |].
    + intros _. exists e, (log_entry_bus s). split_and!; [done|done|by apply negb_false_iff].
    + case_decide; lia.
Qed.

Lemma broadcast_loop_spec n new i last s r s' :
  broadcast_loop n new i last s = (r, s') ->
  n = Z.to_nat (new + 1 - i) -> 0 <= i <= new + 1 -> new + 1 <= vlen (log s) ->
  (i <= new \/ last = i - 1) -> delivered s = vtruncate i (log s) ->
  exists k, i <= k <= new + 1 /\ delivered s' = vtruncate k (log s) /\
    (k <= new -> gave_up s k) /\
    ((r = k - 1 /\ (i < k \/ new < i)) \/ (r = k /\ k <= new)).
Proof.
  revert i last s. induction n as [|n IH]; intros i last s; cbn [broadcast_loop];
    intros Heq Hn Hi Hlen Hlast Hd.
  { simplify_eq. exists i. split_and!; [lia..|done|lia|left; lia]. }
  destruct (vget (log s) i) as [e|] eqn:Hget; [|apply vget_None in Hget; lia].
  destruct (bus_try e s) as [ok s1] eqn:Htry. pose proof (bus_try_offers _ _ _ _ Htry) as Ho.
  apply bus_try_spec in Htry as (Hv & Hd1 & _).
  assert (log s1 = log s) as Hl by by rewrite Hv.
  destruct ok.
  - apply IH in Heq as (k & Hk & Hdk & Href & Hcase); rewrite ?Hl in *; try lia.
    + exists k. split_and!; [lia..|done| |lia]. intros Hkn. by eapply gave_up_later; [..|apply Href].
    + rewrite Hd1, Hd. by rewrite vtruncate_S with (x := e).
  - rewrite app_nil_r in Hd1. unfold broadcast_committed_entries_when_bus_full in Heq.
    eapply when_bus_full_loop_spec in Heq as (k & Hk & Hdk & Href & Hcase);
      simpl in *; rewrite ?Hl, ?Hd1 in *; try done; try lia.
    exists k. split_and!; [lia..|done| |lia].
    intros Hkn. by eapply (gave_up_later _ (bump_version s1)); [| |apply Href].
Qed.

Lemma retry_deferred_loop_spec n i count s returned count' s' :
  retry_deferred_loop n i count s = (returned, count', s') ->
  i = broadcast_count s -> broadcast_inv s ->
  broadcast_inv s' /\ log s' = log s /\
  i <= broadcast_count s' <= i + Z.of_nat n /\ count' - count = broadcast_count s' - i /\
  (returned = false -> broadcast_count s' = Z.min (i + Z.of_nat n) (vlen (log s))) /\
  (returned = true -> refused_at s (broadcast_count s')).
Proof.
  revert i count s. induction n as [|n IH]; intros i count s; cbn [retry_deferred_loop];
    intros Heq Hi (Hc & Hlen & Hd).
  { simplify_eq. split_and!; [done|done|lia..|done]. }
  destruct (vget (log s) i) as [e|] eqn:Hget.
  - destruct (bus_try e s) as [ok s1] eqn:Htry.
    apply bus_try_spec in Htry as (Hv & Hd1 & Hrefused).
    pose proof (vget_lt _ _ _ Hget). destruct ok.
    + apply IH in Heq as (Hinv & Hl & Hcnt & Hn & Hfull & Href); simpl in *; rewrite ?Hv in *.
      * split_and!; [done|done|lia..| |].
        { intros Hret. specialize (Hfull Hret). lia. }
        intros Hret. destruct (Href Hret) as (e' & b & b' & Hg & ?). exists e', b, b'.
        simpl in Hg. by rewrite ?Hv in Hg.
      * done.
      * unfold broadcast_inv, broadcast_count. simpl. rewrite ?Hv, Hd1, Hd.
        split_and!; [lia..|]. by rewrite <- Hi, vtruncate_S with (x := e).
    + simplify_eq. rewrite app_nil_r in Hd1.
      unfold broadcast_inv, broadcast_count, refused_at in *. rewrite Hv, Hd1.
      split_and!; try lia; try done. intros _. destruct Hrefused as (b & b' & ?); [done|].
      by exists e, b, b'.
  - assert (vlen (log s) = i) as Hend by (apply vget_None in Hget; lia).
    clear IH. assert (Hskip : forall m j c, vlen (log s) <= j -> retry_deferred_loop m j c s = (false, c, s)).
    { clear -Hc. induction m as [|m IH]; intros j c Hj; simpl; [done|].
      rewrite (proj2 (vget_None (log s) j ltac:(lia)) Hj). apply IH. lia. }
    rewrite Hskip in Heq by lia. simplify_eq. split_and!; try lia; try done.
Qed.

(** Retrying deferred broadcasts keeps the delivery invariant whatever the bus answers:
    the readers of the bus have been given exactly the log prefix below the cursor, in order
    and without a gap or a repetition.  The cursor never moves back, never passes the commit
    index, and the returned work count is the number of entries delivered. *)
Theorem retry_deferred_broadcast_inv s :
  broadcast_inv s ->
  let '(count, s') := retry_deferred_broadcast s in
  broadcast_inv s' /\ log s' = log s /\ count = broadcast_count s' - broadcast_count s /\
  0 <= count /\
  broadcast_count s' <= Z.max (broadcast_count s) (commit_index (volatile_server_state s) + 1).
Proof.
  intros Hinv. pose proof (broadcast_start_count s Hinv) as Hstart. pose proof Hinv as (Hc & Hlen & Hd).
  unfold retry_deferred_broadcast. destruct (negb _); [split_and!; [done|done|lia..]|].
  rewrite Hstart. case_decide; [split_and!; try done; unfold broadcast_count; simpl; lia|].
  match goal with |- context [retry_deferred_loop ?n ?i ?c s] =>
    destruct (retry_deferred_loop n i c s) as [[returned count] s1] eqn:Hloop end.
  eapply retry_deferred_loop_spec in Hloop as (Hinv1 & Hl & Hcnt & Hn & _ & _); [|done..].
  assert (broadcast_count s1 <= Z.max (broadcast_count s) (commit_index (volatile_server_state s) + 1)) by lia.
  destruct returned; [split_and!; [done|done|lia..]|].
  repeat case_decide; (split_and!; [exact Hinv1|exact Hl| unfold broadcast_count in *; simpl; lia..]).
Qed.

(** C24: A broadcast up to a commit index the log covers delivers, without gap, repetition or
    reordering, a prefix of the log to the readers.  When no entry is refused on all of the
    100 attempts of a retry this is the log up to the commit index, and the cursor and the deferred
    flag say so.  Otherwise the broadcast stops at the first entry it gave up on; then either
    cursor and flag say exactly what is left, or the cursor counts this entry as delivered,
    and the flag covers only the entries after it. *)
Theorem broadcast_committed_entries_delivers new s :
  broadcast_inv s -> broadcast_count s <= new < vlen (log s) ->
  let s' := broadcast_committed_entries new s in
  log s' = log s /\
  exists k, broadcast_count s <= k <= new + 1 /\ delivered s' = vtruncate k (log s) /\
    (k <= new -> gave_up s k) /\ (patient (log_entry_bus s) -> k = new + 1) /\
    ((broadcast_count s < k /\ broadcast_inv s' /\ broadcast_count s' = k /\
      has_deferred_broadcast (volatile_server_state s') = bool_decide (k <= new)) \/
     (k <= new /\ broadcast_count s' = k + 1 /\
      has_deferred_broadcast (volatile_server_state s') = bool_decide (k < new))).
Proof.
  intros Hinv Hnew. pose proof (broadcast_start_count s Hinv) as Hstart. pose proof Hinv as (Hc & Hlen & Hd).
  unfold broadcast_committed_entries. rewrite Hstart. case_decide; [lia|].
  match goal with |- context [broadcast_loop ?n ?c ?i ?l s] =>
    pose proof (broadcast_loop_frame n c i l s) as (? & ? & ? & ? & Hf);
    destruct (broadcast_loop n c i l s) as [last s1] eqn:Hloop end.
  assert (log s1 = log s) as Hl by (simpl in Hf; by rewrite Hf).
  eapply broadcast_loop_spec in Hloop as (k & Hk & Hdk & Href & Hcase); [|done|lia..|lia|done].
  split; [exact Hl|]. exists k. split_and!; [lia..|exact Hdk|exact Href| |].
  { intros Hp. destruct (decide (k = new + 1)) as [|Hne]; [done|].
    exfalso. apply (patient_never_gives_up s k); [done|apply Href; lia]. }
  unfold broadcast_inv, broadcast_count in *. simpl. rewrite Hl.
  destruct Hcase as [(-> & ?)|[-> ?]]; [left|right; by split_and!; [lia|lia|]].
  split_and!; try lia; [by rewrite Hdk; f_equal; lia|]. apply bool_decide_ext. lia.
Qed.

(** When the bus keeps refusing an entry, [broadcast_committed_entries] gives up with the
    cursor on that entry although no reader received it: the next broadcast starts one entry
    later, so the entry is lost for the readers. *)
Theorem persistent_refusal_skips_entry new s e :
  vget (log s) (broadcast_start s) = Some e -> broadcast_start s <= new ->
  (forall b, (try_broadcast e b).1 = false) ->
  let s' := broadcast_committed_entries new s in
  delivered s' = delivered s /\ broadcast_start s' = broadcast_start s +! 1 /\
  last_broadcast_index (volatile_server_state s') = Some (broadcast_start s).
Proof.
  intros Hget Hle Hrefuse. unfold broadcast_committed_entries. case_decide; [lia|].
  destruct (Z.to_nat _) as [|n] eqn:Hn; [lia|]. cbn [broadcast_loop]. rewrite Hget.
  assert (Hfalse : forall s ok s', bus_try e s = (ok, s') -> ok = false).
  { intros s1 ok s2. unfold bus_try. specialize (Hrefuse (log_entry_bus s1)).
    destruct (try_broadcast e (log_entry_bus s1)); simpl in *. by intros; simplify_eq. }
  destruct (bus_try e s) as [ok s1] eqn:Htry. pose proof (Hfalse _ _ _ Htry) as ->.
  apply bus_try_spec in Htry as (Hv & Hd & _). rewrite app_nil_r in Hd.
  unfold broadcast_committed_entries_when_bus_full. rewrite Hn. cbn [when_bus_full_loop].
  cbn [bump_version]. simpl. rewrite Hv, Hget.
  match goal with |- context [retry_broadcast ?m ?r e ?x] =>
    destruct (retry_broadcast m r e x) as [ok s2] eqn:Hr end.
  assert (ok = false) as ->.
  { clear -Hr Hfalse. revert Hr. generalize (bump_version s1), MAX_RETRIES_PER_ENTRY, 0%nat.
    intros x fuel. revert x. induction fuel as [|fuel IH]; intros x r.
    - rewrite retry_broadcast_0. by intros; simplify_eq.
    - rewrite retry_broadcast_S. destruct (bus_try e x) as [ok1 s3] eqn:Ht.
      pose proof (Hfalse _ _ _ Ht) as ->. repeat case_decide; intros; [by simplify_eq|eauto..]. }
  apply retry_broadcast_spec in Hr as (Hl & Hd2 & _). rewrite app_nil_r in Hd2.
  case_decide; [lia|]. simpl. rewrite Hd2. unfold broadcast_start at 1. simpl. by rewrite Hd.
Qed.

End delivery.

(** ** Concrete runs *)

Lemma retry_deferred_broadcast_inv_witness :
  broadcast_inv (sample_leader [false]) /\
  broadcast_inv (retry_deferred_broadcast (sample_leader [false])).2.
Proof.
  assert (Hinv : broadcast_inv (sample_leader [false])) by (split_and!; [vm_compute; done..|reflexivity]).
  split; [exact Hinv|]. pose proof (retry_deferred_broadcast_inv _ Hinv) as Hspec.
  destruct (retry_deferred_broadcast _) as [count s']. apply Hspec.
Defined.

Lemma broadcast_committed_entries_delivers_witness :
  broadcast_inv (sample_leader []) /\
  replication_log (volatile_server_state (broadcast_committed_entries 1 (sample_leader []))) = sample_log.
Proof.
  assert (Hinv : broadcast_inv (sample_leader [])) by (split_and!; [vm_compute; done..|reflexivity]).
  split; [exact Hinv|]. apply (broadcast_committed_entries_delivers 1 _ Hinv). split; vm_compute; done.
Defined.

(** A leader whose readers never take anything off the ring. *)
Definition full_bus_leader : SharedState FullBus :=
  let s := sample_leader [] in
  mkSharedState (server_state s) (volatile_server_state s) (persistence_work s) [] [] 1 ∅ 1 ∅ 2 [[]; []]
    1048576 (mkFullBus [sample_entry 0 1 0 0 1]) (callbacks s).

Lemma persistent_refusal_skips_entry_witness :
  bus_log (log_entry_bus (broadcast_committed_entries 1 full_bus_leader)) = [sample_entry 0 1 0 0 1] /\
  last_broadcast_index (volatile_server_state (broadcast_committed_entries 1 full_bus_leader)) = Some 1.
Proof.
  destruct (persistent_refusal_skips_entry 1 full_bus_leader (sample_entry 1 1 0 1 2)) as (Hd & _ & Hl);
    [reflexivity|vm_compute; done|done|]. split; [exact Hd|exact Hl].
Defined.
