(* ===== verification/LogModel.v ===== *)
(** * Well-formed replication logs

    The log of a node is a vector whose position [i] holds the entry with index [i]; each
    entry names the index and term of the one before it, and the volatile state names the
    last one.  An empty log has last index 0 and last term 0, which is also what its first
    entry (index 0) names as its predecessor. *)
From S2P Require Import Prelude Capnp RaftTypes RaftSm.

Section log.
Context {CP : Capnp}.
Implicit Types l : list OwnedLogEntry.

Definition last_index_of l : Z := if decide (l = []) then 0 else vlen l - 1.

Definition last_term_of l : Z := default 0 (term <$> vlast l).

(** [e] may follow the log [l]. *)
Definition follows l (e : OwnedLogEntry) : Prop :=
  index e = vlen l /\ prev_log_index e = last_index_of l /\ prev_log_term e = last_term_of l.

(** Every entry follows the entries before it. *)
Inductive log_wf : list OwnedLogEntry -> Prop :=
| log_wf_nil : log_wf []
| log_wf_snoc l e : log_wf l -> follows l e -> log_wf (l ++ [e]).

(** The volatile state describes the end of the log. *)
Definition tail_wf (v : RaftVolatileState) : Prop :=
  last_log_index v = last_index_of (replication_log v) /\
  last_log_term v = last_term_of (replication_log v).

Lemma last_index_of_snoc l e : last_index_of (l ++ [e]) = vlen l.
Proof. unfold last_index_of. case_decide; [by destruct l|]. rewrite vlen_app. unfold vlen. simpl. lia. Qed.

Lemma last_term_of_snoc l e : last_term_of (l ++ [e]) = term e.
Proof. unfold last_term_of, vlast. by rewrite last_snoc. Qed.

Lemma last_index_of_range l : 0 <= last_index_of l <= vlen l.
Proof. unfold last_index_of, vlen. case_decide; destruct l; simpl; try done; lia. Qed.

Lemma log_wf_index l i e : log_wf l -> vget l i = Some e -> index e = i.
Proof.
  induction 1 as [|l e' Hwf IH (Hidx & _)]; [by intros [_ ?]%vget_Some|].
  intros Hget. pose proof (vget_lt _ _ _ Hget) as Hlt. rewrite vlen_app in Hlt.
  destruct (decide (i < vlen l)).
  - apply IH. by rewrite vget_app_l in Hget.
  - assert (i = vlen l) as -> by (unfold vlen in *; simpl in *; lia).
    rewrite vget_app_last in Hget. by simplify_eq.
Qed.

Lemma log_wf_inv l e : log_wf (l ++ [e]) -> log_wf l /\ follows l e.
Proof.
  intros Hwf. inversion Hwf as [Heq|l' e' ? ? Heq]; [by destruct l|].
  apply app_inj_tail in Heq as [-> ->]. done.
Qed.

Lemma log_wf_prefix l1 l2 : log_wf (l1 ++ l2) -> log_wf l1.
Proof.
  revert l1. induction l2 as [|e l2 IH] using rev_ind; intros l1; [by rewrite app_nil_r|].
  rewrite (assoc_L (++)). intros [? _]%log_wf_inv. by apply IH.
Qed.

Lemma log_wf_truncate n l : log_wf l -> log_wf (vtruncate n l).
Proof. intros. apply (log_wf_prefix _ (drop (Z.to_nat n) l)). unfold vtruncate. by rewrite take_drop. Qed.

End log.

#[export] Hint Constructors log_wf : kraft.
#[export] Hint Rewrite @last_index_of_snoc @last_term_of_snoc : kraft_rw.

(** ** Position and predecessor identify an entry *)

Section matching.
Context {CP : Capnp}.
Implicit Types l : list OwnedLogEntry.

(** Terms of real entries start at 1. *)
Definition terms_positive l : Prop := Forall (fun e => 0 < term e) l.

Lemma log_wf_follows l i e : log_wf l -> vget l i = Some e -> follows (vtruncate i l) e.
Proof.
  intros Hwf Hget. apply vtruncate_S in Hget as Heq. apply (log_wf_truncate (i + 1)) in Hwf.
  rewrite Heq in Hwf. by apply log_wf_inv in Hwf as [_ ?].
Qed.

Lemma last_term_of_positive l : terms_positive l -> l <> [] -> 0 < last_term_of l.
Proof.
  induction l as [|e l _] using rev_ind; [done|]. intros Hp _. rewrite last_term_of_snoc.
  unfold terms_positive in Hp. rewrite Forall_app in Hp. destruct Hp as [_ Hp]. by inversion Hp.
Qed.

(** The end of a log determines its length. *)
Lemma last_determines_length l1 l2 :
  terms_positive l1 -> terms_positive l2 ->
  last_index_of l1 = last_index_of l2 -> last_term_of l1 = last_term_of l2 -> vlen l1 = vlen l2.
Proof.
  intros H1 H2. destruct (decide (l1 = [])) as [->|Hn1], (decide (l2 = [])) as [->|Hn2]; intros Hi Ht; [done|..].
  - apply last_term_of_positive in H2; [|done]. rewrite <- Ht in H2. done.
  - apply last_term_of_positive in H1; [|done]. rewrite Ht in H1. done.
  - unfold last_index_of in Hi. rewrite !decide_False in Hi by done. lia.
Qed.

Lemma terms_positive_truncate n l : terms_positive l -> terms_positive (vtruncate n l).
Proof. apply Forall_take. Qed.

Lemma terms_positive_prefix l1 l2 : l1 `prefix_of` l2 -> terms_positive l2 -> terms_positive l1.
Proof. intros [k ->]. unfold terms_positive. rewrite Forall_app. by intros [? _]. Qed.

Lemma prefix_vtruncate l1 l2 : l1 `prefix_of` l2 -> l1 = vtruncate (vlen l1) l2.
Proof.
  intros [k ->]. unfold vtruncate, vlen. rewrite Nat2Z.id. by rewrite take_app_length.
Qed.

(** The predecessor an entry of [l2] names is the end of the prefix [l1] if and only if the
    entry is the next one. *)
Lemma next_entry_iff l1 l2 i e :
  l1 `prefix_of` l2 -> log_wf l2 -> terms_positive l2 -> vget l2 i = Some e ->
  (prev_log_index e = last_index_of l1 /\ prev_log_term e = last_term_of l1) <-> i = vlen l1.
Proof.
  intros Hpre Hwf Hpos Hget. pose proof (log_wf_follows _ _ _ Hwf Hget) as (Hi & Hpi & Hpt).
  pose proof (vget_lt _ _ _ Hget). rewrite Hpi, Hpt. split.
  - intros [Hli Hlt]. apply last_determines_length in Hli; [|eauto using terms_positive_truncate, terms_positive_prefix..|done].
    rewrite vlen_truncate in Hli by lia. lia.
  - intros ->. by rewrite <- prefix_vtruncate.
Qed.

End matching.
