(* ===== verification/Follower.v ===== *)
(** * The follower

    [src/raft/follower/election.rs], [src/raft/follower/append_entries.rs] and
    [src/raft/follower/mod.rs]. *)
From S2P Require Import Prelude Capnp RaftTypes Bus RaftSm LogModel.

(** ** [ElectionTimer] *)

(** [now_plus_duration_millis(dur)] of [service_utils/app_time.rs]. *)
Definition now_plus_duration_millis (now dur : Z) : Z := now + dur.

(** [ElectionTimer::new]. *)
Definition ElectionTimer_new (env : Env) : ElectionTimer :=
  let min := 600 in
  let max := 1300 in
  let timeout := gen_range (rand env 0%nat) min max in
  mkElectionTimer (now_plus_duration_millis (clock env 0%nat) timeout) min max.

(** [ElectionTimer::reset]. *)
Definition reset (env : Env) (t : ElectionTimer) : ElectionTimer :=
  let timeout_ms := gen_range (rand env 0%nat) (election_timeout_min t) (election_timeout_max t) in
  t <| election_timeout := now_plus_duration_millis (clock env 0%nat) timeout_ms |>.

(** [RaftCandidateStateDelegate::new] of [candidate.rs]. *)
Definition RaftCandidateStateDelegate_new : RaftCandidateStateDelegate :=
  mkRaftCandidateStateDelegate 0 None.

(** [ElectionTimer::check_timeout]. *)
Definition check_timeout (env : Env) (t : ElectionTimer) : option RaftMessageStateChange :=
  let now := clock env 0%nat in
  if decide (election_timeout t < now)
  then Some (SC_Candidate RaftCandidateStateDelegate_new)
  else None.

(** [RaftFollowerStateDelegate::new]. *)
Definition RaftFollowerStateDelegate_new (env : Env) : RaftFollowerStateDelegate :=
  mkRaftFollowerStateDelegate (ElectionTimer_new env).

Section follower.
Context {CP : Capnp} {B : Type} `{Bus B}.
Implicit Types s : SharedState B.

(** ** [append_entries.rs] *)

(** [validate_append_entries]. *)
Definition validate_append_entries (r : LocalAppendEntries) (last_log_index last_log_term : Z) : bool :=
  bool_decide (a_prev_index r = last_log_index) && bool_decide (a_prev_term r = last_log_term).

(** The [WantedPreviousEntry] answer with the node's own last term and index. *)
Definition wanted_previous s : LocalRaftResponsePayload :=
  RP_AppendEntries (AE_WantedPreviousEntry
    (last_log_term (volatile_server_state s)) (last_log_index (volatile_server_state s))).

(** [update_commit_index]. *)
Definition update_commit_index (new_commit_index : Z) s : SharedState B :=
  let s := s <| volatile_server_state ; commit_index := new_commit_index |> in
  let s := s <| volatile_server_state ; commit_state ::=
                  fun c => c <| cs_commit_index := new_commit_index |> |> in
  let s := bump_version s in
  broadcast_committed_entries new_commit_index s.

(** The bookkeeping of [apply_log_entry] for the received entry, and its bytes. *)
Definition note_received_entry (entry : option LogEntry) s : list byte * SharedState B :=
  match entry with
  | Some entry =>
    let s := s <| volatile_server_state ; last_log_index := e_index entry |> in
    let s := s <| volatile_server_state ; last_log_term := e_term entry |> in
    let s :=
      if decide (e_prev_log_term entry <> e_term entry)
      then s <| volatile_server_state ; replication_log_term_starts ::=
                  <[ e_term entry := vlen (replication_log (volatile_server_state s)) ]> |>
      else s in
    (e_data entry, s)
  | None => ([], s)
  end.

(** [apply_log_entry]. *)
Definition apply_log_entry (request : LocalAppendEntries) (callback : Callback) s : SharedState B :=
  let message_id := next_message_id s in
  let s := s <| next_message_id ::= fun n => n +! 1 |> in
  let '(data, s) := note_received_entry (a_entry request) s in
  match from_bytes data with
  | None => callback_send_ok callback (wanted_previous s) s
  | Some owned_entry =>
    match persistence_send (PT_AppendLog message_id data (a_request_id request)) s with
    | None => callback_send_ok callback (wanted_previous s) s
    | Some s =>
      let s := s <| volatile_server_state ; replication_log ::= fun l => l ++ [owned_entry] |> in
      let s :=
        if decide (commit_index (volatile_server_state s) < a_commit_index request)
        then update_commit_index (a_commit_index request) s else s in
      s <| outstanding_messages ::=
             <[ message_id := mkOutstandingMessage message_id 1 (OM_AppendLog callback) ]> |>
    end
  end.

(** [handle_new_leader]. *)
Definition handle_new_leader (env : Env) (request : LocalAppendEntries) (callback : Callback) s
    (timer : ElectionTimer) : SharedState B * ElectionTimer :=
  let s := s <| server_state ; current_term := a_term request |> in
  let s := s <| server_state ; leader_id := a_leader_id request |> in
  let s := s <| volatile_server_state ; next_term := a_term request +! 1 |> in
  let timer := reset env timer in
  let v := volatile_server_state s in
  if validate_append_entries request (last_log_index v) (last_log_term v)
  then match a_entry request with
       | Some _ => (apply_log_entry request callback s, timer)
       | None => (callback_send_ok callback (RP_AppendEntries AE_Ok) s, timer)
       end
  else (callback_send_ok callback (wanted_previous s) s, timer).

(** [handle_heartbeat]. *)
Definition handle_heartbeat (env : Env) (request : LocalAppendEntries) (callback : Callback) s
    (timer : ElectionTimer) : SharedState B * ElectionTimer :=
  let timer := reset env timer in
  let v := volatile_server_state s in
  if decide (a_prev_term request <> last_log_term v \/ a_prev_index request <> last_log_index v)
  then (callback_send_ok callback (wanted_previous s) s, timer)
  else
    let s :=
      if decide (commit_index v < a_commit_index request \/
                 current_term (server_state s) <> a_term request)
      then update_commit_index (a_commit_index request) s else s in
    (callback_send_ok callback (RP_AppendEntries AE_Ok) s, timer).

(** [handle_non_consecutive_request]. *)
Definition handle_non_consecutive_request (env : Env) (request : LocalAppendEntries)
    (callback : Callback) s (timer : ElectionTimer) : SharedState B * ElectionTimer :=
  (callback_send_ok callback (wanted_previous s) s, reset env timer).

(** [send_unrecognized_leader_response]. *)
Definition send_unrecognized_leader_response (callback : Callback) s : SharedState B :=
  callback_send_ok callback (RP_AppendEntries AE_UnrecognizedLeader) s.

(** ** [follower/mod.rs] *)

Implicit Types d : RaftFollowerStateDelegate.

(** [RaftFollowerStateDelegate::truncate_log]; a failed send is only logged. *)
Definition truncate_log (prev_term prev_index : Z) s : SharedState B :=
  let target_length := prev_index +! 1 in
  if decide (target_length < vlen (replication_log (volatile_server_state s))) then
    let s := s <| volatile_server_state ; replication_log ::= vtruncate target_length |> in
    let s := s <| volatile_server_state ; last_log_term := prev_term |> in
    let s := s <| volatile_server_state ; last_log_index := prev_index |> in
    let s := s <| volatile_server_state ; next_log_index := prev_index +! 1 |> in
    let s := s <| volatile_server_state ; replication_log_term_starts ::=
                    filter (fun kv => kv.2 <= prev_index) |> in
    default s (persistence_send (PT_TruncateLog target_length) s)
  else s.

(** [RaftProtocol::append_entries] of the follower. *)
Definition append_entries (env : Env) (request : LocalAppendEntries) (callback : Callback) d s
    : RaftMessageStateChange * RaftFollowerStateDelegate * SharedState B :=
  let timer := election_timer d in
  let v := volatile_server_state s in
  if decide (current_term (server_state s) < a_term request) then
    let '(s, timer) := handle_new_leader env request callback s timer in
    (SC_None, mkRaftFollowerStateDelegate timer, s)
  else if decide (a_leader_id request = leader_id (server_state s)) then
    if decide (a_request_id request = 0) then
      let '(s, timer) := handle_heartbeat env request callback s timer in
      (SC_None, mkRaftFollowerStateDelegate timer, s)
    else if negb (validate_append_entries request (last_log_index v) (last_log_term v)) then
      let '(s, timer) := handle_non_consecutive_request env request callback s timer in
      (SC_None, mkRaftFollowerStateDelegate timer, s)
    else
      let s := apply_log_entry request callback s in
      (SC_None, mkRaftFollowerStateDelegate (reset env timer), s)
  else
    let s := send_unrecognized_leader_response callback s in
    (SC_None, mkRaftFollowerStateDelegate (reset env timer), s).

(** [handle_log_persisted]. *)
Definition handle_log_persisted (id : Z) s : SharedState B :=
  match outstanding_messages s !! id with
  | Some msg =>
    let s := s <| outstanding_messages ::= delete id |> in
    match message_type msg with
    | OM_AppendLog callback => callback_send_ok callback (RP_AppendEntries AE_Ok) s
    | _ => s
    end
  | None => s
  end.

(** [handle_vote_persisted]; [None] is the panic of [callback.send(response).unwrap()]. *)
Definition handle_vote_persisted (id : Z) s : option (SharedState B) :=
  match outstanding_messages s !! id with
  | Some msg =>
    let s := s <| outstanding_messages ::= delete id |> in
    match message_type msg with
    | OM_RequestVote callback => callback_send callback (RP_RequestVote true) s
    | _ => Some s
    end
  | None => Some s
  end.

Definition handle_persistence_response (t : PersistenceResponseType) s : option (SharedState B) :=
  match t with
  | PR_LogPersisted id => Some (handle_log_persisted id s)
  | PR_VotePersisted id _ _ => handle_vote_persisted id s
  end.

(** [while let Some(task) = persistence_response.pop()]. *)
Fixpoint process_persistence (q : list PersistenceResponseType) (work_done : Z) s
    : option (Z * SharedState B) :=
  match q with
  | [] => Some (work_done, s)
  | t :: rest =>
    let s := s <| persistence_response := rest |> in
    let* s := handle_persistence_response t s in
    process_persistence rest (work_done + 1) s
  end.

Definition handle_quorum_response (t : LocalQuorumTaskResponseType) s : SharedState B :=
  match t with
  | QR_TruncateLog _ prev_term prev_index => bump_version (truncate_log prev_term prev_index s)
  | QR_RequestVoteResponse _ _ _ => s
  | QR_BackfillLog _ _ _ => s
  | QR_AppendEntries _ _ => s
  | QR_TruncateLogResponse _ _ => s
  end.

(** [while let Some(task) = quorum_response.pop()]. *)
Fixpoint process_quorum (q : list LocalQuorumTaskResponseType) (work_done : Z) s : Z * SharedState B :=
  match q with
  | [] => (work_done, s)
  | t :: rest =>
    let s := s <| quorum_response := rest |> in
    process_quorum rest (work_done + 1) (handle_quorum_response t s)
  end.

(** [RaftProtocol::time_step] of the follower. *)
Definition time_step (env : Env) d s
    : option (RaftMessageStateChange * Z * RaftFollowerStateDelegate * SharedState B) :=
  let* (work_done, s) := process_persistence (persistence_response s) 0 s in
  let '(work_done, s) := process_quorum (quorum_response s) work_done s in
  let '(n, s) := retry_deferred_broadcast s in
  let work_done := work_done + n in
  match check_timeout env (election_timer d) with
  | Some state_change => Some (state_change, work_done, d, s)
  | None => Some (SC_None, work_done, d, s)
  end.

(** The raise of [next_term] every [request_vote] starts with. *)
Definition observe_vote_term (term : Z) s : SharedState B :=
  if decide (next_term (volatile_server_state s) <= term)
  then s <| volatile_server_state ; next_term := term +! 1 |> else s.

(** [RaftProtocol::request_vote] of the follower; [None] is the panic of [expect]. *)
Definition request_vote (r : LocalRequestVoteRequest) (callback : Callback) d s
    : option (RaftMessageStateChange * RaftFollowerStateDelegate * SharedState B) :=
  let s := observe_vote_term (rv_term r) s in
  if negb (should_accept_vote (rv_term r) (rv_last_log_term r) (rv_last_log_index r) s) then
    let* s := callback_send callback (RP_RequestVote false) s in
    Some (SC_None, d, s)
  else
    let message_id := next_message_id s in
    let s := s <| next_message_id := message_id +! 1 |> in
    let s := s <| outstanding_messages ::=
                    <[ message_id := mkOutstandingMessage message_id 1 (OM_RequestVote callback) ]> |> in
    Some (SC_None, d, s).

End follower.
