(* ===== verification/FollowerSpec.v ===== *)
(** * What the follower guarantees

    Replication of a leader's log, acknowledgements, truncation, the commit index and votes,
    over the definitions of [Follower.v]. *)
From S2P Require Import Prelude Capnp CapnpInstance RaftTypes Bus Samples RaftSm LogModel.
From S2P Require Import Follower.

Section replication.
Context {CP : Capnp} {B : Type} `{Bus B}.
Implicit Types s : SharedState B.

Abbreviation log s := (replication_log (volatile_server_state s)).

(** The request a leader of term [t] makes of an entry of its log. *)
Definition entry_request (e : OwnedLogEntry) (t leader id commit : Z) : LocalAppendEntries :=
  mkLocalAppendEntries t leader (prev_log_index e) (prev_log_term e) id
    (Some (mkLogEntry (index e) (as_bytes e) (index e) (term e) (prev_log_term e) (prev_log_index e)
                      (message_id e))) commit.

(** The bytes of the entry read as a message; every entry of a running node does. *)
Definition readable (e : OwnedLogEntry) : Prop := from_bytes (as_bytes e) = Some e.

(** Commit index and broadcasts of a follower leave the rest of the state alone. *)
Lemma update_commit_index_frame n s :
  exists b w c d, update_commit_index n s =
    with_broadcast b w c d
      (s <| volatile_server_state ; commit_index := n |>
         <| volatile_server_state ; commit_state ::= fun c => c <| cs_commit_index := n |> |>).
Proof.
  unfold update_commit_index.
  match goal with |- context [broadcast_committed_entries ?i ?x] =>
    destruct (broadcast_committed_entries_frame i x) as (b & w & c & d & ->) end.
  do 4 eexists. reflexivity.
Qed.

(** What applying a readable entry does, when the persistence worker is there. *)
Lemma apply_log_entry_spec e t leader id commit cb s :
  readable e -> chan_open (persistence_work s) = true ->
  let s' := apply_log_entry (entry_request e t leader id commit) cb s in
  log s' = log s ++ [e] /\
  last_log_index (volatile_server_state s') = index e /\
  last_log_term (volatile_server_state s') = term e /\
  chan_queue (persistence_work s') =
    chan_queue (persistence_work s) ++ [PT_AppendLog (next_message_id s) (as_bytes e) id] /\
  outstanding_messages s' =
    <[next_message_id s := mkOutstandingMessage (next_message_id s) 1 (OM_AppendLog cb)]>
      (outstanding_messages s) /\
  callbacks s' = callbacks s /\
  commit_index (volatile_server_state s') = Z.max (commit_index (volatile_server_state s)) commit.
Proof.
  intros Hr Hopen. unfold apply_log_entry, note_received_entry. cbn [a_entry entry_request].
  match goal with |- context [persistence_send ?m ?x] => set (s1 := x) end.
  assert (exists starts, s1 = (s <| next_message_id ::= fun n => n +! 1 |>
     <| volatile_server_state ; last_log_index := index e |>
     <| volatile_server_state ; last_log_term := term e |>
     <| volatile_server_state ; replication_log_term_starts := starts |>)) as [starts ->].
  { unfold s1. simpl. case_decide; eexists; reflexivity. }
  simpl. rewrite Hr, persistence_send_open by done. simpl.
  match goal with |- context [if decide (?p < ?q) then update_commit_index ?n ?x else ?x] =>
    destruct (decide (p < q)); [destruct (update_commit_index_frame n x) as (b & w & c & d & ->)|] end;
    simpl; split_and!; try done; lia.
Qed.

(** The leader is the one the follower follows, or one of a newer term. *)
Definition recognized (r : LocalAppendEntries) s : Prop :=
  current_term (server_state s) < a_term r \/
  (a_leader_id r = leader_id (server_state s) /\ a_request_id r <> 0).

(** A request with an entry from a recognized leader is applied if it names the end of the
    log as its predecessor and answered with the end of the log otherwise. *)
Lemma append_entries_cases env e t leader id commit cb d s :
  let r := entry_request e t leader id commit in
  recognized r s ->
  let s' := (append_entries env r cb d s).2 in
  exists s1, volatile_server_state s1 =
               (volatile_server_state s) <| next_term := next_term (volatile_server_state s1) |> /\
    persistence_work s1 = persistence_work s /\ callbacks s1 = callbacks s /\
    next_message_id s1 = next_message_id s /\ outstanding_messages s1 = outstanding_messages s /\
    s' = if validate_append_entries r (last_log_index (volatile_server_state s))
              (last_log_term (volatile_server_state s))
         then apply_log_entry r cb s1
         else callback_send_ok cb (wanted_previous s1) s1.
Proof.
  intros r Hrec. unfold append_entries, recognized, r in *. simpl in *.
  case_decide as Hnew.
  - unfold handle_new_leader. eexists. simpl.
    destruct (validate_append_entries _ _ _); simpl; (split_and!; [..|reflexivity]); done.
  - destruct Hrec as [?|[Hl Hid]]; [done|]. rewrite decide_True by done. rewrite decide_False by done.
    exists s. destruct (validate_append_entries _ _ _); simpl; split_and!; try done; by destruct s as [? []].
Qed.

(** C9: A follower whose log is a prefix of a leader's well-formed log takes an entry of that
    log if and only if it is the next one.  It is then appended (so the log is still a prefix
    of the leader's, with the cursors at its end), its bytes are queued for persistence and
    nothing is answered yet.  Any other entry leaves the log alone and is answered with the
    end of the follower's log. *)
Theorem follower_takes_exactly_the_next_entry env L i e t leader id commit cb d s :
  log_wf L -> terms_positive L -> log s `prefix_of` L -> tail_wf (volatile_server_state s) ->
  vget L i = Some e -> readable e -> chan_open (persistence_work s) = true ->
  recognized (entry_request e t leader id commit) s ->
  let s' := (append_entries env (entry_request e t leader id commit) cb d s).2 in
  log s' `prefix_of` L /\ tail_wf (volatile_server_state s') /\
  if decide (i = vlen (log s))
  then log s' = log s ++ [e] /\ callbacks s' = callbacks s /\
       outstanding_messages s' !! next_message_id s =
         Some (mkOutstandingMessage (next_message_id s) 1 (OM_AppendLog cb)) /\
       chan_queue (persistence_work s') =
         chan_queue (persistence_work s) ++ [PT_AppendLog (next_message_id s) (as_bytes e) id]
  else log s' = log s /\ callbacks s' = respond cb (wanted_previous s) (callbacks s) /\
       persistence_work s' = persistence_work s.
Proof.
  intros Hwf Hpos Hpre [Hti Htt] Hget Hr Hopen Hrec s'.
  pose proof (next_entry_iff _ _ _ _ Hpre Hwf Hpos Hget) as Hiff.
  destruct (append_entries_cases env e t leader id commit cb d s Hrec) as (s1 & Hv & Hw & Hc & Hn & Ho & Heq).
  subst s'. rewrite Heq. unfold validate_append_entries. simpl. rewrite Hti, Htt, <- bool_decide_and.
  assert (log s1 = log s) as Hl by by rewrite Hv.
  destruct (decide (i = vlen (log s))) as [Hi|Hi].
  - rewrite bool_decide_true by by apply Hiff.
    destruct (apply_log_entry_spec e t leader id commit cb s1) as (Hl' & Hi' & Ht' & Hq & Ho' & Hc' & _);
      [done|by rewrite Hw|]. rewrite Hl in Hl'. rewrite Hl', Hq, Ho', Hc', Hw, Hn, Hc.
    assert (log s ++ [e] = vtruncate (i + 1) L) as Hsnoc.
    { rewrite (vtruncate_S _ _ _ Hget), Hi. by rewrite <- prefix_vtruncate. }
    split_and!; try done.
    + rewrite Hsnoc. apply prefix_take.
    + split; [rewrite Hi', Hl', last_index_of_snoc; by rewrite (log_wf_index L i)|].
      by rewrite Ht', Hl', last_term_of_snoc.
    + by rewrite lookup_insert_eq.
  - rewrite bool_decide_false by by intros ?%Hiff. rewrite callback_send_ok_eq. simpl.
    unfold wanted_previous, tail_wf. simpl. rewrite Hc, Hv. simpl. done.
Qed.

End replication.

(** ** Acknowledgements *)

Section acknowledgements.
Context {CP : Capnp} {B : Type} `{Bus B}.
Implicit Types s : SharedState B.

(** The log entries a run of persistence responses reports. *)
Definition persisted_ids (q : list PersistenceResponseType) : list Z :=
  omap (fun r => match r with PR_LogPersisted id => Some id | PR_VotePersisted _ _ _ => None end) q.

(** Every outstanding message waits for its log entry. *)
Definition only_appends (m : gmap Z OutstandingMessage) : Prop :=
  forall id msg, m !! id = Some msg -> exists cb, message_type msg = OM_AppendLog cb.

(** The acknowledgements of a run of persistence responses, in order. *)
Fixpoint acks (m : gmap Z OutstandingMessage) (ids : list Z) : list (Callback * LocalRaftResponsePayload) :=
  match ids with
  | [] => []
  | id :: ids =>
    match message_type <$> m !! id with
    | Some (OM_AppendLog cb) => (cb, RP_AppendEntries AE_Ok) :: acks (delete id m) ids
    | _ => acks (delete id m) ids
    end
  end.

Lemma only_appends_delete m id : only_appends m -> only_appends (delete id m).
Proof. intros Hm i msg Hi%lookup_delete_Some. destruct Hi as [_ Hi]. by eapply Hm. Qed.

(** A follower acknowledges an appended entry when, and only when, its persistence worker
    reports it: after any run of log reports the acknowledgements sent are those of the
    reported entries that were outstanding, each once and in the order of the reports, and
    the entries not reported are still outstanding. *)
Theorem persistence_reports_acknowledge q n s :
  only_appends (outstanding_messages s) -> cb_dropped (callbacks s) = ∅ ->
  Forall (fun r => exists id, r = PR_LogPersisted id) q ->
  exists s', process_persistence q n s = Some (n + vlen q, s') /\
    cb_sent (callbacks s') =
      cb_sent (callbacks s) ++ acks (outstanding_messages s) (persisted_ids q) /\
    (forall id, id ∉ persisted_ids q ->
       outstanding_messages s' !! id = outstanding_messages s !! id) /\
    (forall id, id ∈ persisted_ids q -> outstanding_messages s' !! id = None).
Proof.
  intros Ho Hd Hq. revert n s Ho Hd. induction Hq as [|r q [id ->] Hq IH]; intros n s Ho Hd.
  { exists s. simpl. rewrite app_nil_r, Z.add_0_r. split_and!; try done. intros id. by rewrite elem_of_nil. }
  simpl. unfold handle_log_persisted. simpl.
  assert (Hstep : forall s1, outstanding_messages s1 = delete id (outstanding_messages s) ->
    cb_dropped (callbacks s1) = ∅ ->
    exists s', process_persistence q (n + 1) s1 = Some (n + vlen (PR_LogPersisted id :: q), s') /\
      cb_sent (callbacks s') = cb_sent (callbacks s1) ++ acks (delete id (outstanding_messages s)) (persisted_ids q) /\
      (forall i, i ∉ id :: persisted_ids q -> outstanding_messages s' !! i = outstanding_messages s !! i) /\
      (forall i, i ∈ id :: persisted_ids q -> outstanding_messages s' !! i = None)).
  { intros s1 Ho1 Hd1. destruct (IH (n + 1) s1) as (s' & -> & Hc & Hnot & Hin);
      [rewrite Ho1; by apply only_appends_delete|done|]. exists s'. rewrite Ho1 in Hc, Hnot. split_and!.
    - do 2 f_equal. unfold vlen. simpl. lia.
    - done.
    - intros i [Hne Hni]%not_elem_of_cons. rewrite Hnot by done. by rewrite lookup_delete_ne.
    - intros i Hi. destruct (decide (i ∈ persisted_ids q)) as [|Hni]; [by apply Hin|].
      apply elem_of_cons in Hi as [->|?]; [|done]. rewrite Hnot by done. apply lookup_delete_eq. }
  destruct (outstanding_messages s !! id) as [msg|] eqn:Hid; simpl.
  - destruct (Ho id msg Hid) as [cb Hcb]. rewrite Hcb, callback_send_ok_eq.
    match goal with |- context [process_persistence q _ ?x] => destruct (Hstep x) as (s' & -> & Hc & Hr) end.
    { done. }
    { simpl. unfold respond. rewrite Hd, decide_False by set_solver. done. }
    exists s'. split; [done|]. split; [|exact Hr]. rewrite Hc. simpl. unfold respond.
    rewrite Hd, decide_False by set_solver. simpl. by rewrite <- (assoc_L (++)).
  - match goal with |- context [process_persistence q _ ?x] => destruct (Hstep x) as (s' & -> & Hc & Hr) end.
    { simpl. by rewrite delete_id. }
    { done. }
    exists s'. split; [done|]. split; [|exact Hr]. by rewrite Hc.
Qed.

End acknowledgements.

(** ** Truncation *)

Section truncation.
Context {CP : Capnp} {B : Type} `{Bus B}.
Implicit Types s : SharedState B.

Abbreviation log s := (replication_log (volatile_server_state s)).

Lemma truncate_log_short prev_term prev_index s :
  0 <= prev_index -> prev_index + 1 < 2 ^ 64 -> vlen (log s) <= prev_index + 1 ->
  truncate_log prev_term prev_index s = s.
Proof. intros. unfold truncate_log. rewrite u64_add_small by lia. by rewrite decide_False by lia. Qed.

Lemma truncate_log_long prev_term prev_index s :
  0 <= prev_index -> prev_index + 1 < 2 ^ 64 -> prev_index + 1 < vlen (log s) ->
  chan_open (persistence_work s) = true ->
  exists starts, truncate_log prev_term prev_index s =
    s <| volatile_server_state ; replication_log := vtruncate (prev_index + 1) (log s) |>
      <| volatile_server_state ; last_log_term := prev_term |>
      <| volatile_server_state ; last_log_index := prev_index |>
      <| volatile_server_state ; next_log_index := prev_index + 1 |>
      <| volatile_server_state ; replication_log_term_starts := starts |>
      <| persistence_work := mkSender true (chan_queue (persistence_work s) ++ [PT_TruncateLog (prev_index + 1)]) |>.
Proof.
  intros ? ? ? Hopen. unfold truncate_log. rewrite u64_add_small by lia. rewrite decide_True by done.
  rewrite persistence_send_open by done. eexists. reflexivity.
Qed.

(** A truncate signal that names an entry of the follower's log by its index and term cuts
    the log right after that entry, in memory and (one task with the same length) on disk;
    the log stays well formed with the cursors at its new end.  A signal at or past the end
    changes nothing. *)
Theorem truncate_log_cuts_after_named_entry prev_index e s :
  log_wf (log s) -> tail_wf (volatile_server_state s) -> vlen (log s) < 2 ^ 64 ->
  vget (log s) prev_index = Some e -> chan_open (persistence_work s) = true ->
  let s' := truncate_log (term e) prev_index s in
  log_wf (log s') /\ tail_wf (volatile_server_state s') /\
  log s' = vtruncate (prev_index + 1) (log s) /\ vlast (log s') = Some e /\
  chan_queue (persistence_work s') = chan_queue (persistence_work s) ++
    (if decide (prev_index + 1 < vlen (log s)) then [PT_TruncateLog (prev_index + 1)] else []).
Proof.
  intros Hwf Ht Hlen Hget Hopen s'. pose proof (vget_lt _ _ _ Hget) as Hlt. subst s'.
  assert (Hsnoc : vtruncate (prev_index + 1) (log s) = vtruncate prev_index (log s) ++ [e]) by by apply vtruncate_S.
  case_decide.
  - destruct (truncate_log_long (term e) prev_index s) as [starts ->]; [lia..|done|].
    unfold tail_wf. simpl. split_and!; try done.
    + by apply log_wf_truncate.
    + rewrite Hsnoc, last_index_of_snoc, vlen_truncate by lia. lia.
    + by rewrite Hsnoc, last_term_of_snoc.
    + rewrite Hsnoc. apply last_snoc.
  - rewrite truncate_log_short by lia. rewrite app_nil_r, vtruncate_ge by lia.
    split_and!; try done. rewrite <- (vtruncate_ge (prev_index + 1) (log s)), Hsnoc by lia. apply last_snoc.
Qed.

(** The signal "truncate everything" (term 0, index 0) leaves the first entry in the
    follower's log but records an empty log's last term and index.  The next first entry a
    leader sends is then taken as a second entry: the log has two entries of index 0 and is
    not well formed. *)
Theorem truncate_everything_keeps_first_entry env e0 rest e t leader id commit cb d s :
  log s = e0 :: rest -> rest <> [] -> readable e -> chan_open (persistence_work s) = true ->
  index e = 0 -> prev_log_index e = 0 -> prev_log_term e = 0 ->
  recognized (entry_request e t leader id commit) s ->
  let s1 := truncate_log 0 0 s in
  let s2 := (append_entries env (entry_request e t leader id commit) cb d s1).2 in
  log s1 = [e0] /\ log s2 = [e0; e] /\ ~ log_wf (log s2).
Proof.
  intros Hl Hne Hr Hopen Hi Hpi Hpt Hrec s1 s2.
  destruct (truncate_log_long 0 0 s) as [starts Heq]; [lia..| |done|].
  { rewrite Hl. unfold vlen. destruct rest; simpl; [done|lia]. }
  assert (Hrec1 : recognized (entry_request e t leader id commit) s1) by (unfold s1; by rewrite Heq).
  destruct (append_entries_cases env e t leader id commit cb d s1 Hrec1) as (s3 & Hv & Hw & _ & _ & _ & Hs2).
  assert (Hl1 : log s1 = [e0]) by (unfold s1; rewrite Heq; simpl; by rewrite Hl).
  assert (Hl2 : log s2 = [e0; e]).
  { unfold s2. rewrite Hs2. unfold validate_append_entries. simpl. rewrite Hpi, Hpt.
    replace (last_log_index (volatile_server_state s1)) with 0 by (unfold s1; by rewrite Heq).
    replace (last_log_term (volatile_server_state s1)) with 0 by (unfold s1; by rewrite Heq). simpl.
    destruct (apply_log_entry_spec e t leader id commit cb s3) as (-> & _);
      [done|rewrite Hw; unfold s1; by rewrite Heq|]. rewrite Hv. simpl. by rewrite Hl1. }
  split_and!; [done..|]. rewrite Hl2. intros Hwf.
  pose proof (log_wf_index _ 1 e Hwf eq_refl). lia.
Qed.

(** An entry whose bytes do not parse is not stored, but the follower's last index and
    term are moved onto it: it then asks for the entries after one it does not have, and its
    cursors no longer describe its log. *)
Theorem malformed_entry_moves_cursor request entry cb s :
  a_entry request = Some entry -> from_bytes (e_data entry) = None ->
  let s' := apply_log_entry request cb s in
  log s' = log s /\ persistence_work s' = persistence_work s /\
  last_log_index (volatile_server_state s') = e_index entry /\
  last_log_term (volatile_server_state s') = e_term entry /\
  callbacks s' =
    respond cb (RP_AppendEntries (AE_WantedPreviousEntry (e_term entry) (e_index entry))) (callbacks s).
Proof.
  intros He Hb. unfold apply_log_entry, note_received_entry. rewrite He. simpl. rewrite Hb.
  rewrite callback_send_ok_eq. simpl. case_decide; done.
Qed.

End truncation.

(** ** Commit index, votes and timer *)

Section follower_rest.
Context {CP : Capnp} {B : Type} `{Bus B}.
Implicit Types s : SharedState B.

Abbreviation commit s := (commit_index (volatile_server_state s)).

(** The readers outside the state machine see the same commit index. *)
Definition commit_published s : Prop := cs_commit_index (commit_state (volatile_server_state s)) = commit s.

(** The commit index does not go back and stays published. *)
Definition commit_advances s s' : Prop := commit s <= commit s' /\ (commit_published s -> commit_published s').

Lemma commit_advances_same s s' :
  volatile_server_state s' = volatile_server_state s -> commit_advances s s'.
Proof. unfold commit_advances, commit_published. intros ->. done. Qed.

Lemma update_commit_index_advances n s : commit s <= n -> commit_advances s (update_commit_index n s).
Proof. intros Hn. destruct (update_commit_index_frame n s) as (b & w & c & d & ->). done. Qed.

Lemma apply_log_entry_advances r cb s : commit_advances s (apply_log_entry r cb s).
Proof.
  unfold apply_log_entry. destruct (note_received_entry _ _) as [data s1] eqn:Hn.
  assert (Hs1 : commit s1 = commit s /\ commit_state (volatile_server_state s1) = commit_state (volatile_server_state s)).
  { unfold note_received_entry in Hn. destruct (a_entry r); simpl in Hn; injection Hn as _ <-; [|done].
    case_decide; done. }
  assert (Hadv : forall s2, commit_advances s1 s2 -> commit_advances s s2).
  { intros s2 [? ?]. unfold commit_advances, commit_published in *. destruct Hs1 as [Hc Hcs]. rewrite <- Hc, <- Hcs. done. }
  apply Hadv. destruct (from_bytes data) as [e|];
    [|rewrite callback_send_ok_eq; by apply commit_advances_same].
  destruct (persistence_send _ s1) as [s2|] eqn:Hp; [|rewrite callback_send_ok_eq; by apply commit_advances_same].
  apply persistence_send_Some in Hp as [_ ->]. case_decide; [|done].
  match goal with |- context [update_commit_index ?n ?x] => pose proof (update_commit_index_advances n x) as Hu end.
  simpl in *. apply Hu. lia.
Qed.

(** C37: On a follower the commit index never goes back, and what the query workers are shown
    stays equal to it, for every request of the current or of a newer term. *)
Theorem follower_commit_monotone env r cb d s :
  current_term (server_state s) <= a_term r ->
  commit_advances s (append_entries env r cb d s).2.
Proof.
  intros Ht. unfold append_entries. case_decide.
  { unfold handle_new_leader. destruct (validate_append_entries _ _ _); [destruct (a_entry r)|]; simpl.
    - match goal with |- commit_advances _ (apply_log_entry _ _ ?x) => exact (apply_log_entry_advances r cb x) end.
    - rewrite callback_send_ok_eq. done.
    - rewrite callback_send_ok_eq. done. }
  case_decide; [case_decide; [|destruct (negb _)]|]; simpl.
  - unfold handle_heartbeat. case_decide; simpl; [rewrite callback_send_ok_eq; by apply commit_advances_same|].
    rewrite callback_send_ok_eq. case_decide as Hc; [|by apply commit_advances_same].
    destruct (update_commit_index_advances (a_commit_index r) s) as [? ?]; [lia|]. done.
  - rewrite callback_send_ok_eq. by apply commit_advances_same.
  - apply apply_log_entry_advances.
  - unfold send_unrecognized_leader_response. rewrite callback_send_ok_eq. by apply commit_advances_same.
Qed.

(** A heartbeat of an older term from the node followed is not refused: it resets the
    timer and sets the commit index back to the one it carries. *)
Theorem stale_heartbeat_lowers_commit env r cb d s :
  a_term r < current_term (server_state s) -> a_leader_id r = leader_id (server_state s) ->
  a_request_id r = 0 -> a_prev_term r = last_log_term (volatile_server_state s) ->
  a_prev_index r = last_log_index (volatile_server_state s) ->
  let s' := (append_entries env r cb d s).2 in
  commit s' = a_commit_index r /\ callbacks s' = respond cb (RP_AppendEntries AE_Ok) (callbacks s).
Proof.
  intros Ht Hl Hid Hpt Hpi. unfold append_entries, handle_heartbeat. rewrite decide_False by lia.
  rewrite decide_True by done. rewrite decide_True by done. rewrite decide_False by (intros [|]; done).
  rewrite decide_True by (right; lia). simpl. rewrite callback_send_ok_eq. simpl.
  destruct (update_commit_index_frame (a_commit_index r) s) as (b & w & c & dd & ->). done.
Qed.

(** A follower that accepts a vote request only registers the callback: the vote is neither
    recorded nor queued for persistence, so no answer is ever sent, and a second candidate of
    the same term is accepted as well. *)
Theorem follower_vote_is_lost r1 r2 cb1 cb2 d s :
  rv_term r2 = rv_term r1 -> u64 (next_message_id s + 2) -> 0 <= next_message_id s ->
  term_votes s !! rv_term r1 = None -> current_term (server_state s) < rv_term r1 ->
  last_log_index (volatile_server_state s) <= rv_last_log_index r1 ->
  last_log_index (volatile_server_state s) <= rv_last_log_index r2 ->
  exists s1 s2, request_vote r1 cb1 d s = Some (SC_None, d, s1) /\
    request_vote r2 cb2 d s1 = Some (SC_None, d, s2) /\
    term_votes s2 = term_votes s /\ persistence_work s2 = persistence_work s /\ callbacks s2 = callbacks s /\
    outstanding_messages s2 !! next_message_id s =
      Some (mkOutstandingMessage (next_message_id s) 1 (OM_RequestVote cb1)) /\
    outstanding_messages s2 !! (next_message_id s + 1) =
      Some (mkOutstandingMessage (next_message_id s + 1) 1 (OM_RequestVote cb2)).
Proof.
  unfold u64. intros Ht2 Hid Hid0 Hv Hcur Hl1 Hl2.
  assert (Hacc : forall r cb s0, rv_term r = rv_term r1 ->
    term_votes s0 = term_votes s -> server_state s0 = server_state s ->
    last_log_index (volatile_server_state s0) <= rv_last_log_index r -> 0 <= next_message_id s0 -> next_message_id s0 + 1 < 2 ^ 64 ->
    exists n, request_vote r cb d s0 = Some (SC_None, d,
      s0 <| volatile_server_state ; next_term := n |> <| next_message_id := next_message_id s0 + 1 |>
         <| outstanding_messages ::= <[next_message_id s0 := mkOutstandingMessage (next_message_id s0) 1 (OM_RequestVote cb)]> |>)).
  { intros r cb s0 Hr Hv0 Hs0 Hl0 Hn0 Hn1. unfold request_vote, should_accept_vote, observe_vote_term. rewrite Hr.
    case_decide; simpl; rewrite Hv0, Hv, Hs0; rewrite decide_False, decide_False by lia; simpl;
      rewrite (u64_add_small (next_message_id s0)) by lia; [by eexists|]. exists (next_term (volatile_server_state s0)). by destruct s0 as [? []]. }
  destruct (Hacc r1 cb1 s) as [n1 H1]; [done..|lia|lia|lia|]. rewrite H1.
  match type of H1 with _ = Some (_, _, ?x) => set (s1 := x) in * end.
  destruct (Hacc r2 cb2 s1) as [n2 H2]; [done..|unfold s1; simpl; lia|unfold s1; simpl; lia|unfold s1; simpl; lia|].
  exists s1. eexists. split; [done|]. split; [exact H2|]. unfold s1. simpl. split_and!; try done.
  - rewrite lookup_insert_ne by lia. by rewrite lookup_insert_eq.
  - by rewrite lookup_insert_eq.
Qed.

(** A reset election timer fires no earlier than 600 ms and no later than 1300 ms after the
    reset, and a fired timer turns the follower into a candidate. *)
Theorem election_timer_bounds env env' t :
  election_timeout_min t = 600 -> election_timeout_max t = 1300 ->
  let t' := reset env t in
  (clock env' 0%nat < clock env 0%nat + 600 -> check_timeout env' t' = None) /\
  (clock env 0%nat + 1300 <= clock env' 0%nat ->
   check_timeout env' t' = Some (SC_Candidate RaftCandidateStateDelegate_new)).
Proof.
  intros Hmin Hmax t'. unfold t', reset, check_timeout, now_plus_duration_millis. simpl. rewrite Hmin, Hmax.
  pose proof (gen_range_bounds (rand env 0%nat) 600 1300). split; intros; case_decide; try done; lia.
Qed.

End follower_rest.

(** ** Concrete runs *)

(** A follower of leader 2 in term 1 that holds the first entry of [sample_log]. *)
Definition sample_follower : SharedState ScriptedBus :=
  sample_state (sample_volatile (take 1 sample_log) 0 1 0 None) 1 2 empty_bus.

Definition sample_delegate : RaftFollowerStateDelegate := RaftFollowerStateDelegate_new sample_env.

Lemma sample_log_wf : log_wf sample_log /\ terms_positive sample_log.
Proof.
  split.
  - apply (log_wf_snoc (take 1 sample_log) (sample_entry 1 1 0 1 2)); [|repeat split; vm_compute; reflexivity].
    apply (log_wf_snoc [] (sample_entry 0 1 0 0 1)); [constructor|repeat split; vm_compute; reflexivity].
  - repeat constructor; vm_compute; reflexivity.
Qed.

Lemma follower_takes_exactly_the_next_entry_witness :
  replication_log (volatile_server_state
    (append_entries sample_env (entry_request (sample_entry 1 1 0 1 2) 1 2 9 0) 4%nat sample_delegate sample_follower).2)
  `prefix_of` sample_log.
Proof.
  destruct sample_log_wf as [Hwf Hpos].
  apply (follower_takes_exactly_the_next_entry sample_env sample_log 1 (sample_entry 1 1 0 1 2) 1 2 9 0 4%nat
    sample_delegate sample_follower Hwf Hpos); [by exists [sample_entry 1 1 0 1 2]|split; vm_compute; reflexivity|
    reflexivity|vm_compute; reflexivity|reflexivity|right; split; [reflexivity|vm_compute; done]].
Defined.

Lemma persistence_reports_acknowledge_witness :
  let s := sample_follower <| outstanding_messages := {[ 3 := mkOutstandingMessage 3 1 (OM_AppendLog 4%nat) ]} |> in
  exists s', process_persistence [PR_LogPersisted 3] 0 s = Some (1, s') /\
    cb_sent (callbacks s') = [(4%nat, RP_AppendEntries AE_Ok)].
Proof.
  intros s. destruct (persistence_reports_acknowledge [PR_LogPersisted 3] 0 s) as (s' & Hs & Hc & _).
  - intros id msg Hm. change (outstanding_messages s) with
      ({[ 3 := mkOutstandingMessage 3 1 (OM_AppendLog 4%nat) ]} : gmap Z OutstandingMessage) in Hm.
    apply lookup_singleton_Some in Hm as [<- <-]. by exists 4%nat.
  - reflexivity.
  - repeat constructor. by eexists.
  - exists s'. split; [exact Hs|exact Hc].
Defined.

Lemma truncate_log_cuts_after_named_entry_witness :
  log_wf (replication_log (volatile_server_state
    (truncate_log (term (sample_entry 0 1 0 0 1)) 0 (sample_leader [])))).
Proof.
  destruct sample_log_wf as [Hwf _].
  assert (Ht : tail_wf (volatile_server_state (sample_leader []))) by (split; vm_compute; reflexivity).
  destruct (truncate_log_cuts_after_named_entry 0 (sample_entry 0 1 0 0 1) (sample_leader []) Hwf Ht) as [Hl _];
    [vm_compute; reflexivity|reflexivity|reflexivity|exact Hl].
Defined.

Lemma truncate_everything_keeps_first_entry_witness :
  replication_log (volatile_server_state (truncate_log 0 0 (sample_leader []))) = [sample_entry 0 1 0 0 1].
Proof.
  apply (truncate_everything_keeps_first_entry sample_env (sample_entry 0 1 0 0 1) [sample_entry 1 1 0 1 2]
    (sample_entry 0 2 0 0 1) 2 3 9 0 4%nat sample_delegate (sample_leader []));
    [reflexivity|done|vm_compute; reflexivity..|left; vm_compute; reflexivity].
Defined.

Lemma malformed_entry_moves_cursor_witness :
  last_log_index (volatile_server_state (apply_log_entry
    (mkLocalAppendEntries 1 2 0 1 9 (Some (mkLogEntry 1 [] 0 1 1 0 9)) 0) 4%nat sample_follower)) = 1.
Proof.
  apply (malformed_entry_moves_cursor (mkLocalAppendEntries 1 2 0 1 9 (Some (mkLogEntry 1 [] 0 1 1 0 9)) 0)
    (mkLogEntry 1 [] 0 1 1 0 9) 4%nat sample_follower); reflexivity.
Defined.

Lemma follower_commit_monotone_witness :
  commit_advances sample_follower
    (append_entries sample_env (mkLocalAppendEntries 1 2 0 1 0 None 0) 4%nat sample_delegate sample_follower).2.
Proof. apply follower_commit_monotone. vm_compute. done. Defined.

Lemma stale_heartbeat_lowers_commit_witness :
  let s := sample_follower <| volatile_server_state ; commit_index := 1 |> in
  commit_index (volatile_server_state
    (append_entries sample_env (mkLocalAppendEntries 0 2 0 1 0 None 0) 4%nat sample_delegate s).2) = 0.
Proof.
  intros s. apply (stale_heartbeat_lowers_commit sample_env (mkLocalAppendEntries 0 2 0 1 0 None 0) 4%nat sample_delegate s);
    reflexivity.
Defined.

Lemma follower_vote_is_lost_witness :
  exists s1 s2,
    request_vote (mkLocalRequestVoteRequest 2 2 0 0) 4%nat sample_delegate sample_follower = Some (SC_None, sample_delegate, s1) /\
    request_vote (mkLocalRequestVoteRequest 2 3 0 0) 5%nat sample_delegate s1 = Some (SC_None, sample_delegate, s2).
Proof.
  destruct (follower_vote_is_lost (mkLocalRequestVoteRequest 2 2 0 0) (mkLocalRequestVoteRequest 2 3 0 0)
    4%nat 5%nat sample_delegate sample_follower) as (s1 & s2 & H1 & H2 & _);
    [reflexivity|split; vm_compute; done|vm_compute; done|reflexivity|vm_compute; reflexivity|vm_compute; done|vm_compute; done|].
  exists s1, s2. split; [exact H1|exact H2].
Defined.

Lemma election_timer_bounds_witness :
  check_timeout (mkEnv (fun _ => 1100) (fun _ => 0)) (reset sample_env (ElectionTimer_new sample_env)) = None.
Proof.
  apply (election_timer_bounds sample_env (mkEnv (fun _ => 1100) (fun _ => 0)) (ElectionTimer_new sample_env));
    [reflexivity|reflexivity|vm_compute; reflexivity].
Defined.
