(* ===== verification/Leader.v ===== *)
(** * The leader

    [src/raft/leader/replication.rs], [write_batch.rs], [outstanding.rs] and [mod.rs]. *)
From stdpp Require Import strings.
From S2P Require Import Prelude Capnp RaftTypes Bus RaftSm LogModel Follower.

Section leader.
Context {CP : Capnp} {B : Type} `{Bus B}.
Implicit Types s : SharedState B.

(** ** [replication.rs] *)

(** [clone_subset]: [data[start..end]]; [None] is the slice index panic. *)
Definition clone_subset {T} (data : list T) (start end_ : Z) : option (list T) :=
  if decide (start <= end_ /\ end_ <= vlen data)
  then Some (take (Z.to_nat end_ - Z.to_nat start) (drop (Z.to_nat start) data))
  else None.

(** [get_quorum_worker_index]. *)
Definition get_quorum_worker_index (quorum_node_id identity : Z) : nat :=
  if decide (quorum_node_id = 0) then 0%nat
  else if decide (identity < quorum_node_id)
  then Z.to_nat (saturating_sub quorum_node_id 2)
  else Z.to_nat (saturating_sub quorum_node_id 1).

(** [send_truncate_signal]. *)
Definition send_truncate_signal (quorum_node_id prev_term last_index_for_term : Z) s : SharedState B :=
  let i := get_quorum_worker_index quorum_node_id (identity s) in
  match quorum_worker_tasks s !! i with
  | Some _ =>
    let message_id := next_message_id s in
    let s := s <| next_message_id ::= fun n => n +! 1 |> in
    push_quorum i (QT_TruncateLog message_id prev_term last_index_for_term) s
  | None => s
  end.

(** [handle_follower_ahead]. *)
Definition handle_follower_ahead (quorum_node_id log_len : Z) s : SharedState B :=
  let our_last_index := if decide (0 < log_len) then log_len - 1 else 0 in
  let our_last_term :=
    default 0 (term <$> vlast (replication_log (volatile_server_state s))) in
  send_truncate_signal quorum_node_id our_last_term our_last_index s.

(** The backwards walk of [handle_term_mismatch]: the greatest index below [truncate_to]
    whose entry has the follower's term, and that term. *)
Fixpoint find_matching_term (log : list OwnedLogEntry) (last_log_term : Z) (truncate_to : nat)
    : option (Z * Z) :=
  match truncate_to with
  | O => None
  | S truncate_to =>
    match log !! truncate_to with
    | Some entry =>
      if decide (term entry = last_log_term) then Some (term entry, Z.of_nat truncate_to)
      else find_matching_term log last_log_term truncate_to
    | None => find_matching_term log last_log_term truncate_to
    end
  end.

(** [handle_term_mismatch]. *)
Definition handle_term_mismatch (quorum_node_id last_log_term last_log_index : Z) s : SharedState B :=
  match find_matching_term (replication_log (volatile_server_state s)) last_log_term
          (Z.to_nat last_log_index) with
  | Some (t, truncate_to) => send_truncate_signal quorum_node_id t truncate_to s
  | None => send_truncate_signal quorum_node_id 0 0 s
  end.

(** [send_backfill_data]; [None] is the panic of the slice. *)
Definition send_backfill_data (quorum_node_id last_log_term last_log_index : Z) s
    : option (SharedState B) :=
  let start_index := if decide (last_log_term = 0) then 0 else last_log_index +! 1 in
  let slice := replication_log (volatile_server_state s) in
  let* data_slice := clone_subset slice start_index (vlen slice) in
  let i := get_quorum_worker_index quorum_node_id (identity s) in
  match quorum_worker_tasks s !! i with
  | Some _ => Some (push_quorum i (QT_BackfillLog data_slice) s)
  | None => Some s
  end.

(** [handle_backfill_request]. *)
Definition handle_backfill_request (quorum_node_id last_log_term last_log_index : Z) s
    : option (SharedState B) :=
  let log := replication_log (volatile_server_state s) in
  let log_len := vlen log in
  if decide (log_len <= last_log_index)
  then Some (handle_follower_ahead quorum_node_id log_len s)
  else
    match vget log last_log_index with
    | Some entry_at_index =>
      if decide (term entry_at_index <> last_log_term /\ last_log_term <> 0)
      then Some (handle_term_mismatch quorum_node_id last_log_term last_log_index s)
      else send_backfill_data quorum_node_id last_log_term last_log_index s
    | None => send_backfill_data quorum_node_id last_log_term last_log_index s
    end.

(** ** [write_batch.rs] *)

(** [validate_write_batch]. *)
Definition validate_write_batch (message : OwnedWriteBatch) : option string :=
  if is_empty message then Some "Empty write batch request"%string else None.

(** A command slot of the new entry: a field whose getter failed keeps its default. *)
Definition copy_command (req : InternalPutRequest) : InternalPutRequest :=
  mkInternalPutRequest (Some (default [] (put_id req))) (Some (default [] (put_payload req)))
    (put_node_id req).

(** [now_millis() as u64]. *)
Definition as_u64 (z : Z) : Z := z `mod` 2 ^ 64.

(** Appending a built entry: the term start, then the push. *)
Definition push_entry (owned_entry : OwnedLogEntry) s : SharedState B :=
  let current := current_term (server_state s) in
  let s :=
    if decide (last_log_term (volatile_server_state s) <> current)
    then s <| volatile_server_state ; replication_log_term_starts ::=
                <[ current := vlen (replication_log (volatile_server_state s)) ]> |>
    else s in
  s <| volatile_server_state ; replication_log ::= fun l => l ++ [owned_entry] |>.

(** [create_and_append_log_entry]; [None] is the panic of [expect]. *)
Definition create_and_append_log_entry (env : Env) (message : OwnedWriteBatch) (idx message_id : Z) s
    : option (OwnedLogEntry * SharedState B) :=
  let v := volatile_server_state s in
  let* owned_entry := mjoin (batch_with_message message (fun reader =>
    build_owned_log_entry (mkInternalLogEntry idx (current_term (server_state s))
      (last_log_index v) (last_log_term v) message_id (as_u64 (clock env 0%nat))
      (Some (map copy_command (default [] (wb_requests reader)))) (Some [])))) in
  Some (owned_entry, push_entry owned_entry s).

(** [create_and_append_noop_entry]. *)
Definition create_and_append_noop_entry (env : Env) (idx message_id : Z) s
    : option (OwnedLogEntry * SharedState B) :=
  let v := volatile_server_state s in
  let* owned_entry := build_owned_log_entry (mkInternalLogEntry idx (current_term (server_state s))
    (last_log_index v) (last_log_term v) message_id (as_u64 (clock env 0%nat)) (Some []) (Some [])) in
  Some (owned_entry, push_entry owned_entry s).

(** [queue_persistence_task]; [None] when the task could not be queued. *)
Definition queue_persistence_task (message_id : Z) (entry : OwnedLogEntry) s : option (SharedState B) :=
  persistence_send (PT_AppendLog message_id (as_bytes entry) message_id) s.

(** [dispatch_to_quorum]. *)
Definition dispatch_to_quorum (message_id : Z) (owned_entry : OwnedLogEntry) s : SharedState B :=
  push_all_quorum (QT_AppendEntries message_id owned_entry (commit_index (volatile_server_state s))) s.

(** [1 + quorum_worker_tasks.len() as i32]. *)
Definition expected_responses s : Z := 1 + vlen (quorum_worker_tasks s).

(** [register_outstanding_message]. *)
Definition register_outstanding_message (message_id idx batch_size : Z) (callback : Callback) s
    : SharedState B :=
  s <| outstanding_messages ::=
         <[ message_id := mkOutstandingMessage message_id (expected_responses s)
              (OM_WriteBatch false 0 callback idx batch_size) ]> |>.

(** [register_noop_outstanding_message]. *)
Definition register_noop_outstanding_message (message_id idx : Z) s : SharedState B :=
  s <| outstanding_messages ::=
         <[ message_id := mkOutstandingMessage message_id (expected_responses s) (OM_NoOp false 0 idx) ]> |>.

(** [update_volatile_state]. *)
Definition update_volatile_state (idx : Z) s : SharedState B :=
  let s := s <| volatile_server_state ; last_log_term := current_term (server_state s) |> in
  let s := s <| volatile_server_state ; next_log_index := idx +! 1 |> in
  s <| volatile_server_state ; last_log_index := idx |>.

(** The write batch answer with an empty message; [None] is the panic of the builder. *)
Definition write_batch_response (err : option string) : option LocalRaftResponsePayload :=
  let* message := build_owned_write_batch_response empty_response in
  Some (RP_WriteBatch (mkLocalRaftWriteBatchResponse message err)).

(** [send_error_response]. *)
Definition send_error_response (error_msg : string) (callback : Callback) s : option (SharedState B) :=
  let* payload := write_batch_response (Some error_msg) in
  Some (callback_send_ok callback payload s).

(** ** [outstanding.rs] *)

(** The commit step [complete_write_batch] and [complete_noop] share. *)
Definition advance_commit_index (index : Z) s : SharedState B :=
  if decide (commit_index (volatile_server_state s) < index) then
    let s := s <| volatile_server_state ; commit_index := index |> in
    let s := s <| volatile_server_state ; commit_state ::= fun c => c <| cs_commit_index := index |> |> in
    let s := bump_version s in
    let s := broadcast_committed_entries index s in
    push_all_quorum (QT_UpdateCommitIndex index) s
  else s.

(** [complete_write_batch]. *)
Definition complete_write_batch (index : Z) (callback : Callback) s : option (SharedState B) :=
  let s := advance_commit_index index s in
  let* payload := write_batch_response None in
  Some (callback_send_ok callback payload s).

(** [complete_noop]. *)
Definition complete_noop (index : Z) s : SharedState B := advance_commit_index index s.

(** [handle_log_persisted]. *)
Definition handle_log_persisted (id : Z) s : option (SharedState B) :=
  match outstanding_messages s !! id with
  | Some msg =>
    let s := s <| outstanding_messages ::= delete id |> in
    let new_outstanding_resp := outstanding_responses msg - 1 in
    match message_type msg with
    | OM_WriteBatch _ quorum_acks callback index batch_size =>
      if decide (quorum_size s <= quorum_acks)
      then complete_write_batch index callback s
      else
        Some (s <| outstanding_messages ::=
                     <[ id := msg <| outstanding_responses := new_outstanding_resp |>
                                  <| message_type := OM_WriteBatch true quorum_acks callback index batch_size |> ]> |>)
    | OM_RequestVote callback => Some (callback_send_ok callback (RP_RequestVote true) s)
    | OM_NoOp _ quorum_acks index =>
      if decide (quorum_size s <= quorum_acks)
      then Some (complete_noop index s)
      else
        Some (s <| outstanding_messages ::=
                     <[ id := msg <| outstanding_responses := new_outstanding_resp |>
                                  <| message_type := OM_NoOp true quorum_acks index |> ]> |>)
    | _ => Some s
    end
  | None => Some s
  end.

(** [handle_vote_persisted]. *)
Definition handle_vote_persisted (id : Z) s : SharedState B :=
  match outstanding_messages s !! id with
  | Some msg =>
    let s := s <| outstanding_messages ::= delete id |> in
    match message_type msg with
    | OM_RequestVote callback => callback_send_ok callback (RP_RequestVote true) s
    | _ => s
    end
  | None => s
  end.

Definition handle_persistence_response (t : PersistenceResponseType) s : option (SharedState B) :=
  match t with
  | PR_LogPersisted id => handle_log_persisted id s
  | PR_VotePersisted id _ _ => Some (handle_vote_persisted id s)
  end.

(** [process_persistence_responses]. *)
Fixpoint process_persistence_responses (q : list PersistenceResponseType) (count : Z) s
    : option (Z * SharedState B) :=
  match q with
  | [] => Some (count, s)
  | t :: rest =>
    let s := s <| persistence_response := rest |> in
    let* s := handle_persistence_response t s in
    process_persistence_responses rest (count + 1) s
  end.

(** [handle_append_entries_response]. *)
Definition handle_append_entries_response (id : Z) s : option (SharedState B) :=
  match outstanding_messages s !! id with
  | Some msg =>
    let s := s <| outstanding_messages ::= delete id |> in
    let new_outstanding_resp := outstanding_responses msg - 1 in
    match message_type msg with
    | OM_WriteBatch persistence_done quorum_acks callback index batch_size =>
      let new_acks := quorum_acks + 1 in
      if decide (quorum_size s <= new_acks /\ persistence_done = true)
      then complete_write_batch index callback s
      else if decide (0 < new_outstanding_resp) then
        Some (s <| outstanding_messages ::=
                     <[ id := msg <| outstanding_responses := new_outstanding_resp |>
                                  <| message_type := OM_WriteBatch persistence_done new_acks callback index batch_size |> ]> |>)
      else Some s
    | OM_NoOp persistence_done quorum_acks index =>
      let new_acks := quorum_acks + 1 in
      if decide (quorum_size s <= new_acks /\ persistence_done = true)
      then Some (complete_noop index s)
      else if decide (0 < new_outstanding_resp) then
        Some (s <| outstanding_messages ::=
                     <[ id := msg <| outstanding_responses := new_outstanding_resp |>
                                  <| message_type := OM_NoOp persistence_done new_acks index |> ]> |>)
      else Some s
    | _ => Some s
    end
  | None => Some s
  end.

(** [process_quorum_responses]; returns the backfill requests, in order, and the count. *)
Fixpoint process_quorum_responses (q : list LocalQuorumTaskResponseType)
    (backfill_requests : list (Z * Z * Z)) (count : Z) s
    : option (list (Z * Z * Z) * Z * SharedState B) :=
  match q with
  | [] => Some (backfill_requests, count, s)
  | t :: rest =>
    let s := s <| quorum_response := rest |> in
    match t with
    | QR_AppendEntries id _ =>
      let* s := handle_append_entries_response id s in
      process_quorum_responses rest backfill_requests (count + 1) s
    | QR_BackfillLog quorum_node_id last_log_term last_log_index =>
      process_quorum_responses rest
        (backfill_requests ++ [(quorum_node_id, last_log_term, last_log_index)]) (count + 1) s
    | QR_RequestVoteResponse _ _ _ => process_quorum_responses rest backfill_requests (count + 1) s
    | QR_TruncateLogResponse _ _ => process_quorum_responses rest backfill_requests (count + 1) s
    | QR_TruncateLog _ _ _ => process_quorum_responses rest backfill_requests (count + 1) s
    end
  end.

(** ** [leader/mod.rs] *)

Implicit Types d : RaftLeaderStateDelegate.

(** [RaftLeaderStateDelegate::new]. *)
Definition RaftLeaderStateDelegate_new (env : Env) : RaftLeaderStateDelegate :=
  let now := clock env 0%nat in
  mkRaftLeaderStateDelegate (now + gen_range (rand env 0%nat) 32 128) false.

(** [initialize_leadership]: on the state, and then [self.initialized = true]. *)
Definition initialize_leadership (env : Env) s : option (SharedState B) :=
  let message_id := next_message_id s in
  let s := s <| next_message_id ::= fun n => n +! 1 |> in
  let log_len := vlen (replication_log (volatile_server_state s)) in
  let s := s <| volatile_server_state ; next_log_index := log_len |> in
  let v := volatile_server_state s in
  let s := push_all_quorum (QT_StartHeartbeats message_id (current_term (server_state s))
             (last_log_term v) (last_log_index v) (commit_index v)) s in
  let s :=
    if decide (0 < commit_index (volatile_server_state s))
    then broadcast_committed_entries (commit_index (volatile_server_state s)) s else s in
  let noop_message_id := next_message_id s in
  let noop_idx := next_log_index (volatile_server_state s) in
  let s := s <| next_message_id ::= fun n => n +! 1 |> in
  let* (noop_entry, s) := create_and_append_noop_entry env noop_idx noop_message_id s in
  let s := default s (queue_persistence_task noop_message_id noop_entry s) in
  let s := dispatch_to_quorum noop_message_id noop_entry s in
  let s := register_noop_outstanding_message noop_message_id noop_idx s in
  Some (update_volatile_state noop_idx s).

(** [handle_new_leader] of the leader: step down. *)
Definition handle_new_leader (env : Env) (request : LocalAppendEntries) (callback : Callback) s
    : RaftMessageStateChange * SharedState B :=
  let s := s <| server_state ; current_term := a_term request |> in
  let s := s <| server_state ; leader_id := a_leader_id request |> in
  let s := s <| volatile_server_state ; next_term := a_term request +! 1 |> in
  let message_id := next_message_id s in
  let s := s <| next_message_id ::= fun n => n +! 1 |> in
  let s := push_all_quorum (QT_StopHeartbeats message_id) s in
  let v := volatile_server_state s in
  let s :=
    if decide (a_prev_index request = last_log_index v /\ a_prev_term request = last_log_term v)
    then callback_send_ok callback (RP_AppendEntries AE_Ok) s
    else callback_send_ok callback (wanted_previous s) s in
  (SC_Follower (RaftFollowerStateDelegate_new env), s).

(** [RaftProtocol::write_batch] of the leader. *)
Definition write_batch (env : Env) (message : OwnedWriteBatch) (callback : Callback) s
    : option (SharedState B) :=
  let message_id := next_message_id s in
  let idx := next_log_index (volatile_server_state s) in
  let batch_size := batch_len message in
  let s := s <| next_message_id ::= fun n => n +! 1 |> in
  match validate_write_batch message with
  | Some error_msg => send_error_response error_msg callback s
  | None =>
    let* (owned_entry, s) := create_and_append_log_entry env message idx message_id s in
    match queue_persistence_task message_id owned_entry s with
    | None => send_error_response "Failed to queue persistence task" callback s
    | Some s =>
      let s := dispatch_to_quorum message_id owned_entry s in
      let s := register_outstanding_message message_id idx batch_size callback s in
      Some (update_volatile_state idx s)
    end
  end.

(** [RaftProtocol::append_entries] of the leader. *)
Definition append_entries (env : Env) (request : LocalAppendEntries) (callback : Callback) d s
    : RaftMessageStateChange * RaftLeaderStateDelegate * SharedState B :=
  if decide (current_term (server_state s) < a_term request) then
    let '(sc, s) := handle_new_leader env request callback s in (sc, d, s)
  else
    (SC_None, d, callback_send_ok callback (RP_AppendEntries AE_UnrecognizedLeader) s).

(** [for (..) in backfill_requests { handle_backfill_request(..) }]. *)
Fixpoint handle_backfill_requests (rs : list (Z * Z * Z)) s : option (SharedState B) :=
  match rs with
  | [] => Some s
  | (quorum_node_id, last_log_term, last_log_index) :: rs =>
    let* s := handle_backfill_request quorum_node_id last_log_term last_log_index s in
    handle_backfill_requests rs s
  end.

(** [RaftProtocol::time_step] of the leader. *)
Definition time_step (env : Env) d s
    : option (RaftMessageStateChange * Z * RaftLeaderStateDelegate * SharedState B) :=
  let* (work_done, d, s) :=
    if negb (initialized d) then
      let* s := initialize_leadership env s in
      Some (1, mkRaftLeaderStateDelegate (leader_election_timeout d) true, s)
    else Some (0, d, s) in
  let* (count, s) := process_persistence_responses (persistence_response s) 0 s in
  let work_done := work_done + count in
  let* (backfill_requests, quorum_work, s) := process_quorum_responses (quorum_response s) [] 0 s in
  let work_done := work_done + quorum_work in
  let* s := handle_backfill_requests backfill_requests s in
  let '(n, s) := retry_deferred_broadcast s in
  let work_done := work_done + n in
  Some (SC_None, work_done, d, s).

(** [RaftProtocol::request_vote] of the leader. *)
Definition request_vote (r : LocalRequestVoteRequest) (callback : Callback) d s
    : RaftMessageStateChange * RaftLeaderStateDelegate * SharedState B :=
  let s := observe_vote_term (rv_term r) s in
  if negb (should_accept_vote (rv_term r) (rv_last_log_term r) (rv_last_log_index r) s)
  then (SC_None, d, callback_send_ok callback (RP_RequestVote false) s)
  else
    let message_id := next_message_id s in
    match persistence_send (PT_AppendVote message_id (rv_term r) (rv_candidate_id r)) s with
    | None => (SC_None, d, callback_send_ok callback (RP_RequestVote false) s)
    | Some s =>
      let s := s <| term_votes ::= <[ rv_term r := rv_candidate_id r ]> |> in
      let s := s <| next_message_id := message_id +! 1 |> in
      let s := s <| outstanding_messages ::=
                      <[ message_id := mkOutstandingMessage message_id 1 (OM_RequestVote callback) ]> |> in
      (SC_None, d, s)
    end.

End leader.
