(* ===== verification/LeaderSpec.v ===== *)
(** * What the leader guarantees

    Appending to the log, the commit contract of outstanding entries, and the repair of a
    follower's log, over the definitions of [Leader.v]. *)
From stdpp Require Import strings.
From S2P Require Import Prelude Capnp CapnpInstance RaftTypes Startup Bus Samples RaftSm.
From S2P Require Import LogModel Follower Leader.

(** ** Appending to the leader's log *)

Section leader_log.
Context {CP : Capnp} {CL : CapnpLaws} {B : Type} `{Bus B}.
Implicit Types s : SharedState B.

Abbreviation log s := (replication_log (volatile_server_state s)).

(** The leader's log is well formed and its three cursors point at its end. *)
Definition leader_log_wf s : Prop :=
  log_wf (log s) /\ tail_wf (volatile_server_state s) /\
  next_log_index (volatile_server_state s) = vlen (log s).

(** The values an append reads fit their 64 bits, with room for one more entry. *)
Definition append_ranges s : Prop :=
  vlen (log s) + 1 < 2 ^ 64 /\ u64 (current_term (server_state s)) /\
  u64 (last_log_term (volatile_server_state s)).

(** ... and so does the message counter. *)
Definition leader_ranges s : Prop :=
  append_ranges s /\ 0 <= next_message_id s /\ next_message_id s + 2 < 2 ^ 64.

(** The entry an append builds. *)
Definition entry_message (env : Env) (idx message_id : Z) (commands : list InternalPutRequest) s
    : InternalLogEntry :=
  mkInternalLogEntry idx (current_term (server_state s)) (last_log_index (volatile_server_state s))
    (last_log_term (volatile_server_state s)) message_id (as_u64 (clock env 0%nat))
    (Some commands) (Some []).

Lemma as_u64_range z : u64 (as_u64 z).
Proof. unfold u64, as_u64. apply Z.mod_pos_bound. lia. Qed.

Lemma copy_command_built req : put_request_built req -> put_request_built (copy_command req).
Proof. intros (? & ? & Hn). repeat split; simpl; [by eexists..|apply Hn|apply Hn]. Qed.

Lemma entry_message_made env idx message_id commands s :
  u64 idx -> u64 message_id -> u64 (current_term (server_state s)) ->
  u64 (last_log_index (volatile_server_state s)) -> u64 (last_log_term (volatile_server_state s)) ->
  Forall put_request_built commands -> log_entry_made (entry_message env idx message_id commands s).
Proof.
  intros. unfold log_entry_made, log_entry_ranges. simpl. split_and!; try done; [apply as_u64_range|by eexists].
Qed.

(** The words of an entry with these commands. *)
Definition commands_words (commands : list InternalPutRequest) : Z := 17 + sum_words put_request_words commands.

(** An entry with these commands is not refused when it is read. *)
Definition commands_fit (commands : list InternalPutRequest) : Prop :=
  commands_words commands <= traversal_limit_in_words.

(** The entry a batch becomes is not refused. *)
Definition batch_fits (message : OwnedWriteBatch) : Prop :=
  commands_fit (default [] (mjoin (batch_with_message message wb_requests))).

Lemma copied_fit reqs : commands_fit reqs -> commands_fit (map copy_command reqs).
Proof.
  unfold commands_fit, commands_words. enough (sum_words put_request_words (map copy_command reqs) =
    sum_words put_request_words reqs) as -> by done. induction reqs as [|r reqs IH]; [done|]. simpl. by rewrite IH.
Qed.

Lemma entry_message_built env idx message_id commands s :
  u64 idx -> u64 message_id -> u64 (current_term (server_state s)) ->
  u64 (last_log_index (volatile_server_state s)) -> u64 (last_log_term (volatile_server_state s)) ->
  Forall put_request_built commands -> commands_fit commands ->
  log_entry_built (entry_message env idx message_id commands s).
Proof.
  intros Hi Hm Ht Hl Hlt Hc Hfit. apply log_entry_small_built; [by apply entry_message_made|].
  unfold commands_fit, commands_words in Hfit. unfold log_entry_words, blob_words. simpl.
  change (vlen []) with 0. change (0 / 8) with 0. lia.
Qed.

Lemma no_commands_fit : commands_fit [].
Proof. by vm_compute. Qed.

(** An entry built for a well-formed log follows it. *)
Lemma entry_message_follows env idx message_id commands s :
  log_entry_built (entry_message env idx message_id commands s) ->
  tail_wf (volatile_server_state s) -> idx = vlen (log s) ->
  follows (log s) (mkOwnedLogEntry (write_log_entry (entry_message env idx message_id commands s))).
Proof.
  intros Hb [Hi Ht] ->. unfold follows, index, prev_log_index, prev_log_term.
  rewrite !with_message_written by done. by simpl.
Qed.

(** What appending an entry changes. *)
Lemma push_entry_spec e s :
  exists starts, push_entry e s =
    s <| volatile_server_state ; replication_log_term_starts := starts |>
      <| volatile_server_state ; replication_log ::= fun l => l ++ [e] |>.
Proof. unfold push_entry. case_decide; simpl; eexists; [|destruct s as [? [] ]]; done. Qed.

(** The cursors after an append. *)
Lemma update_volatile_state_wf e s starts :
  leader_log_wf s -> append_ranges s -> follows (log s) e -> term e = current_term (server_state s) ->
  leader_log_wf (update_volatile_state (vlen (log s))
    (s <| volatile_server_state ; replication_log_term_starts := starts |>
       <| volatile_server_state ; replication_log ::= fun l => l ++ [e] |>)).
Proof.
  intros (Hwf & Htail & Hnext) (Hlen & _) Hf Hterm. unfold leader_log_wf, tail_wf. simpl.
  rewrite last_index_of_snoc, last_term_of_snoc, Hterm, vlen_app.
  rewrite u64_add_small by (pose proof (vlen_nonneg (log s)); lia).
  split_and!; try done. by constructor.
Qed.

(** The entry built for the requests of a batch. *)
Definition batch_entry (env : Env) (reqs : list InternalPutRequest) s : OwnedLogEntry :=
  mkOwnedLogEntry (write_log_entry (entry_message env (vlen (log s)) (next_message_id s) (map copy_command reqs) s)).

Lemma batch_entry_built env b reqs s :
  leader_log_wf s -> leader_ranges s -> write_batch_built b -> wb_requests b = Some reqs -> commands_fit reqs ->
  log_entry_built (entry_message env (vlen (log s)) (next_message_id s) (map copy_command reqs) s).
Proof.
  intros (_ & Htail & _) ((Hlen & Hcur & Hlt) & Hid) ((_ & rs & Heq & Hrs) & _) Hreqs Hfit. simplify_eq.
  pose proof (last_index_of_range (log s)). pose proof (vlen_nonneg (log s)).
  apply entry_message_built; try done; [u64_lia..| | |by apply copied_fit].
  - destruct Htail as [-> _]. unfold u64. lia.
  - apply Forall_fmap. by apply (Forall_impl _ copy_command_built).
Qed.

Lemma batch_entry_created env b reqs s :
  leader_log_wf s -> leader_ranges s -> write_batch_built b -> wb_requests b = Some reqs -> commands_fit reqs ->
  let s1 := s <| next_message_id ::= fun n => n +! 1 |> in
  create_and_append_log_entry env (mkOwnedWriteBatch (write_write_batch b)) (vlen (log s)) (next_message_id s) s1 =
  Some (batch_entry env reqs s, push_entry (batch_entry env reqs s) s1).
Proof.
  intros Hs Hr Hb Hreqs Hfit s1. pose proof (batch_entry_built env b reqs s Hs Hr Hb Hreqs Hfit) as Hbuilt.
  unfold create_and_append_log_entry. rewrite batch_with_message_written by done. rewrite Hreqs.
  cbn [default]. replace (build_owned_log_entry _) with (Some (batch_entry env reqs s)); [done|].
  symmetry. apply (build_owned_log_entry_ok _ Hbuilt).
Qed.

Lemma batch_entry_fields env b reqs s :
  leader_log_wf s -> leader_ranges s -> write_batch_built b -> wb_requests b = Some reqs -> commands_fit reqs ->
  let e := batch_entry env reqs s in
  follows (log s) e /\ term e = current_term (server_state s) /\ message_id e = next_message_id s /\
  with_message e le_commands = Some (Some (map copy_command reqs)).
Proof.
  intros Hs Hr Hb Hreqs Hfit e. pose proof (batch_entry_built env b reqs s Hs Hr Hb Hreqs Hfit) as Hbuilt.
  pose proof Hs as (_ & Htail & _). split; [by apply entry_message_follows|].
  unfold term, message_id, e, batch_entry. by rewrite !with_message_written.
Qed.

(** A batch that is not empty is appended as its entry. *)
Lemma write_batch_log env b reqs cb s :
  leader_log_wf s -> leader_ranges s -> chan_open (persistence_work s) = true ->
  write_batch_built b -> wb_requests b = Some reqs -> reqs <> [] -> commands_fit reqs ->
  exists s', write_batch env (mkOwnedWriteBatch (write_write_batch b)) cb s = Some s' /\
    log s' = log s ++ [batch_entry env reqs s].
Proof.
  intros Hs Hr Hopen Hb Hreqs Hne Hfit. pose proof Hs as (_ & _ & Hnext).
  pose proof (batch_entry_created env b reqs s Hs Hr Hb Hreqs Hfit) as Hcreate. cbv zeta in Hcreate.
  unfold write_batch, validate_write_batch, is_empty. rewrite batch_with_message_written, Hreqs, Hnext by done.
  cbn [fmap option_fmap option_map default]. rewrite bool_decide_false, Hcreate by done. cbn [mbind option_bind].
  destruct (push_entry_spec (batch_entry env reqs s) (s <| next_message_id ::= fun n => n +! 1 |>)) as [starts ->].
  unfold queue_persistence_task, persistence_send, send. simpl. rewrite Hopen. simpl.
  eexists. split; [reflexivity|]. done.
Qed.

(** C23: A non-empty batch on a leader whose log is well formed is appended as one entry at
    the end of the log, with the next index, the current term, the predecessor's index and
    term, a fresh message id and the batch's commands in order.  The entry's bytes go once to
    the persistence worker and the entry once to every quorum worker, the batch is registered
    as outstanding, nothing is answered yet, and the log stays well formed. *)
Theorem write_batch_appends env b reqs cb s :
  leader_log_wf s -> leader_ranges s -> chan_open (persistence_work s) = true ->
  write_batch_built b -> wb_requests b = Some reqs -> reqs <> [] -> commands_fit reqs ->
  exists e s', write_batch env (mkOwnedWriteBatch (write_write_batch b)) cb s = Some s' /\
    log s' = log s ++ [e] /\ follows (log s) e /\ term e = current_term (server_state s) /\
    message_id e = next_message_id s /\
    with_message e le_commands = Some (Some (map copy_command reqs)) /\
    leader_log_wf s' /\
    chan_queue (persistence_work s') =
      chan_queue (persistence_work s) ++ [PT_AppendLog (next_message_id s) (as_bytes e) (next_message_id s)] /\
    quorum_worker_tasks s' =
      map (fun q => q ++ [QT_AppendEntries (next_message_id s) e (commit_index (volatile_server_state s))])
          (quorum_worker_tasks s) /\
    outstanding_messages s' =
      <[next_message_id s := mkOutstandingMessage (next_message_id s) (1 + vlen (quorum_worker_tasks s))
          (OM_WriteBatch false 0 cb (vlen (log s)) (vlen reqs))]> (outstanding_messages s) /\
    next_message_id s' = next_message_id s + 1 /\ callbacks s' = callbacks s /\
    commit_index (volatile_server_state s') = commit_index (volatile_server_state s).
Proof.
  intros Hs Hr Hopen Hb Hreqs Hne Hfit. pose proof Hs as (_ & _ & Hnext). pose proof Hr as (Ha & Hid).
  pose proof (batch_entry_created env b reqs s Hs Hr Hb Hreqs Hfit) as Hcreate. cbv zeta in Hcreate.
  destruct (batch_entry_fields env b reqs s Hs Hr Hb Hreqs Hfit) as (Hf & Ht & Hm & Hc).
  unfold write_batch, validate_write_batch, is_empty. rewrite batch_with_message_written, Hreqs, Hnext by done.
  cbn [fmap option_fmap option_map default]. rewrite bool_decide_false, Hcreate by done. cbn [mbind option_bind].
  set (e := batch_entry env reqs s) in *.
  destruct (push_entry_spec e (s <| next_message_id ::= fun n => n +! 1 |>)) as [starts ->].
  unfold queue_persistence_task, persistence_send, send. simpl. rewrite Hopen. simpl.
  eexists e, _. split; [reflexivity|]. simpl. rewrite u64_add_small by lia. split_and!; try done.
  - by apply (update_volatile_state_wf e s starts).
  - unfold batch_len, request_count. rewrite batch_with_message_written by done.
    rewrite Hreqs. unfold expected_responses, vlen. simpl. by rewrite length_map.
Qed.

(** The [WriteBatch] answers carry an empty response message. *)
Definition batch_answer (err : option string) : LocalRaftResponsePayload :=
  RP_WriteBatch (mkLocalRaftWriteBatchResponse
    (mkOwnedWriteBatchResponse (write_write_batch_response empty_response)) err).

Lemma write_batch_response_ok err : write_batch_response err = Some (batch_answer err).
Proof. unfold write_batch_response. by rewrite build_empty_response_ok. Qed.

Lemma send_error_response_ok msg cb s :
  send_error_response msg cb s = Some (s <| callbacks ::= respond cb (batch_answer (Some msg)) |>).
Proof.
  unfold send_error_response. rewrite write_batch_response_ok. simpl. by rewrite callback_send_ok_eq.
Qed.

(** The commands copied from a batch that was read, whatever its bytes. *)
Lemma copied_commands_built r b :
  write_batch_root r = Some b -> Forall put_request_built (map copy_command (default [] (wb_requests b))).
Proof.
  intros Hroot. destruct (wb_requests b) as [reqs|] eqn:Hreqs; [|constructor].
  pose proof (write_batch_root_ranges _ _ Hroot _ Hreqs) as Hr. apply Forall_fmap.
  eapply Forall_impl; [|exact Hr]. intros q Hq. repeat split; simpl; [by eexists..|apply Hq|apply Hq].
Qed.

(** The entry a batch of any bytes builds, when the batch is not reported empty. *)
Lemma create_entry_ok env message idx message_id s :
  tail_wf (volatile_server_state s) -> append_ranges s -> u64 message_id ->
  idx = vlen (log s) -> is_empty message = false -> batch_fits message ->
  exists e, create_and_append_log_entry env message idx message_id s = Some (e, push_entry e s) /\
    follows (log s) e /\ term e = current_term (server_state s).
Proof.
  intros Htail (Hlen & Hcur & Hlt) Hm -> Hne Hfit.
  pose proof (last_index_of_range (log s)) as Hrange. pose proof (vlen_nonneg (log s)).
  unfold is_empty, batch_fits, create_and_append_log_entry, batch_with_message in *.
  destruct (read_message_from_flat_slice _) as [[r rest]|]; [|done].
  destruct (write_batch_root r) as [msg|] eqn:Hroot; [|done]. simpl in *.
  destruct (wb_requests msg) as [reqs|] eqn:Hreqs; [|done]. simpl.
  assert (Hb : log_entry_built (entry_message env (vlen (log s)) message_id (map copy_command reqs) s)).
  { apply entry_message_built; try done; [u64_lia| | |by apply copied_fit].
    - destruct Htail as [-> _]. unfold u64. lia.
    - pose proof (copied_commands_built _ _ Hroot) as Hc. by rewrite Hreqs in Hc. }
  change (mkInternalLogEntry _ _ _ _ _ _ _ _) with
    (entry_message env (vlen (log s)) message_id (map copy_command reqs) s).
  rewrite (build_owned_log_entry_ok _ Hb). simpl. eexists. split_and!; [done| |].
  - by apply entry_message_follows.
  - unfold term. by rewrite with_message_written.
Qed.

(** The entry that was built for a batch, whatever its size. *)
Lemma created_entry env message idx message_id s e s' :
  tail_wf (volatile_server_state s) -> append_ranges s -> u64 message_id -> idx = vlen (log s) ->
  create_and_append_log_entry env message idx message_id s = Some (e, s') ->
  s' = push_entry e s /\ follows (log s) e /\ term e = current_term (server_state s).
Proof.
  intros Htail (Hlen & Hcur & Hlt) Hm ->. pose proof (last_index_of_range (log s)). pose proof (vlen_nonneg (log s)).
  unfold create_and_append_log_entry, batch_with_message.
  destruct (read_message_from_flat_slice (batch_bytes message)) as [[r rest]|]; [|done].
  destruct (write_batch_root r) as [msg|] eqn:Hroot; [|done]. simpl.
  set (m := mkInternalLogEntry _ _ _ _ _ _ _ _).
  assert (Hmade : log_entry_made m).
  { apply (entry_message_made env (vlen (log s)) message_id _ s); try done; [u64_lia| |by apply copied_commands_built in Hroot].
    destruct Htail as [-> _]. unfold u64. lia. }
  destruct (build_owned_log_entry m) as [owned|] eqn:Hbuild; [|done]. intros [= <- <-].
  apply build_owned_log_entry_made in Hbuild as [Hb ->]; [|done]. split; [done|]. split.
  - by apply (entry_message_follows env (vlen (log s)) message_id (map copy_command (default [] (wb_requests msg))) s).
  - unfold term. by rewrite with_message_written.
Qed.

(** On a leader with a well-formed log [write_batch] never panics, whatever bytes the
    batch holds, when the entry it becomes is small enough to be read: an empty or unreadable
    batch is answered with an error and leaves the log alone, any other batch is appended and
    answered later. *)
Theorem write_batch_total env message cb s :
  leader_log_wf s -> leader_ranges s -> chan_open (persistence_work s) = true -> batch_fits message ->
  exists s', write_batch env message cb s = Some s' /\ leader_log_wf s' /\
    if is_empty message
    then log s' = log s /\
         callbacks s' = respond cb (batch_answer (Some "Empty write batch request"%string)) (callbacks s)
    else exists e, log s' = log s ++ [e] /\ follows (log s) e /\ callbacks s' = callbacks s.
Proof.
  intros Hs Hr Hopen Hfit. pose proof Hs as (_ & Htail & Hnext). pose proof Hr as (Ha & Hid).
  unfold write_batch, validate_write_batch. destruct (is_empty message) eqn:He.
  - rewrite send_error_response_ok. eexists. split_and!; [done|exact Hs|done..].
  - destruct (create_entry_ok env message (vlen (log s)) (next_message_id s)
      (s <| next_message_id ::= fun n => n +! 1 |>)) as (e & Heq & Hf & Hterm); try done.
    { unfold u64. lia. }
    rewrite Hnext, Heq. cbn [mbind option_bind]. destruct (push_entry_spec e (s <| next_message_id ::= fun n => n +! 1 |>)) as [starts ->].
    unfold queue_persistence_task. rewrite persistence_send_open by done.
    eexists. split; [reflexivity|]. split; [|by exists e].
    by apply (update_volatile_state_wf e s starts).
Qed.

(** When the persistence channel is closed the client gets an error, but the entry has
    already been pushed to the leader's log while the cursors still point before it: the log
    is no longer well formed, and the next batch will reuse its index. *)
Theorem write_batch_persistence_failure_desyncs env message cb s :
  leader_log_wf s -> leader_ranges s -> chan_open (persistence_work s) = false ->
  is_empty message = false -> batch_fits message ->
  exists e s', write_batch env message cb s = Some s' /\
    callbacks s' = respond cb (batch_answer (Some "Failed to queue persistence task"%string)) (callbacks s) /\
    log s' = log s ++ [e] /\ index e = next_log_index (volatile_server_state s') /\
    ~ leader_log_wf s'.
Proof.
  intros Hs Hr Hclosed He Hfit. pose proof Hs as (_ & Htail & Hnext). pose proof Hr as (Ha & Hid).
  unfold write_batch, validate_write_batch. rewrite He.
  destruct (create_entry_ok env message (vlen (log s)) (next_message_id s)
    (s <| next_message_id ::= fun n => n +! 1 |>)) as (e & Heq & Hf & Hterm); try done.
  { unfold u64. lia. }
  rewrite Hnext, Heq. cbn [mbind option_bind]. destruct (push_entry_spec e (s <| next_message_id ::= fun n => n +! 1 |>)) as [starts ->].
  unfold queue_persistence_task, persistence_send, send. simpl. rewrite Hclosed. simpl.
  rewrite send_error_response_ok. exists e. eexists. split; [reflexivity|]. simpl.
  split_and!; [done|done|by rewrite Hnext; apply Hf|].
  intros (_ & _ & Hn). simpl in Hn. rewrite Hnext, vlen_app in Hn. unfold vlen in Hn. simpl in Hn. lia.
Qed.

Lemma create_noop_ok env idx message_id s :
  tail_wf (volatile_server_state s) -> append_ranges s -> u64 message_id -> idx = vlen (log s) ->
  let e := mkOwnedLogEntry (write_log_entry (entry_message env idx message_id [] s)) in
  log_entry_built (entry_message env idx message_id [] s) /\
  create_and_append_noop_entry env idx message_id s = Some (e, push_entry e s) /\
  follows (log s) e /\ term e = current_term (server_state s).
Proof.
  intros Htail (Hlen & Hcur & Hlt) Hm ->. pose proof (last_index_of_range (log s)) as Hrange.
  assert (Hb : log_entry_built (entry_message env (vlen (log s)) message_id [] s)).
  { apply entry_message_built; try done; [|destruct Htail as [-> _]]; unfold u64; lia. }
  unfold create_and_append_noop_entry.
  change (mkInternalLogEntry _ _ _ _ _ _ _ _) with (entry_message env (vlen (log s)) message_id [] s).
  rewrite (build_owned_log_entry_ok _ Hb). split_and!; [done|done|by apply entry_message_follows|].
  unfold term. by rewrite with_message_written.
Qed.

(** The first time step of a new leader starts the heartbeats of every quorum worker and
    appends one entry without commands in the leader's term, whatever broadcasts happen in
    between: it is queued for every worker after the heartbeat start, registered as
    outstanding under a message id different from 0, the commit index stays, and the log is
    well formed with all cursors at its end. *)
Theorem initialize_leadership_appends_noop env s :
  log_wf (log s) -> tail_wf (volatile_server_state s) -> append_ranges s ->
  0 <= next_message_id s -> next_message_id s + 2 < 2 ^ 64 ->
  let v := volatile_server_state s in let id := next_message_id s in
  exists e s', initialize_leadership env s = Some s' /\
    log s' = log s ++ [e] /\ follows (log s) e /\ term e = current_term (server_state s) /\
    message_id e = id + 1 /\ command_count e = 0 /\ leader_log_wf s' /\
    quorum_worker_tasks s' =
      map (fun q => q ++ [QT_StartHeartbeats id (current_term (server_state s)) (last_log_term v)
                            (last_log_index v) (commit_index v);
                          QT_AppendEntries (id + 1) e (commit_index v)]) (quorum_worker_tasks s) /\
    outstanding_messages s' =
      <[id + 1 := mkOutstandingMessage (id + 1) (1 + vlen (quorum_worker_tasks s))
          (OM_NoOp false 0 (vlen (log s)))]> (outstanding_messages s) /\
    next_message_id s' = id + 2 /\ commit_index (volatile_server_state s') = commit_index v.
Proof.
  intros Hwf Htail Ha Hid Hid2 v id. unfold initialize_leadership.
  set (s1 := push_all_quorum _ _). set (s2 := if decide _ then _ else _).
  assert (same_but_broadcast s1 s2) as (b & w & c & d & ->).
  { unfold s2. case_decide; [apply broadcast_committed_entries_frame|reflexivity]. }
  unfold s1. simpl. rewrite !u64_add_small by (rewrite ?u64_add_small; lia).
  replace (next_message_id s + 1 + 1) with (id + 2) by (unfold id; lia).
  set (s3 := mkSharedState _ _ _ _ _ _ _ _ _ _ _ _ _ _).
  destruct (create_noop_ok env (vlen (log s)) (id + 1) s3) as (Hb & Hc & Hf & Hterm);
    [done|done|unfold u64, id; lia|done|].
  unfold id in Hc at 1. rewrite Hc. cbn [mbind option_bind].
  set (e := mkOwnedLogEntry _) in *. destruct (push_entry_spec e s3) as [starts ->].
  unfold queue_persistence_task, persistence_send, send. simpl.
  exists e. destruct (chan_open (persistence_work s)); simpl; eexists; (split; [reflexivity|]); simpl;
    (split_and!; [done|done|done| | | | | |done|done]).
  all: try (unfold message_id, e; by rewrite with_message_written).
  all: try (unfold command_count, e; by rewrite with_message_written).
  all: try (apply (update_volatile_state_wf e s3 starts); done).
  all: try (rewrite map_map; apply map_ext; intros q; by rewrite <- (assoc_L (++))).
  all: unfold expected_responses, vlen; simpl; by rewrite !length_map.
Qed.

End leader_log.

(** ** When an entry commits

    The abstract contract of an outstanding entry: it is complete once its own node has
    persisted it and [quorum_size] workers have acknowledged it, in whatever order that
    happens.  The handlers of [outstanding.rs] implement it. *)

Inductive entry_event := EvAck | EvPersisted.

#[export] Instance entry_event_eq_dec : EqDecision entry_event.
Proof. solve_decision. Defined.

Record Tracker := mkTracker { t_persisted : bool; t_acks : Z }.

Definition track (t : Tracker) (ev : entry_event) : Tracker :=
  match ev with
  | EvAck => mkTracker (t_persisted t) (t_acks t + 1)
  | EvPersisted => mkTracker true (t_acks t)
  end.

Definition track_all : list entry_event -> Tracker -> Tracker := fun evs t => fold_left track evs t.

Definition completed (quorum : Z) (t : Tracker) : bool :=
  t_persisted t && bool_decide (quorum <= t_acks t).

(** The two kinds of outstanding entries of a leader. *)
Inductive tracked := TrackedBatch (callback : Callback) (index batch_size : Z) | TrackedNoOp (index : Z).

Definition tracked_index (k : tracked) : Z :=
  match k with TrackedBatch _ index _ => index | TrackedNoOp index => index end.

Definition tracked_message (id workers : Z) (k : tracked) (t : Tracker) : OutstandingMessage :=
  mkOutstandingMessage id (1 + workers - t_acks t - Z.b2z (t_persisted t))
    match k with
    | TrackedBatch cb index batch_size => OM_WriteBatch (t_persisted t) (t_acks t) cb index batch_size
    | TrackedNoOp index => OM_NoOp (t_persisted t) (t_acks t) index
    end.

Section commit.
Context {CP : Capnp} {CL : CapnpLaws} {B : Type} `{Bus B}.
Implicit Types s : SharedState B.

Definition deliver (id : Z) (ev : entry_event) s : option (SharedState B) :=
  match ev with
  | EvAck => handle_append_entries_response id s
  | EvPersisted => handle_log_persisted id s
  end.

Fixpoint deliver_all (id : Z) (evs : list entry_event) s : option (SharedState B) :=
  match evs with
  | [] => Some s
  | ev :: evs => let* s := deliver id ev s in deliver_all id evs s
  end.

(** What the receivers hold once the entry is complete. *)
Definition answer (k : tracked) (c : Callbacks) : Callbacks :=
  match k with
  | TrackedBatch cb _ _ => respond cb (batch_answer None) c
  | TrackedNoOp _ => c
  end.

Lemma advance_commit_index_spec index s :
  let s' := advance_commit_index index s in
  outstanding_messages s' = outstanding_messages s /\ callbacks s' = callbacks s /\
  quorum_size s' = quorum_size s /\ server_state s' = server_state s /\
  replication_log (volatile_server_state s') = replication_log (volatile_server_state s) /\
  commit_index (volatile_server_state s') = Z.max (commit_index (volatile_server_state s)) index.
Proof.
  unfold advance_commit_index. case_decide; [|simpl; split_and!; try done; lia].
  match goal with |- context [broadcast_committed_entries ?i ?x] =>
    destruct (broadcast_committed_entries_frame i x) as (b & w & c & d & ->) end.
  simpl. split_and!; try done. lia.
Qed.

(** Both handlers end in this completion. *)
Definition complete (k : tracked) s : option (SharedState B) :=
  match k with
  | TrackedBatch cb index _ => complete_write_batch index cb s
  | TrackedNoOp index => Some (complete_noop index s)
  end.

Lemma complete_spec k s :
  exists s', complete k s = Some s' /\ outstanding_messages s' = outstanding_messages s /\
    callbacks s' = answer k (callbacks s) /\ quorum_size s' = quorum_size s /\
    commit_index (volatile_server_state s') =
      Z.max (commit_index (volatile_server_state s)) (tracked_index k).
Proof.
  destruct k as [cb index sz|index]; simpl; unfold complete_write_batch, complete_noop;
    pose proof (advance_commit_index_spec index s) as (? & Hcb & ? & ? & ? & ?).
  - rewrite write_batch_response_ok. simpl. rewrite callback_send_ok_eq. eexists. split; [done|].
    simpl. rewrite Hcb. done.
  - eauto 10.
Qed.

(** One event on a tracked message that is not complete yet. *)
Lemma deliver_spec id workers k t ev s :
  outstanding_messages s !! id = Some (tracked_message id workers k t) ->
  completed (quorum_size s) t = false -> 0 < quorum_size s <= workers ->
  t_acks (track t ev) <= workers -> (ev = EvPersisted -> t_persisted t = false) ->
  let s1 := s <| outstanding_messages ::= delete id |> in
  deliver id ev s =
    if completed (quorum_size s) (track t ev) then complete k s1
    else Some (s1 <| outstanding_messages ::= <[id := tracked_message id workers k (track t ev)]> |>).
Proof.
  intros Hmsg Hnot Hq Hacks Hpers s1. unfold completed in *.
  destruct t as [p a], ev; simpl in *; unfold handle_append_entries_response, handle_log_persisted;
    rewrite Hmsg; unfold tracked_message; simpl.
  - assert (Hiff : p && bool_decide (quorum_size s <= a + 1) = bool_decide (quorum_size s <= a + 1 /\ p = true)).
    { destruct p; simpl; [apply bool_decide_ext; naive_solver|]. symmetry. apply bool_decide_eq_false. naive_solver. }
    rewrite Hiff. assert (~ (quorum_size s <= a + 1 /\ p = true) -> 0 < 1 + workers - a - Z.b2z p - 1).
    { destruct p; simpl; [|lia]. intros Hnc. destruct (decide (quorum_size s <= a + 1)); [naive_solver|lia]. }
    replace (1 + workers - (a + 1) - Z.b2z p) with (1 + workers - a - Z.b2z p - 1) by lia.
    destruct (decide (quorum_size s <= a + 1 /\ p = true)) as [Hc|Hc].
    + rewrite bool_decide_true by done. destruct k; simpl; by rewrite decide_True by done.
    + rewrite bool_decide_false by done.
      destruct k; simpl; rewrite decide_False by done; by rewrite decide_True by auto.
  - rewrite Hpers by done. simpl. replace (1 + workers - a - 1) with (1 + workers - a - 0 - 1) by lia.
    destruct k; simpl; case_decide; case_bool_decide; done.
Qed.

Lemma deliver_none id evs s : outstanding_messages s !! id = None -> deliver_all id evs s = Some s.
Proof.
  intros Hnone. induction evs as [|[] evs IH]; simpl; [done|..];
    unfold handle_append_entries_response, handle_log_persisted; by rewrite Hnone.
Qed.

(** No event is counted twice: at most one acknowledgement per worker and one persistence
    report are left. *)
Definition within_budget (workers : Z) (t : Tracker) (evs : list entry_event) : Prop :=
  t_acks t + Z.of_nat (count_occ (fun x y => decide (x = y)) evs EvAck) <= workers /\
  Z.b2z (t_persisted t) + Z.of_nat (count_occ (fun x y => decide (x = y)) evs EvPersisted) <= 1.

Lemma within_budget_cons workers t ev evs :
  within_budget workers t (ev :: evs) ->
  within_budget workers (track t ev) evs /\ t_acks (track t ev) <= workers /\
  (ev = EvPersisted -> t_persisted t = false).
Proof.
  unfold within_budget. destruct t as [[] a], ev; simpl; intros [? ?]; split_and!; try done; lia.
Qed.

(** Once complete, an entry stays complete. *)
Lemma completed_mono q evs t : completed q t = true -> completed q (track_all evs t) = true.
Proof.
  revert t. induction evs as [|ev evs IH]; intros t Ht; [done|]. apply IH.
  unfold completed in *. apply andb_true_iff in Ht as [Hp Hq%bool_decide_eq_true].
  destruct t, ev; simpl in *; rewrite ?Hp; apply bool_decide_eq_true; lia.
Qed.

(** C3: The outstanding-message handlers implement the commit contract.  For every order of
    acknowledgements and the persistence report of an entry (at most one acknowledgement per
    worker), the leader commits the entry and answers the client exactly once, and does so
    if and only if its own persistence worker has reported and [quorum_size] workers have
    acknowledged; before that the outstanding message holds the exact counts, nothing is
    answered and the commit index stays.  No handler panics. *)
Theorem commit_tracking_refines id workers k evs s :
  0 < quorum_size s <= workers ->
  outstanding_messages s !! id = Some (tracked_message id workers k (mkTracker false 0)) ->
  within_budget workers (mkTracker false 0) evs ->
  exists s', deliver_all id evs s = Some s' /\
    let t := track_all evs (mkTracker false 0) in
    if completed (quorum_size s) t
    then outstanding_messages s' !! id = None /\ callbacks s' = answer k (callbacks s) /\
         commit_index (volatile_server_state s') =
           Z.max (commit_index (volatile_server_state s)) (tracked_index k)
    else outstanding_messages s' !! id = Some (tracked_message id workers k t) /\
         callbacks s' = callbacks s /\
         commit_index (volatile_server_state s') = commit_index (volatile_server_state s).
Proof.
  intros Hq. assert (Hnot : completed (quorum_size s) (mkTracker false 0) = false) by done.
  revert Hnot. generalize (mkTracker false 0) as t. revert s Hq.
  induction evs as [|ev evs IH]; intros s Hq t Hnot Hmsg Hb; simpl.
  { exists s. by rewrite Hnot. }
  apply within_budget_cons in Hb as (Hb & Hacks & Hp). rewrite (deliver_spec _ workers k t); [|done..].
  destruct (completed (quorum_size s) (track t ev)) eqn:Hc.
  - destruct (complete_spec k (s <| outstanding_messages ::= delete id |>)) as (s' & -> & Ho & Hcb & _ & Hci).
    simpl in *. exists s'. rewrite completed_mono by done.
    rewrite deliver_none by (rewrite Ho; apply lookup_delete_eq).
    split_and!; [done|by rewrite Ho, lookup_delete_eq|done|done].
  - simpl. match goal with |- context [deliver_all id evs ?x] =>
      destruct (IH x Hq (track t ev)) as (s' & -> & Hs'); [done|simpl|done|] end.
    { by rewrite lookup_insert_eq. }
    exists s'. split; [done|exact Hs'].
Qed.

End commit.

(** ** Repairing a follower's log *)

Section repair.
Context {CP : Capnp} {B : Type} `{Bus B}.
Implicit Types s : SharedState B.

Abbreviation log s := (replication_log (volatile_server_state s)).

Lemma filter_seqZ_ne self a n : ~ (a <= self < a + n) -> filter (fun i => i <> self) (seqZ a n) = seqZ a n.
Proof.
  intros Hout. apply filter_all. intros i Hi%elem_of_seqZ. lia.
Qed.

(** In a cluster of nodes 1 to [n], the index a leader computes for another member is
    the position of that member's own quorum worker. *)
Theorem quorum_worker_index_correct n self node :
  1 <= self <= n -> 1 <= node <= n -> node <> self ->
  cluster_nodes_without_self (seqZ 1 n) self !! get_quorum_worker_index node self = Some node.
Proof.
  intros Hself Hnode Hne. unfold cluster_nodes_without_self, get_quorum_worker_index, saturating_sub.
  replace n with ((self - 1) + (1 + (n - self))) by lia.
  rewrite !seqZ_app by lia. rewrite !list_basics.list.filter_app.
  rewrite (filter_seqZ_ne self 1), (filter_seqZ_ne self _ (n - self)) by lia.
  replace (filter _ (seqZ _ 1)) with (@nil Z); last first.
  { rewrite seqZ_cons by lia. simpl. rewrite filter_cons_False by lia. by rewrite seqZ_nil by lia. }
  rewrite decide_False by lia. case_decide.
  - rewrite lookup_app_r by (rewrite length_seqZ; lia). rewrite length_seqZ. simpl.
    apply lookup_seqZ. lia.
  - rewrite lookup_app_l by (rewrite length_seqZ; lia). apply lookup_seqZ. lia.
Qed.

(** The backwards walk of the leader finds the last entry below the follower's last
    index whose term is the follower's last term, and reports none only if there is none. *)
Theorem find_matching_term_correct (l : list OwnedLogEntry) t n :
  (n <= length l)%nat ->
  match find_matching_term l t n with
  | Some (t', k) => t' = t /\ 0 <= k < Z.of_nat n /\
      (exists e, vget l k = Some e /\ term e = t) /\
      (forall j e, k < j < Z.of_nat n -> vget l j = Some e -> term e <> t)
  | None => forall j e, 0 <= j < Z.of_nat n -> vget l j = Some e -> term e <> t
  end.
Proof.
  induction n as [|n IH]; intros Hn; simpl; [lia|].
  destruct (lookup_lt_is_Some_2 l n) as [e He]; [lia|]. rewrite He.
  assert (Hg : vget l (Z.of_nat n) = Some e) by by rewrite vget_nat.
  case_decide as Ht; [split_and!; [done|lia..|eauto|lia]|].
  specialize (IH ltac:(lia)). destruct (find_matching_term l t n) as [[t' k]|].
  - destruct IH as (-> & Hk & Hex & Hall). split_and!; [done|lia..|done|].
    intros j e' Hj Hget. destruct (decide (j = Z.of_nat n)) as [->|]; [congruence|]. eapply Hall; [|done]. lia.
  - intros j e' Hj Hget. destruct (decide (j = Z.of_nat n)) as [->|]; [congruence|]. eapply IH; [|done]. lia.
Qed.

(** A backfill request never makes the leader panic, and leaves its log alone.  If the
    follower's last entry is in the leader's log with the same term, or the follower's log is
    empty, the worker of that follower is given exactly the entries the follower lacks. *)
Theorem backfill_request_sends_missing node t i s q :
  0 <= i -> vlen (log s) < 2 ^ 64 ->
  quorum_worker_tasks s !! get_quorum_worker_index node (identity s) = Some q ->
  exists s', handle_backfill_request node t i s = Some s' /\ log s' = log s /\
    ((t = 0 /\ i < vlen (log s)) \/ (exists e, vget (log s) i = Some e /\ term e = t) ->
     exists data, quorum_worker_tasks s' !! get_quorum_worker_index node (identity s) =
                    Some (q ++ [QT_BackfillLog data]) /\
       vtruncate (if decide (t = 0) then 0 else i + 1) (log s) ++ data = log s).
Proof.
  intros Hi Hlen Hq. unfold handle_backfill_request. case_decide as Hahead.
  { unfold handle_follower_ahead, send_truncate_signal. rewrite Hq. eexists. split_and!; [done|done|].
    intros [?|(e & Hg%vget_lt & _)]; lia. }
  destruct (vget_is_Some (log s) i) as [e He]; [lia|]. rewrite He. case_decide as Hm.
  { unfold handle_term_mismatch, send_truncate_signal.
    destruct (find_matching_term _ _ _) as [[t' k]|]; rewrite Hq; eexists; (split_and!; [done|done|]);
      intros [?|(e' & ? & ?)]; simplify_eq; tauto. }
  unfold send_backfill_data, clone_subset. set (start := if decide (t = 0) then 0 else i +! 1).
  assert (0 <= start <= vlen (log s)).
  { unfold start. case_decide; [pose proof (vlen_nonneg (log s)); lia|]. rewrite u64_add_small; lia. }
  rewrite decide_True by lia. simpl. rewrite Hq. eexists. split_and!; [done|done|]. intros _.
  eexists. simpl. split.
  - by rewrite list_lookup_alter_eq, Hq.
  - replace (if decide (t = 0) then 0 else i + 1) with start; last first.
    { unfold start. case_decide; [done|]. apply u64_add_small. lia. }
    unfold vtruncate, vlen in *. rewrite (take_ge (drop _ _)) by (rewrite length_drop; lia). apply take_drop.
Qed.

End repair.

(** ** Concrete runs *)

Lemma fresh_node_wf : leader_log_wf fresh_node /\ leader_ranges fresh_node.
Proof.
  split; [split_and!; [constructor|done|done]|].
  repeat split; vm_compute; done.
Qed.

Lemma write_batch_appends_witness :
  exists e s', write_batch sample_env (mkOwnedWriteBatch (write_write_batch sample_batch)) 7%nat fresh_node = Some s' /\
    replication_log (volatile_server_state s') = [e] /\ message_id e = 1.
Proof.
  destruct fresh_node_wf as [Hwf Hr].
  destruct (write_batch_appends sample_env sample_batch [sample_put] 7%nat fresh_node Hwf Hr)
    as (e & s' & Hs & Hl & _ & _ & Hid & _); [done|exact sample_batch_built|done|done|by vm_compute|].
  exists e, s'. split; [exact Hs|]. split; [exact Hl|exact Hid].
Defined.

Lemma write_batch_total_witness :
  exists s', write_batch sample_env (mkOwnedWriteBatch []) 7%nat fresh_node = Some s' /\ leader_log_wf s'.
Proof.
  destruct fresh_node_wf as [Hwf Hr].
  destruct (write_batch_total sample_env (mkOwnedWriteBatch []) 7%nat fresh_node Hwf Hr) as (s' & Hs & Hw & _);
    [done|by vm_compute|]. exists s'. split; [exact Hs|exact Hw].
Defined.

Lemma write_batch_persistence_failure_desyncs_witness :
  let s := fresh_node <| persistence_work := mkSender false [] |> in
  exists s', write_batch sample_env (mkOwnedWriteBatch (write_write_batch sample_batch)) 7%nat s = Some s' /\
    ~ leader_log_wf s'.
Proof.
  destruct fresh_node_wf as [Hwf Hr].
  destruct (write_batch_persistence_failure_desyncs sample_env (mkOwnedWriteBatch (write_write_batch sample_batch))
    7%nat (fresh_node <| persistence_work := mkSender false [] |>)) as (e & s' & Hs & _ & _ & _ & Hn);
    [exact Hwf|exact Hr|done|vm_compute; reflexivity|by vm_compute|]. exists s'. split; [exact Hs|exact Hn].
Defined.

Lemma initialize_leadership_appends_noop_witness :
  exists e s', initialize_leadership sample_env fresh_node = Some s' /\
    replication_log (volatile_server_state s') = [e] /\ command_count e = 0.
Proof.
  destruct fresh_node_wf as [(Hwf & Ht & _) (Ha & _)].
  destruct (initialize_leadership_appends_noop sample_env fresh_node Hwf Ht Ha)
    as (e & s' & Hs & Hl & _ & _ & _ & Hc & _); [vm_compute; done|vm_compute; done|].
  exists e, s'. split; [exact Hs|]. split; [exact Hl|exact Hc].
Defined.

(** One batch outstanding on a node with two workers. *)
Definition waiting_node : SharedState ScriptedBus :=
  fresh_node <| outstanding_messages :=
    {[ 5 := tracked_message 5 2 (TrackedBatch 7%nat 0 1) (mkTracker false 0) ]} |>.

Lemma commit_tracking_refines_witness :
  exists s', deliver_all 5 [EvAck; EvPersisted; EvAck] waiting_node = Some s' /\
    outstanding_messages s' !! 5 = None.
Proof.
  destruct (commit_tracking_refines 5 2 (TrackedBatch 7%nat 0 1) [EvAck; EvPersisted; EvAck] waiting_node)
    as (s' & Hs & Hn); [split; vm_compute; done|reflexivity|split; vm_compute; done|].
  exists s'. split; [exact Hs|]. exact (proj1 Hn).
Defined.

Lemma quorum_worker_index_correct_witness :
  cluster_nodes_without_self (seqZ 1 3) 2 !! get_quorum_worker_index 3 2 = Some 3.
Proof. apply (quorum_worker_index_correct 3 2 3); lia. Defined.

Lemma find_matching_term_correct_witness :
  find_matching_term sample_log 1 2 = Some (1, 1) /\ (exists e, vget sample_log 1 = Some e /\ term e = 1).
Proof.
  split; [vm_compute; reflexivity|].
  pose proof (find_matching_term_correct sample_log 1 2) as Hspec.
  replace (find_matching_term sample_log 1 2) with (Some (1, 1)) in Hspec by (vm_compute; reflexivity).
  apply Hspec. simpl. lia.
Defined.

Lemma backfill_request_sends_missing_witness :
  exists s', handle_backfill_request 2 1 0 (sample_leader []) = Some s' /\
    replication_log (volatile_server_state s') = sample_log.
Proof.
  destruct (backfill_request_sends_missing 2 1 0 (sample_leader []) []) as (s' & Hs & Hl & _);
    [lia|vm_compute; done|reflexivity|]. exists s'. split; [exact Hs|exact Hl].
Defined.
