(* ===== verification/Candidate.v ===== *)
(** * The candidate

    [src/raft/candidate.rs]. *)
From S2P Require Import Prelude Capnp RaftTypes Bus RaftSm LogModel Follower Leader.

Section candidate.
Context {CP : Capnp} {B : Type} `{Bus B}.
Implicit Types s : SharedState B.
Implicit Types d : RaftCandidateStateDelegate.

(** [RaftProtocol::append_entries] of the candidate. *)
Definition append_entries (env : Env) (request : LocalAppendEntries) (callback : Callback) d s
    : RaftMessageStateChange * RaftCandidateStateDelegate * SharedState B :=
  if decide (current_term (server_state s) <= a_term request) then
    let s := s <| server_state ; current_term := a_term request |> in
    let s := s <| server_state ; leader_id := a_leader_id request |> in
    let s := s <| volatile_server_state ; next_term := a_term request +! 1 |> in
    let v := volatile_server_state s in
    let s :=
      if decide (a_prev_index request = last_log_index v /\ a_prev_term request = last_log_term v)
      then callback_send_ok callback (RP_AppendEntries AE_Ok) s
      else callback_send_ok callback (wanted_previous s) s in
    (SC_Follower (RaftFollowerStateDelegate_new env), d, s)
  else
    (SC_None, d, callback_send_ok callback (RP_AppendEntries AE_UnrecognizedLeader) s).

(** "Candidate election done, transition to leader": the two places of [time_step]. *)
Definition become_leader (env : Env) (term : Z) s : RaftMessageStateChange * SharedState B :=
  let s := s <| server_state ; leader_id := identity s |> in
  let s := s <| server_state ; current_term := term |> in
  (SC_Leader (RaftLeaderStateDelegate_new env), s).

(** The arm [VotePersisted] of the persistence loop; a state change is the early return. *)
Definition handle_vote_persisted (env : Env) (id term : Z) s : RaftMessageStateChange * SharedState B :=
  match outstanding_messages s !! id with
  | Some msg =>
    let s := s <| outstanding_messages ::= delete id |> in
    let new_outstanding_resp := outstanding_responses msg - 1 in
    match message_type msg with
    | OM_RequestVote callback => (SC_None, callback_send_ok callback (RP_RequestVote true) s)
    | OM_CandidateElection _ quorum_votes =>
      if decide (quorum_size s <= quorum_votes) then become_leader env term s
      else
        (SC_None,
         s <| outstanding_messages ::=
                <[ id := msg <| outstanding_responses := new_outstanding_resp |>
                             <| message_type := OM_CandidateElection true quorum_votes |> ]> |>)
    | _ => (SC_None, s)
    end
  | None => (SC_None, s)
  end.

(** The arm [LogPersisted]; [None] is the panic of [unwrap]. *)
Definition handle_log_persisted (id : Z) s : option (SharedState B) :=
  match outstanding_messages s !! id with
  | Some msg =>
    let s := s <| outstanding_messages ::= delete id |> in
    match message_type msg with
    | OM_AppendLog callback => callback_send callback (RP_AppendEntries AE_Ok) s
    | _ => Some s
    end
  | None => Some s
  end.

(** The arm [RequestVoteResponse] of the quorum loop; [None] is the panic of [unwrap]. *)
Definition handle_vote_response (env : Env) (id term : Z) (received_vote : bool) s
    : option (RaftMessageStateChange * SharedState B) :=
  match outstanding_messages s !! id with
  | Some msg =>
    let s := s <| outstanding_messages ::= delete id |> in
    let new_outstanding_resp := outstanding_responses msg - 1 in
    match message_type msg with
    | OM_RequestVote callback =>
      let* s := callback_send callback (RP_RequestVote received_vote) s in Some (SC_None, s)
    | OM_CandidateElection persistence_done quorum_votes =>
      let new_votes := if received_vote then quorum_votes + 1 else quorum_votes in
      if decide (quorum_size s <= new_votes /\ persistence_done = true)
      then Some (become_leader env term s)
      else if decide (0 < new_outstanding_resp) then
        Some (SC_None,
          s <| outstanding_messages ::=
                 <[ id := msg <| outstanding_responses := new_outstanding_resp |>
                              <| message_type := OM_CandidateElection persistence_done new_votes |> ]> |>)
      else Some (SC_None, s)
    | OM_AppendLog callback =>
      let* s := callback_send callback (RP_RequestVote received_vote) s in Some (SC_None, s)
    | _ => Some (SC_None, s)
    end
  | None => Some (SC_None, s)
  end.

(** [while let Some(task) = persistence_response.pop()]: a state change other than
    [SC_None] leaves the loop and the rest of the queue. *)
Fixpoint process_persistence (env : Env) (q : list PersistenceResponseType) (work_done : Z) s
    : option (RaftMessageStateChange * Z * SharedState B) :=
  match q with
  | [] => Some (SC_None, work_done, s)
  | t :: rest =>
    let s := s <| persistence_response := rest |> in
    match t with
    | PR_VotePersisted id term _ =>
      match handle_vote_persisted env id term s with
      | (SC_None, s) => process_persistence env rest (work_done + 1) s
      | (sc, s) => Some (sc, work_done + 1, s)
      end
    | PR_LogPersisted id =>
      let* s := handle_log_persisted id s in
      process_persistence env rest (work_done + 1) s
    end
  end.

(** [while let Some(task) = quorum_response.pop()]. *)
Fixpoint process_quorum (env : Env) (q : list LocalQuorumTaskResponseType) (work_done : Z) s
    : option (RaftMessageStateChange * Z * SharedState B) :=
  match q with
  | [] => Some (SC_None, work_done, s)
  | t :: rest =>
    let s := s <| quorum_response := rest |> in
    match t with
    | QR_RequestVoteResponse id term received_vote =>
      let* (sc, s) := handle_vote_response env id term received_vote s in
      match sc with
      | SC_None => process_quorum env rest (work_done + 1) s
      | _ => Some (sc, work_done + 1, s)
      end
    | _ => process_quorum env rest (work_done + 1) s
    end
  end.

(** [timeout_expired] of [time_step]. *)
Definition timeout_expired (now : Z) d : bool :=
  if decide (now < initiate_election_timeout d)
  then bool_decide (3600000 < initiate_election_timeout d - now)
  else true.

(** The body of [if timeout_expired]: start an election. *)
Definition start_election (env : Env) (now : Z) d s : RaftCandidateStateDelegate * SharedState B :=
  let message_id := next_message_id s in
  let s := s <| next_message_id ::= fun n => n +! 1 |> in
  let term := next_term (volatile_server_state s) in
  let s := s <| volatile_server_state ; next_term := term +! 1 |> in
  let v := volatile_server_state s in
  let d := d <| ongoing_election := Some (mkOngoingElection term now) |> in
  let s := push_all_quorum (QT_RequestVote message_id term (last_log_term v) (last_log_index v)) s in
  let s := default s (persistence_send (PT_AppendVote message_id term (identity s)) s) in
  let s := s <| term_votes ::= <[ term := identity s ]> |> in
  let s := s <| outstanding_messages ::=
                  <[ message_id := mkOutstandingMessage message_id
                       (vlen (quorum_worker_tasks s) + 1) (OM_CandidateElection false 1) ]> |> in
  let d := d <| initiate_election_timeout :=
                  now_plus_duration_millis (clock env 1%nat) (gen_range (rand env 0%nat) 500 3000) |> in
  (d, s).

(** [RaftProtocol::time_step] of the candidate. *)
Definition time_step (env : Env) d s
    : option (RaftMessageStateChange * Z * RaftCandidateStateDelegate * SharedState B) :=
  let* (sc, work_done, s) := process_persistence env (persistence_response s) 0 s in
  match sc with
  | SC_None =>
    let* (sc, work_done, s) := process_quorum env (quorum_response s) work_done s in
    match sc with
    | SC_None =>
      let now := clock env 0%nat in
      let '(work_done, d, s) :=
        if timeout_expired now d then
          let '(d, s) := start_election env now d s in (work_done + 1, d, s)
        else (work_done, d, s) in
      let '(n, s) := retry_deferred_broadcast s in
      Some (SC_None, work_done + n, d, s)
    | _ => Some (sc, work_done, d, s)
    end
  | _ => Some (sc, work_done, d, s)
  end.

(** [RaftProtocol::request_vote] of the candidate. *)
Definition request_vote (r : LocalRequestVoteRequest) (callback : Callback) d s
    : RaftMessageStateChange * RaftCandidateStateDelegate * SharedState B :=
  let s := observe_vote_term (rv_term r) s in
  if negb (should_accept_vote (rv_term r) (rv_last_log_term r) (rv_last_log_index r) s)
  then (SC_None, d, callback_send_ok callback (RP_RequestVote false) s)
  else
    let message_id := next_message_id s in
    match persistence_send (PT_AppendVote message_id (rv_term r) (rv_candidate_id r)) s with
    | None => (SC_None, d, callback_send_ok callback (RP_RequestVote false) s)
    | Some s =>
      let s := s <| term_votes ::= <[ rv_term r := rv_candidate_id r ]> |> in
      let s := s <| next_message_id := message_id +! 1 |> in
      let s := s <| outstanding_messages ::=
                      <[ message_id := mkOutstandingMessage message_id 1 (OM_RequestVote callback) ]> |> in
      (SC_None, d, s)
    end.

End candidate.

Arguments start_election : simpl never.
