(* ===== verification/CandidateSpec.v ===== *)
(** * What the candidate guarantees

    The contract of an election and its implementation by the handlers of [Candidate.v]. *)
From S2P Require Import Prelude Capnp CapnpInstance RaftTypes Bus Samples RaftSm LogModel.
From S2P Require Import Follower Leader Candidate.

(** ** The contract of an election

    A candidate has won once its own vote is on disk and [quorum_size] nodes, itself
    included, have voted for it, in whatever order that is learnt. *)

Inductive vote_event := VotePersistedEv | VoteAnswer (granted : bool).

Record Election := mkElection { el_persisted : bool; el_votes : Z; el_answers : Z }.

Definition el_step (e : Election) (ev : vote_event) : Election :=
  match ev with
  | VotePersistedEv => mkElection true (el_votes e) (el_answers e)
  | VoteAnswer granted => mkElection (el_persisted e) (el_votes e + Z.b2z granted) (el_answers e + 1)
  end.

Definition el_run (evs : list vote_event) (e : Election) : Election := fold_left el_step evs e.

Definition won (quorum : Z) (e : Election) : bool :=
  el_persisted e && bool_decide (quorum <= el_votes e).

(** All answers are in: one per worker and the own vote. *)
Definition exhausted (workers : Z) (e : Election) : Prop :=
  el_persisted e = true /\ workers <= el_answers e.

#[export] Instance vote_event_eq_dec : EqDecision vote_event.
Proof. solve_decision. Defined.

#[export] Instance exhausted_dec workers e : Decision (exhausted workers e).
Proof. unfold exhausted. apply _. Defined.

Definition election_message (id workers : Z) (e : Election) : OutstandingMessage :=
  mkOutstandingMessage id (workers + 1 - el_answers e - Z.b2z (el_persisted e))
    (OM_CandidateElection (el_persisted e) (el_votes e)).

(** At most one answer per worker and one report of the own vote are left. *)
Fixpoint vote_budget (workers : Z) (e : Election) (evs : list vote_event) : Prop :=
  match evs with
  | [] => True
  | VotePersistedEv :: evs => el_persisted e = false /\ vote_budget workers (el_step e VotePersistedEv) evs
  | VoteAnswer g :: evs => el_answers e < workers /\ vote_budget workers (el_step e (VoteAnswer g)) evs
  end.

Lemma won_mono q evs e : won q e = true -> won q (el_run evs e) = true.
Proof.
  revert e. induction evs as [|ev evs IH]; intros e He; [done|]. apply IH. unfold won in *.
  apply andb_true_iff in He as [Hp Hq%bool_decide_eq_true].
  destruct ev as [|[]]; simpl in *; rewrite ?Hp; simpl; apply bool_decide_eq_true; lia.
Qed.

Section election.
Context {B : Type}.
Implicit Types s : SharedState B.

Definition deliver_vote (env : Env) (id t : Z) (ev : vote_event) s
    : option (RaftMessageStateChange * SharedState B) :=
  match ev with
  | VotePersistedEv => Some (handle_vote_persisted env id t s)
  | VoteAnswer granted => handle_vote_response env id t granted s
  end.

(** As in the loops of [time_step], a state change ends the run. *)
Fixpoint run_election (env : Env) (id t : Z) (evs : list vote_event) s
    : option (RaftMessageStateChange * SharedState B) :=
  match evs with
  | [] => Some (SC_None, s)
  | ev :: evs =>
    let* (sc, s) := deliver_vote env id t ev s in
    match sc with
    | SC_None => run_election env id t evs s
    | _ => Some (sc, s)
    end
  end.

Lemma deliver_vote_spec env id t workers e ev s :
  outstanding_messages s !! id = Some (election_message id workers e) ->
  won (quorum_size s) e = false -> vote_budget workers e [ev] ->
  let s1 := s <| outstanding_messages ::= delete id |> in
  deliver_vote env id t ev s = Some (
    if won (quorum_size s) (el_step e ev) then become_leader env t s1
    else if decide (ev <> VotePersistedEv /\ exhausted workers (el_step e ev)) then (SC_None, s1)
    else (SC_None, s1 <| outstanding_messages ::= <[id := election_message id workers (el_step e ev)]> |>)).
Proof.
  intros Hmsg Hnot Hb s1. destruct e as [p v a], ev as [|g]; simpl in *; unfold won, exhausted in *; simpl in *.
  - destruct Hb as [-> _]. unfold handle_vote_persisted. rewrite Hmsg. unfold election_message. simpl.
    replace (workers + 1 - a - 1) with (workers + 1 - a - 0 - 1) by lia.
    case_bool_decide; case_decide; done.
  - destruct Hb as [Ha _]. unfold handle_vote_response. rewrite Hmsg. unfold election_message. simpl.
    replace (if g then v + 1 else v) with (v + Z.b2z g) by (destruct g; simpl; lia).
    replace (workers + 1 - (a + 1) - Z.b2z p) with (workers + 1 - a - Z.b2z p - 1) by lia.
    destruct p; simpl in *.
    + destruct (decide (quorum_size s <= v + Z.b2z g)) as [Hq|Hq];
        [rewrite bool_decide_true, decide_True by done; done|].
      rewrite bool_decide_false, decide_False by (try intros [? _]; done).
      destruct (decide (workers <= a + 1)).
      * rewrite decide_False by lia. by rewrite decide_True.
      * rewrite decide_True by lia. by rewrite decide_False by (by intros (_ & _ & ?)).
    + rewrite decide_False by (by intros [_ ?]). by rewrite decide_True by lia.
Qed.

Lemma run_election_none env id t evs s :
  outstanding_messages s !! id = None -> run_election env id t evs s = Some (SC_None, s).
Proof.
  intros Hnone. induction evs as [|[|g] evs IH]; simpl; [done|..];
    unfold handle_vote_persisted, handle_vote_response; by rewrite Hnone.
Qed.

Lemma exhausted_no_budget workers e evs : exhausted workers e -> vote_budget workers e evs -> evs = [].
Proof.
  intros [Hp Ha]. destruct evs as [|[|g] evs]; simpl; [done|..]; [by rewrite Hp; intros [? _]|].
  intros [? _]. lia.
Qed.

(** C14: The handlers of an outstanding election implement its contract.  For every order in
    which the own vote is reported persisted and the workers answer (each at most once), the
    candidate becomes leader of that term if and only if its own vote is persisted and
    [quorum_size] votes including its own were granted, without waiting for the other
    answers; otherwise its term and leader stay, and the outstanding message holds the exact
    counts until no answer is left.  No handler panics. *)
Theorem election_refines env id t workers evs s :
  outstanding_messages s !! id = Some (election_message id workers (mkElection false 1 0)) ->
  vote_budget workers (mkElection false 1 0) evs ->
  exists sc s', run_election env id t evs s = Some (sc, s') /\
    let e := el_run evs (mkElection false 1 0) in
    if won (quorum_size s) e
    then sc = SC_Leader (RaftLeaderStateDelegate_new env) /\
         server_state s' = mkRaftServerState t (identity s) /\ outstanding_messages s' !! id = None
    else sc = SC_None /\ server_state s' = server_state s /\
         (outstanding_messages s' !! id = Some (election_message id workers e) \/
          (outstanding_messages s' !! id = None /\ exhausted workers e)).
Proof.
  intros Hmsg Hb. assert (Hnot : won (quorum_size s) (mkElection false 1 0) = false) by done.
  revert Hnot Hmsg Hb. generalize (mkElection false 1 0) as e. revert s.
  induction evs as [|ev evs IH]; intros s e Hnot Hmsg Hb.
  { exists SC_None, s. simpl. rewrite Hnot. by eauto. }
  assert (Hb1 : vote_budget workers e [ev] /\ vote_budget workers (el_step e ev) evs).
  { destruct ev; simpl in Hb |- *; tauto. }
  destruct Hb1 as [Hb1 Hb2]. cbn [run_election]. rewrite (deliver_vote_spec env id t workers e ev s Hmsg Hnot Hb1).
  cbn [mbind option_bind]. change (el_run (ev :: evs) e) with (el_run evs (el_step e ev)).
  destruct (won (quorum_size s) (el_step e ev)) eqn:Hwon; [|case_decide as Hex].
  - rewrite won_mono by done. do 2 eexists. split; [reflexivity|]. simpl. by rewrite lookup_delete_eq.
  - destruct Hex as [_ Hex]. rewrite (exhausted_no_budget _ _ _ Hex Hb2). simpl. rewrite Hwon.
    do 2 eexists. split; [reflexivity|]. simpl. rewrite lookup_delete_eq. by eauto.
  - match goal with |- context [run_election env id t evs ?x] =>
      destruct (IH x (el_step e ev)) as (sc & s' & -> & Hs'); [done|simpl; by rewrite lookup_insert_eq|done|] end.
    exists sc, s'. split; [done|exact Hs'].
Qed.

End election.

(** ** Starting an election and granting votes *)

Section voting.
Context {B : Type}.
Implicit Types s : SharedState B.

(** Starting an election takes the next term, records the own vote in it, queues that vote
    once for persistence and the same request once for every quorum worker, registers the
    election with one vote, and sets the next timeout 500 to 3000 ms ahead. *)
Theorem start_election_opens_election env now d s :
  chan_open (persistence_work s) = true ->
  u64 (next_message_id s + 1) -> u64 (next_term (volatile_server_state s) + 1) ->
  let v := volatile_server_state s in
  let id := next_message_id s in
  let t := next_term v in
  let '(d', s') := start_election env now d s in
  ongoing_election d' = Some (mkOngoingElection t now) /\
  clock env 1%nat + 500 <= initiate_election_timeout d' < clock env 1%nat + 3000 /\
  next_term (volatile_server_state s') = t + 1 /\ next_message_id s' = id + 1 /\
  term_votes s' = <[t := identity s]> (term_votes s) /\
  chan_queue (persistence_work s') = chan_queue (persistence_work s) ++ [PT_AppendVote id t (identity s)] /\
  quorum_worker_tasks s' =
    map (fun q => q ++ [QT_RequestVote id t (last_log_term v) (last_log_index v)]) (quorum_worker_tasks s) /\
  outstanding_messages s' =
    <[id := election_message id (vlen (quorum_worker_tasks s)) (mkElection false 1 0)]> (outstanding_messages s) /\
  server_state s' = server_state s /\ callbacks s' = callbacks s.
Proof.
  unfold u64. intros Hopen Hid Ht. unfold start_election, now_plus_duration_millis.
  rewrite persistence_send_open by done. cbn. rewrite !u64_add_small by lia.
  pose proof (gen_range_bounds (rand env 0%nat) 500 3000). split_and!; try done; [lia..|].
  unfold election_message, vlen. simpl. rewrite length_map. do 3 f_equal. lia.
Qed.

(** Raft's comparison of logs: the later last term wins, then the longer log. *)
Definition up_to_date (last_term last_index : Z) s : bool :=
  bool_decide (last_log_term (volatile_server_state s) < last_term) ||
  (bool_decide (last_log_term (volatile_server_state s) = last_term) &&
   bool_decide (last_log_index (volatile_server_state s) <= last_index)).

(** A vote is granted exactly to a candidate of a newer term the node has not voted in
    whose last index is not smaller.  The candidate's last term plays no part: a candidate
    whose log ends in an older term gets the vote although its log is not up to date. *)
Theorem should_accept_vote_ignores_log_term t lt li s :
  should_accept_vote t lt li s =
    bool_decide (term_votes s !! t = None /\ current_term (server_state s) < t /\
                 last_log_index (volatile_server_state s) <= li) /\
  (lt < last_log_term (volatile_server_state s) -> up_to_date lt li s = false).
Proof.
  split.
  - unfold should_accept_vote. destruct (term_votes s !! t) eqn:Hv.
    + symmetry. apply bool_decide_eq_false. by intros [? _].
    + repeat case_decide; symmetry; 
        first [apply bool_decide_eq_false; intros (_ & ? & ?); lia | apply bool_decide_eq_true; split_and!; done || lia].
  - intros. unfold up_to_date. rewrite !bool_decide_false by lia. done.
Qed.

End voting.

(** *** A vote that waits to be written *)

Section waiting_vote.
Context {B : Type} `{Bus B}.
Implicit Types s : SharedState B.
Variables (id : Z) (cb : Callback).

(** Whom the answer to an outstanding message goes to. *)
Definition answers_to (m : OutstandingMessage) : option Callback :=
  match message_type m with
  | OM_RequestVote c | OM_AppendLog c | OM_WriteBatch _ _ c _ _ => Some c
  | OM_CandidateElection _ _ | OM_NoOp _ _ _ => None
  end.

(** Nothing has been sent to [cb], and no message but the one of [id] is answered there. *)
Definition unanswered s : Prop :=
  map_Forall (fun i m => i <> id -> answers_to m <> Some cb) (outstanding_messages s) /\
  Forall (fun a => a.1 <> cb) (cb_sent (callbacks s)).

(** The vote request registered under [id] waits for its answer. *)
Definition waits s : Prop :=
  (message_type <$> outstanding_messages s !! id) = Some (OM_RequestVote cb) /\ unanswered s.

(** What the queues of the candidate say about other messages. *)
Definition not_reported (q : list PersistenceResponseType) : Prop :=
  Forall (fun t => match t with PR_VotePersisted i _ _ | PR_LogPersisted i => i <> id end) q.

Definition not_responded (q : list LocalQuorumTaskResponseType) : Prop :=
  Forall (fun t => match t with QR_RequestVoteResponse i _ _ => i <> id | _ => True end) q.

Lemma waits_same s s' :
  outstanding_messages s' = outstanding_messages s -> callbacks s' = callbacks s -> waits s -> waits s'.
Proof. unfold waits, unanswered. by intros -> ->. Qed.

Lemma waits_deleted i s : i <> id -> waits s -> waits (s <| outstanding_messages ::= delete i |>).
Proof.
  intros Hi (Hw & Hf & Hs). split; [by simpl; rewrite lookup_delete_ne|]. split; [by apply map_Forall_delete|done].
Qed.

Lemma waits_insert i m s s' :
  i <> id -> answers_to m = None -> outstanding_messages s' = <[i := m]> (outstanding_messages s) ->
  callbacks s' = callbacks s -> waits s -> waits s'.
Proof.
  unfold waits, unanswered. intros Hi Hm -> -> (Hw & Hf & Hs). split; [by rewrite lookup_insert_ne|]. split; [|done].
  apply map_Forall_insert_2; [|done]. intros _. by rewrite Hm.
Qed.

Lemma waits_respond c p s : c <> cb -> waits s -> waits (s <| callbacks ::= respond c p |>).
Proof.
  intros Hc (Hw & Hf & Hs). split; [done|]. split; [done|]. simpl. unfold respond. case_decide; [done|]. simpl.
  apply Forall_app. split; [done|]. by apply Forall_singleton.
Qed.

Lemma waits_other i m c s : waits s -> i <> id -> outstanding_messages s !! i = Some m -> answers_to m = Some c -> c <> cb.
Proof. intros (_ & Hf & _) Hi Hm Hc ->. by destruct (Hf i m Hm Hi). Qed.

Lemma waits_vote_persisted env i t s : i <> id -> waits s -> waits (handle_vote_persisted env i t s).2.
Proof.
  intros Hi Hw. unfold handle_vote_persisted. destruct (outstanding_messages s !! i) as [m|] eqn:Hm; [|done].
  pose proof (waits_deleted i s Hi Hw) as Hd. pose proof (fun c => waits_other i m c s Hw Hi Hm) as Hc. unfold answers_to in Hc.
  destruct (message_type m) eqn:Ht; simpl; try exact Hd.
  - rewrite callback_send_ok_eq. apply waits_respond; [by apply Hc|exact Hd].
  - case_decide; simpl; [by revert Hd; apply waits_same|].
    revert Hd. eapply waits_insert; [done| |reflexivity|done]. done.
Qed.

Lemma waits_log_persisted i s s' : i <> id -> handle_log_persisted i s = Some s' -> waits s -> waits s'.
Proof.
  unfold handle_log_persisted. intros Hi Heq Hw. destruct (outstanding_messages s !! i) as [m|] eqn:Hm; [|by simplify_eq].
  pose proof (waits_deleted i s Hi Hw) as Hd. pose proof (fun c => waits_other i m c s Hw Hi Hm) as Hc. unfold answers_to in Hc.
  destruct (message_type m) eqn:Ht; try (injection Heq as <-; exact Hd).
  apply callback_send_Some in Heq as ->. apply waits_respond; [by apply Hc|exact Hd].
Qed.

Lemma waits_vote_response env i t granted s sc s' :
  i <> id -> handle_vote_response env i t granted s = Some (sc, s') -> waits s -> waits s'.
Proof.
  unfold handle_vote_response. intros Hi Heq Hw. destruct (outstanding_messages s !! i) as [m|] eqn:Hm; [|by simplify_eq].
  pose proof (waits_deleted i s Hi Hw) as Hd. pose proof (fun c => waits_other i m c s Hw Hi Hm) as Hc. unfold answers_to in Hc.
  destruct (message_type m) eqn:Ht; try (injection Heq as <- <-; exact Hd).
  1,3: destruct (callback_send _ _ _) as [s1|] eqn:Hs; [|done]; injection Heq as <- <-;
       apply callback_send_Some in Hs as ->; apply waits_respond; [by apply Hc|exact Hd].
  case_decide; [injection Heq as <- <-; revert Hd; by apply waits_same|].
  case_decide; injection Heq as <- <-; [|exact Hd]. revert Hd. eapply waits_insert; [done| |reflexivity|done]. done.
Qed.

Lemma waits_persistence env q n s sc n' s' :
  not_reported q -> process_persistence env q n s = Some (sc, n', s') -> waits s -> waits s'.
Proof.
  intros Hq. revert n s. induction Hq as [|t q Ht Hq IH]; intros n s; simpl; [by intros [= <- <- <-]|].
  intros Heq Hw. assert (Hw0 : waits (s <| persistence_response := q |>)) by (revert Hw; by apply waits_same).
  destruct t as [i t c|i].
  - pose proof (waits_vote_persisted env i t _ Ht Hw0) as Hv.
    destruct (handle_vote_persisted _ _ _ _) as [[] s1]; [by eapply IH|by simplify_eq..].
  - destruct (handle_log_persisted _ _) as [s1|] eqn:Hs; [|done]. eapply IH; [exact Heq|]. by eapply waits_log_persisted.
Qed.

Lemma waits_quorum env q n s sc n' s' :
  not_responded q -> process_quorum env q n s = Some (sc, n', s') -> waits s -> waits s'.
Proof.
  intros Hq. revert n s. induction Hq as [|t q Ht Hq IH]; intros n s; simpl; [by intros [= <- <- <-]|].
  intros Heq Hw. assert (Hw0 : waits (s <| quorum_response := q |>)) by (revert Hw; by apply waits_same).
  destruct t; try by eapply IH.
  destruct (handle_vote_response _ _ _ _ _) as [[sc1 s1]|] eqn:Hs; [|done]. simpl in Heq.
  eapply waits_vote_response in Hs; [|done|done]. destruct sc1; [by eapply IH|by simplify_eq..].
Qed.

Lemma waits_election env now d s : next_message_id s <> id -> waits s -> waits (start_election env now d s).2.
Proof.
  intros Hid Hw. unfold start_election. simpl.
  match goal with |- context [persistence_send ?t ?x] => destruct (persistence_send t x) as [s1|] eqn:Hs end; simpl.
  - apply persistence_send_Some in Hs as [_ ->]. revert Hw. eapply waits_insert; [done| |reflexivity|done]. done.
  - revert Hw. eapply waits_insert; [done| |reflexivity|done]. done.
Qed.

Lemma persistence_keeps_rest env q n s sc n' s' :
  process_persistence env q n s = Some (sc, n', s') ->
  quorum_response s' = quorum_response s /\ next_message_id s' = next_message_id s.
Proof.
  revert n s. induction q as [|t q IH]; intros n s; simpl; [by intros [= <- <- <-]|]. intros Heq. destruct t as [i t c|i].
  - unfold handle_vote_persisted, become_leader in Heq.
    repeat (rewrite ?callback_send_ok_eq in Heq; case_match || case_decide || simplify_eq/=); try done; by apply IH in Heq.
  - destruct (handle_log_persisted _ _) as [s1|] eqn:Hs; [|done]. apply IH in Heq as [-> ->].
    unfold handle_log_persisted in Hs. simpl in Hs. repeat (case_match || simplify_eq/=); try done.
    by apply callback_send_Some in Hs as ->.
Qed.

Lemma quorum_keeps_next env q n s sc n' s' :
  process_quorum env q n s = Some (sc, n', s') -> next_message_id s' = next_message_id s.
Proof.
  revert n s. induction q as [|t q IH]; intros n s; simpl; [by intros [= <- <- <-]|]. intros Heq.
  destruct t; try by apply IH in Heq.
  destruct (handle_vote_response _ _ _ _ _) as [[sc1 s1]|] eqn:Hs; [|done]. simpl in Heq.
  assert (next_message_id s1 = next_message_id s) as <-.
  { clear Heq. unfold handle_vote_response, become_leader in Hs. simpl in Hs. repeat (case_match || case_decide || simplify_eq/=); try done;
      match type of Hs with mbind _ ?x = _ => destruct x as [s2|] eqn:Hc; [|done] end;
      apply callback_send_Some in Hc as ->; by simplify_eq/=. }
  destruct sc1; [by apply IH in Heq|by simplify_eq..].
Qed.

(** A time step of the candidate in which nothing is reported under [id] does not answer. *)
Lemma waits_time_step env d s sc w d' s' :
  not_reported (persistence_response s) -> not_responded (quorum_response s) -> next_message_id s <> id ->
  time_step env d s = Some (sc, w, d', s') -> waits s -> waits s'.
Proof.
  intros Hp Hq Hid Heq Hw. unfold time_step in Heq.
  destruct (process_persistence _ _ _ _) as [[[sc1 n1] s1]|] eqn:H1; [|done]. cbn [mbind option_bind] in Heq.
  pose proof (waits_persistence _ _ _ _ _ _ _ Hp H1 Hw) as Hw1.
  destruct (persistence_keeps_rest _ _ _ _ _ _ _ H1) as [Hq1 Hn1].
  destruct sc1; [|by simplify_eq..].
  destruct (process_quorum _ _ _ _) as [[[sc2 n2] s2]|] eqn:H2; [|done]. cbn [mbind option_bind] in Heq.
  rewrite <- Hq1 in Hq. pose proof (waits_quorum _ _ _ _ _ _ _ Hq H2 Hw1) as Hw2.
  apply quorum_keeps_next in H2 as Hn2. destruct sc2; [|by simplify_eq..].
  assert (forall s3, waits s3 -> waits (retry_deferred_broadcast s3).2) as Hretry.
  { intros s3. destruct (retry_deferred_broadcast_frame s3) as (b & v & k & e & ->). by apply waits_same. }
  destruct (timeout_expired _ _).
  - pose proof (waits_election env (clock env 0%nat) d s2) as He. destruct (start_election _ _ _ _) as [d1 s3].
    specialize (Hretry s3). destruct (retry_deferred_broadcast s3) as [n4 s4]. simplify_eq. apply Hretry, He; [congruence|done].
  - specialize (Hretry s2 Hw2). destruct (retry_deferred_broadcast s2) as [n4 s4]. by simplify_eq.
Qed.

End waiting_vote.

Section granting.
Context {B : Type} `{Bus B}.
Implicit Types s : SharedState B.

(** C38: A candidate that accepts a vote request, with its persistence worker running and with
    a message id and a callback that are not in use, records the vote, queues it once for
    persistence and answers nothing yet.  The answer "granted" is sent when the persistence
    worker reports that vote, and not before: as long as the candidate's queues hold neither
    that report nor a response under the same id, its time steps leave the request waiting
    without an answer.  (A follower does not record the vote, see [follower_vote_is_lost].) *)
Theorem vote_granted_after_persisted env r cb d s :
  should_accept_vote (rv_term r) (rv_last_log_term r) (rv_last_log_index r)
    (observe_vote_term (rv_term r) s) = true ->
  chan_open (persistence_work s) = true -> u64 (next_message_id s + 1) ->
  unanswered (next_message_id s) cb s ->
  let s1 := (request_vote r cb d s).2 in
  let id := next_message_id s in
  let s2 := (handle_vote_persisted env id (rv_term r) s1).2 in
  term_votes s1 = <[rv_term r := rv_candidate_id r]> (term_votes s) /\
  chan_queue (persistence_work s1) =
    chan_queue (persistence_work s) ++ [PT_AppendVote id (rv_term r) (rv_candidate_id r)] /\
  callbacks s1 = callbacks s /\
  callbacks s2 = respond cb (RP_RequestVote true) (callbacks s) /\
  outstanding_messages s2 = delete id (outstanding_messages s) /\
  waits id cb s1 /\
  forall env' d' x sc w d'' x', waits id cb x -> next_message_id x <> id ->
    not_reported id (persistence_response x) -> not_responded id (quorum_response x) ->
    time_step env' d' x = Some (sc, w, d'', x') -> waits id cb x'.
Proof.
  intros Ha Hopen Hid Hun s1 id s2. subst s1 s2 id. unfold request_vote. rewrite Ha. simpl.
  assert (Ho : exists n, observe_vote_term (rv_term r) s = s <| volatile_server_state ; next_term := n |>).
  { unfold observe_vote_term. case_decide; [by eexists|].
    exists (next_term (volatile_server_state s)). by destruct s as [? []]. }
  destruct Ho as [n ->]. rewrite persistence_send_open by done.
  unfold handle_vote_persisted. simpl. rewrite lookup_insert_eq. simpl. rewrite callback_send_ok_eq. simpl.
  split_and!; try done; [by rewrite delete_insert_eq| |intros; by eapply waits_time_step].
  split; [by simpl; rewrite lookup_insert_eq|]. destruct Hun as [Hf Hs]. split; [|done].
  by apply map_Forall_insert_2.
Qed.

(** A candidate, and a leader that steps down, acknowledge a request that names the end of
    their log also when it brings an entry: the entry is neither appended nor queued for
    persistence, but the leader that sent it counts the acknowledgement. *)
Theorem stepping_down_acknowledges_unstored_entry env r cb s :
  current_term (server_state s) < a_term r -> a_entry r <> None -> cb ∉ cb_dropped (callbacks s) ->
  a_prev_index r = last_log_index (volatile_server_state s) -> a_prev_term r = last_log_term (volatile_server_state s) ->
  forall s', (exists d, s' = (Candidate.append_entries env r cb d s).2) \/ (exists d, s' = (Leader.append_entries env r cb d s).2) ->
  cb_sent (callbacks s') = cb_sent (callbacks s) ++ [(cb, RP_AppendEntries AE_Ok)] /\
  replication_log (volatile_server_state s') = replication_log (volatile_server_state s) /\
  persistence_work s' = persistence_work s.
Proof.
  intros Ht _ Hcb Hi Hpt s' [[d ->]|[d ->]]; unfold Candidate.append_entries, Leader.append_entries, Leader.handle_new_leader;
    rewrite decide_True by lia; simpl; rewrite decide_True by done; simpl; rewrite callback_send_ok_eq; simpl;
    unfold respond; by rewrite decide_False.
Qed.

End granting.

(** ** Concrete runs *)

Definition electing_node : SharedState ScriptedBus :=
  fresh_node <| outstanding_messages := {[ 5 := election_message 5 2 (mkElection false 1 0) ]} |>.

Lemma election_refines_witness :
  exists s', run_election sample_env 5 2 [VoteAnswer true; VotePersistedEv] electing_node =
    Some (SC_Leader (RaftLeaderStateDelegate_new sample_env), s') /\ server_state s' = mkRaftServerState 2 1.
Proof.
  destruct (election_refines sample_env 5 2 2 [VoteAnswer true; VotePersistedEv] electing_node)
    as (sc & s' & Hr & Hsc & Hst & _); [reflexivity|repeat split; vm_compute; reflexivity|].
  exists s'. rewrite Hr, Hsc. split; [reflexivity|exact Hst].
Defined.

Lemma start_election_opens_election_witness :
  next_term (volatile_server_state (start_election sample_env 1000 RaftCandidateStateDelegate_new fresh_node).2) = 2.
Proof.
  pose proof (start_election_opens_election sample_env 1000 RaftCandidateStateDelegate_new fresh_node) as Hs.
  destruct (start_election _ _ _ _) as [d' s'] eqn:He.
  destruct Hs as (_ & _ & Hn & _); [reflexivity|split; vm_compute; done|split; vm_compute; done|exact Hn].
Defined.

Lemma should_accept_vote_ignores_log_term_witness :
  let s := fresh_node <| volatile_server_state ; last_log_term := 1 |> in
  should_accept_vote 2 0 0 s = true /\ up_to_date 0 0 s = false.
Proof.
  intros s. destruct (should_accept_vote_ignores_log_term 2 0 0 s) as [Ha Hu].
  split; [rewrite Ha; vm_compute; reflexivity|apply Hu; vm_compute; reflexivity].
Defined.

Lemma vote_granted_after_persisted_witness :
  let r := mkLocalRequestVoteRequest 2 3 0 0 in
  term_votes (request_vote r 4%nat RaftCandidateStateDelegate_new fresh_node).2 = <[2 := 3]> ∅.
Proof.
  intros r. destruct (vote_granted_after_persisted sample_env r 4%nat RaftCandidateStateDelegate_new fresh_node)
    as [Hv _]; [vm_compute; reflexivity|reflexivity|split; vm_compute; done|by split; [apply map_Forall_empty|]|exact Hv].
Defined.
