(* ===== verification/Executor.v ===== *)
(** * The state machine executor

    [StateMachineExecutorImpl] of [src/raft/raft_sm.rs] and the loop body of
    [src/raft/state_machine_worker.rs]: the executor holds one of the three delegates and
    the shared state, and replaces the delegate when a handler asks for it. *)
From stdpp Require Import strings.
From S2P Require Import Prelude Capnp RaftTypes Bus RaftSm LogModel Follower Leader Candidate.

(** ** The trait [RaftProtocol]

    [request_vote] and [time_step] can panic; [write_batch] has a default that only logs. *)
Class RaftProtocol (B D : Type) := {
  get_node_type : RaftNodeType;
  protocol_request_vote : LocalRequestVoteRequest -> Callback -> D -> SharedState B ->
    option (RaftMessageStateChange * D * SharedState B);
  protocol_append_entries : Env -> LocalAppendEntries -> Callback -> D -> SharedState B ->
    RaftMessageStateChange * D * SharedState B;
  protocol_write_batch : Env -> OwnedWriteBatch -> Callback -> SharedState B -> option (SharedState B);
  protocol_time_step : Env -> D -> SharedState B ->
    option (RaftMessageStateChange * Z * D * SharedState B)
}.

Section executor.
Context {CP : Capnp} {B : Type} `{Bus B}.

#[export] Instance follower_protocol : RaftProtocol B RaftFollowerStateDelegate := {|
  get_node_type := Follower;
  protocol_request_vote := Follower.request_vote;
  protocol_append_entries := Follower.append_entries;
  protocol_write_batch := fun _ _ _ s => Some s;
  protocol_time_step := Follower.time_step
|}.

#[export] Instance candidate_protocol : RaftProtocol B RaftCandidateStateDelegate := {|
  get_node_type := Candidate;
  protocol_request_vote := fun r cb d s => Some (Candidate.request_vote r cb d s);
  protocol_append_entries := Candidate.append_entries;
  protocol_write_batch := fun _ _ _ s => Some s;
  protocol_time_step := Candidate.time_step
|}.

#[export] Instance leader_protocol : RaftProtocol B RaftLeaderStateDelegate := {|
  get_node_type := Leader;
  protocol_request_vote := fun r cb d s => Some (Leader.request_vote r cb d s);
  protocol_append_entries := Leader.append_entries;
  protocol_write_batch := Leader.write_batch;
  protocol_time_step := Leader.time_step
|}.

(** [StateMachineExecutorImpl]. *)
Record StateMachineExecutorImpl := mkStateMachineExecutorImpl {
  state_delegate : Delegate;
  shared_state : SharedState B
}.

(** [StateMachineExecutorImpl::new]. *)
Definition StateMachineExecutorImpl_new (env : Env) (s : SharedState B) : StateMachineExecutorImpl :=
  mkStateMachineExecutorImpl (D_Follower (RaftFollowerStateDelegate_new env)) s.

(** The [match state_change] every dispatch ends with; [wrap] boxes the unchanged delegate. *)
Definition apply_state_change {D} (wrap : D -> Delegate) (sc : RaftMessageStateChange) (d : D) : Delegate :=
  match sc with
  | SC_None => wrap d
  | SC_Candidate d => D_Candidate d
  | SC_Follower d => D_Follower d
  | SC_Leader d => D_Leader d
  end.

(** [RaftStateMachineExecutor::time_step]. *)
Definition delegate_time_step {D} `{RaftProtocol B D} (wrap : D -> Delegate) (env : Env) (d : D)
    (s : SharedState B) : option (Z * StateMachineExecutorImpl) :=
  let* (sc, work_done, d, s) := protocol_time_step env d s in
  Some (work_done, mkStateMachineExecutorImpl (apply_state_change wrap sc d) s).

Definition time_step (env : Env) (x : StateMachineExecutorImpl) : option (Z * StateMachineExecutorImpl) :=
  match state_delegate x with
  | D_Follower d => delegate_time_step D_Follower env d (shared_state x)
  | D_Candidate d => delegate_time_step D_Candidate env d (shared_state x)
  | D_Leader d => delegate_time_step D_Leader env d (shared_state x)
  end.

(** [RaftStateMachineExecutor::accept] with the delegate unboxed. *)
Definition delegate_accept {D} `{RaftProtocol B D} (wrap : D -> Delegate) (env : Env)
    (m : LocalRaftMessage) (d : D) (s : SharedState B) : option StateMachineExecutorImpl :=
  match lrm_payload m with
  | RM_RequestVote r =>
    let* (sc, d, s) := protocol_request_vote r (lrm_callback m) d s in
    Some (mkStateMachineExecutorImpl (apply_state_change wrap sc d) s)
  | RM_AppendEntries r =>
    let '(sc, d, s) := protocol_append_entries env r (lrm_callback m) d s in
    Some (mkStateMachineExecutorImpl (apply_state_change wrap sc d) s)
  | RM_GetRaftState =>
    Some (mkStateMachineExecutorImpl (wrap d)
            (callback_send_ok (lrm_callback m) (RP_RaftState (leader_id (server_state s))) s))
  | RM_WriteBatch batch =>
    if decide (get_node_type (D := D) = Leader) then
      let* s := protocol_write_batch (D := D) env batch (lrm_callback m) s in
      Some (mkStateMachineExecutorImpl (wrap d) s)
    else
      let* msg := write_batch_response (Some "Received write batch as non-leader"%string) in
      Some (mkStateMachineExecutorImpl (wrap d) (callback_send_ok (lrm_callback m) msg s))
  end.

Definition accept (env : Env) (m : LocalRaftMessage) (x : StateMachineExecutorImpl)
    : option StateMachineExecutorImpl :=
  match state_delegate x with
  | D_Follower d => delegate_accept D_Follower env m d (shared_state x)
  | D_Candidate d => delegate_accept D_Candidate env m d (shared_state x)
  | D_Leader d => delegate_accept D_Leader env m d (shared_state x)
  end.

(** One iteration of [StateMachineWorker::run] up to its backoff: a [time_step], then the
    work queue is drained; [envs] gives each accepted message its clock and randomness. *)
Fixpoint drain_work_queue (envs : nat -> Env) (queue : list LocalRaftMessage) (work_done : Z)
    (x : StateMachineExecutorImpl) : option (Z * StateMachineExecutorImpl) :=
  match queue with
  | [] => Some (work_done, x)
  | task :: queue =>
    let* x := accept (envs (length queue)) task x in
    drain_work_queue envs queue (work_done + 1) x
  end.

Definition run_iteration (env : Env) (envs : nat -> Env) (queue : list LocalRaftMessage)
    (x : StateMachineExecutorImpl) : option (Z * StateMachineExecutorImpl) :=
  let* (work_done, x) := time_step env x in
  drain_work_queue envs queue work_done x.

(** ** Steps of a node

    What can happen to a node between two handler calls: a worker or another thread adds to
    one of the queues the state machine pops, a receiver of a callback is dropped, a worker
    takes tasks from its queue.  What arrives in a message has the Rust type of its field. *)

Definition typed_log_entry (e : LogEntry) : Prop :=
  u64 (e_index e) /\ u64 (e_term e) /\ u64 (e_prev_log_term e) /\ u64 (e_prev_log_index e).

Definition typed_message (m : LocalRaftMessage) : Prop :=
  match lrm_payload m with
  | RM_RequestVote r =>
    u64 (rv_term r) /\ u32 (rv_candidate_id r) /\ u64 (rv_last_log_index r) /\ u64 (rv_last_log_term r)
  | RM_AppendEntries r =>
    u64 (a_term r) /\ u32 (a_leader_id r) /\ u64 (a_commit_index r) /\
    match a_entry r with Some e => typed_log_entry e | None => True end
  | RM_GetRaftState | RM_WriteBatch _ => True
  end.

Definition typed_persistence (r : PersistenceResponseType) : Prop :=
  match r with
  | PR_VotePersisted id term candidate_id => u64 id /\ u64 term /\ u32 candidate_id
  | PR_LogPersisted id => u64 id
  end.

Definition typed_quorum (r : LocalQuorumTaskResponseType) : Prop :=
  match r with
  | QR_RequestVoteResponse id term _ => u64 id /\ u64 term
  | QR_AppendEntries id _ => u64 id
  | QR_BackfillLog n t i | QR_TruncateLog n t i => u64 n /\ u64 t /\ u64 i
  | QR_TruncateLogResponse id _ => u64 id
  end.

Inductive step : StateMachineExecutorImpl -> StateMachineExecutorImpl -> Prop :=
| step_time env x w x' : time_step env x = Some (w, x') -> step x x'
| step_accept env m x x' : typed_message m -> accept env m x = Some x' -> step x x'
| step_persistence_response r d s :
    typed_persistence r ->
    step (mkStateMachineExecutorImpl d s)
         (mkStateMachineExecutorImpl d (s <| persistence_response ::= fun q => q ++ [r] |>))
| step_quorum_response r d s :
    typed_quorum r ->
    step (mkStateMachineExecutorImpl d s)
         (mkStateMachineExecutorImpl d (s <| quorum_response ::= fun q => q ++ [r] |>))
| step_persistence_work c n d s :
    chan_queue c = drop n (chan_queue (persistence_work s)) ->
    step (mkStateMachineExecutorImpl d s)
         (mkStateMachineExecutorImpl d (s <| persistence_work := c |>))
| step_quorum_tasks qs d s : length qs = length (quorum_worker_tasks s) ->
    step (mkStateMachineExecutorImpl d s)
         (mkStateMachineExecutorImpl d (s <| quorum_worker_tasks := qs |>))
| step_callback_dropped cb d s :
    step (mkStateMachineExecutorImpl d s)
         (mkStateMachineExecutorImpl d (s <| callbacks ; cb_dropped ::= fun c => {[cb]} ∪ c |>)).

(** Scripts of events, to run a node on concrete inputs. *)
Inductive event :=
| Ev_Tick (env : Env)
| Ev_Message (env : Env) (m : LocalRaftMessage)
| Ev_Persisted (r : PersistenceResponseType)
| Ev_Quorum (r : LocalQuorumTaskResponseType).

Definition apply_event (ev : event) (x : StateMachineExecutorImpl) : option StateMachineExecutorImpl :=
  match ev with
  | Ev_Tick env => snd <$> time_step env x
  | Ev_Message env m => accept env m x
  | Ev_Persisted r =>
    Some (mkStateMachineExecutorImpl (state_delegate x)
            (shared_state x) <| persistence_response ::= fun q => q ++ [r] |>)
  | Ev_Quorum r =>
    Some (mkStateMachineExecutorImpl (state_delegate x)
            (shared_state x) <| quorum_response ::= fun q => q ++ [r] |>)
  end.

Fixpoint run_events (evs : list event) (x : StateMachineExecutorImpl) : option StateMachineExecutorImpl :=
  match evs with
  | [] => Some x
  | ev :: evs => let* x := apply_event ev x in run_events evs x
  end.

Definition typed_event (ev : event) : Prop :=
  match ev with
  | Ev_Tick _ => True
  | Ev_Message _ m => typed_message m
  | Ev_Persisted r => typed_persistence r
  | Ev_Quorum r => typed_quorum r
  end.

Lemma event_step ev x x' : typed_event ev -> apply_event ev x = Some x' -> step x x'.
Proof.
  intros Hev Hx. destruct ev as [env|env m|r|r]; simpl in Hx.
  - destruct (time_step env x) as [[w x2]|] eqn:Hts; simplify_eq/=. by eapply step_time.
  - by eapply step_accept.
  - simplify_eq. destruct x. by apply step_persistence_response.
  - simplify_eq. destruct x. by apply step_quorum_response.
Qed.

Lemma run_events_steps evs x x' :
  Forall typed_event evs -> run_events evs x = Some x' -> rtc step x x'.
Proof.
  intros Ht. revert x. induction Ht as [|ev evs Hev Ht IH]; intros x; simpl; intros Hr; [by simplify_eq|].
  destruct (apply_event ev x) as [x1|] eqn:Hx1; [|done]. simpl in Hr. eapply rtc_l; [by eapply event_step|by apply IH].
Qed.

#[export] Instance typed_message_dec m : Decision (typed_message m).
Proof. unfold typed_message, typed_log_entry, u32, u64. destruct m as [[|r| |] cb]; simpl; [| |apply _..]; [|destruct (a_entry r)]; apply _. Defined.

#[export] Instance typed_event_dec ev : Decision (typed_event ev).
Proof. unfold typed_event, typed_persistence, typed_quorum, u32, u64. destruct ev as [| |[]|[]]; apply _. Defined.

(** The node after a script that does not panic. *)
Definition after_events (evs : list event) (x : StateMachineExecutorImpl) : StateMachineExecutorImpl :=
  default x (run_events evs x).

Lemma after_events_steps evs x :
  forallb (fun ev => bool_decide (typed_event ev)) evs = true ->
  match run_events evs x with Some _ => true | None => false end = true -> rtc step x (after_events evs x).
Proof.
  intros Ht Hs. assert (Forall typed_event evs) as Hall.
  { rewrite forallb_forall in Ht. rewrite Forall_forall. intros ev Hev. by eapply bool_decide_eq_true, Ht. }
  clear Ht. unfold after_events. destruct (run_events evs x) as [x'|] eqn:Hr; [|done].
  by apply (run_events_steps evs).
Qed.

End executor.

Arguments StateMachineExecutorImpl : clear implicits.
