(* ===== verification/Safety.v ===== *)
(** * Safety of a node

    Properties of every step of a node ([step] of [Executor.v]): the leader only appends to
    its log, recorded votes are kept, and a node that is not the leader refuses writes. *)
From stdpp Require Import strings.
From S2P Require Import Prelude Capnp CapnpInstance RaftTypes Bus Samples RaftSm LogModel.
From S2P Require Import Follower FollowerSpec Leader LeaderSpec Candidate Executor.

(** ** What processing responses leaves alone *)

Section quiet.
Context {CP : Capnp} {B : Type} `{Bus B}.
Implicit Types s : SharedState B.

Abbreviation log s := (replication_log (volatile_server_state s)).

(** What the state says about the end of the log. *)
Definition log_tail s : Z * Z * Z :=
  (last_log_index (volatile_server_state s), last_log_term (volatile_server_state s),
   next_log_index (volatile_server_state s)).

(** The entries a task asks a quorum worker to send. *)
Definition task_entries (t : LocalQuorumWorkerTaskType) : list OwnedLogEntry :=
  match t with QT_AppendEntries _ e _ => [e] | QT_BackfillLog data => data | _ => [] end.

Definition offered (queues : list (list LocalQuorumWorkerTaskType)) : list OwnedLogEntry :=
  mjoin queues ≫= task_entries.

(** Whatever the workers are asked to send in addition is in the log [l]. *)
Definition offers_from (l : list OwnedLogEntry) (q q' : list (list LocalQuorumWorkerTaskType)) : Prop :=
  forall e, e ∈ offered q' -> e ∈ offered q \/ e ∈ l.

#[export] Instance offers_from_preorder l : PreOrder (offers_from l).
Proof. split; [intros q e; by left|]. intros q1 q2 q3 H12 H23 e [?%H12|?]%H23; [done|by right]. Qed.

Lemma elem_of_offered q e : e ∈ offered q <-> exists ts t, ts ∈ q /\ t ∈ ts /\ e ∈ task_entries t.
Proof.
  unfold offered. rewrite list_elem_of_bind. setoid_rewrite list_elem_of_join. split.
  - intros (t & He & ts & Ht & Hts). by exists ts, t.
  - intros (ts & t & Hts & Ht & He). exists t. split; [done|]. by exists ts.
Qed.

Lemma offers_push_all l t q :
  (forall e, e ∈ task_entries t -> e ∈ l) -> offers_from l q (map (fun ts => ts ++ [t]) q).
Proof.
  intros Ht e (ts & t' & Hts & Ht' & He)%elem_of_offered.
  apply list_elem_of_fmap in Hts as (ts0 & -> & Hts0). apply elem_of_app in Ht' as [Ht'|Ht'].
  - left. apply elem_of_offered. by exists ts0, t'.
  - apply list_elem_of_singleton in Ht' as ->. right. by apply Ht.
Qed.

Lemma offers_push l i t q :
  (forall e, e ∈ task_entries t -> e ∈ l) -> offers_from l q (alter (fun ts => ts ++ [t]) i q).
Proof.
  intros Ht e (ts & t' & Hts & Ht' & He)%elem_of_offered.
  apply list_elem_of_lookup in Hts as [j Hj]. destruct (decide (i = j)) as [->|Hne].
  - rewrite list_lookup_alter_eq in Hj. destruct (q !! j) as [ts0|] eqn:Hq; simplify_eq/=.
    apply elem_of_app in Ht' as [Ht'|Ht'].
    + left. apply elem_of_offered. exists ts0, t'. by apply list_elem_of_lookup_2 in Hq.
    + apply list_elem_of_singleton in Ht' as ->. right. by apply Ht.
  - rewrite list_lookup_alter_ne in Hj by done. left. apply elem_of_offered. exists ts, t'.
    by apply list_elem_of_lookup_2 in Hj.
Qed.

(** Votes, the next term, the log with its end and the tasks of the persistence worker are the
    same, and the quorum workers are only given entries of the log; for [quiet] also the term
    and the leader are the same. *)
Definition hushed s s' : Prop :=
  term_votes s' = term_votes s /\ log s' = log s /\
  next_term (volatile_server_state s') = next_term (volatile_server_state s) /\
  persistence_work s' = persistence_work s /\ log_tail s' = log_tail s /\
  offers_from (log s) (quorum_worker_tasks s) (quorum_worker_tasks s').

Definition quiet s s' : Prop := hushed s s' /\ server_state s' = server_state s.

#[export] Instance hushed_preorder : PreOrder hushed.
Proof.
  split; [done|]. intros s1 s2 s3 (? & Hl & ? & ? & ? & ?) (? & ? & ? & ? & ? & H23). rewrite Hl in H23.
  unfold hushed. split_and!; [congruence..|by etrans].
Qed.

#[export] Instance quiet_preorder : PreOrder quiet.
Proof. split; [done|]. intros s1 s2 s3 [? ?] [? ?]. split; [by etrans|congruence]. Qed.

Lemma quiet_hushed s s' : quiet s s' -> hushed s s'.
Proof. by intros [? _]. Qed.

Lemma quiet_same_but_broadcast s s' : same_but_broadcast s s' -> quiet s s'.
Proof. intros (b & w & c & d & ->). done. Qed.

Lemma quiet_callback_send_ok cb p s : quiet s (callback_send_ok cb p s).
Proof. rewrite callback_send_ok_eq. done. Qed.

Lemma quiet_callback_send cb p s s' : callback_send cb p s = Some s' -> quiet s s'.
Proof. intros ->%callback_send_Some. done. Qed.

Lemma quiet_outstanding f s : quiet s (s <| outstanding_messages ::= f |>).
Proof. done. Qed.

Lemma quiet_push_all t s : (forall e, e ∈ task_entries t -> e ∈ log s) -> quiet s (push_all_quorum t s).
Proof. intros Ht. split; [|done]. split_and!; try done. by apply offers_push_all. Qed.

Lemma quiet_push i t s : (forall e, e ∈ task_entries t -> e ∈ log s) -> quiet s (push_quorum i t s).
Proof. intros Ht. split; [|done]. split_and!; try done. by apply offers_push. Qed.

Lemma quiet_advance index s : quiet s (advance_commit_index index s).
Proof.
  unfold advance_commit_index. case_decide; [|done].
  match goal with |- context [broadcast_committed_entries ?i ?x] =>
    destruct (broadcast_committed_entries_frame i x) as (b & w & c & d & ->) end.
  etrans; [|apply quiet_push_all; by intros e ?%elem_of_nil]. done.
Qed.

Lemma quiet_complete_write_batch index cb s s' : complete_write_batch index cb s = Some s' -> quiet s s'.
Proof.
  unfold complete_write_batch. destruct (write_batch_response None); [|done]. intros ?; simplify_eq/=.
  etrans; [apply quiet_advance|apply quiet_callback_send_ok].
Qed.

Lemma quiet_retry_deferred s : quiet s (retry_deferred_broadcast s).2.
Proof. apply quiet_same_but_broadcast, retry_deferred_broadcast_frame. Qed.

End quiet.

(** Proves [quiet] for the result of a handler by following its case analysis. *)
Ltac quiet_step :=
  match goal with
  | |- quiet ?s ?s => reflexivity
  | H : Some _ = Some _ |- _ => injection H as H; subst
  | H : None = Some _ |- _ => discriminate H
  | H : context [match ?x with _ => _ end] |- _ =>
      lazymatch type of H with _ = Some _ => destruct x eqn:?; simpl in H end
  | |- context [match ?x with _ => _ end] => destruct x eqn:?; simpl
  end.

Ltac quiet_solve := repeat quiet_step;
  repeat match goal with
  | H : complete_write_batch _ _ _ = Some _ |- _ => apply quiet_complete_write_batch in H
  | H : callback_send _ _ _ = Some _ |- _ => apply quiet_callback_send in H
  end;
  first
  [ assumption
  | match goal with
    | |- quiet _ (callback_send_ok _ _ _) => etrans; [|apply quiet_callback_send_ok]
    | |- quiet _ (advance_commit_index _ _) => etrans; [|apply quiet_advance]
    | _ => idtac
    end; split; [split_and!|]; reflexivity ].

Section quiet_leader.
Context {CP : Capnp} {B : Type} `{Bus B}.
Implicit Types s : SharedState B.

Lemma quiet_leader_log_persisted id s s' : Leader.handle_log_persisted id s = Some s' -> quiet s s'.
Proof.
  unfold Leader.handle_log_persisted, complete_noop. intros Heq. quiet_solve.
Qed.

Lemma quiet_leader_append_response id s s' : handle_append_entries_response id s = Some s' -> quiet s s'.
Proof.
  unfold handle_append_entries_response, complete_noop. intros Heq. quiet_solve.
Qed.

Lemma quiet_leader_vote_persisted id s : quiet s (Leader.handle_vote_persisted id s).
Proof. unfold Leader.handle_vote_persisted. quiet_solve. Qed.

Lemma quiet_leader_persistence q n s r :
  process_persistence_responses q n s = Some r -> quiet s r.2.
Proof.
  revert n s. induction q as [|t q IH]; intros n s; simpl; intros Heq; [by simplify_eq|].
  destruct (Leader.handle_persistence_response t _) as [s1|] eqn:Hs1; [|done]. simpl in Heq.
  apply IH in Heq. etrans; [|exact Heq]. destruct t as [id|id]; simpl in Hs1.
  - simplify_eq. etrans; [|apply quiet_leader_vote_persisted]. done.
  - apply quiet_leader_log_persisted in Hs1. exact Hs1.
Qed.

Lemma quiet_leader_quorum q bs n s bs' n' s' :
  process_quorum_responses q bs n s = Some (bs', n', s') -> quiet s s'.
Proof.
  revert bs n s. induction q as [|t q IH]; intros bs n s; simpl; intros Heq; [by simplify_eq|].
  destruct t; try by (apply IH in Heq; etrans; [|exact Heq]).
  destruct (handle_append_entries_response _ _) as [s1|] eqn:Hs1; [|done]. simpl in Heq.
  apply IH in Heq. etrans; [|exact Heq]. by apply quiet_leader_append_response in Hs1.
Qed.

Lemma quiet_send_truncate_signal node t i s : quiet s (send_truncate_signal node t i s).
Proof.
  unfold send_truncate_signal. destruct (quorum_worker_tasks s !! _); [|done].
  etrans; [|apply quiet_push; by intros e ?%elem_of_nil]. done.
Qed.

Lemma quiet_send_backfill node t i s s' : send_backfill_data node t i s = Some s' -> quiet s s'.
Proof.
  unfold send_backfill_data, clone_subset. case_decide; simpl; [|done].
  destruct (quorum_worker_tasks s !! _); intros ?; simplify_eq; [|done].
  apply quiet_push. simpl. intros e [j [Hj _]]%elem_of_take.
  rewrite lookup_drop in Hj. by apply list_elem_of_lookup_2 in Hj.
Qed.

Lemma quiet_backfill node t i s s' : handle_backfill_request node t i s = Some s' -> quiet s s'.
Proof.
  unfold handle_backfill_request, handle_follower_ahead, handle_term_mismatch. intros Heq.
  repeat quiet_step; first [apply quiet_send_truncate_signal | by eapply quiet_send_backfill].
Qed.

Lemma quiet_backfills rs s s' : handle_backfill_requests rs s = Some s' -> quiet s s'.
Proof.
  revert s. induction rs as [|[[node t] i] rs IH]; intros s; simpl; intros Heq; [by simplify_eq|].
  destruct (handle_backfill_request node t i s) as [s1|] eqn:Hs1; [|done]. simpl in Heq.
  etrans; [by eapply quiet_backfill|by apply IH].
Qed.

End quiet_leader.

(** ** Growing the log *)

Section grows.
Context {CP : Capnp} {B : Type} `{Bus B}.
Implicit Types s : SharedState B.

Abbreviation log s := (replication_log (volatile_server_state s)).

(** The log only grows, and votes and the next term stay. *)
Definition grows s s' : Prop :=
  term_votes s' = term_votes s /\ log s `prefix_of` log s' /\
  next_term (volatile_server_state s') = next_term (volatile_server_state s).

#[export] Instance grows_preorder : PreOrder grows.
Proof.
  split; [done|]. intros s1 s2 s3 (? & ? & ?) (? & ? & ?). unfold grows. split_and!; [congruence|by etrans|congruence].
Qed.

Lemma hushed_grows s s' : hushed s s' -> grows s s'.
Proof. intros (? & Hl & ? & _). unfold grows. by rewrite Hl. Qed.

Lemma quiet_grows s s' : quiet s s' -> grows s s'.
Proof. intros. by apply hushed_grows, quiet_hushed. Qed.

Lemma grows_push_entry e s : grows s (push_entry e s).
Proof.
  destruct (push_entry_spec e s) as [starts ->]. unfold grows. simpl. split_and!; [done| |done]. by exists [e].
Qed.

Lemma grows_create_batch env msg idx id s e s' :
  create_and_append_log_entry env msg idx id s = Some (e, s') -> grows s s'.
Proof.
  unfold create_and_append_log_entry. destruct (mjoin _) as [e'|]; [|done]. simpl. intros ?; simplify_eq.
  apply grows_push_entry.
Qed.

Lemma grows_create_noop env idx id s e s' :
  create_and_append_noop_entry env idx id s = Some (e, s') -> grows s s'.
Proof.
  unfold create_and_append_noop_entry. destruct (build_owned_log_entry _) as [e'|]; [|done]. simpl.
  intros ?; simplify_eq. apply grows_push_entry.
Qed.

Lemma grows_send_error msg cb s s' : send_error_response msg cb s = Some s' -> grows s s'.
Proof.
  unfold send_error_response. destruct (write_batch_response _); [|done]. simpl. intros ?; simplify_eq.
  apply quiet_grows, quiet_callback_send_ok.
Qed.

Lemma grows_write_batch env msg cb s s' : write_batch env msg cb s = Some s' -> grows s s'.
Proof.
  unfold write_batch. destruct (validate_write_batch msg); [intros Hs%grows_send_error; exact Hs|].
  destruct (create_and_append_log_entry _ _ _ _ _) as [[e s1]|] eqn:Hc; [|done]. apply grows_create_batch in Hc.
  simpl. unfold queue_persistence_task. destruct (persistence_send _ s1) as [s2|] eqn:Hp.
  - intros ?; simplify_eq. apply persistence_send_Some in Hp as [_ ->]. exact Hc.
  - intros Hs%grows_send_error. by etrans; [exact Hc|].
Qed.

Lemma grows_initialize env s s' : initialize_leadership env s = Some s' -> grows s s'.
Proof.
  unfold initialize_leadership. set (s1 := push_all_quorum _ _). set (s2 := if decide _ then _ else _).
  assert (same_but_broadcast s1 s2) as Hs2%quiet_same_but_broadcast%quiet_grows.
  { unfold s2. case_decide; [apply broadcast_committed_entries_frame|reflexivity]. }
  destruct (create_and_append_noop_entry _ _ _ _) as [[e s3]|] eqn:Hc; [|done]. apply grows_create_noop in Hc.
  simpl. intros ?; simplify_eq. assert (grows s s3) as Hs3 by (etrans; [exact Hs2|exact Hc]).
  etrans; [exact Hs3|]. unfold queue_persistence_task, persistence_send, send.
  destruct (chan_open _); done.
Qed.

Lemma grows_leader_time_step env d s sc n d' s' :
  Leader.time_step env d s = Some (sc, n, d', s') -> grows s s' /\ sc = SC_None.
Proof.
  unfold Leader.time_step. destruct (if negb (initialized d) then _ else _) as [[[w d1] s1]|] eqn:H1; [|done].
  simpl. destruct (process_persistence_responses _ _ _) as [[c s2]|] eqn:H2; [|done]. simpl.
  destruct (process_quorum_responses _ _ _ _) as [[[bs w3] s3]|] eqn:H3; [|done]. simpl.
  destruct (handle_backfill_requests _ _) as [s4|] eqn:H4; [|done]. simpl.
  destruct (retry_deferred_broadcast s4) as [w5 s5] eqn:H5. intros ?; simplify_eq. split; [|done].
  assert (grows s s1).
  { destruct (initialized d); simpl in H1; [by simplify_eq|].
    destruct (initialize_leadership env s) as [s0|] eqn:Hi; [|done]. simpl in H1. simplify_eq.
    by eapply grows_initialize. }
  etrans; [done|]. apply quiet_leader_persistence in H2. apply quiet_leader_quorum in H3. apply quiet_backfills in H4.
  pose proof (quiet_retry_deferred s4) as H6. rewrite H5 in H6.
  apply quiet_grows. etrans; [exact H2|]. etrans; [exact H3|]. by etrans.
Qed.

End grows.

Section quiet_others.
Context {CP : Capnp} {B : Type} `{Bus B}.
Implicit Types s : SharedState B.

Abbreviation log s := (replication_log (volatile_server_state s)).

Lemma hushed_candidate_vote_persisted env id t s : hushed s (Candidate.handle_vote_persisted env id t s).2.
Proof.
  unfold Candidate.handle_vote_persisted. destruct (outstanding_messages s !! id) as [msg|]; [|done].
  destruct (message_type msg); try done; [apply quiet_hushed; simpl; quiet_solve|].
  by case_decide.
Qed.

Lemma hushed_candidate_persistence env q n s sc n' s' :
  Candidate.process_persistence env q n s = Some (sc, n', s') -> hushed s s'.
Proof.
  revert n s. induction q as [|t q IH]; intros n s; simpl; intros Heq; [by simplify_eq|].
  destruct t as [id t c|id].
  - pose proof (hushed_candidate_vote_persisted env id t (s <| persistence_response := q |>)) as Hq.
    destruct (Candidate.handle_vote_persisted _ _ _ _) as [[] s1]; simplify_eq; try exact Hq.
    apply IH in Heq. etrans; [exact Hq|exact Heq].
  - destruct (Candidate.handle_log_persisted _ _) as [s1|] eqn:Hs1; [|done]. simpl in Heq. apply IH in Heq.
    etrans; [|exact Heq]. apply quiet_hushed. unfold Candidate.handle_log_persisted in Hs1. clear Heq. quiet_solve.
Qed.

Lemma hushed_candidate_vote_response env id t v s sc s' :
  handle_vote_response env id t v s = Some (sc, s') -> hushed s s'.
Proof.
  unfold handle_vote_response. intros Heq.
  destruct (outstanding_messages s !! id) as [msg|]; [|by simplify_eq].
  destruct (message_type msg); try by simplify_eq.
  - destruct (callback_send _ _ _) as [s1|] eqn:Hc; [|done]. simpl in Heq. simplify_eq. apply quiet_hushed. quiet_solve.
  - unfold become_leader in Heq. by repeat case_decide; simplify_eq.
  - destruct (callback_send _ _ _) as [s1|] eqn:Hc; [|done]. simpl in Heq. simplify_eq. apply quiet_hushed. quiet_solve.
Qed.

Lemma hushed_candidate_quorum env q n s sc n' s' :
  Candidate.process_quorum env q n s = Some (sc, n', s') -> hushed s s'.
Proof.
  revert n s. induction q as [|t q IH]; intros n s; simpl; intros Heq; [by simplify_eq|].
  destruct t; try by (apply IH in Heq; etrans; [|exact Heq]).
  destruct (handle_vote_response _ _ _ _ _) as [[sc1 s1]|] eqn:Hs1; [|done]. simpl in Heq.
  apply hushed_candidate_vote_response in Hs1.
  destruct sc1; simplify_eq; try exact Hs1. apply IH in Heq. etrans; [exact Hs1|exact Heq].
Qed.

Lemma quiet_follower_persistence q n s n' s' :
  Follower.process_persistence q n s = Some (n', s') -> quiet s s'.
Proof.
  revert n s. induction q as [|t q IH]; intros n s; simpl; intros Heq; [by simplify_eq|].
  destruct (Follower.handle_persistence_response t _) as [s1|] eqn:Hs1; [|done]. simpl in Heq.
  apply IH in Heq. etrans; [|exact Heq]. clear Heq. destruct t as [id t c|id]; simpl in Hs1.
  - unfold Follower.handle_vote_persisted in Hs1. quiet_solve.
  - simplify_eq. unfold Follower.handle_log_persisted. quiet_solve.
Qed.

Definition is_truncate (r : LocalQuorumTaskResponseType) : Prop :=
  match r with QR_TruncateLog _ _ _ => True | _ => False end.

(** A truncation keeps votes and the next term. *)
Definition same_votes s s' : Prop :=
  term_votes s' = term_votes s /\ next_term (volatile_server_state s') = next_term (volatile_server_state s).

Lemma truncate_log_votes t i s : same_votes s (truncate_log t i s).
Proof.
  unfold truncate_log, persistence_send, send. case_decide; [|done]. simpl. by destruct (chan_open _).
Qed.

Lemma follower_quorum_votes q n s : same_votes s (Follower.process_quorum q n s).2.
Proof.
  revert n s. induction q as [|t q IH]; intros n s; simpl; [done|].
  match goal with |- same_votes _ (Follower.process_quorum q ?m ?x).2 => destruct (IH m x) as [Hv Hn] end.
  unfold same_votes. rewrite Hv, Hn. destruct t; try done. simpl.
  pose proof (truncate_log_votes prev_term prev_index (s <| quorum_response := q |>)) as Ht. exact Ht.
Qed.

Lemma quiet_follower_quorum q n s :
  Forall (fun r => ~ is_truncate r) q -> quiet s (Follower.process_quorum q n s).2.
Proof.
  intros Hq. revert n s. induction Hq as [|t q Ht Hq IH]; intros n s; simpl; [done|].
  etrans; [|apply IH]. by destruct t; [..|destruct (Ht I)|].
Qed.

End quiet_others.

(** ** Votes *)

Section votes.
Context {CP : Capnp} {B : Type} `{Bus B}.
Implicit Types s : SharedState B.
Implicit Types x : StateMachineExecutorImpl B.

Abbreviation log s := (replication_log (volatile_server_state s)).
Abbreviation next s := (next_term (volatile_server_state s)).

(** What one handler call does to the recorded votes and the next term. *)
Inductive vote_effect s : SharedState B -> Prop :=
| vote_same s' : same_votes s s' -> vote_effect s s'
| vote_next s' : term_votes s' = term_votes s -> 0 <= next s' < 2 ^ 64 -> vote_effect s s'
| vote_granted s' t c : u64 t -> term_votes s !! t = None -> term_votes s' = <[t := c]> (term_votes s) ->
    next s' = (if decide (next s <= t) then t +! 1 else next s) -> vote_effect s s'
| vote_election s' c : term_votes s' = <[next s := c]> (term_votes s) -> next s' = next s +! 1 -> vote_effect s s'.

Lemma vote_effect_same_l s1 s2 s3 : same_votes s1 s2 -> vote_effect s2 s3 -> vote_effect s1 s3.
Proof.
  intros [Hv Hn] [s3' [Hv3 Hn3]|s3' ?|s3' t c ? ? ? Hn3|s3' c ? Hn3].
  - apply vote_same. split; congruence.
  - apply vote_next; congruence.
  - eapply (vote_granted _ _ t c); try congruence. by rewrite Hn3, Hn.
  - eapply (vote_election _ _ c); congruence.
Qed.

Lemma vote_effect_same_r s1 s2 s3 : vote_effect s1 s2 -> same_votes s2 s3 -> vote_effect s1 s3.
Proof.
  intros [s2' [Hv2 Hn2]|s2' ?|s2' t c ? ? ? Hn2|s2' c ? Hn2] [Hv Hn].
  - apply vote_same. split; congruence.
  - apply vote_next; [congruence|by rewrite Hn].
  - eapply (vote_granted _ _ t c); congruence.
  - eapply (vote_election _ _ c); congruence.
Qed.

Lemma hushed_same_votes s s' : hushed s s' -> same_votes s s'.
Proof. by intros (? & _ & ? & _). Qed.

Lemma grows_same_votes s s' : grows s s' -> same_votes s s'.
Proof. by intros (? & _ & ?). Qed.

Lemma observe_votes t s : u64 t -> 0 <= next s < 2 ^ 64 -> vote_effect s (observe_vote_term t s).
Proof.
  intros Ht Hn. unfold observe_vote_term. case_decide; [|by apply vote_same]. apply vote_next; [done|]. apply u64_add_range.
Qed.

Lemma should_accept_vote_fresh t lt li s : should_accept_vote t lt li s = true -> term_votes s !! t = None.
Proof. unfold should_accept_vote. by destruct (term_votes s !! t). Qed.

Lemma observe_term_votes t s : term_votes (observe_vote_term t s) = term_votes s.
Proof. unfold observe_vote_term. by case_decide. Qed.

Lemma observe_next t s : next (observe_vote_term t s) = if decide (next s <= t) then t +! 1 else next s.
Proof. unfold observe_vote_term. by case_decide. Qed.

(** The part [request_vote] of the leader and of the candidate share. *)
Lemma leader_request_vote_effect r cb d s :
  u64 (rv_term r) -> 0 <= next s < 2 ^ 64 -> vote_effect s (Leader.request_vote r cb d s).2.
Proof.
  intros Ht Hn. unfold Leader.request_vote. destruct (should_accept_vote _ _ _ _) eqn:Ha; simpl.
  - apply should_accept_vote_fresh in Ha. rewrite observe_term_votes in Ha.
    destruct (persistence_send _ _) as [s1|] eqn:Hp; simpl.
    + apply persistence_send_Some in Hp as [_ ->]. eapply (vote_granted _ _ (rv_term r)); [done..| |]; simpl.
      * by rewrite observe_term_votes.
      * apply observe_next.
    + eapply vote_effect_same_r; [by apply (observe_votes (rv_term r))|].
      rewrite callback_send_ok_eq. split; reflexivity.
  - eapply vote_effect_same_r; [by apply (observe_votes (rv_term r))|].
      rewrite callback_send_ok_eq. split; reflexivity.
Qed.

Lemma candidate_request_vote_effect r cb d s :
  u64 (rv_term r) -> 0 <= next s < 2 ^ 64 -> vote_effect s (Candidate.request_vote r cb d s).2.
Proof.
  pose proof (leader_request_vote_effect r cb (mkRaftLeaderStateDelegate 0 false) s) as Hl.
  unfold Leader.request_vote, Candidate.request_vote in *.
  destruct (negb _); [exact Hl|]. destruct (persistence_send _ _); exact Hl.
Qed.

Lemma follower_request_vote_effect r cb d s sc d' s' :
  Follower.request_vote r cb d s = Some (sc, d', s') ->
  u64 (rv_term r) -> 0 <= next s < 2 ^ 64 -> vote_effect s s'.
Proof.
  intros Heq Ht Hn. unfold Follower.request_vote in Heq. destruct (negb _).
  - destruct (callback_send _ _ _) as [s1|] eqn:Hc; [|done]. simpl in Heq. simplify_eq.
    apply callback_send_Some in Hc as ->. eapply vote_effect_same_r; [by apply (observe_votes (rv_term r))|split; reflexivity].
  - simplify_eq. eapply vote_effect_same_r; [by apply (observe_votes (rv_term r))|split; reflexivity].
Qed.

Lemma election_effect env now d s : vote_effect s (start_election env now d s).2.
Proof.
  unfold start_election, persistence_send, send. simpl.
  destruct (chan_open _); simpl; eapply (vote_election _ _ (identity s)); reflexivity.
Qed.

Lemma election_log env now d s : log (start_election env now d s).2 = log s.
Proof. unfold start_election, persistence_send, send. simpl. by destruct (chan_open _). Qed.

Lemma grows_apply_log_entry r cb s : grows s (apply_log_entry r cb s).
Proof.
  unfold apply_log_entry.
  destruct (note_received_entry _ _) as [data s1] eqn:Hn. assert (Hs1 : grows s s1).
  { unfold note_received_entry in Hn. destruct (a_entry r); [|by simplify_eq]. simpl in Hn.
    injection Hn as _ <-. case_decide; split_and!; reflexivity. }
  destruct (from_bytes data) as [e|]; [destruct (persistence_send _ _) as [s2|] eqn:Hp|].
  - etrans; [exact Hs1|]. apply persistence_send_Some in Hp as [_ ->].
    case_decide; [|unfold grows; simpl; split_and!; [done|by exists [e]|done]].
    match goal with |- context [update_commit_index ?n ?x] =>
      destruct (update_commit_index_frame n x) as (b & w & c & d & ->) end.
    unfold grows; simpl; split_and!; [done|by exists [e]|done].
  - etrans; [exact Hs1|]. apply quiet_grows, quiet_callback_send_ok.
  - etrans; [exact Hs1|]. apply quiet_grows, quiet_callback_send_ok.
Qed.

Lemma quiet_heartbeat env r cb s timer : quiet s (handle_heartbeat env r cb s timer).1.
Proof.
  unfold handle_heartbeat. case_decide; simpl; [apply quiet_callback_send_ok|].
  etrans; [|apply quiet_callback_send_ok]. case_decide; [|done].
  destruct (update_commit_index_frame (a_commit_index r) s) as (b & w & c & d & ->). done.
Qed.

(** Appends keep the recorded votes and never remove an entry of the log. *)
Definition append_effect s s' : Prop := vote_effect s s' /\ log s `prefix_of` log s'.

Lemma append_effect_next s t s' :
  term_votes s' = term_votes s -> log s `prefix_of` log s' -> next s' = t +! 1 -> append_effect s s'.
Proof. intros Hv Hl Hn. split; [|done]. apply vote_next; [done|]. rewrite Hn. apply u64_add_range. Qed.

Lemma grows_append_effect s s' : grows s s' -> append_effect s s'.
Proof. intros Hg. split; [by apply vote_same, grows_same_votes|apply Hg]. Qed.

Lemma follower_append_effect env r cb d s : append_effect s (Follower.append_entries env r cb d s).2.
Proof.
  unfold Follower.append_entries. case_decide.
  - unfold Follower.handle_new_leader.
    match goal with |- context [apply_log_entry r cb ?x] => set (s1 := x) end.
    destruct (validate_append_entries _ _ _); [destruct (a_entry r)|]; simpl;
      (apply (append_effect_next _ (a_term r)); [|simpl..]).
    all: rewrite ?callback_send_ok_eq; try reflexivity.
    all: pose proof (grows_apply_log_entry r cb s1) as (Hv & Hl & Hn); assumption.
  - case_decide; [case_decide; [|destruct (negb _)]|]; simpl.
    + pose proof (quiet_heartbeat env r cb s (election_timer d)) as Hq.
      destruct (handle_heartbeat _ _ _ _ _). by apply grows_append_effect, quiet_grows.
    + apply grows_append_effect, quiet_grows, quiet_callback_send_ok.
    + apply grows_append_effect, grows_apply_log_entry.
    + apply grows_append_effect, quiet_grows, quiet_callback_send_ok.
Qed.

Lemma candidate_append_effect env r cb d s : append_effect s (Candidate.append_entries env r cb d s).2.
Proof.
  unfold Candidate.append_entries. case_decide; simpl.
  - apply (append_effect_next _ (a_term r)); case_decide; by rewrite callback_send_ok_eq.
  - apply grows_append_effect, quiet_grows, quiet_callback_send_ok.
Qed.

Lemma leader_append_effect env r cb d s : append_effect s (Leader.append_entries env r cb d s).2.
Proof.
  unfold Leader.append_entries, Leader.handle_new_leader. case_decide; simpl.
  - apply (append_effect_next _ (a_term r)); case_decide; by rewrite callback_send_ok_eq.
  - apply grows_append_effect, quiet_grows, quiet_callback_send_ok.
Qed.

Lemma follower_persistence_keeps_quorum q n s n' s' :
  Follower.process_persistence q n s = Some (n', s') -> quorum_response s' = quorum_response s.
Proof.
  revert n s. induction q as [|t q IH]; intros n s; simpl; intros Heq; [by simplify_eq|].
  destruct (Follower.handle_persistence_response t _) as [s1|] eqn:Hs1; [|done]. simpl in Heq.
  apply IH in Heq. rewrite Heq. clear Heq IH. destruct t as [id t c|id]; simpl in Hs1.
  - unfold Follower.handle_vote_persisted in Hs1.
    repeat (case_match; simplify_eq/=; try done). by apply callback_send_Some in Hs1 as ->.
  - simplify_eq. unfold Follower.handle_log_persisted. repeat (case_match; simplify_eq/=; try done).
    by rewrite callback_send_ok_eq.
Qed.

Lemma follower_time_step_effect env d s sc n d' s' :
  Follower.time_step env d s = Some (sc, n, d', s') ->
  same_votes s s' /\ (Forall (fun r => ~ is_truncate r) (quorum_response s) -> quiet s s').
Proof.
  unfold Follower.time_step. destruct (Follower.process_persistence _ _ _) as [[w s1]|] eqn:H1; [|done]. simpl.
  pose proof (follower_persistence_keeps_quorum _ _ _ _ _ H1) as Hq. apply quiet_follower_persistence in H1.
  pose proof (follower_quorum_votes (quorum_response s1) w s1) as [Hv Hn].
  pose proof (quiet_follower_quorum (quorum_response s1) w s1) as H2.
  destruct (Follower.process_quorum _ _ _) as [w2 s2]. simpl in *.
  pose proof (quiet_retry_deferred s2) as H3. destruct (retry_deferred_broadcast s2) as [w3 s3]. simpl in *.
  intros Heq. assert (s' = s3) as -> by (destruct (check_timeout _ _); by simplify_eq).
  pose proof (hushed_same_votes _ _ (quiet_hushed _ _ H1)) as [? ?].
  pose proof (hushed_same_votes _ _ (quiet_hushed _ _ H3)) as [? ?]. split; [split; congruence|].
  intros Hnt. rewrite Hq in H2. etrans; [exact H1|]. etrans; [exact (H2 Hnt)|exact H3].
Qed.

Lemma candidate_time_step_effect env d s sc n d' s' :
  Candidate.time_step env d s = Some (sc, n, d', s') -> append_effect s s'.
Proof.
  unfold Candidate.time_step.
  destruct (Candidate.process_persistence _ _ _ _) as [[[sc1 w1] s1]|] eqn:H1; [|done]. cbn [mbind option_bind].
  apply hushed_candidate_persistence in H1.
  destruct sc1; [|intros ?; simplify_eq; by apply grows_append_effect, hushed_grows..].
  destruct (Candidate.process_quorum _ _ _ _) as [[[sc2 w2] s2]|] eqn:H2; [|done]. cbn [mbind option_bind].
  apply hushed_candidate_quorum in H2. assert (H02 : hushed s s2) by by etrans.
  destruct sc2; [|intros ?; simplify_eq; by apply grows_append_effect, hushed_grows..].
  set (r := if timeout_expired _ _ then _ else _). assert (He : append_effect s2 r.2).
  { unfold r. destruct (timeout_expired _ _); [|by apply grows_append_effect].
    pose proof (election_effect env (clock env 0%nat) d s2) as Hv.
    pose proof (election_log env (clock env 0%nat) d s2) as Hl.
    destruct (start_election _ _ _ _) as [d3 s3]. cbn [snd] in *. split; [exact Hv|]. by rewrite Hl. }
  destruct r as [[w3 d3] s3]. simpl in He. pose proof (quiet_retry_deferred s3) as H4.
  destruct (retry_deferred_broadcast s3) as [w4 s4]. intros ?; simplify_eq. simpl in H4.
  destruct He as [Hv Hl]. split.
  - eapply vote_effect_same_l; [by apply hushed_same_votes|].
    eapply vote_effect_same_r; [exact Hv|by apply hushed_same_votes, quiet_hushed].
  - destruct H02 as (_ & <- & _), H4 as [(_ & -> & _) _]. exact Hl.
Qed.

(** Requests for votes leave the log alone. *)
Lemma request_vote_log r cb s :
  (forall d, log (Leader.request_vote r cb d s).2 = log s) /\
  (forall d, log (Candidate.request_vote r cb d s).2 = log s) /\
  (forall d sc d' s', Follower.request_vote r cb d s = Some (sc, d', s') -> log s' = log s).
Proof.
  assert (Ho : log (observe_vote_term (rv_term r) s) = log s) by (unfold observe_vote_term; by case_decide).
  unfold Leader.request_vote, Candidate.request_vote, Follower.request_vote.
  destruct (negb _); simpl; split_and!; intros.
  1,2: by rewrite callback_send_ok_eq.
  - destruct (callback_send _ _ _) as [s1|] eqn:Hc; [|done]. simplify_eq/=. by apply callback_send_Some in Hc as ->.
  - destruct (persistence_send _ _) as [s1|] eqn:Hp; simpl; [|by rewrite callback_send_ok_eq].
    by apply persistence_send_Some in Hp as [_ ->].
  - destruct (persistence_send _ _) as [s1|] eqn:Hp; simpl; [|by rewrite callback_send_ok_eq].
    by apply persistence_send_Some in Hp as [_ ->].
  - by simplify_eq/=.
Qed.

(** Every step of a node, on the votes and on the log. *)
Definition step_effect x x' : Prop :=
  vote_effect (shared_state x) (shared_state x') /\
  ((forall d, state_delegate x = D_Follower d ->
      Forall (fun r => ~ is_truncate r) (quorum_response (shared_state x))) ->
   log (shared_state x) `prefix_of` log (shared_state x')).

Lemma append_step_effect x d s' :
  append_effect (shared_state x) s' -> step_effect x (mkStateMachineExecutorImpl d s').
Proof. by intros [? ?]. Qed.

Lemma time_step_effect env x n x' : Executor.time_step env x = Some (n, x') -> step_effect x x'.
Proof.
  destruct x as [[d|d|d] s]; unfold Executor.time_step, delegate_time_step; simpl.
  - destruct (Follower.time_step env d s) as [[[[sc w] d1] s1]|] eqn:Ht; [|done]. simpl. intros ?; simplify_eq.
    apply follower_time_step_effect in Ht as [Hv Hq]. split; simpl; [by apply vote_same|].
    intros Hnt. destruct (Hq (Hnt d eq_refl)) as [(_ & -> & _) _]. done.
  - destruct (Candidate.time_step env d s) as [[[[sc w] d1] s1]|] eqn:Ht; [|done]. simpl. intros ?; simplify_eq.
    apply append_step_effect. by eapply candidate_time_step_effect.
  - destruct (Leader.time_step env d s) as [[[[sc w] d1] s1]|] eqn:Ht; [|done]. simpl. intros ?; simplify_eq.
    apply append_step_effect, grows_append_effect. by eapply grows_leader_time_step.
Qed.

Lemma non_leader_write_effect m d x x' msg :
  (let* p := write_batch_response msg in
   Some (mkStateMachineExecutorImpl d (callback_send_ok (lrm_callback m) p (shared_state x)))) = Some x' ->
  step_effect x x'.
Proof.
  destruct (write_batch_response _) as [p|]; [|done]. simpl. intros ?; simplify_eq.
  apply append_step_effect, grows_append_effect, quiet_grows, quiet_callback_send_ok.
Qed.

Lemma accept_effect env m x x' :
  typed_message m -> 0 <= next (shared_state x) < 2 ^ 64 -> accept env m x = Some x' -> step_effect x x'.
Proof.
  intros Hm Hn. destruct m as [[r|r| |b] cb]; unfold typed_message in Hm; simpl in Hm;
    unfold accept, delegate_accept; simpl.
  - destruct Hm as [Hm _]. destruct (request_vote_log r cb (shared_state x)) as (Hll & Hlc & Hlf).
    destruct (state_delegate x) as [d|d|d] eqn:Hd.
    + destruct (Follower.request_vote r cb d _) as [[[sc d1] s1]|] eqn:Hr; [|done]. simpl. intros ?; simplify_eq.
      apply append_step_effect. split; [by eapply follower_request_vote_effect|].
      by rewrite (Hlf _ _ _ _ Hr).
    + pose proof (candidate_request_vote_effect r cb d _ Hm Hn) as Hv. specialize (Hlc d). simpl.
      destruct (Candidate.request_vote r cb d _) as [[sc d1] s1]. simpl in *. intros ?; simplify_eq.
      apply append_step_effect. split; [done|]. by rewrite Hlc.
    + pose proof (leader_request_vote_effect r cb d _ Hm Hn) as Hv. specialize (Hll d). simpl.
      destruct (Leader.request_vote r cb d _) as [[sc d1] s1]. simpl in *. intros ?; simplify_eq.
      apply append_step_effect. split; [done|]. by rewrite Hll.
  - destruct (state_delegate x) as [d|d|d].
    + pose proof (follower_append_effect env r cb d (shared_state x)) as Hv. simpl.
      destruct (Follower.append_entries env r cb d _) as [[sc d1] s1]. intros ?; simplify_eq. by apply append_step_effect.
    + pose proof (candidate_append_effect env r cb d (shared_state x)) as Hv. simpl.
      destruct (Candidate.append_entries env r cb d _) as [[sc d1] s1]. intros ?; simplify_eq. by apply append_step_effect.
    + pose proof (leader_append_effect env r cb d (shared_state x)) as Hv. simpl.
      destruct (Leader.append_entries env r cb d _) as [[sc d1] s1]. intros ?; simplify_eq. by apply append_step_effect.
  - destruct (state_delegate x); intros ?; simplify_eq;
      apply append_step_effect, grows_append_effect, quiet_grows, quiet_callback_send_ok.
  - destruct (state_delegate x) as [d|d|d]; simpl; [apply (non_leader_write_effect (mkLocalRaftMessage RM_GetRaftState cb))..|].
    destruct (write_batch env b cb _) as [s1|] eqn:Hw; [|done]. simpl. intros ?; simplify_eq.
    apply append_step_effect, grows_append_effect. by eapply grows_write_batch.
Qed.

Lemma step_has_effect x x' : 0 <= next (shared_state x) < 2 ^ 64 -> step x x' -> step_effect x x'.
Proof.
  intros Hn. destruct 1; [by eapply time_step_effect|by eapply accept_effect|..];
    apply append_step_effect; (split; [by apply vote_same|]); simpl; done.
Qed.

(** Every term the node voted in is below the next term it would propose. *)
Definition votes_inv s : Prop :=
  0 < next s < 2 ^ 64 /\ forall t c, term_votes s !! t = Some c -> t < next s.

(** C16: No step of a node, in whatever role, changes or forgets a vote it has recorded, as
    long as every voted term is below the next term; and a step that does not lower the next
    term keeps it that way. *)
Theorem step_keeps_recorded_votes x x' :
  votes_inv (shared_state x) -> step x x' ->
  term_votes (shared_state x) ⊆ term_votes (shared_state x') /\
  (next (shared_state x) <= next (shared_state x') -> votes_inv (shared_state x')).
Proof.
  intros [Hn Hv] Hs. destruct (step_has_effect x x' ltac:(lia) Hs) as [He _]. revert Hn Hv He. clear Hs.
  generalize (shared_state x), (shared_state x'). intros s s' Hn Hv He. unfold votes_inv, u64 in *.
  destruct He as [s' [Hv' Hn']|s' Hv' Hn'|s' t c Ht Hfresh Hv' Hn'|s' c Hv' Hn']; rewrite Hv'.
  - rewrite Hn'. done.
  - split; [done|]. intros Hle. split; [lia|]. intros t c Htc%Hv. lia.
  - unfold u64 in Ht. split; [by apply insert_subseteq|]. rewrite Hn'. unfold u64_add. case_decide; intros Hle.
    + destruct (decide (t + 1 = 2 ^ 64)) as [Heq|]; [rewrite Heq, Z_mod_same_full in Hle; lia|].
      rewrite Z.mod_small by lia. split; [lia|]. intros t' c'. rewrite lookup_insert_Some.
      intros [[<- _]|[_ Htc%Hv]]; lia.
    + split; [lia|]. intros t' c'. rewrite lookup_insert_Some. intros [[<- _]|[_ Htc%Hv]]; lia.
  - split; [apply insert_subseteq|].
    { destruct (term_votes s !! next s) as [c'|] eqn:Hl; [|done]. apply Hv in Hl. lia. }
    rewrite Hn'. unfold u64_add. intros Hle.
    destruct (decide (next s + 1 = 2 ^ 64)) as [Heq|]; [rewrite Heq, Z_mod_same_full in Hle; lia|].
    rewrite Z.mod_small by lia. split; [lia|]. intros t' c'. rewrite lookup_insert_Some.
    intros [[<- _]|[_ Htc%Hv]]; lia.
Qed.

(** C15: The log of a node only grows, whatever role it has and whatever happens: no step
    removes or replaces an entry, except a time step of a follower that has a truncate
    signal in its queue.  In particular a leader never changes what it has appended. *)
Theorem log_only_grows x x' :
  0 <= next (shared_state x) < 2 ^ 64 -> step x x' ->
  (forall d, state_delegate x = D_Follower d ->
     Forall (fun r => ~ is_truncate r) (quorum_response (shared_state x))) ->
  log (shared_state x) `prefix_of` log (shared_state x').
Proof. intros Hn Hs. by destruct (step_has_effect x x' Hn Hs). Qed.

End votes.

(** ** Writes outside the leader *)

Section non_leader.
Context {CP : Capnp} {CL : CapnpLaws} {B : Type} `{Bus B}.
Implicit Types x : StateMachineExecutorImpl B.

(** A node that is not the leader answers a write batch with an error and does nothing
    else: nothing reaches its log, its persistence worker or its quorum workers. *)
Theorem non_leader_rejects_writes env b cb x :
  (forall d, state_delegate x <> D_Leader d) ->
  accept env (mkLocalRaftMessage (RM_WriteBatch b) cb) x =
  Some (mkStateMachineExecutorImpl (state_delegate x)
    (shared_state x) <| callbacks ::=
       respond cb (batch_answer (Some "Received write batch as non-leader"%string)) |>).
Proof.
  intros Hd. unfold accept, delegate_accept. simpl.
  destruct (state_delegate x) as [d|d|d]; [..|by destruct (Hd d)];
    rewrite write_batch_response_ok; cbn [mbind option_bind];
    by rewrite callback_send_ok_eq.
Qed.

End non_leader.

(** ** Runs that break the election rules

    Node 1 of a cluster of three, as a script of events. *)

Definition late_env (t : Z) : Env := mkEnv (fun n => t + Z.of_nat n) (fun n => 0).

Definition vote_request (t c : Z) : LocalRaftMessage :=
  mkLocalRaftMessage (RM_RequestVote (mkLocalRequestVoteRequest t c 0 0)) 1%nat.

Definition heartbeat (t leader : Z) : LocalRaftMessage :=
  mkLocalRaftMessage (RM_AppendEntries (mkLocalAppendEntries t leader 0 0 0 None 0)) 2%nat.

(** A node that has just started, as a follower. *)
Definition started_node : StateMachineExecutorImpl ScriptedBus :=
  StateMachineExecutorImpl_new (late_env 0) startup_node.

(** The node times out and, as a candidate, grants node 2 its vote in term 7.  Then a leader
    of term 5 reports; the node follows it, times out and runs for the terms after 5. *)
Definition double_vote_script : list event :=
  [ Ev_Tick (late_env 10000);
    Ev_Message (late_env 10000) (vote_request 7 2);
    Ev_Message (late_env 10000) (heartbeat 5 3);
    Ev_Tick (late_env 20000);
    Ev_Tick (late_env 20001);
    Ev_Tick (late_env 30000) ].

(** A recorded vote can be replaced.  A candidate that voted for node 2 in term 7 and then
    hears from a leader of term 5 sets its next term back to 6; after two timeouts it runs
    for term 7 itself and records, and sends for persistence, a second vote in that term. *)
Theorem lower_term_leader_causes_double_vote :
  exists x1 x2 : StateMachineExecutorImpl ScriptedBus,
    rtc step started_node x1 /\ rtc step x1 x2 /\ votes_inv (shared_state x1) /\
    term_votes (shared_state x1) !! 7 = Some 2 /\ term_votes (shared_state x2) !! 7 = Some 1 /\
    PT_AppendVote 0 7 2 ∈ chan_queue (persistence_work (shared_state x2)) /\
    PT_AppendVote 2 7 1 ∈ chan_queue (persistence_work (shared_state x2)).
Proof.
  pose (x1 := after_events (take 2 double_vote_script) started_node).
  exists x1, (after_events (drop 2 double_vote_script) x1). split_and!.
  - apply after_events_steps; vm_compute; reflexivity.
  - apply after_events_steps; vm_compute; reflexivity.
  - split; [vm_compute; done|]. intros t c. replace (term_votes (shared_state x1)) with ({[7 := 2]} : gmap Z Z) by (vm_compute; reflexivity).
    replace (next_term _) with 8 by (vm_compute; reflexivity). intros [<- _]%lookup_singleton_Some. lia.
  - vm_compute; reflexivity.
  - vm_compute; reflexivity.
  - vm_compute. repeat constructor.
  - vm_compute. repeat constructor.
Qed.

(** The node starts an election for term 1 and persists its own vote; a leader of term 5 is
    heard, the node follows it and times out; only then does the vote of node 2 for term 1
    arrive. *)
Definition stale_election_script : list event :=
  [ Ev_Tick (late_env 10000);
    Ev_Tick (late_env 10001);
    Ev_Persisted (PR_VotePersisted 0 1 1);
    Ev_Tick (late_env 10002);
    Ev_Message (late_env 10003) (heartbeat 5 3);
    Ev_Tick (late_env 20000);
    Ev_Quorum (QR_RequestVoteResponse 0 1 true);
    Ev_Tick (late_env 20001) ].

(** The term of a node can go back.  A vote for an election of term 1 that arrives after
    the node has followed a leader of term 5 still makes it leader, of term 1: outstanding
    elections survive a change of term and are not compared with the current one. *)
Theorem stale_vote_lowers_term :
  exists x1 x2 : StateMachineExecutorImpl ScriptedBus,
    rtc step started_node x1 /\ rtc step x1 x2 /\
    current_term (server_state (shared_state x1)) = 5 /\
    current_term (server_state (shared_state x2)) = 1 /\
    exists d, state_delegate x2 = D_Leader d.
Proof.
  pose (x1 := after_events (take 5 stale_election_script) started_node).
  exists x1, (after_events (drop 5 stale_election_script) x1). split_and!.
  - apply after_events_steps; vm_compute; reflexivity.
  - apply after_events_steps; vm_compute; reflexivity.
  - vm_compute; reflexivity.
  - vm_compute; reflexivity.
  - eexists. vm_compute; reflexivity.
Qed.

(** ** Concrete runs of the step theorems *)

Lemma step_keeps_recorded_votes_witness :
  let x := started_node in
  let x' := after_events [Ev_Tick (late_env 10000)] x in
  term_votes (shared_state x) ⊆ term_votes (shared_state x').
Proof.
  intros x x'. apply (step_keeps_recorded_votes x x').
  - split; [vm_compute; done|]. intros t c Hc.
    change (term_votes (shared_state x)) with (∅ : gmap Z Z) in Hc. by rewrite lookup_empty in Hc.
  - apply (step_time (late_env 10000) x 0). vm_compute. reflexivity.
Defined.

Lemma log_only_grows_witness :
  let x := started_node in
  let x' := after_events [Ev_Tick (late_env 10000)] x in
  replication_log (volatile_server_state (shared_state x)) `prefix_of`
  replication_log (volatile_server_state (shared_state x')).
Proof.
  intros x x'. apply (log_only_grows x x').
  - vm_compute. done.
  - apply (step_time (late_env 10000) x 0). vm_compute. reflexivity.
  - intros d _. constructor.
Defined.

Lemma non_leader_rejects_writes_witness :
  exists x', accept (late_env 0) (mkLocalRaftMessage (RM_WriteBatch (mkOwnedWriteBatch [])) 6%nat) started_node = Some x'.
Proof.
  eexists. apply (non_leader_rejects_writes (late_env 0) (mkOwnedWriteBatch []) 6%nat started_node).
  intros d. vm_compute. done.
Defined.
