(* ===== verification/NodeBroadcast.v ===== *)
(** * What a node broadcasts

    The effect of every handler of the three roles on the commit index, on the entries given
    to the readers of the bus and on the log below the broadcast cursor.  [NodeReads.v]
    composes it with the query worker. *)
From stdpp Require Import strings.
From S2P Require Import Prelude Capnp RaftTypes Bus RaftSm LogModel.
From S2P Require Import Follower FollowerSpec Leader LeaderSpec Candidate Executor Safety.

(** A ring whose reader makes room between two attempts is [patient]. *)
Lemma stutter_bus_patient (b : StutterBus) : patient b.
Proof. intros [l []] e _; reflexivity. Qed.

Section broadcast.
Context {CP : Capnp} {B : Type} `{BusLaws B}.
Implicit Types s : SharedState B.

Abbreviation log s := (replication_log (volatile_server_state s)).
Abbreviation delivered s := (bus_log (log_entry_bus s)).
Abbreviation commit s := (commit_index (volatile_server_state s)).

(** Two loops that end at the commit index or at the end of the log. *)
Lemma when_bus_full_reaches n new start idx s r s' :
  when_bus_full_loop n new start idx s = (r, s') ->
  n = Z.to_nat (new + 1 - idx) -> 0 <= start <= idx -> idx <= Z.min (new + 1) (vlen (log s)) ->
  start < Z.min (new + 1) (vlen (log s)) -> delivered s = vtruncate idx (log s) ->
  patient (log_entry_bus s) -> r + 1 = Z.min (new + 1) (vlen (log s)) /\ delivered s' = vtruncate (r + 1) (log s).
Proof.
  revert idx s. induction n as [|n IH]; intros idx s; cbn [when_bus_full_loop];
    intros Heq Hn Hstart Hidx Hlt Hd Hp.
  { simplify_eq. assert (idx = r + 1) as -> by lia. split; [lia|done]. }
  destruct (vget (log s) idx) as [e|] eqn:Hget.
  - pose proof (vget_lt _ _ _ Hget).
    pose proof (retry_broadcast_refuses MAX_RETRIES_PER_ENTRY 0 e s eq_refl) as Hok. rewrite (Hp _ e (rtc_refl _ _)) in Hok.
    pose proof (retry_broadcast_offers MAX_RETRIES_PER_ENTRY 0 e s) as Ho.
    destruct (retry_broadcast MAX_RETRIES_PER_ENTRY 0 e s) as [ok s1] eqn:Hr. simpl in Hok, Ho. subst ok.
    apply retry_broadcast_spec in Hr as (Hl & Hd1 & _).
    apply IH in Heq; rewrite ?Hl in *; try lia; [done| |by eapply patient_offers].
    rewrite Hd1, Hd. by rewrite vtruncate_S with (x := e).
  - apply vget_None in Hget; [|lia]. assert (idx = vlen (log s)) as -> by lia.
    rewrite decide_True in Heq by lia. simplify_eq. rewrite Z.sub_add. split; [lia|done].
Qed.

Lemma broadcast_loop_past n new i last s :
  vlen (log s) <= i -> broadcast_loop n new i last s = (last, s).
Proof.
  pose proof (vlen_nonneg (log s)). revert i. induction n as [|n IH]; intros i Hi; simpl; [done|].
  rewrite (proj2 (vget_None (log s) i ltac:(lia)) Hi). apply IH. lia.
Qed.

Lemma broadcast_loop_reaches n new i last s r s' :
  broadcast_loop n new i last s = (r, s') ->
  n = Z.to_nat (new + 1 - i) -> 0 <= i <= Z.min (new + 1) (vlen (log s)) ->
  (i < Z.min (new + 1) (vlen (log s)) \/ last = i - 1) -> delivered s = vtruncate i (log s) ->
  patient (log_entry_bus s) ->
  r + 1 = Z.min (new + 1) (vlen (log s)) /\ delivered s' = vtruncate (r + 1) (log s).
Proof.
  revert i last s. induction n as [|n IH]; intros i last s; cbn [broadcast_loop];
    intros Heq Hn Hi Hlast Hd Hp.
  { simplify_eq. assert (i = r + 1) as -> by lia. split; [lia|done]. }
  destruct (vget (log s) i) as [e|] eqn:Hget.
  - pose proof (vget_lt _ _ _ Hget). destruct (bus_try e s) as [ok s1] eqn:Htry.
    pose proof (patient_offers _ _ (bus_try_offers _ _ _ _ Htry) Hp) as Hp1. apply bus_try_spec in Htry as (Hv & Hd1 & _). assert (log s1 = log s) as Hl by by rewrite Hv. destruct ok.
    + apply IH in Heq; rewrite ?Hl in *; try lia; [done| |exact Hp1]. rewrite Hd1, Hd. by rewrite vtruncate_S with (x := e).
    + rewrite app_nil_r in Hd1. unfold broadcast_committed_entries_when_bus_full in Heq.
      apply when_bus_full_reaches in Heq; simpl in *; rewrite ?Hl, ?Hd1 in *; try done; lia.
  - apply vget_None in Hget; [|lia]. rewrite broadcast_loop_past in Heq by lia. simplify_eq.
    split; [lia|]. rewrite Hd. f_equal. lia.
Qed.

(** ** The invariant *)

(** The readers have the log below the cursor, which is not beyond the commit index, and the
    query workers see that commit index. *)
Definition reads_inv s : Prop :=
  broadcast_inv s /\ broadcast_count s <= commit s + 1 /\
  cs_commit_index (commit_state (volatile_server_state s)) = commit s.

(** Later states: the log keeps what was broadcast, and commit index and broadcast go on. *)
Definition later s s' : Prop :=
  delivered s `prefix_of` delivered s' /\ commit s <= commit s' /\ offers_only s s'.

#[export] Instance later_preorder : PreOrder later.
Proof. split; [intros s; unfold later; by split_and!|]. intros s1 s2 s3 (? & ? & ?) (? & ? & ?). split_and!; [by etrans|lia|by etrans]. Qed.

(** A broadcast with a start inside the log or nothing to do. *)
Lemma broadcast_reaches new s :
  broadcast_inv s -> patient (log_entry_bus s) -> new < broadcast_count s \/ broadcast_count s < vlen (log s) ->
  let s' := broadcast_committed_entries new s in
  broadcast_inv s' /\ broadcast_count s' <= Z.max (broadcast_count s) (new + 1) /\
  delivered s `prefix_of` delivered s' /\
  (broadcast_count s <= new -> broadcast_count s' = Z.min (new + 1) (vlen (log s))).
Proof.
  intros Hinv Hp Hcase. pose proof (broadcast_start_count s Hinv) as Hstart. pose proof Hinv as (Hc & Hlen & Hd).
  unfold broadcast_committed_entries. rewrite Hstart. case_decide; [split_and!; [done|lia|done|lia]|].
  match goal with |- context [broadcast_loop ?n ?c ?i ?l s] =>
    pose proof (broadcast_loop_frame n c i l s) as (? & ? & ? & ? & Hf);
    destruct (broadcast_loop n c i l s) as [last s1] eqn:Hloop end.
  assert (log s1 = log s) as Hl by (simpl in Hf; by rewrite Hf).
  eapply broadcast_loop_reaches in Hloop as (Hr & Hdk); [|done|lia|lia|done|done].
  match goal with |- broadcast_inv ?x /\ _ => set (s' := x) end. assert (broadcast_count s' = last + 1) as Hc' by done.
  assert (log s' = log s) as Hl' by exact Hl. assert (delivered s' = delivered s1) as Hd' by done. clearbody s'.
  unfold broadcast_inv. rewrite Hc', Hl', Hd', Hdk, Hd. split_and!; [lia..|done|lia| |lia].
  apply vtruncate_mono. lia.
Qed.

End broadcast.

(** ** Handlers that broadcast nothing *)

Section mute.
Context {CP : Capnp} {B : Type} `{Bus B}.
Implicit Types s : SharedState B.

Abbreviation log s := (replication_log (volatile_server_state s)).

(** What a broadcast reads and changes besides the log. *)
Definition cursor s : B * option Z * Z * Z :=
  let v := volatile_server_state s in
  (log_entry_bus s, last_broadcast_index v, commit_index v, cs_commit_index (commit_state v)).

(** Bus, cursor and commit index stay, and the log only grows. *)
Definition mute s s' : Prop := cursor s' = cursor s /\ log s `prefix_of` log s'.

#[export] Instance mute_preorder : PreOrder mute.
Proof. split; [by split|]. intros s1 s2 s3 [? ?] [? ?]. split; [congruence|by etrans]. Qed.

Lemma mute_callback cb p s : mute s (callback_send_ok cb p s).
Proof. by rewrite callback_send_ok_eq. Qed.

Lemma mute_callback_send cb p s s' : callback_send cb p s = Some s' -> mute s s'.
Proof. by intros ->%callback_send_Some. Qed.

Lemma mute_send t s s' : persistence_send t s = Some s' -> mute s s'.
Proof. by intros [_ ->]%persistence_send_Some. Qed.

Lemma mute_send_default t s : mute s (default s (persistence_send t s)).
Proof. destruct (persistence_send t s) as [s'|] eqn:Hs; [by apply mute_send in Hs|done]. Qed.

End mute.

(** Proves [mute] for the result of a handler by following its case analysis. *)
Ltac mute_step :=
  match goal with
  | |- mute ?s ?s => reflexivity
  | H : Some _ = Some _ |- _ => injection H as H; subst
  | H : (_, _) = (_, _) |- _ => injection H as H; subst
  | H : None = Some _ |- _ => discriminate H
  | H : callback_send _ _ _ = Some _ |- mute _ _ =>
      apply mute_callback_send in H; etrans; [|exact H]; clear H
  | H : persistence_send _ _ = Some _ |- mute _ _ => apply mute_send in H; etrans; [|exact H]; clear H
  | |- mute _ (callback_send_ok _ _ _) => etrans; [|apply mute_callback]
  | H : mbind _ ?x = Some _ |- _ => destruct x eqn:?; cbn [mbind option_bind] in H
  | H : context [match ?x with _ => _ end] |- _ =>
      lazymatch type of H with _ = Some _ => destruct x eqn:?; simpl in H end
  | |- mute _ ?x => match x with context [match ?x with _ => _ end] => destruct x eqn:?; simpl end
  end.

Ltac mute_solve := repeat mute_step; by (split; [|reflexivity]).

Section mute_handlers.
Context {CP : Capnp} {B : Type} `{Bus B}.
Implicit Types s : SharedState B.

Abbreviation log s := (replication_log (volatile_server_state s)).

(** *** Candidate *)

Lemma mute_candidate_vote_persisted env id t s : mute s (Candidate.handle_vote_persisted env id t s).2.
Proof. unfold Candidate.handle_vote_persisted, become_leader. mute_solve. Qed.

Lemma mute_candidate_persistence env q n s sc n' s' :
  Candidate.process_persistence env q n s = Some (sc, n', s') -> mute s s'.
Proof.
  revert n s. induction q as [|t q IH]; intros n s; simpl; intros Heq; [by simplify_eq|].
  destruct t as [id t c|id].
  - pose proof (mute_candidate_vote_persisted env id t (s <| persistence_response := q |>)) as Hq.
    destruct (Candidate.handle_vote_persisted _ _ _ _) as [[] s1]; simplify_eq; try exact Hq.
    apply IH in Heq. etrans; [exact Hq|exact Heq].
  - destruct (Candidate.handle_log_persisted _ _) as [s1|] eqn:Hs1; [|done]. simpl in Heq. apply IH in Heq.
    etrans; [|exact Heq]. clear Heq. unfold Candidate.handle_log_persisted in Hs1. mute_solve.
Qed.

Lemma mute_candidate_quorum env q n s sc n' s' :
  Candidate.process_quorum env q n s = Some (sc, n', s') -> mute s s'.
Proof.
  revert n s. induction q as [|t q IH]; intros n s; simpl; intros Heq; [by simplify_eq|].
  destruct t; try by (apply IH in Heq; etrans; [|exact Heq]).
  destruct (handle_vote_response _ _ _ _ _) as [[sc1 s1]|] eqn:Hs1; [|done]. simpl in Heq.
  assert (mute s s1) as Hm by (clear Heq IH; unfold handle_vote_response, become_leader in Hs1; mute_solve).
  destruct sc1; simplify_eq; try exact Hm. apply IH in Heq. by etrans.
Qed.

Lemma mute_start_election env now d s : mute s (start_election env now d s).2.
Proof.
  unfold start_election. simpl.
  match goal with |- context [default ?x (persistence_send ?t ?x)] =>
    etrans; [|etrans; [apply (mute_send_default t x)|]]; by split end.
Qed.

Lemma mute_candidate_append env r cb d s :
  let '(sc, d', s') := Candidate.append_entries env r cb d s in mute s s'.
Proof. unfold Candidate.append_entries. case_decide; simpl; mute_solve. Qed.

(** *** Votes *)

Lemma mute_observe t s : mute s (observe_vote_term t s).
Proof. unfold observe_vote_term. by case_decide. Qed.

Lemma mute_candidate_request_vote r cb d s :
  let '(sc, d', s') := Candidate.request_vote r cb d s in mute s s'.
Proof.
  unfold Candidate.request_vote. destruct (negb _).
  - etrans; [apply (mute_observe (rv_term r))|apply mute_callback].
  - destruct (persistence_send _ _) as [s1|] eqn:Hp; (etrans; [apply (mute_observe (rv_term r))|]);
      [|apply mute_callback]. apply mute_send in Hp. exact Hp.
Qed.

Lemma mute_leader_request_vote r cb d s :
  let '(sc, d', s') := Leader.request_vote r cb d s in mute s s'.
Proof.
  pose proof (mute_candidate_request_vote r cb (RaftCandidateStateDelegate_new) s) as Hc.
  unfold Leader.request_vote, Candidate.request_vote in *.
  by destruct (negb _); [|destruct (persistence_send _ _)].
Qed.

Lemma mute_follower_request_vote r cb d s sc d' s' :
  Follower.request_vote r cb d s = Some (sc, d', s') -> mute s s'.
Proof.
  pose proof (mute_observe (rv_term r) s) as Ho. unfold Follower.request_vote. destruct (negb _).
  - destruct (callback_send _ _ _) as [s1|] eqn:Hc; [|done]. simpl. intros ?; simplify_eq.
    etrans; [exact Ho|by apply mute_callback_send in Hc].
  - intros ?; simplify_eq. exact Ho.
Qed.

(** *** Leader *)

Lemma mute_leader_append env r cb d s :
  let '(sc, d', s') := Leader.append_entries env r cb d s in mute s s'.
Proof. unfold Leader.append_entries, Leader.handle_new_leader. case_decide; simpl; mute_solve. Qed.

Lemma mute_push_entry e s : mute s (push_entry e s).
Proof. unfold push_entry. case_decide; (split; [done|]; simpl; by exists [e]). Qed.

Lemma mute_create_batch env msg idx id s e s' :
  create_and_append_log_entry env msg idx id s = Some (e, s') -> mute s s'.
Proof.
  unfold create_and_append_log_entry. destruct (mjoin _) as [e'|]; [|done]. simpl. intros ?; simplify_eq.
  apply mute_push_entry.
Qed.

Lemma mute_create_noop env idx id s e s' :
  create_and_append_noop_entry env idx id s = Some (e, s') -> mute s s'.
Proof.
  unfold create_and_append_noop_entry. destruct (build_owned_log_entry _) as [e'|]; [|done]. simpl.
  intros ?; simplify_eq. apply mute_push_entry.
Qed.

Lemma mute_send_error msg cb s s' : send_error_response msg cb s = Some s' -> mute s s'.
Proof. unfold send_error_response. intros Heq. mute_solve. Qed.

Lemma mute_write_batch env msg cb s s' : write_batch env msg cb s = Some s' -> mute s s'.
Proof.
  unfold write_batch. destruct (validate_write_batch msg); [intros Hs%mute_send_error; exact Hs|].
  destruct (create_and_append_log_entry _ _ _ _ _) as [[e s1]|] eqn:Hc; [|done]. apply mute_create_batch in Hc.
  simpl. unfold queue_persistence_task. destruct (persistence_send _ s1) as [s2|] eqn:Hp.
  - intros ?; simplify_eq. apply persistence_send_Some in Hp as [_ ->]. exact Hc.
  - intros Hs%mute_send_error. by etrans; [exact Hc|].
Qed.

Lemma mute_backfills rs s s' : handle_backfill_requests rs s = Some s' -> mute s s'.
Proof.
  revert s. induction rs as [|[[node t] i] rs IH]; intros s; simpl; intros Heq; [by simplify_eq|].
  destruct (handle_backfill_request node t i s) as [s1|] eqn:Hs1; [|done]. simpl in Heq.
  etrans; [|by apply IH]. clear Heq IH.
  unfold handle_backfill_request, handle_follower_ahead, handle_term_mismatch, send_backfill_data,
    send_truncate_signal in Hs1. mute_solve.
Qed.

Lemma mute_leader_vote_persisted id s : mute s (Leader.handle_vote_persisted id s).
Proof. unfold Leader.handle_vote_persisted. mute_solve. Qed.

(** *** Follower *)

Lemma mute_follower_persistence q n s n' s' :
  Follower.process_persistence q n s = Some (n', s') -> mute s s'.
Proof.
  revert n s. induction q as [|t q IH]; intros n s; simpl; intros Heq; [by simplify_eq|].
  destruct (Follower.handle_persistence_response t _) as [s1|] eqn:Hs1; [|done]. simpl in Heq.
  apply IH in Heq. etrans; [|exact Heq]. clear Heq IH. destruct t as [id t c|id]; simpl in Hs1.
  - unfold Follower.handle_vote_persisted in Hs1. mute_solve.
  - simplify_eq. unfold Follower.handle_log_persisted. mute_solve.
Qed.

End mute_handlers.

(** ** Handlers that broadcast *)

Section delivers.
Context {CP : Capnp} {CL : CapnpLaws} {B : Type} `{BusLaws B}.
Implicit Types s : SharedState B.

Abbreviation log s := (replication_log (volatile_server_state s)).
Abbreviation delivered s := (bus_log (log_entry_bus s)).
Abbreviation commit s := (commit_index (volatile_server_state s)).

(** From a state with the invariant, and while the readers take entries off the ring, [s'] is
    a later state with the invariant. *)
Definition goes_on s s' : Prop := patient (log_entry_bus s) -> reads_inv s -> reads_inv s' /\ later s s'.

#[export] Instance goes_on_preorder : PreOrder goes_on.
Proof.
  split; [by split|]. intros s1 s2 s3 H12 H23 Hp [Hi2 Hl2]%H12; [|done].
  destruct H23 as [Hi3 Hl3]; [eapply patient_offers; [apply Hl2|done]|done|]. split; [done|by etrans].
Qed.

Lemma cursor_count s s' : cursor s' = cursor s -> broadcast_count s' = broadcast_count s.
Proof. unfold cursor, broadcast_count. by intros [= _ -> _ _]. Qed.

(** A log that keeps what was broadcast. *)
Lemma cursor_goes_on s s' :
  cursor s' = cursor s -> vlen (log s') < 2 ^ 64 ->
  (reads_inv s -> broadcast_count s <= vlen (log s') /\
     vtruncate (broadcast_count s) (log s') = vtruncate (broadcast_count s) (log s)) ->
  goes_on s s'.
Proof.
  intros Hc Hlen Hlog _ Hinv. destruct (Hlog Hinv) as [Hle Heq]. destruct Hinv as ((? & ? & Hd) & ? & ?).
  pose proof (cursor_count _ _ Hc) as Hcount. unfold cursor in Hc. injection Hc as Hb Hcur Hci Hcs.
  unfold reads_inv, broadcast_inv, later, offers_only. rewrite Hcount, Hb, Hci, Hcs, Heq. split_and!; try done; lia.
Qed.

Lemma mute_goes_on s s' : mute s s' -> vlen (log s') < 2 ^ 64 -> goes_on s s'.
Proof.
  intros [Hc [k Hk]] Hlen. apply cursor_goes_on; [done..|]. intros ((? & ? & _) & _). rewrite Hk, vlen_app.
  pose proof (vlen_nonneg k). split; [lia|]. unfold vtruncate. rewrite take_app_le; [done|]. unfold vlen in *. lia.
Qed.

Lemma same_goes_on s s' :
  volatile_server_state s' = volatile_server_state s -> log_entry_bus s' = log_entry_bus s -> goes_on s s'.
Proof.
  intros Hv Hb _ Hinv. unfold reads_inv, broadcast_inv, broadcast_count, later, offers_only in *. rewrite Hv, Hb.
  split_and!; [apply Hinv..|done|lia|done].
Qed.

Lemma still_goes_on s s' : cursor s' = cursor s -> log s' = log s -> goes_on s s'.
Proof.
  intros Hc Hl Hp Hinv. apply mute_goes_on; [by split; [|rewrite Hl]| |done..]. rewrite Hl. by apply Hinv.
Qed.

Lemma retry_goes_on s : goes_on s (retry_deferred_broadcast s).2.
Proof.
  intros _ (Hb & Hc & Hcs). pose proof (retry_deferred_broadcast_inv s Hb) as Hr.
  pose proof (retry_deferred_broadcast_offers s) as Ho.
  destruct (retry_deferred_broadcast_frame s) as (b & w & c & d & Hf).
  destruct (retry_deferred_broadcast s) as [n s']. simpl in *.
  destruct Hr as (Hb' & Hl & Hn & ? & Hmax). assert (commit s' = commit s) as Hci by by rewrite Hf.
  unfold reads_inv, later. rewrite Hci. destruct Hb as (? & ? & Hd), Hb' as (? & ? & Hd').
  split_and!; try done; try lia; [by rewrite Hf|].
  rewrite Hd, Hd', Hl. apply vtruncate_mono. lia.
Qed.

(** The commit index moves to [new] and the entries up to it are broadcast. *)
Lemma update_goes_on new s :
  commit s < new -> broadcast_count s < vlen (log s) -> goes_on s (update_commit_index new s).
Proof.
  intros Hnew Hlt Hp (Hb & Hc & Hcs). unfold update_commit_index. simpl.
  match goal with |- context [broadcast_committed_entries new ?x] =>
    pose proof (broadcast_reaches new x Hb Hp (or_intror Hlt)) as (Hb' & Hcount & Hpre & _);
    pose proof (broadcast_committed_entries_offers new x) as Ho;
    destruct (broadcast_committed_entries_frame new x) as (b & w & c & d & Hf) end.
  change (broadcast_count ?x) with (broadcast_count s) in Hcount at 2.
  split; [split; [exact Hb'|]|split; [exact Hpre|split; [|exact Ho]]].
  - split; [|by rewrite Hf]. rewrite Hf at 2. simpl. lia.
  - rewrite Hf. simpl. lia.
Qed.

(** *** Follower *)

Lemma goes_on_callback cb p s : goes_on s (callback_send_ok cb p s).
Proof. rewrite callback_send_ok_eq. by apply same_goes_on. Qed.

Lemma note_received_mute e data s s' :
  note_received_entry e s = (data, s') -> cursor s' = cursor s /\ log s' = log s.
Proof. unfold note_received_entry. destruct e; [case_decide|]; by intros [= <- <-]. Qed.

Lemma apply_log_goes_on r cb s :
  vlen (log s) + 1 < 2 ^ 64 -> goes_on s (apply_log_entry r cb s).
Proof.
  intros Hlen. unfold apply_log_entry.
  destruct (note_received_entry _ _) as [data s1] eqn:Hn. apply note_received_mute in Hn as [Hc Hl]. simpl in Hl.
  assert (goes_on s s1) as Hs1 by (apply mute_goes_on; [split; [exact Hc|by rewrite Hl]|rewrite Hl; lia]).
  destruct (from_bytes data) as [e|]; [|etrans; [exact Hs1|apply goes_on_callback]].
  destruct (persistence_send _ s1) as [s2|] eqn:Hp; [|etrans; [exact Hs1|apply goes_on_callback]].
  apply persistence_send_Some in Hp as [_ ->]. etrans; [exact Hs1|].
  set (s3 := _ <| volatile_server_state ; replication_log ::= _ |>).
  assert (Hm : mute s1 s3) by (split; [done|by exists [e]]).
  assert (vlen (log s3) = vlen (log s) + 1) as Hl3 by (unfold s3; simpl; rewrite vlen_app, Hl; done).
  assert (goes_on s1 s3) as Hs3 by (apply mute_goes_on; [done|lia]).
  intros Hp Hinv. assert (broadcast_count s1 <= vlen (log s)) as Hcount by (rewrite <- Hl; apply Hinv).
  revert Hp Hinv. change (goes_on s1 ((if decide (commit s3 < a_commit_index r)
    then update_commit_index (a_commit_index r) s3 else s3) <| outstanding_messages ::= insert (next_message_id s)
      (mkOutstandingMessage (next_message_id s) 1 (OM_AppendLog cb)) |>)).
  etrans; [exact Hs3|]. etrans; [|by apply same_goes_on]. case_decide; [|by apply same_goes_on].
  apply update_goes_on; [done|]. rewrite (cursor_count s1 s3) by apply Hm. lia.
Qed.

(** What a follower takes from a leader that is not deposed: the commit index of a heartbeat
    is within the log the heartbeat names. *)
Definition sound_request (r : LocalAppendEntries) s : Prop :=
  current_term (server_state s) <= a_term r /\
  (a_request_id r = 0 -> a_commit_index r < vlen (log s)).

Lemma heartbeat_goes_on env r cb s timer :
  current_term (server_state s) = a_term r -> a_commit_index r < vlen (log s) ->
  goes_on s (handle_heartbeat env r cb s timer).1.
Proof.
  intros Ht Hci. unfold handle_heartbeat. case_decide; [apply goes_on_callback|]. simpl.
  etrans; [|apply goes_on_callback]. case_decide as Hnew; [|by apply same_goes_on].
  intros Hp Hinv. apply update_goes_on; [lia| |done..].
  destruct Hinv as (_ & ? & _). lia.
Qed.

Lemma follower_append_goes_on env r cb d s :
  sound_request r s -> vlen (log s) + 1 < 2 ^ 64 ->
  let '(sc, d', s') := Follower.append_entries env r cb d s in goes_on s s'.
Proof.
  intros [Ht Hci] Hlen. unfold Follower.append_entries, Follower.handle_new_leader.
  case_decide as Hnew; [|case_decide; [|apply goes_on_callback]].
  - match goal with |- context [apply_log_entry r cb ?x] => set (s1 := x) end.
    assert (goes_on s s1) as Hs1 by (apply mute_goes_on; [by split|simpl; lia]).
    destruct (validate_append_entries _ _ _); [destruct (a_entry r)|]; etrans;
      first [exact Hs1|apply goes_on_callback|apply apply_log_goes_on; exact Hlen].
  - case_decide as Hid; [|destruct (negb _); [apply goes_on_callback|by apply apply_log_goes_on]].
    pose proof (heartbeat_goes_on env r cb s (election_timer d) ltac:(lia) (Hci Hid)) as Hh.
    by destruct (handle_heartbeat _ _ _ _ _).
Qed.

(** The truncations of the queue keep what was broadcast. *)
Definition spares (k : Z) (q : list LocalQuorumTaskResponseType) : Prop :=
  Forall (fun r => match r with QR_TruncateLog _ _ i => k <= i +! 1 | _ => True end) q.

Lemma truncate_cursor t i s :
  cursor (truncate_log t i s) = cursor s /\
  (log (truncate_log t i s) = log s \/
   i +! 1 < vlen (log s) /\ log (truncate_log t i s) = vtruncate (i +! 1) (log s)).
Proof.
  unfold truncate_log, persistence_send, send. case_decide; [|split; [done|by left]]. simpl.
  destruct (chan_open _); (split; [done|by right]).
Qed.

Lemma vlen_truncate_log t i s : vlen (log (truncate_log t i s)) <= vlen (log s).
Proof.
  destruct (truncate_cursor t i s) as [_ [->|[? ->]]]; [done|].
  rewrite vlen_truncate by apply u64_add_range. lia.
Qed.

Lemma truncate_goes_on t i s :
  broadcast_count s <= i +! 1 -> vlen (log s) < 2 ^ 64 -> goes_on s (truncate_log t i s).
Proof.
  intros Hi Hlen. destruct (truncate_cursor t i s) as [Hc [Hl|[Hlt Hl]]].
  - apply mute_goes_on; [split; [done|by rewrite Hl]|by rewrite Hl].
  - apply cursor_goes_on; [done| |]; rewrite Hl.
    + rewrite vlen_truncate by apply u64_add_range. lia.
    + intros ((? & _) & _). rewrite vlen_truncate by apply u64_add_range. split; [lia|].
      unfold vtruncate. rewrite take_take. f_equal. lia.
Qed.

Lemma follower_quorum_goes_on q n s :
  spares (broadcast_count s) q -> vlen (log s) < 2 ^ 64 -> goes_on s (Follower.process_quorum q n s).2.
Proof.
  intros Hq. revert n s Hq. induction q as [|t q IH]; intros n s Hq Hlen; simpl; [done|].
  inversion Hq as [|? ? Ht Hq']; subst. clear Hq. rename Hq' into Hq. set (s1 := s <| quorum_response := q |>).
  assert (goes_on s s1) as Hs1 by by apply same_goes_on.
  assert (cursor (handle_quorum_response t s1) = cursor s /\
    (vlen (log (handle_quorum_response t s1)) <= vlen (log s)) /\ goes_on s1 (handle_quorum_response t s1))
    as (Hc & Hl & Hs2).
  { destruct t; try by split_and!. split; [apply (truncate_cursor _ _ s1)|].
    split; [apply (vlen_truncate_log _ _ s1)|]. etrans; [by apply truncate_goes_on|by apply still_goes_on]. }
  etrans; [exact Hs1|]. etrans; [exact Hs2|]. apply IH; [|exact (Z.le_lt_trans _ _ _ Hl Hlen)].
  rewrite <- (cursor_count _ _ Hc) in Hq. exact Hq.
Qed.

Lemma follower_tick_goes_on env d s sc w d' s' :
  Follower.time_step env d s = Some (sc, w, d', s') ->
  spares (broadcast_count s) (quorum_response s) -> vlen (log s) < 2 ^ 64 -> goes_on s s'.
Proof.
  intros Heq Hq Hlen. unfold Follower.time_step in Heq.
  destruct (Follower.process_persistence _ _ _) as [[n1 s1]|] eqn:Hp; [|done].
  pose proof (follower_persistence_keeps_quorum _ _ _ _ _ Hp) as Hqr. apply quiet_follower_persistence in Hp as Hl.
  destruct Hl as [(_ & Hl & _) _]. apply mute_follower_persistence in Hp as [Hc _]. simpl in Heq.
  destruct (Follower.process_quorum _ _ _) as [n2 s2] eqn:Hs2.
  assert (goes_on s1 s2) as H12.
  { pose proof (follower_quorum_goes_on (quorum_response s1) n1 s1) as Hg. rewrite Hs2 in Hg. apply Hg.
    - by rewrite Hqr, (cursor_count _ _ Hc).
    - by rewrite Hl. }
  pose proof (retry_goes_on s2) as H23. destruct (retry_deferred_broadcast s2) as [n3 s3].
  assert (s' = s3) as -> by (destruct (check_timeout _ _); by simplify_eq).
  etrans; [by apply still_goes_on|]. by etrans.
Qed.

Lemma candidate_tick_goes_on env d s sc w d' s' :
  Candidate.time_step env d s = Some (sc, w, d', s') -> vlen (log s') < 2 ^ 64 -> goes_on s s'.
Proof.
  intros Heq Hlen. unfold Candidate.time_step in Heq.
  destruct (Candidate.process_persistence _ _ _ _) as [[[sc1 n1] s1]|] eqn:Hp; [|done].
  apply mute_candidate_persistence in Hp as Hm1. cbn [mbind option_bind] in Heq.
  destruct sc1; try by (simplify_eq; apply mute_goes_on).
  destruct (Candidate.process_quorum _ _ _ _) as [[[sc2 n2] s2]|] eqn:Hq; [|done].
  apply mute_candidate_quorum in Hq as Hm2. cbn [mbind option_bind] in Heq.
  assert (mute s s2) as Hm by by etrans.
  destruct sc2; try by (simplify_eq; apply mute_goes_on).
  assert (exists s3, mute s s3 /\ s' = (retry_deferred_broadcast s3).2) as (s3 & Hm3 & ->).
  { destruct (timeout_expired _ _).
    - pose proof (mute_start_election env (clock env 0%nat) d s2) as He.
      destruct (start_election _ _ _ _) as [d1 s3]. exists s3. split; [by etrans|].
      destruct (retry_deferred_broadcast s3). by simplify_eq.
    - exists s2. split; [done|]. destruct (retry_deferred_broadcast s2). by simplify_eq. }
  etrans; [|apply retry_goes_on]. apply mute_goes_on; [done|].
  destruct (retry_deferred_broadcast_frame s3) as (b & v & c & e & Hf). by rewrite Hf in Hlen.
Qed.

(** *** Leader *)

(** The log stays and the commit index does not go back; the invariant is kept if the commit
    index stays within the log. *)
Definition advances s s' : Prop :=
  log s' = log s /\ commit s <= commit s' /\ (commit s' < vlen (log s) -> goes_on s s').

#[export] Instance advances_preorder : PreOrder advances.
Proof.
  split; [by split|]. intros s1 s2 s3 (Hl & ? & H12) (? & ? & H23). split; [congruence|split; [lia|]].
  rewrite Hl in H23. intros. etrans; [apply H12; lia|by apply H23].
Qed.

Lemma still_advances s s' : cursor s' = cursor s -> log s' = log s -> advances s s'.
Proof.
  intros Hc Hl. split; [done|]. split; [|intros; by apply still_goes_on].
  unfold cursor in Hc. injection Hc as _ _ -> _. done.
Qed.

Lemma advance_advances index s : advances s (advance_commit_index index s).
Proof.
  unfold advance_commit_index. case_decide as Hi; [|done].
  change (advances s (push_all_quorum (QT_UpdateCommitIndex index) (update_commit_index index s))).
  etrans; [|by apply still_advances]. unfold advances, update_commit_index.
  match goal with |- context [broadcast_committed_entries index ?x] =>
    destruct (broadcast_committed_entries_frame index x) as (b & w & c & d & Hf) end.
  rewrite Hf. split; [done|]. split; [simpl; lia|]. intros Hlt. rewrite <- Hf.
  intros Hp Hinv. apply update_goes_on; [done| |done..]. destruct Hinv as (_ & ? & _). simpl in Hlt. lia.
Qed.

Lemma complete_advances index cb s s' : complete_write_batch index cb s = Some s' -> advances s s'.
Proof.
  unfold complete_write_batch. destruct (write_batch_response None); [|done]. intros ?; simplify_eq/=.
  etrans; [apply advance_advances|]. rewrite callback_send_ok_eq. by apply still_advances.
Qed.

(** Proves [advances] for the answer to an outstanding message. *)
Ltac advances_solve Heq :=
  repeat first [case_decide | mute_step];
  first
  [ by apply still_advances
  | rewrite callback_send_ok_eq; by apply still_advances
  | etrans; [|apply advance_advances]; by apply still_advances
  | apply complete_advances in Heq; etrans; [|exact Heq]; by apply still_advances ].

Lemma log_persisted_advances id s s' : Leader.handle_log_persisted id s = Some s' -> advances s s'.
Proof. unfold Leader.handle_log_persisted, complete_noop. intros Heq. advances_solve Heq. Qed.

Lemma append_response_advances id s s' : handle_append_entries_response id s = Some s' -> advances s s'.
Proof. unfold handle_append_entries_response, complete_noop. intros Heq. advances_solve Heq. Qed.

Lemma vote_persisted_advances id s : advances s (Leader.handle_vote_persisted id s).
Proof.
  destruct (mute_leader_vote_persisted id s) as [Hc _], (quiet_leader_vote_persisted id s) as [(_ & Hl & _) _].
  by apply still_advances.
Qed.

Lemma leader_persistence_advances q n s r :
  process_persistence_responses q n s = Some r -> advances s r.2.
Proof.
  revert n s. induction q as [|t q IH]; intros n s; simpl; intros Heq; [by simplify_eq|].
  destruct (Leader.handle_persistence_response t _) as [s1|] eqn:Hs1; [|done]. simpl in Heq.
  apply IH in Heq. etrans; [|exact Heq]. destruct t as [id|id]; simpl in Hs1.
  - simplify_eq. etrans; [|apply vote_persisted_advances]. by apply still_advances.
  - apply log_persisted_advances in Hs1. etrans; [|exact Hs1]. by apply still_advances.
Qed.

Lemma leader_quorum_advances q bs n s bs' n' s' :
  process_quorum_responses q bs n s = Some (bs', n', s') -> advances s s'.
Proof.
  revert bs n s. induction q as [|t q IH]; intros bs n s; simpl; intros Heq; [by simplify_eq|].
  destruct t; try by (apply IH in Heq; etrans; [|exact Heq]; apply still_advances).
  destruct (handle_append_entries_response _ _) as [s1|] eqn:Hs1; [|done]. simpl in Heq.
  apply IH in Heq. etrans; [|exact Heq]. apply append_response_advances in Hs1.
  etrans; [|exact Hs1]. by apply still_advances.
Qed.

(** The broadcast of a new leader: its commit index is within the log it starts with. *)
Lemma initialize_goes_on env s s' :
  initialize_leadership env s = Some s' -> commit s < vlen (log s) \/ commit s = 0 ->
  vlen (log s') < 2 ^ 64 -> goes_on s s'.
Proof.
  unfold initialize_leadership. set (s1 := push_all_quorum _ _). intros Heq Hci Hlen.
  set (s2 := if decide _ then _ else _) in Heq.
  assert (goes_on s s2) as H12.
  { etrans; [apply (still_goes_on s s1); done|]. unfold s2. case_decide as Hpos; [|done]. intros Hp (Hb & Hc & Hcs).
    pose proof (broadcast_reaches (commit s1) s1 Hb Hp) as Hr.
    pose proof (broadcast_committed_entries_offers (commit s1) s1) as Ho.
    destruct (broadcast_committed_entries_frame (commit s1) s1) as (b & w & c & d & Hf).
    change (commit s1) with (commit s) in *. change (log s1) with (log s) in *.
    destruct Hr as (Hb' & Hcount & Hpre & _); [lia|].
    split; [split; [exact Hb'|split]|split; [exact Hpre|split; [|exact Ho]]]; rewrite ?Hf in *; simpl in *; [|done|lia].
    revert Hcount. change (broadcast_count s1) with (broadcast_count s) in *. lia. }
  destruct (create_and_append_noop_entry _ _ _ _) as [[e s3]|] eqn:Hc; [|done]. cbn [mbind option_bind] in Heq.
  apply mute_create_noop in Hc. etrans; [exact H12|]. apply mute_goes_on; [|done]. injection Heq as <-.
  etrans; [exact Hc|]. etrans; [apply (mute_send_default (PT_AppendLog (next_message_id s2) (as_bytes e) (next_message_id s2)))|].
  by split.
Qed.


Lemma leader_tick_goes_on env d s sc w d' s' :
  Leader.time_step env d s = Some (sc, w, d', s') ->
  initialized d = true \/ commit s < vlen (log s) \/ commit s = 0 ->
  commit s' < vlen (log s') -> vlen (log s') < 2 ^ 64 -> goes_on s s'.
Proof.
  unfold Leader.time_step. intros Heq Hinit Hci Hlen.
  destruct (if negb (initialized d) then _ else _) as [[[w1 d1] s1]|] eqn:Hs1; [|done].
  cbn [mbind option_bind] in Heq.
  destruct (process_persistence_responses _ _ _) as [[c s2]|] eqn:Hs2; [|done]. cbn [mbind option_bind] in Heq.
  destruct (process_quorum_responses _ _ _ _) as [[[bs w3] s3]|] eqn:Hs3; [|done]. cbn [mbind option_bind] in Heq.
  destruct (handle_backfill_requests _ _) as [s4|] eqn:Hs4; [|done]. cbn [mbind option_bind] in Heq.
  destruct (retry_deferred_broadcast s4) as [w5 s5] eqn:Hs5. injection Heq as <- <- <- <-.
  assert (goes_on s4 s5 /\ log s5 = log s4 /\ commit s5 = commit s4) as (H45 & Hl5 & Hc5).
  { pose proof (retry_goes_on s4) as Hg. destruct (retry_deferred_broadcast_frame s4) as (b & v & k & e & Hf).
    rewrite Hs5 in *. simpl in *. split; [done|]. by rewrite Hf. }
  destruct (mute_backfills _ _ _ Hs4) as [Hc4 _], (quiet_backfills _ _ _ Hs4) as [(_ & Hl4 & _) _].
  apply leader_persistence_advances in Hs2. apply leader_quorum_advances in Hs3. simpl in Hs2.
  pose proof (transitivity Hs2 Hs3) as (Hl3 & _ & H13). rewrite Hl5, Hl4, Hl3 in Hci, Hlen.
  assert (commit s4 = commit s3) as Hc43 by (unfold cursor in Hc4; by injection Hc4).
  etrans; [|etrans; [apply H13; lia|etrans; [by apply still_goes_on|done]]].
  destruct (initialized d); simpl in Hs1; [by simplify_eq|].
  destruct (initialize_leadership env s) as [s0|] eqn:Hi; [|done]. injection Hs1 as _ _ <-.
  eapply initialize_goes_on; [done| |done]. by destruct Hinit.
Qed.

(** ** Steps of a node *)

Implicit Types x : StateMachineExecutorImpl B.

(** The log has room for one more entry. *)
Definition room s : Prop := vlen (log s) + 1 < 2 ^ 64.

(** The conditions on a time step: the truncations of a follower keep what was broadcast; the
    commit index of a leader is within its log. *)
Definition sound_tick x x' : Prop :=
  let s := shared_state x in
  match state_delegate x with
  | D_Follower _ => spares (broadcast_count s) (quorum_response s)
  | D_Candidate _ => True
  | D_Leader d =>
    (initialized d = true \/ commit s < vlen (log s) \/ commit s = 0) /\
    commit (shared_state x') < vlen (log (shared_state x'))
  end.

(** The condition on a message. *)
Definition sound_message (m : LocalRaftMessage) x : Prop :=
  match state_delegate x, lrm_payload m with
  | D_Follower _, RM_AppendEntries r => sound_request r (shared_state x)
  | _, _ => True
  end.

Lemma tick_goes_on env x w x' :
  time_step env x = Some (w, x') -> sound_tick x x' -> room (shared_state x) -> room (shared_state x') ->
  goes_on (shared_state x) (shared_state x').
Proof.
  unfold time_step, sound_tick, delegate_time_step, room. intros Heq Hsound Hroom Hroom'.
  destruct x as [[d|d|d] s]; simpl in *.
  - destruct (Follower.time_step env d s) as [[[[sc n] d'] s']|] eqn:Ht; simplify_eq/=.
    eapply follower_tick_goes_on; [done..|lia].
  - destruct (Candidate.time_step env d s) as [[[[sc n] d'] s']|] eqn:Ht; simplify_eq/=.
    eapply candidate_tick_goes_on; [done|lia].
  - destruct (Leader.time_step env d s) as [[[[sc n] d'] s']|] eqn:Ht; simplify_eq/=.
    eapply leader_tick_goes_on; [done|apply Hsound..|lia].
Qed.

Lemma accept_goes_on env m x x' :
  accept env m x = Some x' -> sound_message m x -> room (shared_state x) -> room (shared_state x') ->
  goes_on (shared_state x) (shared_state x').
Proof.
  unfold accept, delegate_accept, sound_message, room. intros Heq Hsound Hroom Hroom'.
  assert (Hm : mute (shared_state x) (shared_state x') -> goes_on (shared_state x) (shared_state x'))
    by (intros; apply mute_goes_on; [done|lia]).
  destruct x as [[d|d|d] s], (lrm_payload m) as [r|r| |batch]; simpl in *;
    try (simplify_eq; apply goes_on_callback);
    try (destruct (write_batch_response _); simplify_eq/=; apply goes_on_callback).
  - destruct (Follower.request_vote _ _ _ _) as [[[sc d'] s']|] eqn:Hr; simplify_eq/=.
    by eapply Hm, mute_follower_request_vote.
  - pose proof (follower_append_goes_on env r (lrm_callback m) d s Hsound ltac:(lia)) as Hg.
    destruct (Follower.append_entries _ _ _ _ _) as [[sc d'] s']. by simplify_eq.
  - pose proof (mute_candidate_request_vote r (lrm_callback m) d s) as Hg.
    destruct (Candidate.request_vote _ _ _ _) as [[sc d'] s']. simplify_eq. by apply Hm.
  - pose proof (mute_candidate_append env r (lrm_callback m) d s) as Hg.
    destruct (Candidate.append_entries _ _ _ _ _) as [[sc d'] s']. simplify_eq. by apply Hm.
  - pose proof (mute_leader_request_vote r (lrm_callback m) d s) as Hg.
    destruct (Leader.request_vote _ _ _ _) as [[sc d'] s']. simplify_eq. by apply Hm.
  - pose proof (mute_leader_append env r (lrm_callback m) d s) as Hg.
    destruct (Leader.append_entries _ _ _ _ _) as [[sc d'] s']. simplify_eq. by apply Hm.
  - destruct (write_batch _ _ _ _) as [s'|] eqn:Hw; simplify_eq/=. by eapply Hm, mute_write_batch.
Qed.

End delivers.
