(* ===== verification/NodeTypes.v ===== *)
(** * The machine words of a node

    Every integer the Raft state keeps ([raft/raft_sm.rs]) stays in the range of its Rust
    type, whatever the node does: the terms and indices of the state, the outstanding
    messages, the recorded votes and the queues the state machine pops and pushes. *)
From stdpp Require Import strings.
From S2P Require Import Prelude Capnp CapnpInstance RaftTypes Bus Samples RaftSm LogModel.
From S2P Require Import Follower FollowerSpec Leader LeaderSpec Candidate Executor Safety.

(** ** The invariant *)

Definition typed_outstanding (m : OutstandingMessageType) : Prop :=
  match m with
  | OM_WriteBatch _ _ _ index _ | OM_NoOp _ _ index => u64 index
  | OM_RequestVote _ | OM_CandidateElection _ _ | OM_AppendLog _ => True
  end.

Definition typed_task (t : PersistenceTaskType) : Prop :=
  match t with
  | PT_AppendVote id term candidate_id => u64 id /\ u64 term /\ u32 candidate_id
  | PT_AppendLog id _ _ => u64 id
  | PT_TruncateLog target_length => u64 target_length
  end.

Definition typed_vote (t c : Z) : Prop := u64 t /\ u32 c.

Section words.
Context {CP : Capnp} {B : Type}.
Implicit Types s : SharedState B.

Record words_ok s : Prop := {
  ok_current_term : u64 (current_term (server_state s));
  ok_leader_id : u32 (leader_id (server_state s));
  ok_identity : u32 (identity s);
  ok_commit_index : u64 (commit_index (volatile_server_state s));
  ok_published : u64 (cs_commit_index (commit_state (volatile_server_state s)));
  ok_last_log_index : u64 (last_log_index (volatile_server_state s));
  ok_last_log_term : u64 (last_log_term (volatile_server_state s));
  ok_next_term : u64 (next_term (volatile_server_state s));
  ok_next_log_index : u64 (next_log_index (volatile_server_state s));
  ok_next_message_id : u64 (next_message_id s);
  ok_outstanding : map_Forall (fun id m => u64 id /\ typed_outstanding (message_type m)) (outstanding_messages s);
  ok_votes : map_Forall typed_vote (term_votes s);
  ok_term_starts : map_Forall (fun t _ => u64 t) (replication_log_term_starts (volatile_server_state s));
  ok_persistence : Forall typed_persistence (persistence_response s);
  ok_quorum : Forall typed_quorum (quorum_response s);
  ok_work : Forall typed_task (chan_queue (persistence_work s))
}.

(** What a handler keeps. *)
Definition typed_step s s' : Prop := words_ok s -> words_ok s'.

#[export] Instance typed_step_preorder : PreOrder typed_step.
Proof. split; [by intros s Hs|]. intros s1 s2 s3 H12 H23 H1. by apply H23, H12. Qed.

Lemma typed_step_with s s' : (words_ok s -> typed_step s s') -> typed_step s s'.
Proof. intros Hs Hok. by apply Hs. Qed.

End words.

Lemma u64_add_u64 a b : u64 (a +! b).
Proof. apply u64_add_range. Qed.

#[export] Hint Resolve u64_add_u64 : kraft.
(** The fields one by one: those that did not change by assumption, a table or queue by what
    was added to it. *)
Ltac words_field :=
  simpl; unfold typed_vote; split_and?;
  lazymatch goal with
  | |- Forall _ (_ ++ [_]) => apply Forall_app; split; [|apply Forall_singleton]; words_field
  | |- map_Forall _ (<[_ := _]> _) => apply map_Forall_insert_2; words_field
  | |- map_Forall _ (delete _ _) => apply map_Forall_delete; words_field
  | |- _ => try solve [done | eauto with kraft]
  end.

Ltac words := let Hok := fresh "Hok" in
  intros Hok; destruct Hok; split; simpl in *; try done; words_field.

Section primitives.
Context {CP : Capnp} {B : Type} `{Bus B}.
Implicit Types s : SharedState B.

Lemma typed_broadcast s s' : same_but_broadcast s s' -> typed_step s s'.
Proof. intros (b & w & c & d & ->). words. Qed.

Lemma typed_callback_ok cb p s : typed_step s (callback_send_ok cb p s).
Proof. rewrite callback_send_ok_eq. words. Qed.

Lemma typed_callback cb p s s' : callback_send cb p s = Some s' -> typed_step s s'.
Proof. intros ->%callback_send_Some. words. Qed.

Lemma typed_push_all t s : typed_step s (push_all_quorum t s).
Proof. words. Qed.

Lemma typed_push_quorum i t s : typed_step s (push_quorum i t s).
Proof. words. Qed.

Lemma typed_send t s s' : typed_task t -> persistence_send t s = Some s' -> typed_step s s'.
Proof. intros Ht [_ ->]%persistence_send_Some. words. Qed.

Lemma typed_send_default t s : typed_task t -> typed_step s (default s (persistence_send t s)).
Proof. intros Ht. destruct (persistence_send t s) eqn:Hs; simpl; [by eapply typed_send|done]. Qed.

Lemma typed_next_message_id f s : (forall z, u64 (f z)) -> typed_step s (s <| next_message_id ::= f |>).
Proof. intros Hf. words. Qed.

Lemma typed_delete id s : typed_step s (s <| outstanding_messages ::= delete id |>).
Proof. words. Qed.

Lemma typed_register id m s :
  u64 id -> typed_outstanding (message_type m) -> typed_step s (s <| outstanding_messages ::= <[id := m]> |>).
Proof. intros Hid Hm. words. Qed.

Lemma typed_lookup id m s :
  outstanding_messages s !! id = Some m -> words_ok s -> u64 id /\ typed_outstanding (message_type m).
Proof. intros Hl Hok. exact (ok_outstanding _ Hok _ _ Hl). Qed.

Lemma typed_pop_persistence t q s :
  persistence_response s = t :: q -> words_ok s ->
  typed_persistence t /\ words_ok (s <| persistence_response := q |>).
Proof. intros Hq Hok. pose proof (ok_persistence _ Hok) as Hp. rewrite Hq in Hp. inversion Hp; subst. split; [done|]. revert Hok. words. Qed.

Lemma typed_pop_quorum t q s :
  quorum_response s = t :: q -> words_ok s -> typed_quorum t /\ words_ok (s <| quorum_response := q |>).
Proof. intros Hq Hok. pose proof (ok_quorum _ Hok) as Hp. rewrite Hq in Hp. inversion Hp; subst. split; [done|]. revert Hok. words. Qed.

Lemma typed_server_state t l s :
  u64 t -> u32 l -> typed_step s (s <| server_state ; current_term := t |> <| server_state ; leader_id := l |>).
Proof. intros Ht Hl. words. Qed.

End primitives.

(** ** The follower *)

Section follower.
Context {CP : Capnp} {B : Type} `{Bus B}.
Implicit Types s : SharedState B.

Lemma typed_update_commit_index n s : u64 n -> typed_step s (update_commit_index n s).
Proof. intros Hn. destruct (update_commit_index_frame n s) as (b & w & c & d & ->). words. Qed.

Lemma typed_note_received entry s :
  match entry with Some e => typed_log_entry e | None => True end ->
  typed_step s (note_received_entry entry s).2.
Proof.
  intros He. unfold note_received_entry. destruct entry as [e|]; [|done]. destruct He as (? & ? & ? & ?).
  simpl. case_decide; words.
Qed.

Lemma typed_apply_log_entry r cb s :
  u64 (a_commit_index r) -> match a_entry r with Some e => typed_log_entry e | None => True end ->
  typed_step s (apply_log_entry r cb s).
Proof.
  intros Hc He. unfold apply_log_entry.
  pose proof (typed_note_received (a_entry r) (s <| next_message_id ::= fun n => n +! 1 |>) He) as Hn.
  destruct (note_received_entry _ _) as [data s1]. cbn [snd] in Hn.
  assert (Hs1 : typed_step s s1). { etrans; [|exact Hn]. apply typed_next_message_id. intros z. apply u64_add_u64. }
  destruct (from_bytes data) as [e|]; [|by etrans; [exact Hs1|apply typed_callback_ok]].
  destruct (persistence_send _ _) as [s2|] eqn:Hp; [|by etrans; [exact Hs1|apply typed_callback_ok]].
  apply typed_step_with. intros [_ _ _ _ _ _ _ _ _ Hid _ _ _ _ _ _]. etrans; [exact Hs1|]. etrans; [eapply typed_send; [|exact Hp]; exact Hid|].
  etrans; [|by apply typed_register]. etrans; [|case_decide; [by apply typed_update_commit_index|reflexivity]]. words.
Qed.

Lemma typed_truncate_log t i s : u64 t -> u64 i -> typed_step s (truncate_log t i s).
Proof.
  intros Ht Hi. unfold truncate_log. case_decide; [|done]. etrans; [|apply typed_send_default, u64_add_u64].
  words. intros k v [Hk _]%map_lookup_filter_Some. by eapply ok_term_starts0.
Qed.

Lemma typed_heartbeat env r cb s timer :
  u64 (a_commit_index r) -> typed_step s (handle_heartbeat env r cb s timer).1.
Proof.
  intros Hc. unfold handle_heartbeat. case_decide; cbn [fst]; [apply typed_callback_ok|].
  etrans; [|apply typed_callback_ok]. case_decide; [by apply typed_update_commit_index|done].
Qed.

Lemma typed_new_leader_state t l n s :
  u64 t -> u32 l -> u64 n ->
  typed_step s (s <| server_state ; current_term := t |> <| server_state ; leader_id := l |>
                  <| volatile_server_state ; next_term := n |>).
Proof. intros. words. Qed.

Lemma typed_follower_append env r cb d s :
  typed_message (mkLocalRaftMessage (RM_AppendEntries r) cb) ->
  typed_step s (Follower.append_entries env r cb d s).2.
Proof.
  intros (Ht & Hl & Hc & He). unfold Follower.append_entries. case_decide.
  - unfold Follower.handle_new_leader.
    pose proof (typed_new_leader_state (a_term r) (a_leader_id r) (a_term r +! 1) s Ht Hl (u64_add_u64 _ _)) as Hs.
    set (s1 := s <| server_state ; current_term := _ |> <| server_state ; leader_id := _ |> <| volatile_server_state ; next_term := _ |>) in *.
    destruct (validate_append_entries _ _ _); [destruct (a_entry r) eqn:Hr|]; cbn [snd]; (etrans; [exact Hs|]);
      [apply typed_apply_log_entry; [done|by rewrite Hr]|apply typed_callback_ok..].
  - case_decide; [case_decide; [|destruct (negb _)]|]; cbn [snd].
    + pose proof (typed_heartbeat env r cb s (election_timer d) Hc) as Hs. by destruct (handle_heartbeat _ _ _ _ _).
    + apply typed_callback_ok.
    + by apply typed_apply_log_entry.
    + apply typed_callback_ok.
Qed.

Lemma typed_follower_persistence q n s n' s' :
  persistence_response s = q -> Follower.process_persistence q n s = Some (n', s') -> typed_step s s'.
Proof.
  revert n s. induction q as [|t q IH]; intros n s Hq; simpl; intros Heq; [by simplify_eq|].
  destruct (Follower.handle_persistence_response t _) as [s1|] eqn:Hs1; [|done]. cbn [mbind option_bind] in Heq.
  assert (Hpop : typed_step s (s <| persistence_response := q |>)) by (intros Hok; by apply (typed_pop_persistence t)).
  assert (Hrest : persistence_response s1 = q /\ typed_step (s <| persistence_response := q |>) s1).
  { clear Heq Hpop. destruct t as [id t c|id]; cbn [Follower.handle_persistence_response] in Hs1.
    - unfold Follower.handle_vote_persisted in Hs1. repeat (case_match; simplify_eq/=; try by (split; [done|words])).
      apply callback_send_Some in Hs1 as ->. split; [done|words].
    - simplify_eq. unfold Follower.handle_log_persisted. repeat (case_match; simplify_eq/=; try by (split; [done|words])).
      rewrite callback_send_ok_eq. split; [done|words]. }
  destruct Hrest as [Hrest Hstep]. etrans; [exact Hpop|]. etrans; [exact Hstep|]. by eapply IH.
Qed.

Lemma truncate_log_quorum t i s : quorum_response (truncate_log t i s) = quorum_response s.
Proof. unfold truncate_log, persistence_send, send. case_decide; [|done]. simpl. by destruct (chan_open _). Qed.

Lemma typed_follower_quorum q n s :
  quorum_response s = q -> typed_step s (Follower.process_quorum q n s).2.
Proof.
  revert n s. induction q as [|t q IH]; intros n s Hq; cbn [Follower.process_quorum]; [done|].
  apply typed_step_with. intros Hok. destruct (typed_pop_quorum t q s Hq Hok) as [Ht Hpop].
  assert (Hh : typed_step (s <| quorum_response := q |>) (handle_quorum_response t (s <| quorum_response := q |>))).
  { destruct t; try done. destruct Ht as (_ & ? & ?). unfold handle_quorum_response.
    etrans; [apply (typed_truncate_log prev_term prev_index); done|]. apply typed_broadcast, same_version. }
  intros _. apply IH, Hh, Hpop. destruct t; try done. cbn [handle_quorum_response].
  exact (truncate_log_quorum _ _ _).
Qed.

Lemma typed_retry s : typed_step s (retry_deferred_broadcast s).2.
Proof. apply typed_broadcast, retry_deferred_broadcast_frame. Qed.

Lemma typed_follower_time_step env d s sc n d' s' :
  Follower.time_step env d s = Some (sc, n, d', s') -> typed_step s s'.
Proof.
  unfold Follower.time_step. destruct (Follower.process_persistence _ _ _) as [[w s1]|] eqn:H1; [|done].
  cbn [mbind option_bind]. apply typed_follower_persistence in H1; [|done].
  pose proof (typed_follower_quorum (quorum_response s1) w s1 eq_refl) as H2.
  destruct (Follower.process_quorum _ _ _) as [w2 s2]. pose proof (typed_retry s2) as H3.
  destruct (retry_deferred_broadcast s2) as [w3 s3]. cbn [snd] in *.
  intros Heq. assert (s' = s3) as -> by (destruct (check_timeout _ _); by simplify_eq).
  etrans; [exact H1|]. by etrans.
Qed.

Lemma typed_observe t s : typed_step s (observe_vote_term t s).
Proof. unfold observe_vote_term. case_decide; [words|done]. Qed.

Lemma typed_follower_request_vote r cb d s sc d' s' :
  Follower.request_vote r cb d s = Some (sc, d', s') -> typed_step s s'.
Proof.
  unfold Follower.request_vote. destruct (negb _).
  - destruct (callback_send _ _ _) as [s1|] eqn:Hc; [|done]. cbn [mbind option_bind]. intros; simplify_eq.
    etrans; [apply typed_observe|by eapply typed_callback].
  - intros; simplify_eq. etrans; [apply (typed_observe (rv_term r))|]. words.
Qed.

End follower.

(** ** The candidate *)

Section candidate.
Context {CP : Capnp} {B : Type} `{Bus B}.
Implicit Types s : SharedState B.

(** Granting a vote, as the candidate and the leader do it. *)
Lemma typed_grant t c m s s1 :
  u64 t -> u32 c -> words_ok s ->
  persistence_send (PT_AppendVote (next_message_id s) t c) s = Some s1 ->
  words_ok (s1 <| term_votes ::= <[t := c]> |> <| next_message_id := next_message_id s +! 1 |>
               <| outstanding_messages ::= <[next_message_id s := mkOutstandingMessage (next_message_id s) 1 (OM_RequestVote m)]> |>).
Proof.
  intros Ht Hc Hok Hs. pose proof (ok_next_message_id _ Hok) as Hid. eapply typed_send in Hs; [|split_and!; done].
  apply Hs in Hok. revert Hok. words.
Qed.

Lemma typed_candidate_request_vote r cb d s :
  typed_message (mkLocalRaftMessage (RM_RequestVote r) cb) -> typed_step s (Candidate.request_vote r cb d s).2.
Proof.
  intros (Ht & Hc & _). unfold Candidate.request_vote. etrans; [apply (typed_observe (rv_term r))|].
  destruct (negb _); cbn [snd]; [apply typed_callback_ok|].
  destruct (persistence_send _ _) as [s1|] eqn:Hp; cbn [snd]; [|apply typed_callback_ok].
  intros Hok. by apply typed_grant.
Qed.

Lemma typed_election env now d s : typed_step s (start_election env now d s).2.
Proof.
  unfold start_election, persistence_send, send. simpl.
  destruct (chan_open _); simpl; words; split_and!; done.
Qed.

Lemma typed_candidate_append env r cb d s :
  typed_message (mkLocalRaftMessage (RM_AppendEntries r) cb) ->
  typed_step s (Candidate.append_entries env r cb d s).2.
Proof.
  intros (Ht & Hl & _). unfold Candidate.append_entries. case_decide; cbn [snd]; [|apply typed_callback_ok].
  case_decide; (etrans; [|apply typed_callback_ok]); words.
Qed.

Lemma typed_become_leader env t s : u64 t -> typed_step s (become_leader env t s).2.
Proof. intros Ht. unfold become_leader. words. Qed.

Lemma typed_candidate_vote_persisted env id t s :
  u64 t -> typed_step s (Candidate.handle_vote_persisted env id t s).2.
Proof.
  intros Ht. unfold Candidate.handle_vote_persisted. destruct (outstanding_messages s !! id) as [m|] eqn:Hm; [|done].
  apply typed_step_with. intros Hok. destruct (typed_lookup _ _ _ Hm Hok) as [Hid _].
  destruct (message_type m); cbn [snd]; (etrans; [apply (typed_delete id)|]); try done; [apply typed_callback_ok|].
  case_decide; [by apply typed_become_leader|by apply typed_register].
Qed.

Lemma typed_candidate_log_persisted id s s' :
  Candidate.handle_log_persisted id s = Some s' -> typed_step s s'.
Proof.
  unfold Candidate.handle_log_persisted. destruct (outstanding_messages s !! id) as [m|]; [|by intros ?; simplify_eq].
  destruct (message_type m); intros Heq; (etrans; [apply (typed_delete id)|]);
    first [by eapply typed_callback | by simplify_eq].
Qed.

Lemma typed_candidate_vote_response env id t v s sc s' :
  u64 t -> handle_vote_response env id t v s = Some (sc, s') -> typed_step s s'.
Proof.
  intros Ht. unfold handle_vote_response. destruct (outstanding_messages s !! id) as [m|] eqn:Hm; [|by intros ?; simplify_eq].
  intros Heq. apply typed_step_with. intros Hok. destruct (typed_lookup _ _ _ Hm Hok) as [Hid _].
  etrans; [apply (typed_delete id)|]. clear Hok. destruct (message_type m); try by simplify_eq.
  - destruct (callback_send _ _ _) as [s1|] eqn:Hc; [|done]. cbn [mbind option_bind] in Heq. simplify_eq. by eapply typed_callback.
  - repeat case_decide; simplify_eq; [|by apply typed_register|done].
    pose proof (typed_become_leader env t (s <| outstanding_messages ::= delete id |>) Ht) as Hb. by rewrite Heq in Hb.
  - destruct (callback_send _ _ _) as [s1|] eqn:Hc; [|done]. cbn [mbind option_bind] in Heq. simplify_eq. by eapply typed_callback.
Qed.

(** The queues the handlers leave alone. *)
Lemma candidate_vote_persisted_queue env id t s :
  persistence_response (Candidate.handle_vote_persisted env id t s).2 = persistence_response s.
Proof.
  unfold Candidate.handle_vote_persisted, become_leader. repeat (case_match; try done). simpl. by rewrite callback_send_ok_eq.
Qed.

Lemma candidate_log_persisted_queue id s s' :
  Candidate.handle_log_persisted id s = Some s' -> persistence_response s' = persistence_response s.
Proof.
  unfold Candidate.handle_log_persisted. intros Heq. repeat (case_match; simplify_eq/=; try done).
  by apply callback_send_Some in Heq as ->.
Qed.

Lemma candidate_vote_response_queue env id t v s sc s' :
  handle_vote_response env id t v s = Some (sc, s') -> quorum_response s' = quorum_response s.
Proof.
  unfold handle_vote_response, become_leader. intros Heq.
  destruct (outstanding_messages s !! id) as [m|]; [|by simplify_eq]. destruct (message_type m); try by simplify_eq.
  - destruct (callback_send _ _ _) as [s1|] eqn:Hc; [|done]. simpl in Heq. simplify_eq. by apply callback_send_Some in Hc as ->.
  - repeat case_decide; by simplify_eq.
  - destruct (callback_send _ _ _) as [s1|] eqn:Hc; [|done]. simpl in Heq. simplify_eq. by apply callback_send_Some in Hc as ->.
Qed.

Lemma typed_candidate_persistence env q n s sc n' s' :
  persistence_response s = q -> Candidate.process_persistence env q n s = Some (sc, n', s') -> typed_step s s'.
Proof.
  revert n s. induction q as [|t q IH]; intros n s Hq; cbn [Candidate.process_persistence]; intros Heq; [by simplify_eq|].
  apply typed_step_with. intros Hok. destruct (typed_pop_persistence t q s Hq Hok) as [Ht Hpop]. intros _. clear Hok.
  set (s0 := s <| persistence_response := q |>) in *. destruct t as [id t c|id].
  - pose proof (typed_candidate_vote_persisted env id t s0 ltac:(apply Ht) Hpop) as Hv.
    pose proof (candidate_vote_persisted_queue env id t s0) as Hq'.
    destruct (Candidate.handle_vote_persisted _ _ _ _) as [[] s1]; simplify_eq; try exact Hv. by eapply IH.
  - destruct (Candidate.handle_log_persisted _ _) as [s1|] eqn:Hs1; [|done]. cbn [mbind option_bind] in Heq.
    pose proof (candidate_log_persisted_queue _ _ _ Hs1) as Hq'. apply typed_candidate_log_persisted in Hs1.
    eapply IH; [|exact Heq|by apply Hs1]. exact Hq'.
Qed.

Lemma typed_candidate_quorum env q n s sc n' s' :
  quorum_response s = q -> Candidate.process_quorum env q n s = Some (sc, n', s') -> typed_step s s'.
Proof.
  revert n s. induction q as [|t q IH]; intros n s Hq; cbn [Candidate.process_quorum]; intros Heq; [by simplify_eq|].
  apply typed_step_with. intros Hok. destruct (typed_pop_quorum t q s Hq Hok) as [Ht Hpop]. intros _. clear Hok.
  set (s0 := s <| quorum_response := q |>) in *. destruct t as [id t v| | | |]; try (eapply IH; [|exact Heq|exact Hpop]; done).
  destruct (handle_vote_response _ _ _ _ _) as [[sc1 s1]|] eqn:Hs1; [|done]. cbn [mbind option_bind] in Heq.
  pose proof (candidate_vote_response_queue _ _ _ _ _ _ _ Hs1) as Hq'. apply typed_candidate_vote_response in Hs1; [|apply Ht].
  apply Hs1 in Hpop. destruct sc1; simplify_eq; try exact Hpop. eapply IH; [|exact Heq|exact Hpop]. exact Hq'.
Qed.

Lemma typed_candidate_time_step env d s sc n d' s' :
  Candidate.time_step env d s = Some (sc, n, d', s') -> typed_step s s'.
Proof.
  unfold Candidate.time_step.
  destruct (Candidate.process_persistence _ _ _ _) as [[[sc1 w1] s1]|] eqn:H1; [|done]. cbn [mbind option_bind].
  apply typed_candidate_persistence in H1; [|done]. destruct sc1; [|intros ?; by simplify_eq..].
  destruct (Candidate.process_quorum _ _ _ _) as [[[sc2 w2] s2]|] eqn:H2; [|done]. cbn [mbind option_bind].
  apply typed_candidate_quorum in H2; [|done]. assert (H02 : typed_step s s2) by by etrans.
  destruct sc2; [|intros ?; by simplify_eq..].
  set (r := if timeout_expired _ _ then _ else _). assert (He : typed_step s2 r.2).
  { unfold r. destruct (timeout_expired _ _); [|done].
    pose proof (typed_election env (clock env 0%nat) d s2) as Hv. by destruct (start_election _ _ _ _). }
  destruct r as [[w3 d3] s3]. cbn [snd] in He. pose proof (typed_retry s3) as H4.
  destruct (retry_deferred_broadcast s3) as [w4 s4]. intros ?; simplify_eq. cbn [snd] in H4.
  etrans; [exact H02|]. by etrans.
Qed.

End candidate.

(** ** The leader *)

Section leader.
Context {CP : Capnp} {B : Type} `{Bus B}.
Implicit Types s : SharedState B.

Lemma typed_advance index s : u64 index -> typed_step s (advance_commit_index index s).
Proof.
  intros Hi. unfold advance_commit_index. case_decide; [|done].
  match goal with |- context [broadcast_committed_entries ?i ?x] =>
    destruct (broadcast_committed_entries_frame i x) as (b & w & c & d & ->) end. words.
Qed.

Lemma advance_queues index s :
  persistence_response (advance_commit_index index s) = persistence_response s /\
  quorum_response (advance_commit_index index s) = quorum_response s.
Proof.
  unfold advance_commit_index. case_decide; [|done].
  match goal with |- context [broadcast_committed_entries ?i ?x] =>
    destruct (broadcast_committed_entries_frame i x) as (b & w & c & d & ->) end. done.
Qed.

(** A handler of a response: it keeps the words and does not touch the queues. *)
Definition typed_response s s' : Prop :=
  typed_step s s' /\ persistence_response s' = persistence_response s /\ quorum_response s' = quorum_response s.

Lemma typed_complete_write_batch index cb s s' :
  u64 index -> complete_write_batch index cb s = Some s' -> typed_response s s'.
Proof.
  intros Hi. unfold complete_write_batch. destruct (write_batch_response None); [|done]. cbn [mbind option_bind].
  intros ?; simplify_eq. destruct (advance_queues index s) as [Hp Hq]. rewrite callback_send_ok_eq. split_and!; [|done..].
  etrans; [by apply (typed_advance index)|]. words.
Qed.

Lemma typed_complete_noop index s : u64 index -> typed_response s (complete_noop index s).
Proof. intros Hi. destruct (advance_queues index s). split_and!; [by apply typed_advance|done..]. Qed.

Lemma typed_deleted id m s s' :
  outstanding_messages s !! id = Some m ->
  (u64 id -> typed_outstanding (message_type m) -> typed_response (s <| outstanding_messages ::= delete id |>) s') ->
  words_ok s -> typed_response s s'.
Proof.
  intros Hm Hs Hok. destruct (typed_lookup _ _ _ Hm Hok) as [Hid Hmt]. destruct (Hs Hid Hmt) as (Hst & Hp & Hq).
  split_and!; [|done..]. intros _. by apply Hst, typed_delete.
Qed.

Lemma typed_updated id m s :
  u64 id -> typed_outstanding (message_type m) ->
  typed_response s (s <| outstanding_messages ::= <[id := m]> |>).
Proof. intros. split_and!; [by apply typed_register|done..]. Qed.

Lemma typed_leader_log_persisted id s s' :
  words_ok s -> Leader.handle_log_persisted id s = Some s' -> typed_response s s'.
Proof.
  intros Hok. unfold Leader.handle_log_persisted.
  destruct (outstanding_messages s !! id) as [m|] eqn:Hm; [|by intros ?; simplify_eq]. intros Heq.
  apply (typed_deleted id m); [done| |done]. intros Hid Hmt.
  destruct (message_type m); try case_decide; simplify_eq; simpl in Hmt;
    first [done | by apply typed_updated | by eapply typed_complete_write_batch | by apply typed_complete_noop | idtac].
  rewrite callback_send_ok_eq. split_and!; [words|done..].
Qed.

Lemma typed_leader_append_response id s s' :
  words_ok s -> handle_append_entries_response id s = Some s' -> typed_response s s'.
Proof.
  intros Hok. unfold handle_append_entries_response.
  destruct (outstanding_messages s !! id) as [m|] eqn:Hm; [|by intros ?; simplify_eq]. intros Heq.
  apply (typed_deleted id m); [done| |done]. intros Hid Hmt.
  destruct (message_type m); repeat case_decide; simplify_eq; simpl in Hmt;
    first [done | by apply typed_updated | by eapply typed_complete_write_batch | by apply typed_complete_noop].
Qed.

Lemma typed_leader_vote_persisted id s : words_ok s -> typed_response s (Leader.handle_vote_persisted id s).
Proof.
  intros Hok. unfold Leader.handle_vote_persisted. destruct (outstanding_messages s !! id) as [m|] eqn:Hm; [|done].
  apply (typed_deleted id m); [done| |done]. intros _ _. destruct (message_type m); try done.
  rewrite callback_send_ok_eq. split_and!; [words|done..].
Qed.

Lemma typed_leader_persistence q n s n' s' :
  persistence_response s = q -> process_persistence_responses q n s = Some (n', s') -> typed_step s s'.
Proof.
  revert n s. induction q as [|t q IH]; intros n s Hq; cbn [process_persistence_responses]; intros Heq; [by simplify_eq|].
  apply typed_step_with. intros Hok. destruct (typed_pop_persistence t q s Hq Hok) as [Ht Hpop]. intros _. clear Hok.
  set (s0 := s <| persistence_response := q |>) in *.
  destruct (Leader.handle_persistence_response t s0) as [s1|] eqn:Hs1; [|done]. cbn [mbind option_bind] in Heq.
  assert (typed_response s0 s1) as (Hst & Hp1 & _).
  { destruct t as [id t c|id]; cbn [Leader.handle_persistence_response] in Hs1; simplify_eq;
      [by apply typed_leader_vote_persisted|by eapply typed_leader_log_persisted]. }
  eapply IH; [|exact Heq|by apply Hst]. exact Hp1.
Qed.

Lemma typed_leader_quorum q bs n s bs' n' s' :
  quorum_response s = q -> process_quorum_responses q bs n s = Some (bs', n', s') -> typed_step s s'.
Proof.
  revert bs n s. induction q as [|t q IH]; intros bs n s Hq; cbn [process_quorum_responses]; intros Heq; [by simplify_eq|].
  apply typed_step_with. intros Hok. destruct (typed_pop_quorum t q s Hq Hok) as [Ht Hpop]. intros _. clear Hok.
  set (s0 := s <| quorum_response := q |>) in *.
  destruct t; try (eapply IH; [|exact Heq|exact Hpop]; done).
  destruct (handle_append_entries_response _ _) as [s1|] eqn:Hs1; [|done]. cbn [mbind option_bind] in Heq.
  destruct (typed_leader_append_response _ _ _ Hpop Hs1) as (Hst & _ & Hq1).
  eapply IH; [|exact Heq|by apply Hst]. exact Hq1.
Qed.

Lemma typed_truncate_signal node t i s : typed_step s (send_truncate_signal node t i s).
Proof. unfold send_truncate_signal. case_match; [|done]. words. Qed.

Lemma typed_send_backfill node t i s s' : send_backfill_data node t i s = Some s' -> typed_step s s'.
Proof.
  unfold send_backfill_data. destruct (clone_subset _ _ _); cbn [mbind option_bind]; [|done].
  intros Heq. case_match; simplify_eq; [words|done].
Qed.

Lemma typed_backfills rs s s' : handle_backfill_requests rs s = Some s' -> typed_step s s'.
Proof.
  revert s. induction rs as [|[[node t] i] rs IH]; intros s; cbn [handle_backfill_requests]; intros Heq; [by simplify_eq|].
  destruct (handle_backfill_request node t i s) as [s1|] eqn:Hs1; [|done]. cbn [mbind option_bind] in Heq.
  etrans; [|by apply IH]. clear Heq. unfold handle_backfill_request, handle_follower_ahead, handle_term_mismatch in Hs1.
  repeat (case_match || case_decide || simplify_eq); first [apply typed_truncate_signal | by eapply typed_send_backfill].
Qed.

(** An appended entry. *)
Lemma typed_push_entry e s : typed_step s (push_entry e s).
Proof. unfold push_entry. case_decide; words. Qed.

Lemma typed_update_volatile idx s : u64 idx -> typed_step s (update_volatile_state idx s).
Proof. intros Hi. unfold update_volatile_state. words. Qed.

Lemma create_batch_push env msg idx id s e s' :
  create_and_append_log_entry env msg idx id s = Some (e, s') -> s' = push_entry e s.
Proof. unfold create_and_append_log_entry. destruct (mjoin _) as [e'|]; [|done]. simpl. by intros ?; simplify_eq. Qed.

Lemma create_noop_push env idx id s e s' :
  create_and_append_noop_entry env idx id s = Some (e, s') -> s' = push_entry e s.
Proof. unfold create_and_append_noop_entry. destruct (build_owned_log_entry _) as [e'|]; [|done]. simpl. by intros ?; simplify_eq. Qed.

Lemma typed_send_error msg cb s s' : send_error_response msg cb s = Some s' -> typed_step s s'.
Proof.
  unfold send_error_response. destruct (write_batch_response _); [|done]. simpl. intros ?; simplify_eq. apply typed_callback_ok.
Qed.

Lemma typed_write_batch env msg cb s s' : write_batch env msg cb s = Some s' -> typed_step s s'.
Proof.
  unfold write_batch. intros Heq. apply typed_step_with. intros Hok.
  pose proof (ok_next_message_id _ Hok) as Hid. pose proof (ok_next_log_index _ Hok) as Hidx. clear Hok.
  set (s0 := s <| next_message_id ::= fun n => n +! 1 |>) in *.
  assert (Hs0 : typed_step s s0) by (apply typed_next_message_id; intros z; apply u64_add_u64).
  etrans; [exact Hs0|]. destruct (validate_write_batch msg); [by eapply typed_send_error|].
  destruct (create_and_append_log_entry _ _ _ _ _) as [[e s1]|] eqn:Hc; [|done]. apply create_batch_push in Hc as ->.
  cbn [mbind option_bind] in Heq. etrans; [apply (typed_push_entry e)|].
  destruct (queue_persistence_task _ _ _) as [s2|] eqn:Hp; [|by eapply typed_send_error].
  injection Heq as <-. etrans; [eapply typed_send; [|exact Hp]; exact Hid|].
  etrans; [apply typed_push_all|]. etrans; [|by apply typed_update_volatile].
  by apply typed_register.
Qed.

Lemma typed_initialize env s s' :
  vlen (replication_log (volatile_server_state s)) < 2 ^ 64 -> initialize_leadership env s = Some s' -> typed_step s s'.
Proof.
  unfold initialize_leadership. intros Hlen Heq. apply typed_step_with. intros Hok.
  pose proof (vlen_nonneg (replication_log (volatile_server_state s))) as Hpos. clear Hok.
  set (idx := vlen _) in *. assert (Hidx : u64 idx) by done. set (s1 := push_all_quorum _ _) in *.
  assert (Hs1 : typed_step s s1) by (unfold s1; words). set (s2 := if decide _ then _ else _) in *.
  assert (Hs2 : same_but_broadcast s1 s2).
  { unfold s2. case_decide; [apply broadcast_committed_entries_frame|reflexivity]. }
  assert (Hnl : next_log_index (volatile_server_state s2) = idx) by (destruct Hs2 as (? & ? & ? & ? & ->); done).
  assert (Hmid : u64 (next_message_id s2)).
  { destruct Hs2 as (? & ? & ? & ? & ->). unfold s1. simpl. apply u64_add_u64. }
  rewrite Hnl in Heq. destruct (create_and_append_noop_entry _ _ _ _) as [[e s3]|] eqn:Hc; [|done].
  apply create_noop_push in Hc as ->. cbn [mbind option_bind] in Heq. injection Heq as <-.
  etrans; [exact Hs1|]. etrans; [by apply typed_broadcast|].
  etrans; [apply (typed_next_message_id (fun n => n +! 1)); intros; apply u64_add_u64|].
  etrans; [apply (typed_push_entry e)|]. etrans; [by apply (typed_send_default (PT_AppendLog (next_message_id s2) (as_bytes e) (next_message_id s2)))|].
  etrans; [apply typed_push_all|]. etrans; [|by apply typed_update_volatile].
  by apply typed_register.
Qed.

Lemma typed_leader_time_step env d s sc n d' s' :
  vlen (replication_log (volatile_server_state s)) < 2 ^ 64 ->
  Leader.time_step env d s = Some (sc, n, d', s') -> typed_step s s'.
Proof.
  intros Hlen. unfold Leader.time_step. destruct (if negb (initialized d) then _ else _) as [[[w d1] s1]|] eqn:H1; [|done].
  cbn [mbind option_bind]. destruct (process_persistence_responses _ _ _) as [[c s2]|] eqn:H2; [|done]. cbn [mbind option_bind].
  destruct (process_quorum_responses _ _ _ _) as [[[bs w3] s3]|] eqn:H3; [|done]. cbn [mbind option_bind].
  destruct (handle_backfill_requests _ _) as [s4|] eqn:H4; [|done]. cbn [mbind option_bind].
  pose proof (typed_retry s4) as H5. destruct (retry_deferred_broadcast s4) as [w5 s5]. intros ?; simplify_eq.
  assert (typed_step s s1).
  { destruct (initialized d); simpl in H1; [by simplify_eq|].
    destruct (initialize_leadership env s) as [s0|] eqn:Hi; [|done]. simpl in H1. simplify_eq.
    by eapply typed_initialize. }
  apply typed_leader_persistence in H2; [|done]. apply typed_leader_quorum in H3; [|done]. apply typed_backfills in H4.
  etrans; [done|]. etrans; [exact H2|]. etrans; [exact H3|]. by etrans.
Qed.

Lemma typed_leader_request_vote r cb d s :
  typed_message (mkLocalRaftMessage (RM_RequestVote r) cb) -> typed_step s (Leader.request_vote r cb d s).2.
Proof.
  intros (Ht & Hc & _). unfold Leader.request_vote. etrans; [apply (typed_observe (rv_term r))|].
  destruct (negb _); cbn [snd]; [apply typed_callback_ok|].
  destruct (persistence_send _ _) as [s1|] eqn:Hp; cbn [snd]; [|apply typed_callback_ok].
  intros Hok. by apply typed_grant.
Qed.

Lemma typed_leader_append env r cb d s :
  typed_message (mkLocalRaftMessage (RM_AppendEntries r) cb) ->
  typed_step s (Leader.append_entries env r cb d s).2.
Proof.
  intros (Ht & Hl & _). unfold Leader.append_entries, Leader.handle_new_leader.
  case_decide; cbn [snd]; [|apply typed_callback_ok].
  case_decide; (etrans; [|apply typed_callback_ok]); words.
Qed.

End leader.

(** ** Every step *)

Section node.
Context {CP : Capnp} {B : Type} `{Bus B}.
Implicit Types x : StateMachineExecutorImpl B.

Abbreviation log x := (replication_log (volatile_server_state (shared_state x))).

Lemma typed_time_step env x n x' :
  vlen (log x) < 2 ^ 64 -> Executor.time_step env x = Some (n, x') -> typed_step (shared_state x) (shared_state x').
Proof.
  intros Hlen. destruct x as [[d|d|d] s]; unfold Executor.time_step, delegate_time_step; simpl.
  - destruct (Follower.time_step env d s) as [[[[sc w] d1] s1]|] eqn:Ht; [|done]. simpl. intros ?; simplify_eq.
    by eapply typed_follower_time_step.
  - destruct (Candidate.time_step env d s) as [[[[sc w] d1] s1]|] eqn:Ht; [|done]. simpl. intros ?; simplify_eq.
    by eapply typed_candidate_time_step.
  - destruct (Leader.time_step env d s) as [[[[sc w] d1] s1]|] eqn:Ht; [|done]. simpl. intros ?; simplify_eq.
    by eapply typed_leader_time_step.
Qed.

Lemma typed_refused_write cb d s x' msg :
  (let* p := write_batch_response msg in
   Some (mkStateMachineExecutorImpl d (callback_send_ok cb p s))) = Some x' -> typed_step s (shared_state x').
Proof.
  destruct (write_batch_response _) as [p|]; [|done]. simpl. intros ?; simplify_eq. apply typed_callback_ok.
Qed.

Lemma typed_accept env m x x' :
  typed_message m -> accept env m x = Some x' -> typed_step (shared_state x) (shared_state x').
Proof.
  intros Hm. destruct m as [[r|r| |b] cb]; unfold accept, delegate_accept; simpl.
  - destruct (state_delegate x) as [d|d|d]; simpl.
    + destruct (Follower.request_vote r cb d _) as [[[sc d1] s1]|] eqn:Hr; [|done]. simpl. intros ?; simplify_eq.
      by eapply typed_follower_request_vote.
    + pose proof (typed_candidate_request_vote r cb d (shared_state x) Hm) as Hv.
      destruct (Candidate.request_vote r cb d _) as [[sc d1] s1]. intros ?; by simplify_eq.
    + pose proof (typed_leader_request_vote r cb d (shared_state x) Hm) as Hv.
      destruct (Leader.request_vote r cb d _) as [[sc d1] s1]. intros ?; by simplify_eq.
  - destruct (state_delegate x) as [d|d|d]; simpl.
    + pose proof (typed_follower_append env r cb d (shared_state x) Hm) as Hv.
      destruct (Follower.append_entries env r cb d _) as [[sc d1] s1]. intros ?; by simplify_eq.
    + pose proof (typed_candidate_append env r cb d (shared_state x) Hm) as Hv.
      destruct (Candidate.append_entries env r cb d _) as [[sc d1] s1]. intros ?; by simplify_eq.
    + pose proof (typed_leader_append env r cb d (shared_state x) Hm) as Hv.
      destruct (Leader.append_entries env r cb d _) as [[sc d1] s1]. intros ?; by simplify_eq.
  - destruct (state_delegate x); intros ?; simplify_eq; apply typed_callback_ok.
  - destruct (state_delegate x) as [d|d|d]; simpl; [apply typed_refused_write..|].
    destruct (write_batch env b cb _) as [s1|] eqn:Hw; [|done]. simpl. intros ?; simplify_eq.
    by eapply typed_write_batch.
Qed.

Lemma typed_any_step x x' :
  vlen (log x) < 2 ^ 64 -> step x x' -> typed_step (shared_state x) (shared_state x').
Proof.
  intros Hlen Hs Hok. destruct Hs as [env x n x' Ht|env m x x' Hm Ha|r d s Hr|r d s Hr|c n d s Hc|qs d s Hqs|cb d s].
  - by eapply typed_time_step.
  - by eapply typed_accept.
  - revert Hok. words.
  - revert Hok. words.
  - revert Hok. simpl. intros Hok. pose proof (ok_work _ Hok) as Hw. revert Hok. words.
    rewrite Hc. by apply Forall_drop.
  - revert Hok. words.
  - revert Hok. words.
Qed.

End node.

