(* ===== verification/NodeLog.v ===== *)
(** * The log of one node, handler by handler

    What every handler of the three roles does to the log, to the cursors at its end and to
    the entries the quorum workers are asked to send: nothing, the append of one entry, or a
    truncation.  [ClusterLog.v] composes these effects for several nodes. *)
From stdpp Require Import strings.
From S2P Require Import Prelude Capnp RaftTypes Bus RaftSm LogModel.
From S2P Require Import Follower FollowerSpec Leader LeaderSpec Candidate Executor Safety NodeTypes.

Section calm.
Context {CP : Capnp} {B : Type} `{Bus B}.
Implicit Types s : SharedState B.

Abbreviation log s := (replication_log (volatile_server_state s)).
Abbreviation tasks s := (quorum_worker_tasks s).

(** Log, cursors and the channel to the persistence worker are the same, and the quorum
    workers are only given entries of the log. *)
Definition calm s s' : Prop :=
  log s' = log s /\ log_tail s' = log_tail s /\
  chan_open (persistence_work s') = chan_open (persistence_work s) /\
  offers_from (log s) (tasks s) (tasks s').

#[export] Instance calm_preorder : PreOrder calm.
Proof.
  split; [done|]. intros s1 s2 s3 (Hl & ? & ? & ?) (? & ? & ? & H23). rewrite Hl in H23.
  unfold calm. split_and!; [congruence..|by etrans].
Qed.

Lemma calm_hushed s s' : hushed s s' -> calm s s'.
Proof. intros (_ & ? & _ & Hw & ? & ?). unfold calm. by rewrite Hw. Qed.

Lemma calm_quiet s s' : quiet s s' -> calm s s'.
Proof. intros. by apply calm_hushed, quiet_hushed. Qed.

Lemma calm_callback cb p s : calm s (callback_send_ok cb p s).
Proof. apply calm_quiet, quiet_callback_send_ok. Qed.

Lemma calm_send t s s' : persistence_send t s = Some s' -> calm s s'.
Proof. intros [Ho ->]%persistence_send_Some. unfold calm. simpl. by rewrite Ho. Qed.

(** Extends a chain of calm steps by an answer on a callback. *)
Ltac calm_answer := etrans; [|apply calm_callback].

(** ** Requests for votes *)

Lemma calm_observe t s : calm s (observe_vote_term t s).
Proof. unfold observe_vote_term. by case_decide. Qed.

Lemma observe_server_state t s : server_state (observe_vote_term t s) = server_state s.
Proof. unfold observe_vote_term. by case_decide. Qed.

Lemma callback_server_state cb p s : server_state (callback_send_ok cb p s) = server_state s.
Proof. by rewrite callback_send_ok_eq. Qed.

Lemma calm_leader_request_vote r cb d s :
  let '(sc, d', s') := Leader.request_vote r cb d s in
  calm s s' /\ server_state s' = server_state s /\ sc = SC_None /\ d' = d.
Proof.
  pose proof (calm_observe (rv_term r) s) as Ho. pose proof (observe_server_state (rv_term r) s) as Hs.
  unfold Leader.request_vote. destruct (negb _).
  - split_and!; [by calm_answer|by rewrite callback_server_state|done..].
  - destruct (persistence_send _ _) as [s1|] eqn:Hp.
    + split_and!; [|by apply persistence_send_Some in Hp as [_ ->]|done..].
      etrans; [exact Ho|]. by apply calm_send in Hp.
    + split_and!; [by calm_answer|by rewrite callback_server_state|done..].
Qed.

Lemma calm_candidate_request_vote r cb d s :
  let '(sc, d', s') := Candidate.request_vote r cb d s in calm s s' /\ sc = SC_None /\ d' = d.
Proof.
  pose proof (calm_leader_request_vote r cb (mkRaftLeaderStateDelegate 0 false) s) as Hl.
  unfold Leader.request_vote, Candidate.request_vote in *.
  destruct (negb _); [|destruct (persistence_send _ _)]; split_and!; by try apply Hl.
Qed.

Lemma calm_follower_request_vote r cb d s sc d' s' :
  Follower.request_vote r cb d s = Some (sc, d', s') -> calm s s' /\ sc = SC_None /\ d' = d.
Proof.
  pose proof (calm_observe (rv_term r) s) as Ho. unfold Follower.request_vote. destruct (negb _).
  - destruct (callback_send _ _ _) as [s1|] eqn:Hc; [|done]. simpl. intros ?; simplify_eq.
    split_and!; [|done..]. apply callback_send_Some in Hc as ->. exact Ho.
  - intros ?; simplify_eq. split_and!; [exact Ho|done..].
Qed.

(** ** Requests to append, without an entry or in another role *)

Lemma calm_heartbeat env r cb s timer : calm s (handle_heartbeat env r cb s timer).1.
Proof. apply calm_quiet, quiet_heartbeat. Qed.

Lemma calm_leader_append env r cb d s :
  let '(sc, d', s') := Leader.append_entries env r cb d s in
  calm s s' /\ d' = d /\
  ((sc = SC_None /\ server_state s' = server_state s) \/ exists fd, sc = SC_Follower fd).
Proof.
  unfold Leader.append_entries, Leader.handle_new_leader. case_decide.
  - split_and!; [|done|right; eauto]. case_decide; calm_answer;
      (etrans; [|apply calm_quiet, quiet_push_all; by intros e ?%elem_of_nil]; done).
  - split_and!; [apply calm_callback|done|left]. by rewrite callback_server_state.
Qed.

Lemma calm_candidate_append env r cb d s :
  let '(sc, d', s') := Candidate.append_entries env r cb d s in
  calm s s' /\ d' = d /\ (sc = SC_None \/ exists fd, sc = SC_Follower fd).
Proof.
  unfold Candidate.append_entries. case_decide.
  - split_and!; [case_decide; by calm_answer|done|right; eauto].
  - split_and!; [apply calm_callback|done|by left].
Qed.

End calm.

(** ** Appends *)

Section appends.
Context {CP : Capnp} {CL : CapnpLaws} {B : Type} `{Bus B}.
Implicit Types s : SharedState B.

Abbreviation log s := (replication_log (volatile_server_state s)).
Abbreviation tasks s := (quorum_worker_tasks s).

(** A follower takes the entry that names the end of its log. *)
Definition takes e s s' : Prop :=
  prev_log_index e = last_log_index (volatile_server_state s) /\
  prev_log_term e = last_log_term (volatile_server_state s) /\
  log s' = log s ++ [e] /\ last_log_index (volatile_server_state s') = index e /\
  last_log_term (volatile_server_state s') = term e /\
  chan_open (persistence_work s') = true /\ tasks s' = tasks s.

(** A leader appends an entry of its term at the end of its log. *)
Definition appends s s' : Prop :=
  exists e, readable e /\ follows (log s) e /\ term e = current_term (server_state s) /\
    log s' = log s ++ [e] /\ tail_wf (volatile_server_state s') /\
    next_log_index (volatile_server_state s') = vlen (log s') /\
    chan_open (persistence_work s') = true /\ server_state s' = server_state s /\
    offers_from (log s') (tasks s) (tasks s').

Lemma from_bytes_readable bytes e : from_bytes bytes = Some e -> readable e.
Proof.
  intros Heq. unfold readable. assert (as_bytes e = bytes) as ->; [|done].
  unfold from_bytes in Heq. by destruct (read_message_from_flat_slice bytes); simplify_eq.
Qed.

Lemma created_batch_readable env msg idx id s e s' :
  create_and_append_log_entry env msg idx id s = Some (e, s') -> readable e.
Proof.
  unfold create_and_append_log_entry, batch_with_message, build_owned_log_entry.
  destruct (read_message_from_flat_slice _) as [[r rest]|]; [|done]. destruct (write_batch_root r); [|done]. simpl.
  destruct (from_bytes _) as [e'|] eqn:He; [|done]. simpl. intros ?; simplify_eq. by eapply from_bytes_readable.
Qed.

Lemma created_noop_readable env idx id s e s' :
  create_and_append_noop_entry env idx id s = Some (e, s') -> readable e.
Proof.
  unfold create_and_append_noop_entry, build_owned_log_entry.
  destruct (from_bytes _) as [e'|] eqn:He; [|done]. simpl. intros ?; simplify_eq. by eapply from_bytes_readable.
Qed.

Lemma calm_follower_no_entry env r cb d s :
  a_entry r = None ->
  let '(sc, d', s') := Follower.append_entries env r cb d s in calm s s' /\ sc = SC_None.
Proof.
  intros He. assert (Ha : forall s1, calm s s1 -> calm s (apply_log_entry r cb s1)).
  { intros s1 H1. unfold apply_log_entry. rewrite He. cbn [note_received_entry]. rewrite from_bytes_nil.
    etrans; [exact H1|]. etrans; [|apply calm_callback]. done. }
  unfold Follower.append_entries, Follower.handle_new_leader, handle_non_consecutive_request,
    send_unrecognized_leader_response. rewrite He. case_decide.
  - destruct (validate_append_entries _ _ _); (split; [|done]); by (etrans; [|apply calm_callback]).
  - repeat case_decide; [|destruct (negb _)|]; try (split; [|done]).
    + pose proof (calm_heartbeat env r cb s (election_timer d)) as Hh.
      by destruct (handle_heartbeat _ _ _ _ _).
    + apply calm_callback.
    + by apply Ha.
    + apply calm_callback.
Qed.

(** The request the worker of a follower makes of an offered entry. *)
Lemma follower_entry_effect env e t leader id commit cb d s :
  readable e -> chan_open (persistence_work s) = true ->
  let '(sc, d', s') := Follower.append_entries env (entry_request e t leader id commit) cb d s in
  (calm s s' \/ takes e s s') /\ sc = SC_None.
Proof.
  intros Hr Ho. set (r := entry_request e t leader id commit).
  assert (Happly : forall s1, volatile_server_state s1 =
      (volatile_server_state s) <| next_term := next_term (volatile_server_state s1) |> ->
    persistence_work s1 = persistence_work s -> tasks s1 = tasks s ->
    validate_append_entries r (last_log_index (volatile_server_state s)) (last_log_term (volatile_server_state s)) = true ->
    takes e s (apply_log_entry r cb s1)).
  { intros s1 Hv Hw Hq Hval. destruct (apply_log_entry_spec e t leader id commit cb s1) as (Hl & Hi & Ht & _);
      [done|by rewrite Hw|]. fold r in Hl, Hi, Ht.
    unfold validate_append_entries in Hval. apply andb_prop in Hval as [Hpi%bool_decide_eq_true Hpt%bool_decide_eq_true].
    rewrite Hv in Hl. split_and!; [done..| |]; unfold apply_log_entry.
    all: simpl; rewrite Hr, persistence_send_open by (case_decide; simpl; by rewrite Hw); simpl.
    all: repeat case_decide; try match goal with |- context [update_commit_index ?n ?x] =>
      destruct (update_commit_index_frame n x) as (? & ? & ? & ? & ->) end; simpl; by rewrite ?Hw, ?Hq. }
  unfold Follower.append_entries, Follower.handle_new_leader, handle_non_consecutive_request,
    send_unrecognized_leader_response. case_decide.
  - simpl. match goal with |- context [validate_append_entries ?x ?y ?z] => destruct (validate_append_entries x y z) eqn:Hv end;
      simpl; (split; [|done]); [right; by apply Happly|left; by (etrans; [|apply calm_callback])].
  - repeat case_decide; [|destruct (validate_append_entries r _ _) eqn:Hv; simpl|]; try (split; [|done]).
    + pose proof (calm_heartbeat env r cb s (election_timer d)) as Hh.
      destruct (handle_heartbeat _ _ _ _ _). split; [by left|done].
    + right. apply Happly; try done. by destruct s as [? []].
    + left. apply calm_callback.
    + left. apply calm_callback.
Qed.

End appends.

(** ** The leader *)

Section leader.
Context {CP : Capnp} {CL : CapnpLaws} {B : Type} `{Bus B}.
Implicit Types s : SharedState B.

Abbreviation log s := (replication_log (volatile_server_state s)).
Abbreviation tasks s := (quorum_worker_tasks s).

(** Nothing changes that the log of a leader depends on. *)
Definition leader_calm s s' : Prop :=
  calm s s' /\ server_state s' = server_state s.

#[export] Instance leader_calm_preorder : PreOrder leader_calm.
Proof. split; [done|]. intros s1 s2 s3 [? ?] [? ?]. split; [by etrans|congruence]. Qed.

Lemma leader_calm_quiet s s' : quiet s s' -> leader_calm s s'.
Proof. intros Hq. split; [by apply calm_quiet|apply Hq]. Qed.

(** The end of an append: entry pushed, queued for persistence and dispatched. *)
Lemma dispatched_appends e id s s1 s2 :
  readable e -> tail_wf (volatile_server_state s) -> follows (log s) e ->
  term e = current_term (server_state s) -> append_ranges s ->
  queue_persistence_task id e (push_entry e s) = Some s1 ->
  server_state s2 = server_state s1 -> volatile_server_state s2 = volatile_server_state s1 ->
  persistence_work s2 = persistence_work s1 -> tasks s2 = tasks (dispatch_to_quorum id e s1) ->
  appends s (update_volatile_state (vlen (log s)) s2).
Proof.
  intros Hr Htail Hf Ht [Hlen _] Hq Hs2 Hv2 Hw2 Ht2. apply persistence_send_Some in Hq as [Ho ->].
  destruct (push_entry_spec e s) as [starts Hp]. rewrite Hp in *. simpl in Ho.
  exists e. pose proof (vlen_nonneg (log s)).
  split_and!; unfold update_volatile_state; simpl; rewrite ?Hs2, ?Hw2, ?Ht2, ?Hv2; try done.
  - unfold tail_wf. simpl. by rewrite last_index_of_snoc, last_term_of_snoc, Ht.
  - simpl. rewrite u64_add_small by lia. rewrite vlen_app. unfold vlen. simpl. lia.
  - simpl. apply offers_push_all. intros e'. simpl. rewrite elem_of_app, !list_elem_of_singleton. by right.
Qed.

Lemma write_batch_effect env b cb s s' :
  tail_wf (volatile_server_state s) -> append_ranges s -> u64 (next_message_id s) ->
  next_log_index (volatile_server_state s) = vlen (log s) -> chan_open (persistence_work s) = true ->
  write_batch env b cb s = Some s' -> leader_calm s s' \/ appends s s'.
Proof.
  intros Htail Ha Hid Hnext Hopen. unfold write_batch, validate_write_batch. destruct (is_empty b) eqn:He.
  - unfold send_error_response. destruct (write_batch_response _); [|done]. simpl. intros ?; simplify_eq.
    left. apply leader_calm_quiet. etrans; [|apply quiet_callback_send_ok]. done.
  - set (s0 := s <| next_message_id ::= fun n => n +! 1 |>).
    rewrite Hnext. destruct (create_and_append_log_entry _ _ _ _ _) as [[e s0']|] eqn:Hc; [|done].
    destruct (created_entry env b (vlen (log s)) (next_message_id s) s0 _ _ Htail Ha Hid eq_refl Hc) as (-> & Hf & Ht).
    apply created_batch_readable in Hc. cbn [mbind option_bind].
    destruct (queue_persistence_task _ _ _) as [s1|] eqn:Hq.
    + intros ?; simplify_eq. right. by eapply (dispatched_appends e (next_message_id s) s0 s1).
    + unfold queue_persistence_task in Hq. destruct (push_entry_spec e s0) as [starts Hp].
      rewrite Hp, persistence_send_open in Hq by done. done.
Qed.

Lemma initialize_effect env s s' :
  tail_wf (volatile_server_state s) -> append_ranges s -> chan_open (persistence_work s) = true ->
  initialize_leadership env s = Some s' -> appends s s'.
Proof.
  intros Htail Ha Hopen. unfold initialize_leadership.
  set (idx := vlen _). set (s1 := push_all_quorum _ _).
  set (s2 := if decide _ then _ else _).
  assert (same_but_broadcast s1 s2) as (b & w & c & d & Hs2).
  { unfold s2. case_decide; [apply broadcast_committed_entries_frame|reflexivity]. }
  assert (Htasks : offers_from (log s) (tasks s) (tasks s2)).
  { rewrite Hs2. simpl. apply offers_push_all. by intros e ?%elem_of_nil. }
  set (s3 := s2 <| next_message_id ::= fun n => n +! 1 |>).
  assert (Hidx : next_log_index (volatile_server_state s2) = idx) by by rewrite Hs2.
  assert (Hv : log s3 = log s /\ server_state s3 = server_state s /\ tail_wf (volatile_server_state s3) /\
    append_ranges s3 /\ chan_open (persistence_work s3) = true) by (unfold s3; rewrite Hs2; done).
  destruct Hv as (Hl & Hss & Htail3 & Ha3 & Ho3). rewrite Hidx.
  assert (Hid : u64 (next_message_id s2)) by (rewrite Hs2; apply u64_add_u64).
  assert (Htasks3 : tasks s3 = tasks s2) by done. clearbody s3 s2.
  destruct (create_noop_ok env idx (next_message_id s2) s3) as (_ & Hc & Hf & Ht); [done|done|done|by rewrite Hl|].
  rewrite Hc. apply created_noop_readable in Hc. cbn [mbind option_bind].
  set (e := mkOwnedLogEntry _) in *. clearbody e.
  destruct (queue_persistence_task _ _ _) as [s4|] eqn:Hq; cbn [default]; [|exfalso].
  - intros [= <-]. assert (idx = vlen (log s3)) as -> by by rewrite Hl.
    destruct (dispatched_appends e (next_message_id s2) s3 s4
      (register_noop_outstanding_message (next_message_id s2) (vlen (log s3)) (dispatch_to_quorum (next_message_id s2) e s4)))
      as (e' & Hr & Hf' & Ht' & Hl' & Htail' & Hn' & Ho' & Hs' & Hoff); [done..|].
    exists e'. rewrite Hl, Hss in *. split_and!; try done.
    rewrite Htasks3 in Hoff. etrans; [|exact Hoff]. intros e'' [?|?]%Htasks; [by left|right].
    rewrite Hl'. by apply elem_of_app; left.
  - unfold queue_persistence_task in Hq. destruct (push_entry_spec e s3) as [starts Hp].
    rewrite Hp, persistence_send_open in Hq by done. done.
Qed.

Lemma appends_calm_r s s1 s2 : appends s s1 -> leader_calm s1 s2 -> appends s s2.
Proof.
  intros (e & ? & ? & ? & Hl & [? ?] & ? & ? & ? & Hoff) [(Hl2 & Ht2 & Hw2 & Hoff2) Hs2].
  injection Ht2 as Hi Ht Hn. exists e. unfold tail_wf. rewrite Hl2. split_and!; try congruence.
  by etrans.
Qed.

Lemma leader_time_step_effect env d s sc n d' s' :
  tail_wf (volatile_server_state s) -> append_ranges s -> chan_open (persistence_work s) = true ->
  Leader.time_step env d s = Some (sc, n, d', s') ->
  sc = SC_None /\ initialized d' = true /\ if initialized d then leader_calm s s' else appends s s'.
Proof.
  intros Htail Ha Ho. unfold Leader.time_step.
  destruct (if negb (initialized d) then _ else _) as [[[w d1] s1]|] eqn:H1; [|done]. cbn [mbind option_bind].
  destruct (process_persistence_responses _ _ _) as [[c s2]|] eqn:H2; [|done]. cbn [mbind option_bind].
  destruct (process_quorum_responses _ _ _ _) as [[[bs w3] s3]|] eqn:H3; [|done]. cbn [mbind option_bind].
  destruct (handle_backfill_requests _ _) as [s4|] eqn:H4; [|done]. cbn [mbind option_bind].
  pose proof (quiet_retry_deferred s4) as H5. destruct (retry_deferred_broadcast s4) as [w5 s5]. intros [= <- <- <- <-].
  apply quiet_leader_persistence in H2. apply quiet_leader_quorum in H3. apply quiet_backfills in H4.
  assert (Hrest : leader_calm s1 s5).
  { apply leader_calm_quiet. etrans; [exact H2|]. etrans; [exact H3|]. by etrans. }
  split; [done|]. destruct (initialized d) eqn:Hd; simpl in H1.
  - injection H1 as <- <- <-. done.
  - destruct (initialize_leadership env s) as [s0|] eqn:Hi; [|done]. injection H1 as <- <- <-.
    split; [done|]. eapply appends_calm_r; [by eapply initialize_effect|done].
Qed.

End leader.

(** ** Time steps of the candidate and the follower *)

Section others.
Context {CP : Capnp} {B : Type} `{Bus B}.
Implicit Types s : SharedState B.

Abbreviation log s := (replication_log (volatile_server_state s)).
Abbreviation tasks s := (quorum_worker_tasks s).

(** A candidate stays one or becomes a leader that is not initialized yet. *)
Definition keeps_or_leads (sc : RaftMessageStateChange) : Prop :=
  sc = SC_None \/ exists ld, sc = SC_Leader ld /\ initialized ld = false.

Lemma candidate_persistence_change env q n s sc n' s' :
  Candidate.process_persistence env q n s = Some (sc, n', s') -> keeps_or_leads sc.
Proof.
  revert n s. induction q as [|t q IH]; intros n s; simpl; [intros ?; simplify_eq; by left|].
  destruct t as [id t c|id].
  - unfold Candidate.handle_vote_persisted.
    destruct (outstanding_messages _ !! id) as [msg|]; [|apply IH].
    destruct (message_type msg); try apply IH. case_decide; [|apply IH].
    unfold become_leader. intros ?; simplify_eq. right. by eexists.
  - destruct (Candidate.handle_log_persisted _ _) as [s1|]; [apply IH|done].
Qed.

Lemma candidate_quorum_change env q n s sc n' s' :
  Candidate.process_quorum env q n s = Some (sc, n', s') -> keeps_or_leads sc.
Proof.
  revert n s. induction q as [|t q IH]; intros n s; simpl; [intros ?; simplify_eq; by left|].
  destruct t as [id t v| | | |]; try apply IH.
  destruct (handle_vote_response env id t v _) as [[sc1 s1]|] eqn:Hr; [|done]. simpl.
  destruct sc1; [apply IH|..]; intros ?; simplify_eq.
  all: unfold handle_vote_response in Hr; destruct (outstanding_messages _ !! id) as [msg|]; [|done].
  all: destruct (message_type msg); try done.
  all: try (destruct (callback_send _ _ _); by simplify_eq/=).
  all: unfold become_leader in Hr; repeat case_decide; simplify_eq; right; by eexists.
Qed.

Lemma calm_election env now d s : calm s (start_election env now d s).2.
Proof.
  unfold start_election. cbn [snd]. set (s1 := push_all_quorum _ _).
  assert (calm s s1) as H1.
  { etrans; [|apply calm_quiet, quiet_push_all; by intros e ?%elem_of_nil]. done. }
  destruct (persistence_send _ s1) as [s2|] eqn:Hp; cbn [default].
  - apply calm_send in Hp. etrans; [exact H1|]. etrans; [exact Hp|]. done.
  - etrans; [exact H1|]. done.
Qed.

Lemma candidate_time_step_calm env d s sc n d' s' :
  Candidate.time_step env d s = Some (sc, n, d', s') -> calm s s' /\ keeps_or_leads sc.
Proof.
  unfold Candidate.time_step.
  destruct (Candidate.process_persistence _ _ _ _) as [[[sc1 w1] s1]|] eqn:H1; [|done]. cbn [mbind option_bind].
  pose proof (candidate_persistence_change _ _ _ _ _ _ _ H1) as Hk1. apply hushed_candidate_persistence, calm_hushed in H1.
  destruct sc1; [|intros ?; by simplify_eq..].
  destruct (Candidate.process_quorum _ _ _ _) as [[[sc2 w2] s2]|] eqn:H2; [|done]. cbn [mbind option_bind].
  pose proof (candidate_quorum_change _ _ _ _ _ _ _ H2) as Hk2. apply hushed_candidate_quorum, calm_hushed in H2.
  assert (H02 : calm s s2) by by etrans. destruct sc2; [|intros ?; by simplify_eq..].
  set (r := if timeout_expired _ _ then _ else _). assert (He : calm s2 r.2).
  { unfold r. destruct (timeout_expired _ _); [|done].
    pose proof (calm_election env (clock env 0%nat) d s2) as Hc. by destruct (start_election _ _ _ _). }
  destruct r as [[w3 d3] s3]. pose proof (quiet_retry_deferred s3) as H4%calm_quiet.
  destruct (retry_deferred_broadcast s3) as [w4 s4]. intros ?; simplify_eq. split; [|by left].
  etrans; [exact H02|]. etrans; [exact He|exact H4].
Qed.

(** The truncate signal names an entry of the log [l] by its index and term, or cuts nothing. *)
Definition signal_named l (r : LocalQuorumTaskResponseType) : Prop :=
  match r with
  | QR_TruncateLog _ t i => i +! 1 < vlen l -> exists e, vget l i = Some e /\ term e = t
  | _ => True
  end.

(** The log is cut, and its cursors with it. *)
Definition cuts s s' : Prop :=
  log s' `prefix_of` log s /\ tail_wf (volatile_server_state s') /\
  chan_open (persistence_work s') = true /\ offers_from (log s) (tasks s) (tasks s').

Lemma cuts_calm_r s s1 s2 : cuts s s1 -> calm s1 s2 -> cuts s s2.
Proof.
  intros (Hp & [Hi Ht] & Ho & Hoff) (Hl2 & Ht2 & Hw2 & Hoff2). injection Ht2 as Hi2 Ht2 _.
  unfold cuts, tail_wf. rewrite Hl2, Hw2, Hi2, Ht2. split_and!; try done.
  etrans; [exact Hoff|]. intros e [?|He]%Hoff2; [by left|right].
  destruct Hp as [k ->]. apply elem_of_app. by left.
Qed.

Lemma signal_named_prefix l l' r : l' `prefix_of` l -> vlen l < 2 ^ 64 - 1 -> signal_named l r -> signal_named l' r.
Proof.
  intros Hp Hlen. destruct r as [| | |node t i|]; try done. simpl. intros Hs Hlt. destruct Hp as [k ->].
  rewrite vlen_app in *. pose proof (vlen_nonneg k). destruct Hs as (e & Hg & Ht); [lia|].
  exists e. split; [|done]. rewrite <- Hg. symmetry. apply vget_app_l.
  pose proof (vget_lt _ _ _ Hg) as Hi. rewrite vlen_app in Hi. rewrite u64_add_small in Hlt by lia. lia.
Qed.

Lemma truncate_log_cuts t i s :
  log_wf (log s) -> tail_wf (volatile_server_state s) -> vlen (log s) < 2 ^ 64 - 1 ->
  chan_open (persistence_work s) = true -> signal_named (log s) (QR_TruncateLog 0 t i) ->
  cuts s (truncate_log t i s).
Proof.
  intros Hwf Htail Hlen Ho Hn. simpl in Hn. destruct (decide (i +! 1 < vlen (log s))) as [Hlt|Hge].
  - destruct (Hn Hlt) as (e & Hg & <-). destruct (truncate_log_cuts_after_named_entry i e s)
      as (_ & Htail' & Hl & _); [done|done|lia|done|done|].
    pose proof (vget_lt _ _ _ Hg). rewrite u64_add_small in Hlt by lia.
    destruct (truncate_log_long (term e) i s) as [starts Heq]; [lia..|done|].
    split_and!; [|done|by rewrite Heq..]. rewrite Hl. apply prefix_take.
  - unfold truncate_log. rewrite decide_False by done. by split_and!.
Qed.

Lemma follower_quorum_cuts q n s :
  log_wf (log s) -> tail_wf (volatile_server_state s) -> vlen (log s) < 2 ^ 64 - 1 ->
  chan_open (persistence_work s) = true -> Forall (signal_named (log s)) q ->
  cuts s (Follower.process_quorum q n s).2.
Proof.
  revert n s. induction q as [|t q IH]; intros n s Hwf Htail Hlen Ho Hq; simpl; [by split_and!|].
  inversion_clear Hq as [|? ? Ht Hrest]. set (s0 := s <| quorum_response := q |>).
  assert (Hc : cuts s (handle_quorum_response t s0)).
  { destruct t as [| | |node t i|]; try by split_and!. simpl.
    eapply cuts_calm_r; [by apply (truncate_log_cuts t i s0)|done]. }
  pose proof Hc as (Hp & Htail1 & Ho1 & Hoff1). destruct (IH (n + 1) (handle_quorum_response t s0))
    as (Hp2 & Htail2 & Ho2 & Hoff2); try done.
  - destruct Hp as [k Hk]. rewrite Hk in Hwf. by eapply log_wf_prefix.
  - destruct Hp as [k Hk]. rewrite Hk, vlen_app in Hlen. pose proof (vlen_nonneg k). lia.
  - eapply Forall_impl; [|exact Hrest]. intros r Hr. by eapply signal_named_prefix.
  - split_and!; [by etrans|done|done|]. etrans; [exact Hoff1|]. intros e [?|He]%Hoff2; [by left|right].
    destruct Hp as [k ->]. apply elem_of_app. by left.
Qed.

Lemma follower_time_step_cuts env d s sc n d' s' :
  log_wf (log s) -> tail_wf (volatile_server_state s) -> vlen (log s) < 2 ^ 64 - 1 ->
  chan_open (persistence_work s) = true -> Forall (signal_named (log s)) (quorum_response s) ->
  Follower.time_step env d s = Some (sc, n, d', s') ->
  cuts s s' /\ (sc = SC_None \/ exists cd, sc = SC_Candidate cd).
Proof.
  intros Hwf Htail Hlen Ho Hq. unfold Follower.time_step.
  destruct (Follower.process_persistence _ _ _) as [[w s1]|] eqn:H1; [|done]. cbn [mbind option_bind].
  pose proof (follower_persistence_keeps_quorum _ _ _ _ _ H1) as Hq1. apply quiet_follower_persistence, calm_quiet in H1.
  pose proof H1 as (Hl1 & Ht1 & Ho1 & _). injection Ht1 as Hi1 Ht1 _.
  assert (Hc : cuts s1 (Follower.process_quorum (quorum_response s1) w s1).2).
  { apply follower_quorum_cuts; unfold tail_wf; rewrite ?Hl1, ?Hi1, ?Ht1, ?Hq1; congruence || done. }
  destruct (Follower.process_quorum _ _ _) as [w2 s2]. pose proof (quiet_retry_deferred s2) as H3%calm_quiet.
  destruct (retry_deferred_broadcast s2) as [w3 s3]. simpl in *.
  assert (Hcuts : cuts s s3).
  { eapply cuts_calm_r in H3; [|exact Hc]. destruct H1 as (_ & _ & _ & Hoff1). destruct H3 as (Hp & Htl & Ho3 & Hoff3).
    rewrite Hl1 in *. split_and!; [done..|]. by etrans. }
  unfold check_timeout. case_decide; intros ?; simplify_eq; (split; [done|]); [right; by eexists|by left].
Qed.

End others.
