(* ===== verification/ClusterLog.v ===== *)
(** * The logs of a cluster

    Several nodes, each with its state machine, and the entries that have left a node in a
    task of a quorum worker.  The workers may deliver an offered entry to any node, once,
    several times or never, and in any order ([replication_round_trip] of
    [QuorumWorkerSpec.v] shows what they make of one).  The theorem is the log matching
    property of Raft, for the executions in which

    - every term has at most one leader (the votes alone do not ensure it, see [Safety.v]),
    - a truncate signal names an entry of the follower by its index and term, and
    - a new leader takes its first time step before its first write batch.

    The last two are conditions the code does not establish; [ClusterRuns.v] shows what happens
    without them, and [ClusterCrash.v] adds the disks and crashes. *)
From stdpp Require Import strings.
From S2P Require Import Prelude Capnp CapnpInstance RaftTypes Bus Samples RaftSm LogModel.
From S2P Require Import Follower FollowerSpec Leader LeaderSpec Candidate Executor Safety NodeTypes NodeLog.

(** ** Moves of a node *)

Section moves.
Context {CP : Capnp} {B : Type} `{Bus B}.
Implicit Types x : StateMachineExecutorImpl B.
Implicit Types s : SharedState B.

Abbreviation node_log x := (replication_log (volatile_server_state (shared_state x))).
Abbreviation tasks x := (quorum_worker_tasks (shared_state x)).

Definition is_leader x : bool :=
  match state_delegate x with D_Leader _ => true | _ => false end.

(** A message that brings no entry. *)
Definition no_entry (m : LocalRaftMessage) : bool :=
  match lrm_payload m with RM_AppendEntries r => bool_decide (a_entry r = None) | _ => true end.

(** A leader that has not taken its first time step gets no write batch. *)
Definition ready (m : LocalRaftMessage) x : bool :=
  match lrm_payload m, state_delegate x with
  | RM_WriteBatch _, D_Leader d => initialized d
  | _, _ => true
  end.

(** The truncate signals a follower is about to process name entries of its log. *)
Definition signals_named x : Prop :=
  match state_delegate x with
  | D_Follower _ => Forall (signal_named (node_log x)) (quorum_response (shared_state x))
  | _ => True
  end.

(** What can happen to the state machine of a node when the entries of [wire] have been sent. *)
Inductive live_move (wire : list OwnedLogEntry) x : StateMachineExecutorImpl B -> Prop :=
| move_tick env w x' : signals_named x -> Executor.time_step env x = Some (w, x') -> live_move wire x x'
| move_entry env e t leader rid commit cb x' :
    e ∈ wire -> typed_message (mkLocalRaftMessage (RM_AppendEntries (entry_request e t leader rid commit)) cb) ->
    accept env (mkLocalRaftMessage (RM_AppendEntries (entry_request e t leader rid commit)) cb) x = Some x' ->
    live_move wire x x'
| move_message env m x' :
    typed_message m -> no_entry m = true -> ready m x = true -> accept env m x = Some x' -> live_move wire x x'
| move_quorum_response r :
    typed_quorum r ->
    live_move wire x (mkStateMachineExecutorImpl (state_delegate x)
      ((shared_state x) <| quorum_response ::= fun q => q ++ [r] |>))
| move_quorum_tasks i n :
    live_move wire x (mkStateMachineExecutorImpl (state_delegate x)
      ((shared_state x) <| quorum_worker_tasks ::= alter (drop n) i |>))
| move_callback_dropped cb :
    live_move wire x (mkStateMachineExecutorImpl (state_delegate x)
      ((shared_state x) <| callbacks ; cb_dropped ::= fun c => {[cb]} ∪ c |>)).

(** The persistence worker takes tasks and answers; [ClusterCrash.v] says what it does. *)
Inductive node_move (wire : list OwnedLogEntry) x : StateMachineExecutorImpl B -> Prop :=
| move_live x' : live_move wire x x' -> node_move wire x x'
| move_persistence_response r :
    typed_persistence r ->
    node_move wire x (mkStateMachineExecutorImpl (state_delegate x)
      ((shared_state x) <| persistence_response ::= fun q => q ++ [r] |>))
| move_persistence_work n :
    node_move wire x (mkStateMachineExecutorImpl (state_delegate x)
      ((shared_state x) <| persistence_work ::= fun c => mkSender true (drop n (chan_queue c)) |>)).

Lemma live_step wire x x' : live_move wire x x' -> step x x'.
Proof.
  destruct x as [d s]. destruct 1 as [env w x' _ Ht|env e t l rid c cb x' _ Hm Ha|env m x' Hm _ _ Ha|r Hr|i n|cb]; simpl.
  - by eapply step_time.
  - by eapply step_accept.
  - by eapply step_accept.
  - by apply step_quorum_response.
  - apply (step_quorum_tasks (alter (drop n) i (quorum_worker_tasks s))). apply length_alter.
  - by apply step_callback_dropped.
Qed.

Lemma move_step wire x x' : node_move wire x x' -> step x x'.
Proof.
  destruct x as [d s]. destruct 1 as [x' Hx|r Hr|n]; simpl.
  - by eapply live_step.
  - by apply step_persistence_response.
  - by apply (step_persistence_work _ n).
Qed.

(** ** What a move does to the log *)

Record node_good x : Prop := {
  good_log : log_wf (node_log x);
  good_tail : tail_wf (volatile_server_state (shared_state x));
  good_readable : Forall readable (node_log x);
  good_terms : terms_positive (node_log x);
  good_open : chan_open (persistence_work (shared_state x)) = true;
  good_words : words_ok (shared_state x);
  good_length : vlen (node_log x) < 2 ^ 64 - 1;
  good_leader : forall d, state_delegate x = D_Leader d -> initialized d = true ->
    next_log_index (volatile_server_state (shared_state x)) = vlen (node_log x)
}.

(** A leader after the move was one before, of the same term, or has just been elected. *)
Definition keeps_leader x x' : Prop :=
  forall d', state_delegate x' = D_Leader d' ->
    (exists d, state_delegate x = D_Leader d /\ (initialized d' = true -> initialized d = true) /\
      server_state (shared_state x') = server_state (shared_state x)) \/
    (is_leader x = false /\ initialized d' = false).

Inductive node_effect (wire : list OwnedLogEntry) x x' : Prop :=
| effect_calm : calm (shared_state x) (shared_state x') -> keeps_leader x x' -> node_effect wire x x'
| effect_takes e : e ∈ wire -> takes e (shared_state x) (shared_state x') -> is_leader x' = false ->
    node_effect wire x x'
| effect_cuts : cuts (shared_state x) (shared_state x') -> is_leader x' = false -> node_effect wire x x'
| effect_appends d d' : state_delegate x = D_Leader d -> state_delegate x' = D_Leader d' ->
    appends (shared_state x) (shared_state x') -> node_effect wire x x'.

End moves.

Section effects.
Context {CP : Capnp} {CL : CapnpLaws} {B : Type} `{Bus B}.
Implicit Types x : StateMachineExecutorImpl B.
Implicit Types s : SharedState B.
Implicit Types wire : list OwnedLogEntry.

Lemma keeps_leader_same d s s' :
  server_state s' = server_state s ->
  keeps_leader (mkStateMachineExecutorImpl d s) (mkStateMachineExecutorImpl d s').
Proof. intros Hs d' Hd'. left. exists d'. by split_and!. Qed.

Lemma keeps_leader_other x x' : is_leader x' = false -> keeps_leader x x'.
Proof. intros Hf d Hd. unfold is_leader in Hf. by rewrite Hd in Hf. Qed.

Lemma append_ranges_good x : node_good x -> append_ranges (shared_state x).
Proof.
  intros Hg. split_and!; [pose proof (good_length _ Hg); lia|apply Hg|apply Hg].
Qed.

Lemma tick_effect wire env x w x' :
  node_good x -> signals_named x -> Executor.time_step env x = Some (w, x') -> node_effect wire x x'.
Proof.
  intros Hg Hs. pose proof (append_ranges_good x Hg) as Ha. destruct x as [[d|d|d] s];
    unfold Executor.time_step, delegate_time_step; simpl in *.
  - destruct (Follower.time_step env d s) as [[[[sc n] d1] s1]|] eqn:Ht; [|done]. simpl. intros ?; simplify_eq.
    apply follower_time_step_cuts in Ht as [Hc Hsc]; [|apply Hg..|done].
    apply effect_cuts; [done|]. by destruct Hsc as [->|[cd ->]].
  - destruct (Candidate.time_step env d s) as [[[[sc n] d1] s1]|] eqn:Ht; [|done]. simpl. intros ?; simplify_eq.
    apply candidate_time_step_calm in Ht as [Hc Hsc]. apply effect_calm; [done|].
    destruct Hsc as [->|(ld & -> & Hi)]; intros d' Hd'; simpl in Hd'; simplify_eq. by right.
  - destruct (Leader.time_step env d s) as [[[[sc n] d1] s1]|] eqn:Ht; [|done]. simpl. intros ?; simplify_eq.
    apply leader_time_step_effect in Ht as (-> & Hi & Heff); [|apply Hg|done|apply Hg].
    destruct (initialized d) eqn:Hd; [|by eapply (effect_appends _ _ _ d d1)].
    destruct Heff as [Hc Hss]. apply effect_calm; [done|]. intros d' Hd'. left. exists d. by split_and!.
Qed.

Lemma entry_effect wire env e t leader rid commit cb x x' :
  node_good x -> readable e -> e ∈ wire ->
  accept env (mkLocalRaftMessage (RM_AppendEntries (entry_request e t leader rid commit)) cb) x = Some x' ->
  node_effect wire x x'.
Proof.
  intros Hg Hr He. destruct x as [[d|d|d] s]; unfold accept, delegate_accept; simpl.
  - pose proof (follower_entry_effect env e t leader rid commit cb d s Hr (good_open _ Hg)) as Hf.
    destruct (Follower.append_entries _ _ _ _ _) as [[sc d1] s1]. destruct Hf as [[Hc|Htk] ->]; intros ?; simplify_eq.
    + apply effect_calm; [done|by apply keeps_leader_other].
    + by apply (effect_takes _ _ _ e).
  - pose proof (calm_candidate_append env (entry_request e t leader rid commit) cb d s) as Hf.
    destruct (Candidate.append_entries _ _ _ _ _) as [[sc d1] s1]. destruct Hf as (Hc & -> & Hsc). intros ?; simplify_eq.
    apply effect_calm; [done|]. apply keeps_leader_other. by destruct Hsc as [->|[fd ->]].
  - pose proof (calm_leader_append env (entry_request e t leader rid commit) cb d s) as Hf.
    destruct (Leader.append_entries _ _ _ _ _) as [[sc d1] s1]. destruct Hf as (Hc & -> & Hsc). intros ?; simplify_eq.
    apply effect_calm; [done|]. destruct Hsc as [[-> Hss]|[fd ->]]; [by apply keeps_leader_same|by apply keeps_leader_other].
Qed.

(** A request to append without an entry. *)
Lemma no_entry_effect wire env r cb x x' :
  a_entry r = None -> accept env (mkLocalRaftMessage (RM_AppendEntries r) cb) x = Some x' -> node_effect wire x x'.
Proof.
  intros Hr. destruct x as [[d|d|d] s]; unfold accept, delegate_accept; simpl.
  - pose proof (calm_follower_no_entry env r cb d s Hr) as Hf.
    destruct (Follower.append_entries _ _ _ _ _) as [[sc d1] s1]. destruct Hf as [Hc ->]; intros ?; simplify_eq.
    apply effect_calm; [done|by apply keeps_leader_other].
  - pose proof (calm_candidate_append env r cb d s) as Hf.
    destruct (Candidate.append_entries _ _ _ _ _) as [[sc d1] s1]. destruct Hf as (Hc & -> & Hsc). intros ?; simplify_eq.
    apply effect_calm; [done|]. apply keeps_leader_other. by destruct Hsc as [->|[fd ->]].
  - pose proof (calm_leader_append env r cb d s) as Hf.
    destruct (Leader.append_entries _ _ _ _ _) as [[sc d1] s1]. destruct Hf as (Hc & -> & Hsc). intros ?; simplify_eq.
    apply effect_calm; [done|]. destruct Hsc as [[-> Hss]|[fd ->]]; [by apply keeps_leader_same|by apply keeps_leader_other].
Qed.

Lemma vote_effect_on_log wire env r cb x x' :
  accept env (mkLocalRaftMessage (RM_RequestVote r) cb) x = Some x' -> node_effect wire x x'.
Proof.
  destruct x as [[d|d|d] s]; unfold accept, delegate_accept; simpl.
  - destruct (Follower.request_vote _ _ _ _) as [[[sc d1] s1]|] eqn:Hv; [|done]. simpl. intros ?; simplify_eq.
    apply calm_follower_request_vote in Hv as (Hc & -> & ->). apply effect_calm; [done|by apply keeps_leader_other].
  - pose proof (calm_candidate_request_vote r cb d s) as Hf.
    destruct (Candidate.request_vote _ _ _ _) as [[sc d1] s1]. destruct Hf as (Hc & -> & ->). intros ?; simplify_eq.
    apply effect_calm; [done|by apply keeps_leader_other].
  - pose proof (calm_leader_request_vote r cb d s) as Hf.
    destruct (Leader.request_vote _ _ _ _) as [[sc d1] s1]. destruct Hf as (Hc & Hss & -> & ->). intros ?; simplify_eq.
    apply effect_calm; [done|by apply keeps_leader_same].
Qed.

Lemma refused_write_effect wire cb d s x' msg :
  is_leader (mkStateMachineExecutorImpl d s) = false ->
  (let* p := write_batch_response msg in Some (mkStateMachineExecutorImpl d (callback_send_ok cb p s))) = Some x' ->
  node_effect wire (mkStateMachineExecutorImpl d s) x'.
Proof.
  intros Hd. destruct (write_batch_response _) as [p|]; [|done]. simpl. intros ?; simplify_eq.
  apply effect_calm; [apply calm_callback|by apply keeps_leader_other].
Qed.

Lemma write_effect wire env b cb x x' :
  node_good x -> ready (mkLocalRaftMessage (RM_WriteBatch b) cb) x = true ->
  accept env (mkLocalRaftMessage (RM_WriteBatch b) cb) x = Some x' -> node_effect wire x x'.
Proof.
  intros Hg Hready. destruct x as [[d|d|d] s]; unfold accept, delegate_accept; simpl;
    [by apply refused_write_effect..|].
  destruct (write_batch env b cb s) as [s1|] eqn:Hw; [|done]. simpl. intros ?; simplify_eq.
  apply write_batch_effect in Hw as [[Hc Hss]|Happ].
  - apply effect_calm; [done|by apply keeps_leader_same].
  - by eapply (effect_appends _ _ _ d d).
  - apply Hg.
  - by apply (append_ranges_good _ Hg).
  - apply (good_words _ Hg).
  - by apply (good_leader _ Hg d).
  - apply Hg.
Qed.

Lemma offers_alter_drop l i n (q : list (list LocalQuorumWorkerTaskType)) : offers_from l q (alter (drop n) i q).
Proof.
  intros e (ts & t & Hts & Ht & He)%elem_of_offered. left. apply elem_of_offered.
  apply list_elem_of_lookup in Hts as [j Hj]. destruct (decide (i = j)) as [->|Hne].
  - rewrite list_lookup_alter_eq in Hj. destruct (q !! j) as [ts0|] eqn:Hq; simplify_eq/=.
    exists ts0, t. apply list_elem_of_lookup in Ht as [k Hk]. rewrite lookup_drop in Hk.
    split_and!; [by apply list_elem_of_lookup_2 in Hq|by apply list_elem_of_lookup_2 in Hk|done].
  - rewrite list_lookup_alter_ne in Hj by done. exists ts, t. by apply list_elem_of_lookup_2 in Hj.
Qed.

Lemma live_effect wire x x' :
  node_good x -> Forall readable wire -> live_move wire x x' -> node_effect wire x x'.
Proof.
  intros Hg Hw. destruct 1 as [env w x' Hs Ht|env e t l rid c cb x' He _ Ha|env [[r|r| |b] cb] x' _ Hn Hr Ha|r Hr|i n|cb].
  - by eapply tick_effect.
  - eapply entry_effect; [done| |done..]. rewrite Forall_forall in Hw. by apply Hw, list_elem_of_In.
  - by eapply vote_effect_on_log.
  - apply (no_entry_effect wire) in Ha; [done|]. by apply bool_decide_eq_true in Hn.
  - destruct x as [[d|d|d] s]; unfold accept, delegate_accept in Ha; simpl in Ha; simplify_eq;
      (apply effect_calm; [apply calm_callback|apply keeps_leader_same, callback_server_state]).
  - by eapply write_effect.
  - destruct x. by apply effect_calm; [|apply keeps_leader_same].
  - destruct x. apply effect_calm; [|by apply keeps_leader_same]. split_and!; try done. apply offers_alter_drop.
  - destruct x. by apply effect_calm; [|apply keeps_leader_same].
Qed.

Lemma move_effect wire x x' :
  node_good x -> Forall readable wire -> node_move wire x x' -> node_effect wire x x'.
Proof.
  intros Hg Hw. destruct 1 as [x' Hx|r Hr|n]; [by apply live_effect| |].
  - destruct x. by apply effect_calm; [|apply keeps_leader_same].
  - pose proof (good_open _ Hg) as Ho. destruct x. apply effect_calm; [|by apply keeps_leader_same]. by split_and!.
Qed.

End effects.

(** ** The logs there have been

    Pure list reasoning: [past] holds every log a node has had. *)

Section history.
Context {CP : Capnp}.
Implicit Types past : list (list OwnedLogEntry).
Implicit Types l : list OwnedLogEntry.

(** Where two logs have an entry of the same term, the shorter of the two prefixes that end
    in these entries is a prefix of the other. *)
Definition logs_match l1 l2 : Prop :=
  forall i j e1 e2, vget l1 i = Some e1 -> vget l2 j = Some e2 -> term e1 = term e2 -> i <= j ->
  vtruncate (i + 1) l1 `prefix_of` vtruncate (j + 1) l2.

Definition well_written (led : gset Z) l : Prop :=
  log_wf l /\ terms_positive l /\ Forall readable l /\ Forall (fun e => term e ∈ led) l.

Definition history_ok (led : gset Z) past : Prop :=
  Forall (well_written led) past /\ forall l1 l2, l1 ∈ past -> l2 ∈ past -> logs_match l1 l2.

Lemma prefix_get l l' i e : l `prefix_of` l' -> vget l i = Some e -> vget l' i = Some e.
Proof. intros [k ->] Hg. pose proof (vget_lt _ _ _ Hg). by rewrite vget_app_l by lia. Qed.

Lemma prefix_truncate l l' n : l `prefix_of` l' -> n <= vlen l -> vtruncate n l = vtruncate n l'.
Proof. intros [k ->] Hn. unfold vtruncate, vlen in *. rewrite take_app_le; [done|]. lia. Qed.

Lemma truncate_mono n m l : n <= m -> vtruncate n l `prefix_of` vtruncate m l.
Proof.
  intros Hnm. unfold vtruncate. replace (Z.to_nat n) with (Z.to_nat n `min` Z.to_nat m)%nat by lia.
  rewrite <- take_take. apply prefix_take.
Qed.

Lemma logs_match_refl l : logs_match l l.
Proof. intros i j e1 e2 _ _ _ Hij. apply truncate_mono. lia. Qed.

Lemma logs_match_prefix l1 l1' l2 l2' :
  l1 `prefix_of` l1' -> l2 `prefix_of` l2' -> logs_match l1' l2' -> logs_match l1 l2.
Proof.
  intros H1 H2 Hm i j e1 e2 Hg1 Hg2 Ht Hij. pose proof (vget_lt _ _ _ Hg1). pose proof (vget_lt _ _ _ Hg2).
  rewrite (prefix_truncate l1 l1'), (prefix_truncate l2 l2') by (done || lia).
  apply (Hm i j e1 e2); [by eapply prefix_get|by eapply prefix_get|done..].
Qed.

(** At the same index the two prefixes are equal. *)
Lemma logs_match_eq l1 l2 i e1 e2 :
  logs_match l1 l2 -> vget l1 i = Some e1 -> vget l2 i = Some e2 -> term e1 = term e2 ->
  vtruncate (i + 1) l1 = vtruncate (i + 1) l2.
Proof.
  intros Hm H1 H2 Ht. pose proof (Hm i i e1 e2 H1 H2 Ht ltac:(lia)) as Hp.
  pose proof (vget_lt _ _ _ H1). pose proof (vget_lt _ _ _ H2).
  apply prefix_length_eq; [done|]. pose proof (vlen_truncate (i + 1) l1 ltac:(lia)).
  pose proof (vlen_truncate (i + 1) l2 ltac:(lia)). unfold vlen in *. lia.
Qed.

Lemma well_written_prefix led l l' : l `prefix_of` l' -> well_written led l' -> well_written led l.
Proof.
  intros [k ->] (Hw & Ht & Hr & Hl). unfold well_written, terms_positive in *.
  rewrite !Forall_app in *. split_and!; [by eapply log_wf_prefix|apply Ht|apply Hr|apply Hl].
Qed.

(** A prefix of a known log may be added. *)
Lemma history_prefix led past l l' :
  history_ok led past -> l' ∈ past -> l `prefix_of` l' -> history_ok led (l :: past).
Proof.
  intros [Hw Hm] Hl' Hp. rewrite Forall_forall in Hw. split.
  - constructor; [eapply well_written_prefix; [done|by apply Hw, list_elem_of_In]|by rewrite Forall_forall].
  - assert (Hpre : forall l1, l1 ∈ l :: past -> exists l1', l1' ∈ past /\ l1 `prefix_of` l1').
    { intros l1 [->|H1]%elem_of_cons; [by exists l'|by exists l1]. }
    intros l1 l2 (l1' & H1 & Hp1)%Hpre (l2' & H2 & Hp2)%Hpre. eapply logs_match_prefix; [done..|]. by apply Hm.
Qed.

(** The next entry of a leader whose log has everything that was written in its term. *)
Lemma history_append led past l e :
  history_ok led past -> l ∈ past -> follows l e -> readable e -> 0 < term e -> term e ∈ led ->
  (forall l2 i e2, l2 ∈ past -> vget l2 i = Some e2 -> term e2 = term e -> vtruncate (i + 1) l2 `prefix_of` l) ->
  history_ok led ((l ++ [e]) :: past).
Proof.
  intros [Hw Hm] Hl Hf Hr Hpos Hled Hall. assert (Hwl : well_written led l).
  { rewrite Forall_forall in Hw. by apply Hw, list_elem_of_In. }
  assert (Hcase : forall i e1, vget (l ++ [e]) i = Some e1 -> vget l i = Some e1 \/ (i = vlen l /\ e1 = e)).
  { intros i e1 Hg. pose proof (vget_lt _ _ _ Hg) as Hi. rewrite vlen_app in Hi. unfold vlen in Hi at 2. simpl in Hi.
    destruct (decide (i = vlen l)) as [->|]; [right; rewrite vget_app_last in Hg; by simplify_eq|left].
    by rewrite vget_app_l in Hg by lia. }
  assert (Hshort : forall l2 i e2, l2 ∈ past -> vget l2 i = Some e2 -> term e2 = term e -> i < vlen l).
  { intros l2 i e2 H2 Hg Ht. pose proof (vget_lt _ _ _ Hg). pose proof (prefix_length _ _ (Hall l2 i e2 H2 Hg Ht)).
    pose proof (vlen_truncate (i + 1) l2 ltac:(lia)). unfold vlen in *. lia. }
  assert (Hlast : vtruncate (vlen l + 1) (l ++ [e]) = l ++ [e]).
  { apply vtruncate_ge. rewrite vlen_app. unfold vlen. simpl. lia. }
  split.
  - constructor; [|done]. destruct Hwl as (? & ? & ? & ?). unfold well_written, terms_positive in *.
    rewrite !Forall_app, !Forall_singleton. split_and!; try done. by constructor.
  - assert (Hpre : l `prefix_of` l ++ [e]) by by exists [e].
    intros l1 l2 [->|H1]%elem_of_cons [->|H2]%elem_of_cons; [apply logs_match_refl|..|by apply Hm].
    + intros i j e1 e2 Hg1 Hg2 Ht Hij. destruct (Hcase i e1 Hg1) as [Hg1'|[-> ->]].
      * pose proof (vget_lt _ _ _ Hg1'). rewrite <- (prefix_truncate l (l ++ [e])) by (done || lia). by apply (Hm l l2 Hl H2 i j e1 e2).
      * pose proof (Hshort l2 j e2 H2 Hg2 ltac:(congruence)). lia.
    + intros i j e1 e2 Hg1 Hg2 Ht Hij. destruct (Hcase j e2 Hg2) as [Hg2'|[-> ->]].
      * pose proof (vget_lt _ _ _ Hg2'). rewrite <- (prefix_truncate l (l ++ [e])) by (done || lia). by apply (Hm l1 l H1 Hl i j e1 e2).
      * rewrite Hlast. etrans; [by apply (Hall l1 i e1)|done].
Qed.

Lemma last_term_get l : l <> [] -> exists e, vget l (vlen l - 1) = Some e /\ last_term_of l = term e.
Proof.
  destruct l as [|e l _] using rev_ind; [done|]. intros _. exists e. rewrite last_term_of_snoc, vlen_app.
  replace (vlen l + vlen [e] - 1) with (vlen l) by (unfold vlen; simpl; lia). by rewrite vget_app_last.
Qed.

(** An entry that names the end of a known log as its predecessor extends it to a prefix of
    the log the entry comes from. *)
Lemma history_extend led past l e l' :
  history_ok led past -> l ∈ past -> l' ∈ past -> e ∈ l' ->
  prev_log_index e = last_index_of l -> prev_log_term e = last_term_of l ->
  (l ++ [e]) `prefix_of` l'.
Proof.
  intros [Hw Hm] Hl Hl' He Hpi Hpt. rewrite Forall_forall in Hw.
  destruct (Hw l' (proj1 (list_elem_of_In _ _) Hl')) as (Hwf' & Hpos' & _).
  destruct (Hw l (proj1 (list_elem_of_In _ _) Hl)) as (_ & Hpos & _).
  apply list_elem_of_lookup in He as [j Hj]. rewrite <- vget_nat in Hj. set (i := Z.of_nat j) in *.
  pose proof (vget_lt _ _ _ Hj) as Hi. destruct (log_wf_follows _ _ _ Hwf' Hj) as (_ & Hpi' & Hpt').
  rewrite Hpi in Hpi'. rewrite Hpt in Hpt'.
  assert (Hlen : vlen l = vlen (vtruncate i l')).
  { by apply last_determines_length; [|by apply terms_positive_truncate|..]. }
  rewrite vlen_truncate in Hlen by lia. assert (Hli : vlen l = i) by lia.
  assert (l = vtruncate i l') as Heq.
  { destruct (decide (l = [])) as [->|Hne]; [by rewrite <- Hli|].
    destruct (last_term_get l Hne) as (e1 & Hg1 & Ht1).
    destruct (vget_is_Some l' (vlen l - 1)) as [e2 Hg2]; [pose proof (vget_lt _ _ _ Hg1); lia|].
    assert (Ht2 : last_term_of (vtruncate i l') = term e2).
    { destruct (last_term_get (vtruncate i l')) as (e3 & Hg3 & ->).
      - intros Hnil%(f_equal vlen). rewrite vlen_truncate in Hnil by lia. pose proof (vget_lt _ _ _ Hg1).
        change (vlen (@nil OwnedLogEntry)) with 0 in Hnil. lia.
      - rewrite vlen_truncate in Hg3 by lia. rewrite vget_truncate in Hg3 by lia.
        replace (Z.min i (vlen l') - 1) with (vlen l - 1) in Hg3 by lia. congruence. }
    pose proof (logs_match_eq _ _ _ _ _ (Hm l l' Hl Hl') Hg1 Hg2 ltac:(congruence)) as Heq.
    replace (vlen l - 1 + 1) with (vlen l) in Heq by lia. rewrite vtruncate_ge in Heq by lia. by rewrite Hli in Heq. }
  rewrite Heq, <- (vtruncate_S _ _ _ Hj). apply prefix_take.
Qed.

(** Logs that match in the last entry of one of them. *)
Lemma match_last lx ly i e1 e2 :
  logs_match lx ly -> vget lx i = Some e1 -> vget ly i = Some e2 -> i = vlen ly - 1 -> term e1 = term e2 ->
  vtruncate (i + 1) lx = ly.
Proof. intros Hm H1 H2 Hi Ht. rewrite (logs_match_eq _ _ _ _ _ Hm H1 H2 Ht). apply vtruncate_ge. lia. Qed.

(** What the backwards walk of the leader finds, the follower has too. *)
Lemma found_term_named lx ly i e t j :
  logs_match lx ly -> vget ly i = Some e -> i = vlen ly - 1 -> i < vlen lx ->
  find_matching_term lx (term e) (Z.to_nat i) = Some (t, j) ->
  (exists e', vget ly j = Some e' /\ term e' = t) /\ vtruncate (j + 1) ly = vtruncate (j + 1) lx.
Proof.
  intros Hm He Hi Hlt Hf. pose proof (vget_lt _ _ _ He).
  pose proof (find_matching_term_correct lx (term e) (Z.to_nat i) ltac:(unfold vlen in *; lia)) as Hspec.
  rewrite Hf in Hspec. destruct Hspec as (-> & Hj & (e1 & Hg & Ht) & _).
  pose proof (Hm j i e1 e Hg He Ht ltac:(lia)) as Hpre. rewrite (vtruncate_ge _ ly) in Hpre by lia.
  assert (Hget : vget ly j = Some e1) by (eapply prefix_get; [exact Hpre|]; rewrite vget_truncate; [done|lia]).
  split; [by exists e1|]. symmetry. by eapply logs_match_eq.
Qed.

End history.

(** ** The cluster *)

Section cluster.
Context {CP : Capnp} {CL : CapnpLaws} {B : Type} `{Bus B}.
Implicit Types x : StateMachineExecutorImpl B.

Abbreviation node_log x := (replication_log (volatile_server_state (shared_state x))).
Abbreviation tasks x := (quorum_worker_tasks (shared_state x)).
Abbreviation node_term x := (current_term (server_state (shared_state x))).

(** The nodes, the entries that were in a task of a quorum worker, and the terms that have
    had a leader. *)
Record Cluster := mkCluster {
  nodes : list (StateMachineExecutorImpl B);
  wire : list OwnedLogEntry;
  led : gset Z
}.
Implicit Types c : Cluster.

Definition elected x x' : bool := negb (is_leader x) && is_leader x'.

(** Node [n] becomes [x']. *)
Definition moved (n : nat) x x' c : Cluster :=
  mkCluster (<[n := x']> (nodes c)) (wire c ++ offered (tasks x'))
    (if elected x x' then {[node_term x']} ∪ led c else led c).

(** Election safety: a term a node is elected for has not had a leader. *)
Definition election_safe x x' c : Prop := elected x x' = true -> 0 < node_term x' /\ node_term x' ∉ led c.

Inductive cluster_step c : Cluster -> Prop :=
| cluster_move n x x' :
    nodes c !! n = Some x -> node_move (wire c) x x' -> vlen (node_log x') < 2 ^ 64 - 1 ->
    election_safe x x' c -> cluster_step c (moved n x x' c).

(** Nodes that have just started without files. *)
Definition cluster_start c : Prop :=
  Forall (fun x => is_leader x = false /\ node_log x = [] /\ tail_wf (volatile_server_state (shared_state x)) /\
    chan_open (persistence_work (shared_state x)) = true /\ words_ok (shared_state x) /\
    offered (tasks x) = []) (nodes c) /\ wire c = [] /\ led c = ∅.

(** The log of a leader contains everything that was ever written in its term. *)
Definition leads (past : list (list OwnedLogEntry)) (led : gset Z) x : Prop :=
  0 < node_term x /\ node_term x ∈ led /\
  forall l i e, l ∈ past -> vget l i = Some e -> term e = node_term x -> vtruncate (i + 1) l `prefix_of` node_log x.

Record cluster_inv (past : list (list OwnedLogEntry)) c : Prop := {
  inv_history : history_ok (led c) past;
  inv_good : forall n x, nodes c !! n = Some x -> node_good x;
  inv_past : forall n x, nodes c !! n = Some x -> node_log x ∈ past;
  inv_wire : forall e, e ∈ wire c -> exists l, l ∈ past /\ e ∈ l;
  inv_tasks : forall n x, nodes c !! n = Some x -> forall e, e ∈ offered (tasks x) -> e ∈ wire c;
  inv_leads : forall n x, nodes c !! n = Some x -> is_leader x = true -> leads past (led c) x;
  inv_unique : forall n m x y, nodes c !! n = Some x -> nodes c !! m = Some y ->
    is_leader x = true -> is_leader y = true -> node_term x = node_term y -> n = m
}.

Lemma well_written_led led led' l : led ⊆ led' -> well_written led l -> well_written led' l.
Proof.
  intros Hsub (? & ? & ? & Hl). unfold well_written. split_and!; [done..|].
  eapply Forall_impl; [|exact Hl]. intros e. simpl. set_solver.
Qed.

Lemma history_led led led' past : led ⊆ led' -> history_ok led past -> history_ok led' past.
Proof.
  intros Hsub [Hw Hm]. split; [|done]. eapply Forall_impl; [|exact Hw]. intros l. by apply well_written_led.
Qed.

Lemma written_terms led past l e : history_ok led past -> l ∈ past -> e ∈ l -> term e ∈ led.
Proof.
  intros [Hw _] Hl He. rewrite Forall_forall in Hw.
  destruct (Hw l (proj1 (list_elem_of_In _ _) Hl)) as (_ & _ & _ & Ht). rewrite Forall_forall in Ht.
  by apply Ht, list_elem_of_In.
Qed.

Lemma history_written led past l : history_ok led past -> l ∈ past -> well_written led l.
Proof. intros [Hw _] Hl. rewrite Forall_forall in Hw. by apply Hw, list_elem_of_In. Qed.

Lemma wire_readable past c : cluster_inv past c -> Forall readable (wire c).
Proof.
  intros Hinv. rewrite Forall_forall. intros e He%list_elem_of_In.
  destruct (inv_wire _ _ Hinv e He) as (l & Hl & Hel).
  destruct (history_written _ _ _ (inv_history _ _ Hinv) Hl) as (_ & _ & Hr & _).
  rewrite Forall_forall in Hr. by apply Hr, list_elem_of_In.
Qed.

(** A move leaves the invariant when the new log fits the history and a leader's duties are
    kept. *)
Lemma moved_inv past c n x x' :
  cluster_inv past c -> nodes c !! n = Some x ->
  let c' := moved n x x' c in
  history_ok (led c') (node_log x' :: past) -> node_good x' ->
  offers_from (node_log x) (tasks x) (tasks x') \/ offers_from (node_log x') (tasks x) (tasks x') ->
  (is_leader x' = true -> leads (node_log x' :: past) (led c') x' /\
     forall m y, m <> n -> nodes c !! m = Some y -> is_leader y = true -> node_term y <> node_term x') ->
  (forall m y i e, nodes c !! m = Some y -> m <> n -> is_leader y = true -> vget (node_log x') i = Some e ->
     term e = node_term y -> vtruncate (i + 1) (node_log x') `prefix_of` node_log y) ->
  cluster_inv (node_log x' :: past) c'.
Proof.
  intros Hinv Hx c' Hhist Hgood Hoff Hlead Hothers.
  assert (Hn : (n < length (nodes c))%nat) by by eapply lookup_lt_Some.
  assert (Hget : forall m y, nodes c' !! m = Some y -> (m = n /\ y = x') \/ (m <> n /\ nodes c !! m = Some y)).
  { intros m y. unfold c', moved. simpl. rewrite list_lookup_insert_Some. naive_solver. }
  assert (Hled : led c ⊆ led c') by (unfold c', moved; simpl; destruct (elected x x'); set_solver).
  assert (Hw : forall e, e ∈ wire c -> e ∈ wire c') by (intros e; unfold c', moved; simpl; set_solver).
  split; [done|..].
  - intros m y [[-> ->]|[_ Hy]]%Hget; [done|by eapply inv_good].
  - intros m y [[-> ->]|[_ Hy]]%Hget; apply elem_of_cons; [by left|right]. by eapply inv_past.
  - unfold c', moved. simpl. intros e [He|He]%elem_of_app.
    + destruct (inv_wire _ _ Hinv e He) as (l & Hl & Hel). exists l. split; [|done]. apply elem_of_cons. by right.
    + assert (He' : e ∈ wire c \/ e ∈ node_log x \/ e ∈ node_log x').
      { destruct Hoff as [Hoff|Hoff]; destruct (Hoff e He) as [Ho|Ho]; eauto; left; by eapply inv_tasks. }
      destruct He' as [Hc|[Hc|Hc]].
      * destruct (inv_wire _ _ Hinv e Hc) as (l & Hl & Hel). exists l. split; [|done]. apply elem_of_cons. by right.
      * exists (node_log x). split; [|done]. apply elem_of_cons. right. by eapply inv_past.
      * exists (node_log x'). split; [|done]. apply elem_of_cons. by left.
  - intros m y [[-> ->]|[_ Hy]]%Hget e He.
    + unfold c', moved. simpl. set_solver.
    + by eapply Hw, inv_tasks.
  - intros m y [[-> ->]|[Hne Hy]]%Hget Hl; [by apply Hlead|].
    destruct (inv_leads _ _ Hinv m y Hy Hl) as (Hpos & Hin & Hall). split_and!; [done|by apply Hled|].
    intros l i e [->|Hlp]%elem_of_cons Hg Ht; [by eapply Hothers|by eapply Hall].
  - intros m1 m2 y1 y2 [[-> ->]|[Hne1 H1]]%Hget [[-> ->]|[Hne2 H2]]%Hget Hl1 Hl2 Ht; [done|..].
    + exfalso. by destruct (proj2 (Hlead Hl1) m2 y2 Hne2 H2 Hl2).
    + exfalso. by destruct (proj2 (Hlead Hl2) m1 y1 Hne1 H1 Hl1).
    + by eapply inv_unique.
Qed.

Lemma moved_led x x' c n : led c ⊆ led (moved n x x' c).
Proof. unfold moved. simpl. destruct (elected x x'); set_solver. Qed.

(** The duties of the leaders when a log that was known is had again. *)
Lemma leads_within past c n x x' l :
  cluster_inv past c -> nodes c !! n = Some x -> l ∈ past -> node_log x' `prefix_of` l ->
  keeps_leader x x' -> (is_leader x' = true -> node_log x' = node_log x) -> election_safe x x' c ->
  is_leader x' = true ->
  leads (node_log x' :: past) (led (moved n x x' c)) x' /\
  forall m y, m <> n -> nodes c !! m = Some y -> is_leader y = true -> node_term y <> node_term x'.
Proof.
  intros Hinv Hx Hl Hp Hk Hsame Hsafe Hlead. unfold is_leader in Hlead.
  destruct (state_delegate x') as [|cd|d'] eqn:Hd'; try done.
  assert (Hlead' : is_leader x' = true) by (unfold is_leader; by rewrite Hd').
  destruct (Hk d' Hd') as [(d & Hd & _ & Hss)|[Hnl _]].
  - assert (Hlx : is_leader x = true) by (unfold is_leader; by rewrite Hd).
    destruct (inv_leads _ _ Hinv n x Hx Hlx) as (Hpos & Hin & Hall). rewrite <- Hss in Hpos, Hin, Hall.
    rewrite (Hsame Hlead') in *. split.
    + split_and!; [done|by apply moved_led|]. rewrite (Hsame Hlead').
      intros l2 i e [->|H2]%elem_of_cons Hg Ht; [apply prefix_take|by eapply Hall].
    + intros m y Hne Hy Hly Heq. apply Hne. eapply inv_unique; eauto. by rewrite Heq, Hss.
  - assert (He : elected x x' = true) by (unfold elected; by rewrite Hnl).
    destruct (Hsafe He) as [Hpos Hfresh]. split.
    + split_and!; [done|unfold moved; simpl; rewrite He; set_solver|].
      intros l2 i e H2 Hg Ht. exfalso. apply Hfresh. rewrite <- Ht.
      apply vget_Some in Hg as [_ Hg%list_elem_of_lookup_2]. apply elem_of_cons in H2 as [->|H2].
      * eapply written_terms; [by apply inv_history|exact Hl|]. destruct Hp as [k ->]. apply elem_of_app. by left.
      * eapply written_terms; [by apply inv_history|exact H2|done].
    + intros m y Hne Hy Hly Heq. apply Hfresh. rewrite <- Heq. by apply (inv_leads _ _ Hinv m y Hy Hly).
Qed.

Lemma step_within past c n x x' l :
  cluster_inv past c -> nodes c !! n = Some x -> l ∈ past -> node_log x' `prefix_of` l ->
  keeps_leader x x' -> (is_leader x' = true -> node_log x' = node_log x) -> election_safe x x' c ->
  offers_from (node_log x) (tasks x) (tasks x') \/ offers_from (node_log x') (tasks x) (tasks x') ->
  (well_written (led (moved n x x' c)) (node_log x') -> node_good x') ->
  cluster_inv (node_log x' :: past) (moved n x x' c).
Proof.
  intros Hinv Hx Hl Hp Hk Hsame Hsafe Hoff Hgood.
  assert (Hhist : history_ok (led (moved n x x' c)) (node_log x' :: past)).
  { eapply history_prefix; [|exact Hl|done]. eapply history_led; [apply moved_led|by apply inv_history]. }
  apply moved_inv; try done.
  - apply Hgood. eapply history_written; [exact Hhist|]. apply elem_of_cons. by left.
  - by eapply leads_within.
  - intros m y i e Hy Hne Hly Hg Ht. destruct (inv_leads _ _ Hinv m y Hy Hly) as (_ & _ & Hall).
    pose proof (vget_lt _ _ _ Hg). rewrite (prefix_truncate _ l) by (done || lia).
    eapply Hall; [exact Hl|by eapply prefix_get|done].
Qed.

Lemma step_appends past c n x x' d d' :
  cluster_inv past c -> nodes c !! n = Some x -> state_delegate x = D_Leader d -> state_delegate x' = D_Leader d' ->
  appends (shared_state x) (shared_state x') -> words_ok (shared_state x') -> vlen (node_log x') < 2 ^ 64 - 1 ->
  cluster_inv (node_log x' :: past) (moved n x x' c).
Proof.
  intros Hinv Hx Hd Hd' (e & Hr & Hf & Ht & Hl & Htail & Hnext & Ho & Hss & Hoff) Hw Hlen.
  assert (Hlx : is_leader x = true) by (unfold is_leader; by rewrite Hd).
  assert (Hne : elected x x' = false) by (unfold elected; by rewrite Hlx).
  destruct (inv_leads _ _ Hinv n x Hx Hlx) as (Hpos & Hin & Hall).
  pose proof (inv_past _ _ Hinv n x Hx) as Hpast.
  assert (Hled : led (moved n x x' c) = led c) by (unfold moved; simpl; by rewrite Hne).
  assert (Hhist : history_ok (led c) (node_log x' :: past)).
  { rewrite Hl. apply history_append; try done; [by apply inv_history|by rewrite Ht..|].
    intros l2 i e2 H2 Hg Heq. eapply Hall; [exact H2|exact Hg|]. congruence. }
  apply moved_inv; rewrite ?Hled; try done.
  - destruct (history_written _ _ (node_log x') Hhist) as (? & ? & ? & _); [apply elem_of_cons; by left|].
    by split.
  - by right.
  - intros _. split.
    + unfold leads. rewrite Hss. split_and!; [done..|]. intros l2 i e2 [->|H2]%elem_of_cons Hg Ht2; [apply prefix_take|].
      etrans; [by eapply Hall|]. rewrite Hl. by exists [e].
    + intros m y Hmn Hy Hly Heq. apply Hmn. eapply inv_unique; eauto. by rewrite Heq, Hss.
  - intros m y i e2 Hy Hmn Hly Hg Ht2. rewrite Hl in Hg.
    destruct (inv_leads _ _ Hinv m y Hy Hly) as (_ & _ & Hally).
    pose proof (vget_lt _ _ _ Hg) as Hi. rewrite vlen_app in Hi. unfold vlen in Hi at 2. simpl in Hi.
    destruct (decide (i = vlen (node_log x))) as [->|Hni].
    + rewrite vget_app_last in Hg. simplify_eq. exfalso. apply Hmn. eapply inv_unique; eauto. congruence.
    + rewrite vget_app_l in Hg by lia. rewrite Hl, <- (prefix_truncate (node_log x)) by (by exists [e] || lia).
      by eapply Hally.
Qed.

Lemma good_calm x x' led' :
  node_good x -> calm (shared_state x) (shared_state x') -> keeps_leader x x' ->
  words_ok (shared_state x') -> well_written led' (node_log x') -> node_good x'.
Proof.
  intros Hg (Hl & Ht & Ho & _) Hk Hw (? & ? & ? & _). injection Ht as Hi Hlt Hn.
  split; try done.
  - unfold tail_wf. rewrite Hl, Hi, Hlt. apply Hg.
  - rewrite Ho. apply Hg.
  - rewrite Hl. apply Hg.
  - intros d' Hd' Hini. rewrite Hn, Hl. destruct (Hk d' Hd') as [(d & Hd & Hid & _)|[_ ?]]; [|congruence].
    by apply (good_leader _ Hg d Hd), Hid.
Qed.

(** A follower that takes or cuts is no leader, so the log and the cursors are all. *)
Lemma good_follower x' led' :
  is_leader x' = false -> tail_wf (volatile_server_state (shared_state x')) ->
  chan_open (persistence_work (shared_state x')) = true -> words_ok (shared_state x') ->
  vlen (node_log x') < 2 ^ 64 - 1 -> well_written led' (node_log x') -> node_good x'.
Proof.
  intros Hf Ht Ho Hw Hlen (? & ? & ? & _). split; try done.
  intros d' Hd'. unfold is_leader in Hf. by rewrite Hd' in Hf.
Qed.

(** A move with a known effect leaves the invariant. *)
Lemma effect_inv past c n x x' :
  cluster_inv past c -> nodes c !! n = Some x -> node_effect (wire c) x x' -> words_ok (shared_state x') ->
  vlen (node_log x') < 2 ^ 64 - 1 -> election_safe x x' c -> cluster_inv (node_log x' :: past) (moved n x x' c).
Proof.
  intros Hinv Hx Heff Hw Hlen Hsafe.
  pose proof (inv_good _ _ Hinv n x Hx) as Hg. pose proof (inv_past _ _ Hinv n x Hx) as Hpast.
  destruct Heff as [Hc Hk|e He Htk Hf|Hcut Hf|d d' Hd Hd' Happ].
  - pose proof Hc as (Hl & _ & _ & Hoff). apply (step_within past c n x x' (node_log x)); try done.
    + by rewrite Hl.
    + by left.
    + by eapply good_calm.
  - destruct (inv_wire _ _ Hinv e He) as (l & Hlp & Hel).
    pose proof Htk as (Hpi & Hpt & Hl & Hi & Ht & Ho & Htasks). destruct (good_tail _ Hg) as [Hti Htt].
    pose proof (history_extend _ _ _ _ _ (inv_history _ _ Hinv) Hpast Hlp Hel ltac:(congruence) ltac:(congruence)) as Hpre.
    apply (step_within past c n x x' l); try done; [by rewrite Hl|by apply keeps_leader_other|by rewrite Hf|by rewrite Htasks; left|].
    intros Hww. eapply good_follower; [done|..|exact Hww]; try done.
    unfold tail_wf. rewrite Hi, Ht, Hl, last_index_of_snoc, last_term_of_snoc. split; [|done].
    destruct Hww as (Hwf & _). rewrite Hl in Hwf. apply log_wf_inv in Hwf as [_ Hfol]. apply Hfol.
  - pose proof Hcut as (Hp & Htl & Ho & Hoff). apply (step_within past c n x x' (node_log x)); try done.
    + by apply keeps_leader_other.
    + by rewrite Hf.
    + by left.
    + by eapply good_follower.
  - by eapply step_appends.
Qed.

Lemma move_words past c n x x' :
  cluster_inv past c -> nodes c !! n = Some x -> node_move (wire c) x x' -> words_ok (shared_state x').
Proof.
  intros Hinv Hx Hmv. pose proof (inv_good _ _ Hinv n x Hx) as Hg.
  eapply (typed_any_step x); [pose proof (good_length _ Hg); lia|by eapply move_step|apply Hg].
Qed.

Lemma step_inv past c c' :
  cluster_inv past c -> cluster_step c c' -> exists l, cluster_inv (l :: past) c'.
Proof.
  intros Hinv [n x x' Hx Hmv Hlen Hsafe]. exists (node_log x'). apply effect_inv; try done.
  - apply move_effect; [by eapply inv_good|by eapply wire_readable|done].
  - by eapply move_words.
Qed.

Lemma start_inv c : cluster_start c -> cluster_inv [[]] c.
Proof.
  intros (Hn & Hw & Hl). rewrite Forall_lookup in Hn. split.
  - split; [|intros l1 l2 ->%list_elem_of_singleton ->%list_elem_of_singleton; apply logs_match_refl].
    apply Forall_singleton. split_and!; constructor.
  - intros n x (Hf & Hlog & Htail & Ho & Hok & _)%Hn. eapply (good_follower x ∅); try done.
    + by rewrite Hlog.
    + rewrite Hlog. split_and!; constructor.
  - intros n x (_ & -> & _)%Hn. by apply list_elem_of_singleton.
  - rewrite Hw. by intros e ?%elem_of_nil.
  - intros n x (_ & _ & _ & _ & _ & ->)%Hn. by intros e ?%elem_of_nil.
  - intros n x (Hf & _)%Hn. by rewrite Hf.
  - intros n m x y (Hf & _)%Hn _. by rewrite Hf.
Qed.

Lemma steps_inv past c c' :
  cluster_inv past c -> rtc cluster_step c c' -> exists past', past ⊆ past' /\ cluster_inv past' c'.
Proof.
  intros Hinv Hr. revert past Hinv. induction Hr as [c|c c1 c2 Hs _ IH]; intros past Hinv; [by exists past|].
  destruct (step_inv _ _ _ Hinv Hs) as [l Hinv1]. destruct (IH _ Hinv1) as (past' & Hsub & Hinv2).
  exists past'. split; [|done]. intros l' Hl'. apply Hsub, elem_of_cons. by right.
Qed.

(** Repair in a cluster that satisfies the invariant. *)
Lemma repair_fits past c n m x y node q s' :
  cluster_inv past c -> nodes c !! n = Some x -> nodes c !! m = Some y ->
  let v := volatile_server_state (shared_state y) in
  let w := get_quorum_worker_index node (identity (shared_state x)) in
  last_log_index v < vlen (node_log x) -> tasks x !! w = Some q ->
  handle_backfill_request node (last_log_term v) (last_log_index v) (shared_state x) = Some s' ->
  exists task, quorum_worker_tasks s' !! w = Some (q ++ [task]) /\
    match task with
    | QT_BackfillLog data => node_log y ++ data = node_log x
    | QT_TruncateLog _ t j => t = 0 \/
        (exists e, vget (node_log y) j = Some e /\ term e = t) /\
        vtruncate (j + 1) (node_log y) = vtruncate (j + 1) (node_log x)
    | _ => False
    end.
Proof.
  intros Hinv Hx Hy v w Hlt Hq.
  destruct (inv_history _ _ Hinv) as [_ Hm].
  specialize (Hm (node_log x) (node_log y) ltac:(by eapply inv_past) ltac:(by eapply inv_past)).
  pose proof (inv_good _ _ Hinv m y Hy) as Hgy. destruct (good_tail _ Hgy) as [Hi Ht].
  change (last_log_index v = last_index_of (node_log y)) in Hi. change (last_log_term v = last_term_of (node_log y)) in Ht.
  pose proof (last_index_of_range (node_log y)) as Hrange.
  assert (Hlast : last_log_term v = 0 \/ exists e, vget (node_log y) (last_log_index v) = Some e /\
    term e = last_log_term v /\ last_log_index v = vlen (node_log y) - 1).
  { rewrite Hi, Ht. unfold last_index_of. case_decide as Hnil; [left; by rewrite Hnil|right].
    destruct (last_term_get _ Hnil) as (e & Hg & He). by exists e. }
  assert (Hempty : last_log_term v = 0 -> node_log y = []).
  { intros H0. destruct (decide (node_log y = [])) as [|Hnil]; [done|].
    pose proof (last_term_of_positive _ (good_terms _ Hgy) Hnil). lia. }
  unfold handle_backfill_request. rewrite decide_False by lia.
  destruct (vget_is_Some (node_log x) (last_log_index v)) as [e1 He1]; [lia|]. rewrite He1.
  case_decide as Hmis.
  - destruct Hmis as [Hne Hnz]. destruct Hlast as [?|(e2 & He2 & Ht2 & Hlen)]; [done|].
    unfold handle_term_mismatch, send_truncate_signal. fold w.
    destruct (find_matching_term _ _ _) as [[t j]|] eqn:Hf; rewrite Hq; intros [= <-]; simpl;
      rewrite list_lookup_alter_eq, Hq; (eexists; split; [reflexivity|]); [right|by left].
    rewrite <- Ht2 in Hf. by eapply found_term_named.
  - unfold send_backfill_data, clone_subset. fold w. set (start := if decide (last_log_term v = 0) then 0 else _).
    assert (Hpre : vtruncate start (node_log x) = node_log y /\ 0 <= start <= vlen (node_log x)).
    { unfold start. case_decide as H0; [rewrite (Hempty H0); split; [done|lia]|].
      destruct Hlast as [?|(e2 & He2 & Ht2 & Hlen)]; [done|].
      pose proof (good_length _ Hgy). pose proof (vget_lt _ _ _ He2). rewrite u64_add_small by lia. split; [|lia].
      eapply match_last; [done..|]. destruct (decide (term e1 = last_log_term v)); [congruence|tauto]. }
    destruct Hpre as [Hpre Hs]. rewrite decide_True by lia. simpl. rewrite Hq. intros [= <-]. simpl.
    rewrite list_lookup_alter_eq, Hq. eexists. split; [reflexivity|]. simpl. rewrite <- Hpre at 1.
    unfold vtruncate, vlen in *. rewrite (take_ge (drop _ _)) by (rewrite length_drop; lia). apply take_drop.
Qed.

(** The leader of a term in a cluster that satisfies the invariant. *)
Lemma inv_holds_its_term past c n x :
  cluster_inv past c -> nodes c !! n = Some x ->
  log_wf (node_log x) /\ tail_wf (volatile_server_state (shared_state x)) /\
  (is_leader x = true -> forall m y i e, nodes c !! m = Some y -> vget (node_log y) i = Some e ->
     term e = node_term x -> vtruncate (i + 1) (node_log y) `prefix_of` node_log x).
Proof.
  intros Hinv Hx. pose proof (inv_good _ _ Hinv n x Hx) as Hg. split_and!; [apply Hg..|].
  intros Hl m y i e Hy He Ht. eapply (inv_leads _ _ Hinv n x Hx Hl); [by eapply inv_past|done..].
Qed.

(** Log matching.  In a cluster that starts with empty logs, where every term is won at most
    once, truncate signals name entries of the follower and a new leader takes a time step
    before its first write batch, whatever else happens and in whatever order (elections, the
    delivery, loss, repetition and reordering of requests, truncations, the steps of every
    worker): if the log of a node and the log of any node, now or later, have entries of the
    same term at the same index, the two logs agree up to that index. *)
Theorem log_matching c0 c1 c2 n1 n2 x1 x2 i e1 e2 :
  cluster_start c0 -> rtc cluster_step c0 c1 -> rtc cluster_step c1 c2 ->
  nodes c1 !! n1 = Some x1 -> nodes c2 !! n2 = Some x2 ->
  vget (node_log x1) i = Some e1 -> vget (node_log x2) i = Some e2 -> term e1 = term e2 ->
  vtruncate (i + 1) (node_log x1) = vtruncate (i + 1) (node_log x2).
Proof.
  intros Hstart Hr1 Hr2 Hx1 Hx2 He1 He2 Ht. destruct (steps_inv _ _ _ (start_inv _ Hstart) Hr1) as (past1 & _ & Hinv1).
  destruct (steps_inv _ _ _ Hinv1 Hr2) as (past2 & Hsub & Hinv2).
  eapply logs_match_eq; [|done..]. apply (inv_history _ _ Hinv2); [by eapply Hsub, inv_past|by eapply inv_past].
Qed.

(** Under the same conditions the log of a node is always well formed (position [i] holds the
    entry of index [i], every entry names its predecessor, the cursors point at the end), and
    the leader of a term holds every entry that any node has of this term, with everything
    before it. *)
Theorem leader_holds_its_term c0 c n x :
  cluster_start c0 -> rtc cluster_step c0 c -> nodes c !! n = Some x ->
  log_wf (node_log x) /\ tail_wf (volatile_server_state (shared_state x)) /\
  (is_leader x = true -> forall m y i e, nodes c !! m = Some y -> vget (node_log y) i = Some e ->
     term e = node_term x -> vtruncate (i + 1) (node_log y) `prefix_of` node_log x).
Proof.
  intros Hstart Hr. destruct (steps_inv _ _ _ (start_inv _ Hstart) Hr) as (past & _ & Hinv). by apply (inv_holds_its_term past).
Qed.

(** Repair of a follower's log.  The leader [x] of a cluster as above handles the backfill
    request of a node [y] that reports the end of its log, an index the leader has.  The
    worker of [y] then gets one task: either the entries of the leader that [y] lacks, and
    with them the log of [y] becomes that of the leader, or a truncate signal; unless it is
    the signal "truncate everything", it names an entry of [y] by index and term, and up to
    this entry the two logs are the same. *)
Theorem repair_task_fits c0 c n m x y node q s' :
  cluster_start c0 -> rtc cluster_step c0 c -> nodes c !! n = Some x -> nodes c !! m = Some y ->
  let v := volatile_server_state (shared_state y) in
  let w := get_quorum_worker_index node (identity (shared_state x)) in
  last_log_index v < vlen (node_log x) -> tasks x !! w = Some q ->
  handle_backfill_request node (last_log_term v) (last_log_index v) (shared_state x) = Some s' ->
  exists task, quorum_worker_tasks s' !! w = Some (q ++ [task]) /\
    match task with
    | QT_BackfillLog data => node_log y ++ data = node_log x
    | QT_TruncateLog _ t j => t = 0 \/
        (exists e, vget (node_log y) j = Some e /\ term e = t) /\
        vtruncate (j + 1) (node_log y) = vtruncate (j + 1) (node_log x)
    | _ => False
    end.
Proof.
  intros Hstart Hr Hx Hy v w. destruct (steps_inv _ _ _ (start_inv _ Hstart) Hr) as (past & _ & Hinv). by eapply repair_fits.
Qed.

End cluster.

Arguments Cluster : clear implicits.

(** ** Scripts of a cluster

    A script is run move by move; a move whose conditions fail stops it. *)

Section scripts.
Context {CP : Capnp} {B : Type} `{Bus B}.
Implicit Types x : StateMachineExecutorImpl B.

#[export] Instance signal_named_dec l r : Decision (signal_named l r).
Proof.
  destruct r as [| | |node t i|]; simpl; try apply _.
  refine (cast_if (decide (i +! 1 < vlen l -> term <$> vget l i = Some t))).
  all: destruct (vget l i) as [e0|]; simpl in *; naive_solver.
Defined.

#[export] Instance signals_named_dec x : Decision (signals_named x).
Proof. unfold signals_named. destruct (state_delegate x); apply _. Defined.

(** [CE_Entry env k t leader rid commit cb]: the [k]-th entry of the wire arrives. *)
Inductive cluster_event :=
| CE_Event (ev : event)
| CE_Entry (env : Env) (k : nat) (t leader rid commit : Z) (cb : Callback).

Definition live_of (wire : list OwnedLogEntry) (ev : cluster_event) x : option (StateMachineExecutorImpl B) :=
  match ev with
  | CE_Event (Ev_Persisted _) => None
  | CE_Event (Ev_Tick env) =>
    if decide (signals_named x) then snd <$> Executor.time_step env x else None
  | CE_Event (Ev_Message env m) =>
    if decide (typed_message m /\ no_entry m = true /\ ready m x = true) then accept env m x else None
  | CE_Event ev => if decide (typed_event ev) then apply_event ev x else None
  | CE_Entry env k t leader rid commit cb =>
    let* e := wire !! k in
    let m := mkLocalRaftMessage (RM_AppendEntries (entry_request e t leader rid commit)) cb in
    if decide (typed_message m) then accept env m x else None
  end.

Definition move_of (wire : list OwnedLogEntry) (ev : cluster_event) x : option (StateMachineExecutorImpl B) :=
  match ev with
  | CE_Event (Ev_Persisted r) => if decide (typed_event (Ev_Persisted r)) then apply_event (Ev_Persisted r) x else None
  | _ => live_of wire ev x
  end.

Definition cluster_apply (n : nat) (ev : cluster_event) (c : Cluster B) : option (Cluster B) :=
  let* x := nodes c !! n in
  let* x' := move_of (wire c) ev x in
  if decide (vlen (replication_log (volatile_server_state (shared_state x'))) < 2 ^ 64 - 1 /\
             (elected x x' = true -> 0 < current_term (server_state (shared_state x')) /\
                                     current_term (server_state (shared_state x')) ∉ led c))
  then Some (moved n x x' c) else None.

Fixpoint cluster_run (script : list (nat * cluster_event)) (c : Cluster B) : option (Cluster B) :=
  match script with
  | [] => Some c
  | (n, ev) :: script => let* c := cluster_apply n ev c in cluster_run script c
  end.

Lemma live_of_move wire ev x x' : live_of wire ev x = Some x' -> live_move wire x x'.
Proof.
  destruct ev as [[env|env m|r|r]|env k t leader rid commit cb]; simpl; [..|done| |].
  - case_decide; [|done]. destruct (Executor.time_step env x) as [[w x1]|] eqn:Ht; intros ?; simplify_eq/=.
    by eapply move_tick.
  - case_decide as Hc; [|done]. destruct Hc as (? & ? & ?). intros Ha. by eapply move_message.
  - case_decide; [|done]. intros ?; simplify_eq. by apply move_quorum_response.
  - destruct (wire !! k) as [e|] eqn:Hk; [|done]. simpl. case_decide; [|done]. intros Ha.
    eapply move_entry; [by eapply list_elem_of_lookup_2|done..].
Qed.

Lemma move_of_move wire ev x x' : move_of wire ev x = Some x' -> node_move wire x x'.
Proof.
  destruct ev as [[env|env m|r|r]|]; cbn [move_of]; try (intros ?%live_of_move; by apply move_live).
  case_decide; [|done]. simpl. intros ?; simplify_eq. by apply move_persistence_response.
Qed.

Lemma cluster_run_steps script c c' : cluster_run script c = Some c' -> rtc cluster_step c c'.
Proof.
  revert c. induction script as [|[n ev] script IH]; intros c; simpl; [intros ?; by simplify_eq|].
  unfold cluster_apply. destruct (nodes c !! n) as [x|] eqn:Hx; [|done]. cbn [mbind option_bind].
  destruct (move_of (wire c) ev x) as [x'|] eqn:Hm; [|done]. cbn [mbind option_bind].
  case_decide as Hc; [|done]. cbn [mbind option_bind]. intros Hr. apply move_of_move in Hm.
  eapply rtc_l; [|by apply IH]. destruct Hc. by apply cluster_move.
Qed.

(** The cluster after a script that runs to its end. *)
Definition after_script script (c : Cluster B) : Cluster B := default c (cluster_run script c).

Lemma after_script_steps script c :
  match cluster_run script c with Some _ => true | None => false end = true ->
  rtc cluster_step c (after_script script c).
Proof.
  unfold after_script. destruct (cluster_run script c) as [c'|] eqn:Hr; [|done]. intros _. by eapply cluster_run_steps.
Qed.

End scripts.
