(* ===== verification/StartupSpec.v ===== *)
(** * What recovery guarantees

    Recovery reads back what the persistence worker has written, and the node it starts
    satisfies the invariants the handlers keep; over [Startup.v]. *)
From S2P Require Import Prelude Capnp CapnpInstance RaftTypes Bus Samples Persistence.
From S2P Require Import PersistenceSpec RaftSm LogModel Follower FollowerSpec Leader.
From S2P Require Import LeaderSpec Candidate Executor Safety Startup.

(** The votes of a list of rows; a later row wins. *)
Abbreviation vote_map votes m0 :=
  (fold_left (fun (m : gmap Z Z) v => <[vote_term v := vote_candidate_id v]> m) votes m0).

Section recovery.
Context {CP : Capnp} {CL : CapnpLaws}.

(** The entry a built message is stored as. *)
Definition stored (m : InternalLogEntry) : OwnedLogEntry := mkOwnedLogEntry (write_log_entry m).

Lemma stored_index m : log_entry_built m -> index (stored m) = le_index m.
Proof. intros. unfold index, stored. by rewrite with_message_written. Qed.

Lemma stored_term m : log_entry_built m -> term (stored m) = le_term m.
Proof. intros. unfold term, stored. by rewrite with_message_written. Qed.

Lemma vlen_write_pos m : 0 < vlen (write_log_entry m).
Proof. pose proof (write_log_entry_nonempty m). destruct (write_log_entry m); [done|]. unfold vlen. simpl. lia. Qed.

(** Written entries parse back one by one; what follows them is parsed where they end. *)
Lemma parse_entries_written ms tail fuel offset :
  Forall log_entry_built ms ->
  parse_entries (length ms + fuel) offset (mjoin (write_log_entry <$> ms) ++ tail) =
  let* (entries, offsets) := parse_entries fuel (offset + vlen (mjoin (write_log_entry <$> ms))) tail in
  Some (map stored ms ++ entries, offsets_from offset (write_log_entry <$> ms) ++ offsets).
Proof.
  intros Hms. revert offset. induction Hms as [|m ms Hm Hms IH]; intros offset.
  { simpl. unfold vlen. simpl. rewrite Z.add_0_r. by destruct (parse_entries _ _ _) as [[]|]. }
  change (mjoin (write_log_entry <$> m :: ms)) with (write_log_entry m ++ mjoin (write_log_entry <$> ms)).
  rewrite <- (assoc_L (++)). set (rest := mjoin _ ++ tail).
  destruct (read_write_log_entry m rest Hm) as (r & Hr & _).
  pose proof (write_log_entry_nonempty m) as Hne.
  cbn [length Nat.add parse_entries]. destruct (write_log_entry m ++ rest) as [|b bs] eqn:Hbs.
  { by apply app_nil in Hbs as [? _]. }
  rewrite Hr, <- Hbs. rewrite length_app.
  replace (length (write_log_entry m) + length rest - length rest)%nat with (length (write_log_entry m)) by lia.
  rewrite take_app_length, drop_app_length, from_bytes_written by done. unfold rest. rewrite IH.
  rewrite vlen_app, Z.add_assoc. fold (vlen (write_log_entry m)).
  destruct (parse_entries fuel _ tail) as [[es os]|]; [|done]. reflexivity.
Qed.

(** Enough fuel for the written entries is enough. *)
Lemma parse_entries_fuel bytes offset fuel :
  (length bytes <= fuel)%nat -> is_Some (parse_entries fuel offset bytes).
Proof.
  revert bytes offset. induction fuel as [|fuel IH]; intros bytes offset Hlen.
  { destruct bytes; simpl in *; [by eexists|lia]. }
  destruct bytes as [|b bs]; [by eexists|]. cbn [parse_entries].
  destruct (read_message_from_flat_slice (b :: bs)) as [[r rest]|] eqn:Hr; [|by eexists].
  apply read_message_front in Hr as (m & Hm & Heq). rewrite Heq, length_app.
  replace (length m + length rest - length rest)%nat with (length m) by lia. rewrite drop_app_length.
  destruct (IH rest (offset + Z.of_nat (length m))) as [[es os] ->].
  { rewrite Heq, length_app in Hlen. destruct m; [done|]. simpl in Hlen. lia. }
  simpl. destruct (from_bytes _); by eexists.
Qed.

Lemma length_written ms : (length ms <= length (mjoin (write_log_entry <$> ms)))%nat.
Proof.
  induction ms as [|m ms IH]; [done|].
  change (mjoin (write_log_entry <$> m :: ms)) with (write_log_entry m ++ mjoin (write_log_entry <$> ms)).
  rewrite length_app. pose proof (vlen_write_pos m). unfold vlen in *. simpl. lia.
Qed.

(** [tail] is what a crash leaves of the last write: a proper, possibly empty, front. *)
Definition torn (tail : list byte) : Prop :=
  exists m rest, write_log_entry m = tail ++ rest /\ rest <> [].

Lemma parse_entries_torn fuel offset tail :
  torn tail -> (length tail <= fuel)%nat -> parse_entries fuel offset tail = Some ([], []).
Proof.
  intros (m & rest & Hm & Hne) Hf. destruct tail as [|b bs]; [by destruct fuel|].
  destruct fuel as [|fuel]; [simpl in Hf; lia|]. cbn [parse_entries].
  by rewrite (read_log_entry_prefix m (b :: bs) rest).
Qed.

Lemma torn_nil : torn [].
Proof.
  exists (mkInternalLogEntry 0 0 0 0 0 0 None None), (write_log_entry (mkInternalLogEntry 0 0 0 0 0 0 None None)).
  split; [done|apply write_log_entry_nonempty].
Qed.

Lemma parse_written_file ms tail :
  Forall log_entry_built ms -> torn tail ->
  let file := mjoin (write_log_entry <$> ms) ++ tail in
  parse_entries (length file) 0 file = Some (map stored ms, offsets_from 0 (write_log_entry <$> ms)).
Proof.
  intros Hms Ht file. pose proof (length_written ms) as Hlen.
  replace (length file) with (length ms + (length file - length ms))%nat.
  - unfold file. rewrite parse_entries_written by done. rewrite parse_entries_torn; [|done|].
    + cbn [mbind option_bind]. by rewrite !app_nil_r.
    + rewrite length_app. lia.
  - unfold file. rewrite length_app. lia.
Qed.

Lemma deserialize_parse bytes entries offsets :
  parse_entries (length bytes) 0 bytes = Some (entries, offsets) ->
  deserialize_replication_log bytes =
  Some (entries, term_starts 0 0 entries ∅, default 0 (index <$> vlast entries),
        default 0 (term <$> vlast entries), offsets).
Proof.
  intros Hp. unfold deserialize_replication_log. case_decide as Hnil.
  - rewrite Hnil in Hp. simpl in Hp. by simplify_eq.
  - by rewrite Hp.
Qed.

Lemma deserialize_returns bytes : is_Some (deserialize_replication_log bytes).
Proof.
  destruct (parse_entries_fuel bytes 0 (length bytes)) as [[entries offsets] Hp]; [done|].
  rewrite (deserialize_parse _ _ _ Hp). by eexists.
Qed.

(** C39: Recovery returns for every content of the log file, however damaged: its loop always
    makes progress. *)
Theorem deserialize_total bytes : is_Some (deserialize_replication_log bytes).
Proof. apply deserialize_returns. Qed.

(** Recovery reads back every entry that was written, in order, with the offsets at which
    the entries end, also when a crash has left the front of a further entry at the end of
    the file, which is ignored.  The last index and term are those of the last entry. *)
Theorem deserialize_reads_back ms tail :
  Forall log_entry_built ms -> torn tail ->
  deserialize_replication_log (mjoin (write_log_entry <$> ms) ++ tail) =
  Some (map stored ms, term_starts 0 0 (map stored ms) ∅,
        default 0 (le_index <$> vlast ms), default 0 (le_term <$> vlast ms),
        offsets_from 0 (write_log_entry <$> ms)).
Proof.
  intros Hms Ht. rewrite (deserialize_parse _ _ _ (parse_written_file ms tail Hms Ht)).
  assert (Hlast : vlast (map stored ms) = stored <$> vlast ms) by apply fmap_last.
  rewrite Hlast. destruct (vlast ms) as [m|] eqn:Hm; [|done]. simpl.
  assert (log_entry_built m).
  { apply last_Some in Hm as [ms' ->]. rewrite Forall_app in Hms. destruct Hms as [_ Hms]. by inversion Hms. }
  by rewrite stored_index, stored_term.
Qed.

(** ** Votes *)

Lemma highest_term_max votes m :
  let h := fold_left (fun m v => Z.max m (vote_term v)) votes m in
  m <= h /\ Forall (fun v => vote_term v <= h) votes.
Proof.
  revert m. induction votes as [|v votes IH]; intros m; simpl; [split; [lia|constructor]|].
  destruct (IH (Z.max m (vote_term v))) as [Hm Hall]. split; [lia|]. constructor; [lia|done].
Qed.

Lemma vote_map_sound votes (m : gmap Z Z) t c :
  vote_map votes m !! t = Some c -> m !! t = Some c \/ mkVoteRow t c ∈ votes.
Proof.
  revert m. induction votes as [|v votes IH]; intros m; simpl; [by left|].
  intros [Hl|Hv]%IH; [|right; by apply list_elem_of_further].
  apply lookup_insert_Some in Hl as [[<- <-]|[_ Hl]]; [|by left]. right. destruct v. apply list_elem_of_here.
Qed.

Lemma vote_map_complete votes (m : gmap Z Z) t :
  is_Some (m !! t) \/ (exists v, v ∈ votes /\ vote_term v = t) -> is_Some (vote_map votes m !! t).
Proof.
  revert m. induction votes as [|v votes IH]; intros m; simpl.
  - intros [?|(v & Hv & _)]; [done|]. by apply elem_of_nil in Hv.
  - intros Hor. apply IH. destruct (decide (vote_term v = t)) as [<-|Hne].
    + left. rewrite lookup_insert_eq. by eexists.
    + rewrite lookup_insert_ne by done. destruct Hor as [?|(v' & Hv' & Ht)]; [by left|]. right. exists v'.
      split; [|done]. apply elem_of_cons in Hv' as [->|?]; done.
Qed.

Lemma highest_term_fits votes m :
  m + 1 < 2 ^ 64 -> Forall (fun v => 0 <= vote_term v /\ vote_term v + 1 < 2 ^ 64) votes ->
  fold_left (fun m v => Z.max m (vote_term v)) votes m + 1 < 2 ^ 64.
Proof. intros Hm Hall. revert m Hm. induction Hall as [|v votes Hv Hall IH]; intros m Hm; simpl; [done|]. apply IH. lia. Qed.

(** The next term is above every recovered vote and above the last term of the log. *)
Lemma process_votes_above rows last_term :
  0 <= last_term -> last_term + 1 < 2 ^ 64 -> Forall (fun v => 0 <= vote_term v /\ vote_term v + 1 < 2 ^ 64) rows ->
  let '(votes, next) := process_votes rows last_term in
  last_term < next < 2 ^ 64 /\ (forall t c, votes !! t = Some c -> t < next).
Proof.
  intros H0 Hlast Hrows. unfold process_votes.
  pose proof (highest_term_fits rows 0 ltac:(lia) Hrows) as Hfit.
  destruct (highest_term_max rows 0) as [Hpos Hmax].
  rewrite u64_add_small by lia. split; [lia|]. intros t c Ht.
  apply vote_map_sound in Ht as [Ht|Hin]; [by rewrite lookup_empty in Ht|].
  rewrite Forall_forall in Hmax. apply list_elem_of_In in Hin. specialize (Hmax _ Hin). simpl in Hmax. lia.
Qed.

End recovery.

Section started.
Context {CP : Capnp} {CL : CapnpLaws} {CSV : Csv} {CSVL : CsvLaws} {B : Type} `{Bus B}.

Lemma last_index_recovered l : log_wf l -> default 0 (index <$> vlast l) = last_index_of l.
Proof.
  destruct 1 as [|l e Hwf [Hi _]]; [done|]. unfold vlast. rewrite last_snoc, last_index_of_snoc. exact Hi.
Qed.

(** Terms of votes and entries leave room for one more. *)
Definition recovered_terms_fit (rows : list VoteRow) (ms : list InternalLogEntry) : Prop :=
  Forall (fun v => 0 <= vote_term v /\ vote_term v + 1 < 2 ^ 64) rows /\
  Forall (fun m => le_term m + 1 < 2 ^ 64) ms.

(** C21: A node started from the files its persistence worker has written has exactly the
    entries and the votes written there, and starts safely: its log is well formed with the
    cursors at its end, every vote it cast is below the next term it may propose, and its
    worker continues at the right offsets. *)
Theorem restart_recovers_node turns rows ms nodes node_id max (bus : B) :
  disk_run (mjoin turns) [] = Some (write_log_entry <$> ms) -> tasks_bytes (mjoin turns) < 2 ^ 64 ->
  mjoin (vote_rows <$> mjoin turns) = rows ->
  Forall log_entry_built ms -> log_wf (map stored ms) -> recovered_terms_fit rows ms ->
  exists w s w', run_turns turns (PersistenceWorker_new [] [] []) = Some w /\
    start_node (bw_file (log_write_buffer w)) (vote_file w) nodes node_id max bus = Some (s, w') /\
    replication_log (volatile_server_state s) = map stored ms /\
    tail_wf (volatile_server_state s) /\
    (forall t c, term_votes s !! t = Some c -> mkVoteRow t c ∈ rows) /\
    (forall v, v ∈ rows -> is_Some (term_votes s !! vote_term v)) /\
    votes_inv s /\ represents (write_log_entry <$> ms) w'.
Proof.
  intros Hdisk Hbytes Hrows Hms Hwf [Hvfit Htfit].
  destruct (run_turns_spec turns [] (write_log_entry <$> ms) (PersistenceWorker_new [] [] []))
    as (w & Hw & _ & Hf & _ & _ & _ & Hv); [by split|done|done|unfold vlen; simpl; lia|].
  simpl in Hv. rewrite Hrows in Hv. exists w. unfold start_node. rewrite Hv, Hf. unfold read_votes, read_log. rewrite csv_rows_written. simpl.
  pose proof (parse_written_file ms [] Hms torn_nil) as Hp. rewrite app_nil_r in Hp.
  unfold recover_persisted_data. rewrite (deserialize_parse _ _ _ Hp). simpl.
  set (lt := default 0 (term <$> vlast (map stored ms))).
  pose proof (process_votes_above rows lt) as Habove. destruct (process_votes rows lt) as [votes next] eqn:Hpv.
  simpl. do 2 eexists. split; [done|]. split; [reflexivity|].
  assert (Hlt : 0 <= lt /\ lt + 1 < 2 ^ 64).
  { unfold lt. assert (Hlast : vlast (map stored ms) = stored <$> vlast ms) by apply fmap_last.
    rewrite Hlast. destruct (vlast ms) as [m|] eqn:Hm; [|simpl; lia]. simpl.
    apply last_Some in Hm as [ms' ->]. rewrite !Forall_app in *. destruct Hms as [_ Hms], Htfit as [_ Htfit].
    apply Forall_inv in Hms as Hm. apply Forall_inv in Htfit as Ht. rewrite stored_term by done.
    destruct Hm as (((_ & [? _] & _) & _) & _). lia. }
  destruct Habove as [Hnext Hv']; [lia|lia|done|]. simpl. split_and!.
  - done.
  - split; simpl; [by apply last_index_recovered|done].
  - intros t c Ht. unfold process_votes in Hpv. simplify_eq. apply vote_map_sound in Ht as [Ht|?]; [by rewrite lookup_empty in Ht|done].
  - intros v Hin. unfold process_votes in Hpv. simplify_eq. apply vote_map_complete. right. by exists v.
  - unfold process_votes in Hpv. injection Hpv as <- <-. split; simpl; [lia|done].
  - split; simpl; [by rewrite app_nil_r|done|done|lia|apply mjoin_take_prefix].
Qed.

End started.

(** ** The size of the quorum *)

(** The rounding of the quorum size. *)
Lemma quorum_size_eq n : 2 * calculate_quorum_size n = n + n mod 2 /\ n mod 2 = Z.b2z (Z.odd n) /\ n = 2 * (n / 2) + n mod 2.
Proof.
  unfold calculate_quorum_size. pose proof (Zmod_odd n) as Ho.
  pose proof (Z.div_mod (n + 1) 2 ltac:(lia)). pose proof (Z.mod_pos_bound (n + 1) 2 ltac:(lia)).
  pose proof (Z.div_mod n 2 ltac:(lia)). destruct (Z.odd n); simpl; lia.
Qed.

(** The number of votes an election needs is a majority of the cluster exactly when the
    cluster has an odd number of nodes: with an even number, two candidates can be elected in
    the same term by disjoint halves. *)
Theorem election_quorum_is_majority_iff_odd n :
  (n < 2 * calculate_quorum_size n <-> Z.odd n = true) /\
  (Z.odd n = false -> calculate_quorum_size n + calculate_quorum_size n = n).
Proof. destruct (quorum_size_eq n) as (Hq & Hm & _). destruct (Z.odd n); simpl in *; split; [split|intros|split|intros]; done || lia. Qed.

(** An entry commits on the leader and [quorum_size] other nodes, which is always a
    majority, but with an odd number of nodes one more than the smallest one: a cluster of
    three commits nothing when one node is down. *)
Theorem commit_group_exceeds_majority n :
  let group := 1 + calculate_quorum_size n in
  n < 2 * group /\ (Z.odd n = true -> group = n / 2 + 2) /\ (n = 3 -> group = n).
Proof.
  intros group. unfold group. destruct (quorum_size_eq n) as (Hq & Hm & Hn).
  split_and!; [destruct (Z.odd n); simpl in *; lia|intros Ho; rewrite Ho in Hm; simpl in Hm; lia|by intros ->].
Qed.

(** ** After a crash *)

Section crash.
Context {CP : Capnp} {CL : CapnpLaws} {CSV : Csv} {CSVL : CsvLaws} {B : Type} `{Bus B}.

(** A torn write at the end of the log file is ignored by recovery but never cut off.  The
    restarted worker appends after it, while its offsets continue at the last whole entry:
    file and offsets no longer agree, although the entry is acknowledged as persisted. *)
Theorem torn_write_is_not_cut_off ms tail rows id data nodes node_id max (bus : B) :
  Forall log_entry_built ms -> torn tail -> tail <> [] ->
  vlen (mjoin (write_log_entry <$> ms)) + vlen data < 2 ^ 64 ->
  let good := mjoin (write_log_entry <$> ms) in
  exists s w w', start_node (good ++ tail) (mjoin (csv_row <$> rows)) nodes node_id max bus = Some (s, w) /\
    replication_log (volatile_server_state s) = map stored ms /\
    run_turn [PT_AppendLog id data id] w = Some w' /\
    response_queue w' = [PR_LogPersisted id] /\
    bw_file (log_write_buffer w') = good ++ tail ++ data /\
    vlast (entry_end_offsets w') = Some (vlen good + vlen data) /\
    (forall es, ~ represents es w').
Proof.
  intros Hms Ht Hne Hsize good.
  unfold start_node, read_votes, read_log. rewrite csv_rows_written. cbn [mbind option_bind].
  pose proof (parse_written_file ms tail Hms Ht) as Hp. unfold recover_persisted_data.
  rewrite (deserialize_parse (good ++ tail) _ _ Hp). cbn [mbind option_bind].
  destruct (process_votes _ _) as [votes next]. do 3 eexists. split; [reflexivity|]. split; [reflexivity|]. cbn [rd_log_entry_end_offsets].
  set (w := PersistenceWorker_new (good ++ tail) (mjoin (csv_row <$> rows)) (offsets_from 0 (write_log_entry <$> ms))).
  rewrite (run_turn_single id data id w) by done.
  pose proof (write_all_bytes data (log_write_buffer w)) as [Hw _].
  split; [reflexivity|]. cbn.
  assert (Hoff : default 0 (vlast (offsets_from 0 (write_log_entry <$> ms))) +! vlen data = vlen good + vlen data).
  { fold good in Hsize. rewrite offsets_from_last. fold good. pose proof (vlen_nonneg good).
    pose proof (vlen_nonneg data). rewrite u64_add_small by lia. done. }
  cbn in Hw. rewrite app_nil_r in Hw. split_and!.
  - done.
  - rewrite Hw. by rewrite <- (assoc_L (++)).
  - rewrite Hoff. apply last_snoc.
  - intros es [Hb Ho _ _ _]. cbn in Hb, Ho. rewrite app_nil_r, Hw in Hb. rewrite Hoff in Ho.
    pose proof (offsets_from_last 0 es) as Hlast. rewrite <- Ho in Hlast. unfold vlast in Hlast.
    rewrite last_snoc in Hlast. simpl in Hlast. rewrite <- Hb, !vlen_app in Hlast.
    assert (0 < vlen tail) by (unfold vlen; destruct tail; simpl; [done|lia]). fold good in Hlast. lia.
Qed.

(** A node does not remember its term across a restart.  Whatever terms its log and votes
    have, it follows the first leader that reports with a positive term, and sets the next
    term it would propose right above that leader's; a vote recorded in a later term is then
    no longer protected. *)
Theorem restarted_node_follows_old_leader log_file rows nodes node_id max (bus : B) s w env cb d t leader :
  start_node log_file (mjoin (csv_row <$> rows)) nodes node_id max bus = Some (s, w) ->
  0 < t -> t + 1 < 2 ^ 64 ->
  let s' := (Follower.append_entries env (mkLocalAppendEntries t leader 0 0 0 None 0) cb d s).2 in
  server_state s' = mkRaftServerState t leader /\ next_term (volatile_server_state s') = t + 1 /\
  ((exists v, v ∈ rows /\ t < vote_term v) -> ~ votes_inv s').
Proof.
  intros Hs Ht Hfit s'. unfold start_node, read_votes in Hs. rewrite csv_rows_written in Hs. cbn [mbind option_bind] in Hs.
  destruct (recover_persisted_data _ _) as [rd|] eqn:Hrd; [|done]. cbn [mbind option_bind] in Hs. simplify_eq.
  unfold recover_persisted_data in Hrd. destruct (deserialize_replication_log _) as [[[[[l st] li] lt] os]|]; [|done].
  cbn [mbind option_bind] in Hrd. unfold process_votes in Hrd. simplify_eq.
  unfold s', Follower.append_entries, Follower.handle_new_leader. simpl. rewrite decide_True by done.
  rewrite u64_add_small by lia.
  assert (Hv : forall s0, server_state s0 = mkRaftServerState t leader -> next_term (volatile_server_state s0) = t + 1 ->
    term_votes s0 = vote_map rows ∅ ->
    server_state (B := B) s0 = mkRaftServerState t leader /\ next_term (volatile_server_state s0) = t + 1 /\
    ((exists v, v ∈ rows /\ t < vote_term v) -> ~ votes_inv s0)).
  { intros s0 H1 H2 H3. split_and!; [done..|]. intros (v & Hin & Hlt) [_ Hinv].
    destruct (vote_map_complete rows ∅ (vote_term v)) as [c Hc]; [right; by exists v|].
    rewrite <- H3 in Hc. apply Hinv in Hc. lia. }
  destruct (validate_append_entries _ _ _); rewrite callback_send_ok_eq; by apply Hv.
Qed.

End crash.

(** ** Concrete runs *)

Lemma deserialize_reads_back_witness :
  deserialize_replication_log (mjoin (write_log_entry <$> [sample_message 0 1 0 0 1]) ++ [Init.Byte.x02]) =
  Some (map stored [sample_message 0 1 0 0 1], term_starts 0 0 (map stored [sample_message 0 1 0 0 1]) ∅, 0, 1,
        offsets_from 0 (write_log_entry <$> [sample_message 0 1 0 0 1])).
Proof.
  apply (deserialize_reads_back [sample_message 0 1 0 0 1] [Init.Byte.x02]).
  - repeat constructor; simpl; try done; by eexists.
  - exists (sample_message 0 1 0 0 1), (drop 1 (write_log_entry (sample_message 0 1 0 0 1))).
    split; [vm_compute; reflexivity|vm_compute; done].
Defined.

(** One vote and two entries, in two turns. *)
Definition sample_messages : list InternalLogEntry := [sample_message 0 1 0 0 1; sample_message 1 1 0 1 2].

Definition sample_turns : list (list PersistenceTaskType) :=
  [ [PT_AppendVote 0 1 1; PT_AppendLog 1 (write_log_entry (sample_message 0 1 0 0 1)) 1];
    [PT_AppendLog 2 (write_log_entry (sample_message 1 1 0 1 2)) 2] ].

Lemma sample_messages_built : Forall log_entry_built sample_messages.
Proof. apply Forall_cons; [by apply sample_message_built|]. apply Forall_singleton. by apply sample_message_built. Qed.

Lemma restart_recovers_node_witness :
  exists w s w', run_turns sample_turns (PersistenceWorker_new [] [] []) = Some w /\
    start_node (bw_file (log_write_buffer w)) (vote_file w) [1; 2; 3] 1 1048576 empty_bus = Some (s, w') /\
    replication_log (volatile_server_state s) = sample_log.
Proof.
  destruct (restart_recovers_node sample_turns [mkVoteRow 1 1] sample_messages [1; 2; 3] 1 1048576 empty_bus)
    as (w & s & w' & Hw & Hs & Hl & _);
    [reflexivity|vm_compute; reflexivity|reflexivity|exact sample_messages_built|exact (proj1 sample_log_wf)|
     split; repeat constructor; vm_compute; done|].
  exists w, s, w'. split; [exact Hw|]. split; [exact Hs|exact Hl].
Defined.

Lemma torn_write_is_not_cut_off_witness :
  exists (s : SharedState ScriptedBus) w w',
    start_node (mjoin (write_log_entry <$> sample_messages) ++ [Init.Byte.x02]) (mjoin (csv_row <$> []))
      [1; 2; 3] 1 1048576 empty_bus = Some (s, w) /\
    run_turn [PT_AppendLog 9 [Init.Byte.x00] 9] w = Some w' /\ (forall es, ~ represents es w').
Proof.
  destruct (torn_write_is_not_cut_off sample_messages [Init.Byte.x02] [] 9 [Init.Byte.x00] [1; 2; 3] 1 1048576 empty_bus)
    as (s & w & w' & Hs & _ & Hw & _ & _ & _ & Hn);
    [exact sample_messages_built| |done|vm_compute; reflexivity|].
  - exists (sample_message 0 1 0 0 1), (drop 1 (write_log_entry (sample_message 0 1 0 0 1))).
    split; [vm_compute; reflexivity|vm_compute; done].
  - exists s, w, w'. split; [exact Hs|]. split; [exact Hw|exact Hn].
Defined.

Lemma restarted_node_follows_old_leader_witness :
  exists (s : SharedState ScriptedBus) w,
    start_node [] (mjoin (csv_row <$> [mkVoteRow 7 1])) [1; 2; 3] 1 1048576 empty_bus = Some (s, w) /\
    ~ votes_inv (Follower.append_entries sample_env (mkLocalAppendEntries 5 3 0 0 0 None 0) 4%nat sample_delegate s).2.
Proof.
  destruct (start_node [] (mjoin (csv_row <$> [mkVoteRow 7 1])) [1; 2; 3] 1 1048576 empty_bus) as [[s w]|] eqn:Hs;
    [|vm_compute in Hs; discriminate Hs].
  exists s, w. split; [reflexivity|].
  apply (restarted_node_follows_old_leader [] [mkVoteRow 7 1] [1; 2; 3] 1 1048576 empty_bus s w sample_env
    4%nat sample_delegate 5 3 Hs); [vm_compute; reflexivity|vm_compute; reflexivity|].
  exists (mkVoteRow 7 1). split; [apply list_elem_of_here|vm_compute; reflexivity].
Defined.

Lemma deserialize_total_witness : is_Some (deserialize_replication_log [Init.Byte.x01; Init.Byte.xff]).
Proof. apply deserialize_total. Defined.
