(* ===== verification/NodeDurability.v ===== *)
(** * A node and its disk

    The state machine of a node and its persistence worker as one system: the handlers queue
    tasks, the worker takes them one by one, flushes and answers, in any interleaving.  The
    tasks always describe what the handlers did to the log and to the votes, so file, buffer
    and queue together always hold the log of the node, and a restart recovers it. *)
From stdpp Require Import strings.
From S2P Require Import Prelude Capnp CapnpInstance RaftTypes Bus Samples Persistence PersistenceSpec RaftSm LogModel.
From S2P Require Import Follower FollowerSpec Leader LeaderSpec Candidate Executor Safety NodeTypes Startup StartupSpec.

(** ** Tasks describe what a handler did *)

Section durable.
Context {CP : Capnp} {B : Type} `{Bus B} {P : PersistenceTaskType -> Prop}.
Implicit Types s : SharedState B.

Abbreviation log s := (replication_log (volatile_server_state s)).

(** The bytes of the log of a node. *)
Definition log_bytes s : list Data := as_bytes <$> log s.

(** The votes after the vote tasks of [ts]. *)
Definition replay_votes (ts : list PersistenceTaskType) (votes : gmap Z Z) : gmap Z Z :=
  vote_map (mjoin (vote_rows <$> ts)) votes.

(** An entry whose bytes are those of a built message. *)
Definition stored_entry (e : OwnedLogEntry) : Prop := exists m, log_entry_built m /\ e = stored m.

Definition built_data (data : Data) : Prop := exists m, log_entry_built m /\ data = write_log_entry m.

Definition built_task (t : PersistenceTaskType) : Prop :=
  match t with PT_AppendLog _ data _ => built_data data | _ => True end.

Definition node_ok s : Prop := chan_open (persistence_work s) = true /\ Forall stored_entry (log s).

(** The tasks a handler has queued, all of the kind [P], turn the old log and votes into the
    new ones. *)
Definition describes (ts : list PersistenceTaskType) s s' : Prop :=
  persistence_work s' = mkSender true (chan_queue (persistence_work s) ++ ts) /\ Forall built_task ts /\ Forall P ts /\
  disk_run ts (log_bytes s) = Some (log_bytes s') /\ term_votes s' = replay_votes ts (term_votes s).

Definition durable s s' : Prop := node_ok s -> node_ok s' /\ exists ts, describes ts s s'.

Lemma replay_votes_app ts1 ts2 votes :
  replay_votes (ts1 ++ ts2) votes = replay_votes ts2 (replay_votes ts1 votes).
Proof. unfold replay_votes. by rewrite fmap_app, join_app, fold_left_app. Qed.

#[export] Instance durable_preorder : PreOrder durable.
Proof.
  split.
  - intros s Hok. split; [done|]. exists []. destruct Hok as [Ho _]. split_and!; [|constructor|constructor|done..].
    rewrite app_nil_r. by destruct (persistence_work s); simpl in Ho; subst.
  - intros s1 s2 s3 H12 H23 H1. destruct (H12 H1) as (H2 & ts1 & Hw1 & Hb1 & Hp1 & Hd1 & Hv1).
    destruct (H23 H2) as (H3 & ts2 & Hw2 & Hb2 & Hp2 & Hd2 & Hv2). split; [done|]. exists (ts1 ++ ts2). split_and!.
    + rewrite Hw2, Hw1. simpl. by rewrite (assoc_L (++)).
    + by apply Forall_app.
    + by apply Forall_app.
    + rewrite disk_run_app, Hd1. exact Hd2.
    + by rewrite Hv2, Hv1, replay_votes_app.
Qed.

Lemma durable_with s s' : (node_ok s -> durable s s') -> durable s s'.
Proof. intros Hs Hok. by apply Hs. Qed.

(** Nothing of log, votes and queue changes. *)
Definition still s s' : Prop :=
  term_votes s' = term_votes s /\ log s' = log s /\ persistence_work s' = persistence_work s.

Lemma durable_still s s' : still s s' -> durable s s'.
Proof.
  intros (Hv & Hl & Hw) [Ho Hs]. unfold node_ok, describes, log_bytes. rewrite Hw, Hl, Hv. split; [done|].
  exists []. split_and!; [|constructor|constructor|done..]. rewrite app_nil_r. by destruct (persistence_work s); simpl in Ho; subst.
Qed.

Lemma durable_hushed s s' : hushed s s' -> durable s s'.
Proof. intros (? & ? & _ & ? & _). by apply durable_still. Qed.

Lemma durable_quiet s s' : quiet s s' -> durable s s'.
Proof. intros. by apply durable_hushed, quiet_hushed. Qed.

Lemma durable_callback cb p s : durable s (callback_send_ok cb p s).
Proof. apply durable_quiet, quiet_callback_send_ok. Qed.

(** An entry is appended and queued. *)
Lemma durable_append m id rid s s' :
  P (PT_AppendLog id (write_log_entry m) rid) -> log_entry_built m -> log s' = log s ++ [stored m] -> term_votes s' = term_votes s ->
  persistence_work s' = mkSender true (chan_queue (persistence_work s) ++ [PT_AppendLog id (write_log_entry m) rid]) ->
  durable s s'.
Proof.
  intros Hp Hm Hl Hv Hw [Ho Hs]. unfold node_ok, describes, log_bytes. rewrite Hw, Hl, Hv. split.
  - split; [done|]. apply Forall_app. split; [done|]. apply Forall_singleton. by exists m.
  - eexists. split_and!; [reflexivity| |by apply Forall_singleton|simpl; by rewrite fmap_app|done].
    apply Forall_singleton. by exists m.
Qed.

(** A vote is recorded and queued. *)
Lemma durable_vote id t c s s' :
  P (PT_AppendVote id t c) -> log s' = log s -> term_votes s' = <[t := c]> (term_votes s) ->
  persistence_work s' = mkSender true (chan_queue (persistence_work s) ++ [PT_AppendVote id t c]) ->
  durable s s'.
Proof.
  intros Hp Hl Hv Hw [Ho Hs]. unfold node_ok, describes, log_bytes. rewrite Hw, Hl, Hv. split; [done|].
  eexists. split_and!; [reflexivity|by apply Forall_singleton|by apply Forall_singleton|done|done].
Qed.

(** The log is cut and the cut queued. *)
Lemma durable_truncate t i s : (forall n, P (PT_TruncateLog n)) -> durable s (truncate_log t i s).
Proof.
  intros Hp. unfold truncate_log. case_decide as Hlt; [|reflexivity]. intros [Ho Hs].
  rewrite persistence_send_open by done. simpl. unfold node_ok, describes, log_bytes. simpl. split.
  - split; [done|]. by apply Forall_take.
  - eexists. split_and!; [reflexivity|by apply Forall_singleton|by apply Forall_singleton| |done]. simpl.
    pose proof (u64_add_range i 1) as [? _]. rewrite decide_True.
    + simpl. unfold vtruncate. by rewrite fmap_take.
    + unfold vlen in *. rewrite length_fmap. lia.
Qed.

End durable.

Arguments describes {CP B} P.
Arguments durable {CP B} P.

(** ** Every handler *)

Section handlers.
Context {CP : Capnp} {CL : CapnpLaws} {B : Type} `{Bus B} {P : PersistenceTaskType -> Prop}.
Context (Pvote : forall id t c, P (PT_AppendVote id t c)).
Context (Pappend : forall id data rid, P (PT_AppendLog id data rid)).
Context (Ptruncate : forall n, P (PT_TruncateLog n)).
Implicit Types s : SharedState B.

Lemma durable_update_commit_index n s : durable P s (update_commit_index n s).
Proof. destruct (update_commit_index_frame n s) as (b & w & c & d & ->). by apply durable_still. Qed.

(** What the entry of a request must be: the bytes of a built message. *)
Definition built_request (r : LocalAppendEntries) : Prop :=
  forall e, a_entry r = Some e -> built_data (e_data e).

(** The end of [apply_log_entry]. *)
Lemma durable_commit s x n k f :
  durable P s x ->
  durable P s ((if decide (k < n) then update_commit_index n x else x) <| outstanding_messages ::= f |>).
Proof.
  intros Hx. etrans; [exact Hx|].
  etrans; [|by apply (durable_still (if decide (k < n) then update_commit_index n x else x))].
  case_decide; [apply durable_update_commit_index|reflexivity].
Qed.

Lemma durable_apply_log_entry r cb s : built_request r -> durable P s (apply_log_entry r cb s).
Proof.
  intros Hb. unfold apply_log_entry. destruct (a_entry r) as [e|] eqn:He; cbn [note_received_entry].
  2:{ rewrite from_bytes_nil. etrans; [|apply durable_callback]. by apply durable_still. }
  destruct (Hb e He) as (m & Hm & Hdata). rewrite Hdata, from_bytes_written by done.
  set (s1 := if decide _ then _ else _). assert (still s s1) as (Hv & Hl & Hw) by (unfold s1; case_decide; done).
  apply durable_with. intros [Ho _]. rewrite persistence_send_open by (by rewrite Hw).
  apply durable_commit. clearbody s1.
  apply (durable_append m (next_message_id s) (a_request_id r)); simpl; by rewrite ?Hl, ?Hv, ?Hw.
Qed.

Lemma durable_heartbeat env r cb s timer : durable P s (handle_heartbeat env r cb s timer).1.
Proof. apply durable_quiet, quiet_heartbeat. Qed.

Lemma durable_follower_append env r cb d s :
  built_request r -> durable P s (Follower.append_entries env r cb d s).2.
Proof.
  intros Hb. unfold Follower.append_entries. case_decide.
  - unfold Follower.handle_new_leader.
    match goal with |- context [apply_log_entry r cb ?x] => set (s1 := x) end.
    assert (durable P s s1) as Hs1 by (by apply durable_still).
    destruct (validate_append_entries _ _ _); [destruct (a_entry r) eqn:He|]; cbn [snd]; (etrans; [exact Hs1|]);
      [by apply durable_apply_log_entry|apply durable_callback..].
  - case_decide; [case_decide; [|destruct (negb _)]|]; cbn [snd].
    + pose proof (durable_heartbeat env r cb s (election_timer d)) as Hs. by destruct (handle_heartbeat _ _ _ _ _).
    + apply durable_callback.
    + by apply durable_apply_log_entry.
    + apply durable_callback.
Qed.

Lemma durable_follower_quorum q n s : durable P s (Follower.process_quorum q n s).2.
Proof.
  revert n s. induction q as [|t q IH]; intros n s; cbn [Follower.process_quorum]; [reflexivity|].
  etrans; [|apply IH]. etrans; [apply (durable_still _ (s <| quorum_response := q |>)); done|].
  destruct t; try reflexivity. unfold handle_quorum_response.
  etrans; [by apply durable_truncate|by apply durable_still].
Qed.

Lemma durable_retry s : durable P s (retry_deferred_broadcast s).2.
Proof. apply durable_quiet, quiet_retry_deferred. Qed.

Lemma durable_follower_time_step env d s sc n d' s' :
  Follower.time_step env d s = Some (sc, n, d', s') -> durable P s s'.
Proof.
  unfold Follower.time_step. destruct (Follower.process_persistence _ _ _) as [[w s1]|] eqn:H1; [|done].
  cbn [mbind option_bind]. apply quiet_follower_persistence, (durable_quiet (P := P)) in H1.
  pose proof (durable_follower_quorum (quorum_response s1) w s1) as H2.
  destruct (Follower.process_quorum _ _ _) as [w2 s2]. pose proof (durable_retry s2) as H3.
  destruct (retry_deferred_broadcast s2) as [w3 s3]. cbn [snd] in *.
  intros Heq. assert (s' = s3) as -> by (destruct (check_timeout _ _); by simplify_eq).
  etrans; [exact H1|]. by etrans.
Qed.

Lemma observe_still t s : still s (observe_vote_term t s).
Proof. unfold observe_vote_term. by case_decide. Qed.

Lemma durable_follower_request_vote r cb d s sc d' s' :
  Follower.request_vote r cb d s = Some (sc, d', s') -> durable P s s'.
Proof.
  unfold Follower.request_vote. intros Heq. etrans; [apply durable_still, (observe_still (rv_term r))|].
  destruct (negb _); [|by simplify_eq; apply durable_still].
  destruct (callback_send _ _ _) as [s1|] eqn:Hc; [|done]. cbn [mbind option_bind] in Heq. simplify_eq.
  apply callback_send_Some in Hc as ->. by apply durable_still.
Qed.

(** Granting a vote, as the candidate and the leader do it. *)
Lemma durable_grant t c cb s s1 :
  persistence_send (PT_AppendVote (next_message_id s) t c) s = Some s1 ->
  durable P s (s1 <| term_votes ::= <[t := c]> |> <| next_message_id := next_message_id s +! 1 |>
               <| outstanding_messages ::= <[next_message_id s := mkOutstandingMessage (next_message_id s) 1 (OM_RequestVote cb)]> |>).
Proof. intros [_ ->]%persistence_send_Some. by eapply durable_vote. Qed.

Lemma durable_leader_request_vote r cb d s : durable P s (Leader.request_vote r cb d s).2.
Proof.
  unfold Leader.request_vote. etrans; [apply durable_still, (observe_still (rv_term r))|].
  destruct (negb _); cbn [snd]; [apply durable_callback|].
  destruct (persistence_send _ _) as [s1|] eqn:Hp; cbn [snd]; [|apply durable_callback]. by apply durable_grant.
Qed.

Lemma durable_candidate_request_vote r cb d s : durable P s (Candidate.request_vote r cb d s).2.
Proof.
  unfold Candidate.request_vote. etrans; [apply durable_still, (observe_still (rv_term r))|].
  destruct (negb _); cbn [snd]; [apply durable_callback|].
  destruct (persistence_send _ _) as [s1|] eqn:Hp; cbn [snd]; [|apply durable_callback]. by apply durable_grant.
Qed.

Lemma durable_election env now d s : durable P s (start_election env now d s).2.
Proof.
  intros Hok. pose proof Hok as [Ho _]. revert Hok. unfold start_election, persistence_send, send. simpl. rewrite Ho. simpl.
  match goal with |- node_ok s -> _ => apply (durable_vote (next_message_id s) (next_term (volatile_server_state s)) (identity s)) end; done.
Qed.

Lemma durable_candidate_append env r cb d s : durable P s (Candidate.append_entries env r cb d s).2.
Proof.
  unfold Candidate.append_entries. case_decide; cbn [snd]; [|apply durable_callback].
  case_decide; (etrans; [|apply durable_callback]); by apply durable_still.
Qed.

Lemma durable_leader_append env r cb d s : durable P s (Leader.append_entries env r cb d s).2.
Proof.
  unfold Leader.append_entries, Leader.handle_new_leader. case_decide; cbn [snd]; [|apply durable_callback].
  case_decide; (etrans; [|apply durable_callback]); by apply durable_still.
Qed.

Lemma durable_candidate_time_step env d s sc n d' s' :
  Candidate.time_step env d s = Some (sc, n, d', s') -> durable P s s'.
Proof.
  unfold Candidate.time_step.
  destruct (Candidate.process_persistence _ _ _ _) as [[[sc1 w1] s1]|] eqn:H1; [|done]. cbn [mbind option_bind].
  apply hushed_candidate_persistence, (durable_hushed (P := P)) in H1. destruct sc1; [|intros ?; by simplify_eq..].
  destruct (Candidate.process_quorum _ _ _ _) as [[[sc2 w2] s2]|] eqn:H2; [|done]. cbn [mbind option_bind].
  apply hushed_candidate_quorum, (durable_hushed (P := P)) in H2. assert (H02 : durable P s s2) by by etrans.
  destruct sc2; [|intros ?; by simplify_eq..].
  set (r := if timeout_expired _ _ then _ else _). assert (He : durable P s2 r.2).
  { unfold r. destruct (timeout_expired _ _); [|reflexivity].
    pose proof (durable_election env (clock env 0%nat) d s2) as Hv. by destruct (start_election _ _ _ _). }
  destruct r as [[w3 d3] s3]. cbn [snd] in He. pose proof (durable_retry s3) as H4.
  destruct (retry_deferred_broadcast s3) as [w4 s4]. intros ?; simplify_eq. cbn [snd] in H4.
  etrans; [exact H02|]. by etrans.
Qed.

(** The entries the leader builds. *)
Lemma create_batch_stored env msg idx id s e s' :
  words_ok s -> u64 idx -> u64 id -> create_and_append_log_entry env msg idx id s = Some (e, s') ->
  exists m, log_entry_built m /\ e = stored m.
Proof.
  intros Hok Hi Hid. unfold create_and_append_log_entry, batch_with_message.
  destruct (read_message_from_flat_slice _) as [[r rest]|]; [|done].
  destruct (write_batch_root r) as [b|] eqn:Hroot; [|done]. simpl.
  set (m := mkInternalLogEntry _ _ _ _ _ _ _ _).
  assert (Hm : log_entry_made m).
  { apply (entry_message_made env idx id (map copy_command (default [] (wb_requests b))) s); try apply Hok; try done.
    by eapply copied_commands_built. }
  destruct (build_owned_log_entry m) as [owned|] eqn:Hbuild; [|done]. intros [= <- <-]. exists m.
  by apply build_owned_log_entry_made in Hbuild.
Qed.

Lemma create_noop_stored env idx id s e s' :
  words_ok s -> u64 idx -> u64 id -> create_and_append_noop_entry env idx id s = Some (e, s') ->
  exists m, log_entry_built m /\ e = stored m.
Proof.
  intros Hok Hi Hid. unfold create_and_append_noop_entry. set (m := mkInternalLogEntry _ _ _ _ _ _ _ _).
  assert (Hm : log_entry_built m) by (by apply (entry_message_built env idx id [] s); try apply Hok).
  rewrite (build_owned_log_entry_ok m Hm). intros Heq. exists m. split; [done|]. simpl in Heq. by simplify_eq.
Qed.

Lemma durable_send_error msg cb s s' : send_error_response msg cb s = Some s' -> durable P s s'.
Proof.
  unfold send_error_response. destruct (write_batch_response _); [|done]. simpl. intros ?; simplify_eq. apply durable_callback.
Qed.

Lemma durable_write_batch env msg cb s s' :
  words_ok s -> write_batch env msg cb s = Some s' -> durable P s s'.
Proof.
  unfold write_batch. intros Hok Heq. destruct (validate_write_batch msg).
  { etrans; [|by eapply durable_send_error]. by apply durable_still. }
  assert (Hok1 : words_ok (s <| next_message_id ::= fun n => n +! 1 |>)) by (revert Hok; words).
  destruct (create_and_append_log_entry _ _ _ _ _) as [[e s1]|] eqn:Hc; [|done].
  destruct (create_batch_stored _ _ _ _ _ _ _ Hok1 (ok_next_log_index _ Hok) (ok_next_message_id _ Hok) Hc) as (m & Hm & ->).
  apply create_batch_push in Hc as ->. cbn [mbind option_bind] in Heq.
  destruct (push_entry_spec (stored m) (s <| next_message_id ::= fun n => n +! 1 |>)) as [starts Hp]. rewrite Hp in Heq.
  intros Hn. unfold queue_persistence_task in Heq. rewrite persistence_send_open in Heq by apply Hn.
  injection Heq as <-. revert Hn. by eapply (durable_append m).
Qed.

Lemma durable_initialize env s s' :
  words_ok s -> vlen (replication_log (volatile_server_state s)) < 2 ^ 64 ->
  initialize_leadership env s = Some s' -> durable P s s'.
Proof.
  unfold initialize_leadership. intros Hok Hlen Heq.
  pose proof (vlen_nonneg (replication_log (volatile_server_state s))) as Hpos.
  set (idx := vlen _) in *. assert (Hidx : u64 idx) by done. set (s1 := push_all_quorum _ _) in *.
  assert (Hok1 : words_ok s1) by (revert Hok; unfold s1; words). set (s2 := if decide _ then _ else _) in *.
  assert (Hs2 : same_but_broadcast s1 s2).
  { unfold s2. case_decide; [apply broadcast_committed_entries_frame|reflexivity]. }
  assert (Hnl : next_log_index (volatile_server_state s2) = idx) by (destruct Hs2 as (? & ? & ? & ? & ->); done).
  assert (Hok2 : words_ok s2) by (by apply (typed_broadcast s1)).
  assert (Hst : still s s2) by (destruct Hs2 as (? & ? & ? & ? & ->); done).
  assert (Hok3 : words_ok (s2 <| next_message_id ::= fun n => n +! 1 |>)) by (revert Hok2; words).
  rewrite Hnl in Heq. destruct (create_and_append_noop_entry _ _ _ _) as [[e s3]|] eqn:Hc; [|done].
  destruct (create_noop_stored _ _ _ _ _ _ Hok3 Hidx (ok_next_message_id _ Hok2) Hc) as (m & Hm & ->).
  apply create_noop_push in Hc as ->. cbn [mbind option_bind] in Heq.
  etrans; [exact (durable_still s s2 Hst)|]. clear Hst Hs2 Hnl Hok3.
  destruct (push_entry_spec (stored m) (s2 <| next_message_id ::= fun n => n +! 1 |>)) as [starts Hp]. rewrite Hp in Heq.
  intros Hn. unfold queue_persistence_task in Heq. rewrite persistence_send_open in Heq by apply Hn.
  injection Heq as <-. revert Hn. by eapply (durable_append m).
Qed.

Lemma durable_leader_time_step env d s sc n d' s' :
  words_ok s -> vlen (replication_log (volatile_server_state s)) < 2 ^ 64 ->
  Leader.time_step env d s = Some (sc, n, d', s') -> durable P s s'.
Proof.
  intros Hok Hlen. unfold Leader.time_step. destruct (if negb (initialized d) then _ else _) as [[[w d1] s1]|] eqn:H1; [|done].
  cbn [mbind option_bind]. destruct (process_persistence_responses _ _ _) as [[c s2]|] eqn:H2; [|done]. cbn [mbind option_bind].
  destruct (process_quorum_responses _ _ _ _) as [[[bs w3] s3]|] eqn:H3; [|done]. cbn [mbind option_bind].
  destruct (handle_backfill_requests _ _) as [s4|] eqn:H4; [|done]. cbn [mbind option_bind].
  pose proof (durable_retry s4) as H5. destruct (retry_deferred_broadcast s4) as [w5 s5]. intros ?; simplify_eq.
  assert (durable P s s1).
  { destruct (initialized d); simpl in H1; [by simplify_eq|].
    destruct (initialize_leadership env s) as [s0|] eqn:Hi; [|done]. simpl in H1. simplify_eq.
    by eapply durable_initialize. }
  apply quiet_leader_persistence, (durable_quiet (P := P)) in H2. apply quiet_leader_quorum, (durable_quiet (P := P)) in H3.
  apply quiet_backfills, (durable_quiet (P := P)) in H4.
  etrans; [done|]. etrans; [exact H2|]. etrans; [exact H3|]. by etrans.
Qed.

End handlers.

(** ** The node and its worker *)

Section system.
Context {CP : Capnp} {CL : CapnpLaws} {CSV : Csv} {B : Type} `{Bus B}.
Implicit Types x : StateMachineExecutorImpl B.
Implicit Types w : PersistenceWorker.

Abbreviation log x := (replication_log (volatile_server_state (shared_state x))).

(** A handler call does not both append to the log and cut it. *)
Definition is_append (t : PersistenceTaskType) : Prop :=
  match t with PT_AppendLog _ _ _ => True | _ => False end.

Definition is_truncation (t : PersistenceTaskType) : Prop :=
  match t with PT_TruncateLog _ => True | _ => False end.

Definition no_append t : Prop := ~ is_append t.
Definition no_truncation t : Prop := ~ is_truncation t.

Abbreviation cuts_only := (durable no_append).
Abbreviation appends_only := (durable no_truncation).

Lemma durable_time_step env x n x' :
  words_ok (shared_state x) -> vlen (log x) < 2 ^ 64 -> Executor.time_step env x = Some (n, x') ->
  cuts_only (shared_state x) (shared_state x') \/ appends_only (shared_state x) (shared_state x').
Proof.
  assert (Hv : forall id t c, no_truncation (PT_AppendVote id t c)) by (by intros ? ? ? []).
  assert (Ha : forall id data rid, no_truncation (PT_AppendLog id data rid)) by (by intros ? ? ? []).
  assert (Ht0 : forall n, no_append (PT_TruncateLog n)) by (by intros ? []).
  intros Hok Hlen. destruct x as [[d|d|d] s]; unfold Executor.time_step, delegate_time_step; simpl.
  - destruct (Follower.time_step env d s) as [[[[sc w] d1] s1]|] eqn:Ht; [|done]. simpl. intros ?; simplify_eq.
    left. by eapply durable_follower_time_step.
  - destruct (Candidate.time_step env d s) as [[[[sc w] d1] s1]|] eqn:Ht; [|done]. simpl. intros ?; simplify_eq.
    right. by eapply durable_candidate_time_step.
  - destruct (Leader.time_step env d s) as [[[[sc w] d1] s1]|] eqn:Ht; [|done]. simpl. intros ?; simplify_eq.
    right. by eapply durable_leader_time_step.
Qed.

(** The entry of a message is built: what a quorum worker passes on from another node. *)
Definition built_message (m : LocalRaftMessage) : Prop :=
  match lrm_payload m with RM_AppendEntries r => built_request r | _ => True end.

Lemma durable_refused_write cb d s x' msg :
  (let* p := write_batch_response msg in
   Some (mkStateMachineExecutorImpl d (callback_send_ok cb p s))) = Some x' -> appends_only s (shared_state x').
Proof.
  destruct (write_batch_response _) as [p|]; [|done]. simpl. intros ?; simplify_eq. apply durable_callback.
Qed.

Lemma durable_accept env m x x' :
  words_ok (shared_state x) -> built_message m -> accept env m x = Some x' ->
  appends_only (shared_state x) (shared_state x').
Proof.
  assert (Hv : forall id t c, no_truncation (PT_AppendVote id t c)) by (by intros ? ? ? []).
  assert (Ha : forall id data rid, no_truncation (PT_AppendLog id data rid)) by (by intros ? ? ? []).
  intros Hok Hm. destruct m as [[r|r| |b] cb]; unfold accept, delegate_accept; simpl.
  - destruct (state_delegate x) as [d|d|d]; simpl.
    + destruct (Follower.request_vote r cb d _) as [[[sc d1] s1]|] eqn:Hr; [|done]. simpl. intros ?; simplify_eq.
      by eapply durable_follower_request_vote.
    + pose proof (durable_candidate_request_vote (P := no_truncation) Hv r cb d (shared_state x)) as Hd.
      destruct (Candidate.request_vote r cb d _) as [[sc d1] s1]. intros ?; by simplify_eq.
    + pose proof (durable_leader_request_vote (P := no_truncation) Hv r cb d (shared_state x)) as Hd.
      destruct (Leader.request_vote r cb d _) as [[sc d1] s1]. intros ?; by simplify_eq.
  - destruct (state_delegate x) as [d|d|d]; simpl.
    + pose proof (durable_follower_append (P := no_truncation) Ha env r cb d (shared_state x) Hm) as Hd.
      destruct (Follower.append_entries env r cb d _) as [[sc d1] s1]. intros ?; by simplify_eq.
    + pose proof (durable_candidate_append (P := no_truncation) env r cb d (shared_state x)) as Hd.
      destruct (Candidate.append_entries env r cb d _) as [[sc d1] s1]. intros ?; by simplify_eq.
    + pose proof (durable_leader_append (P := no_truncation) env r cb d (shared_state x)) as Hd.
      destruct (Leader.append_entries env r cb d _) as [[sc d1] s1]. intros ?; by simplify_eq.
  - destruct (state_delegate x); intros ?; simplify_eq; apply durable_callback.
  - destruct (state_delegate x) as [d|d|d]; simpl; [apply durable_refused_write..|].
    destruct (write_batch env b cb _) as [s1|] eqn:Hw; [|done]. simpl. intros ?; simplify_eq.
    by eapply durable_write_batch.
Qed.

(** The worker hands what it has answered to the queue of the state machine. *)
Definition deliver_responses (d : Delegate) s w : StateMachineExecutorImpl B * PersistenceWorker :=
  (mkStateMachineExecutorImpl d (s <| persistence_response ::= fun q => (q ++ response_queue w)%list |>),
   w <| response_queue := [] |>).

(** The bytes of the log file, written or buffered. *)
Definition file_size w : Z := vlen (bw_file (log_write_buffer w)) + vlen (bw_buf (log_write_buffer w)).

(** The interleavings of state machine, persistence worker and the other workers.  The worker
    takes a task from the channel or flushes when there is none left to take.  A log that fits
    the address space and a file whose size fits 64 bits are what the machine provides. *)
Inductive node_step : StateMachineExecutorImpl B * PersistenceWorker -> StateMachineExecutorImpl B * PersistenceWorker -> Prop :=
| Node_time env x n x' w :
    vlen (log x) < 2 ^ 64 -> Executor.time_step env x = Some (n, x') -> node_step (x, w) (x', w)
| Node_accept env m x x' w :
    typed_message m -> built_message m -> accept env m x = Some x' -> node_step (x, w) (x', w)
| Node_other d s qr qt cbs w :
    Forall typed_quorum qr ->
    node_step (mkStateMachineExecutorImpl d s, w)
      (mkStateMachineExecutorImpl d (s <| quorum_response := qr |> <| quorum_worker_tasks := qt |> <| callbacks := cbs |>), w)
| Node_task d s t q w w' :
    persistence_work s = mkSender true (t :: q) -> file_size w + task_bytes t < 2 ^ 64 ->
    process_task t BATCH_SIZE w = Some w' ->
    node_step (mkStateMachineExecutorImpl d s, w)
              (deliver_responses d (s <| persistence_work := mkSender true q |>) w')
| Node_flush d s w :
    node_step (mkStateMachineExecutorImpl d s, w) (deliver_responses d s (flush_pending_logs w)).

End system.

(** ** The invariant *)

Section invariant.
Context {CP : Capnp} {CL : CapnpLaws} {CSV : Csv} {CSVL : CsvLaws} {B : Type} `{Bus B}.
Implicit Types s : SharedState B.
Implicit Types x : StateMachineExecutorImpl B.
Implicit Types w : PersistenceWorker.

Abbreviation log x := (replication_log (volatile_server_state (shared_state x))).
Abbreviation queue x := (chan_queue (persistence_work (shared_state x))).

(** [ms] are the entries the worker has taken, [rows] the votes: file and buffer hold them,
    and the tasks it has not taken yet turn them into the log and the votes of the node. *)
Record on_disk (ms : list InternalLogEntry) (rows : list VoteRow) x w : Prop := {
  od_built : Forall log_entry_built ms;
  od_entries : represents (write_log_entry <$> ms) w;
  od_votes : vote_file w = mjoin (csv_row <$> rows);
  od_tasks : Forall built_task (queue x);
  od_log : disk_run (queue x) (write_log_entry <$> ms) = Some (log_bytes (shared_state x));
  od_term_votes : replay_votes (queue x) (vote_map rows ∅) = term_votes (shared_state x)
}.

Record node_inv (n : StateMachineExecutorImpl B * PersistenceWorker) : Prop := {
  ni_words : words_ok (shared_state n.1);
  ni_node : node_ok (shared_state n.1);
  ni_responses : response_queue n.2 = [] /\ Forall typed_persistence (pending_log_responses n.2);
  ni_disk : exists ms rows, on_disk ms rows n.1 n.2
}.

(** Built tasks keep the entries on disk built. *)
Lemma disk_step_built ms t es :
  Forall log_entry_built ms -> built_task t -> disk_step (write_log_entry <$> ms) t = Some es ->
  exists ms', Forall log_entry_built ms' /\ es = write_log_entry <$> ms'.
Proof.
  intros Hms Ht. destruct t as [id t c|id data rid|n]; simpl; intros Hs; simplify_eq.
  - by exists ms.
  - destruct Ht as (m & Hm & ->). exists (ms ++ [m]). rewrite fmap_app. split; [|done].
    apply Forall_app. split; [done|by apply Forall_singleton].
  - case_decide; simplify_eq. exists (vtruncate n ms). unfold vtruncate. rewrite fmap_take. split; [by apply Forall_take|done].
Qed.

Lemma owed_typed t : typed_task t -> Forall typed_persistence (owed t).
Proof. destruct t; simpl; intros; [by apply Forall_singleton..|constructor]. Qed.

(** A step of the state machine queues tasks behind the others. *)
Lemma on_disk_durable P ms rows x x' w :
  node_ok (shared_state x) -> durable P (shared_state x) (shared_state x') -> on_disk ms rows x w ->
  node_ok (shared_state x') /\ on_disk ms rows x' w.
Proof.
  intros Hok Hd [Hm He Hv Ht Hl Htv]. destruct (Hd Hok) as (Hok' & ts & Hw & Hb & _ & Hr & Hvs). split; [done|].
  split; try done; rewrite Hw; simpl.
  - by apply Forall_app.
  - rewrite disk_run_app, Hl. exact Hr.
  - rewrite replay_votes_app, Htv. done.
Qed.

Lemma file_size_represents es w : represents es w -> file_size w = vlen (mjoin es).
Proof. intros He. unfold file_size. rewrite <- vlen_app. by rewrite (rep_bytes _ _ He). Qed.

(** A step of the worker. *)
Lemma on_disk_task ms rows d s t q w :
  on_disk ms rows (mkStateMachineExecutorImpl d s) w -> persistence_work s = mkSender true (t :: q) ->
  file_size w + task_bytes t < 2 ^ 64 ->
  exists w', process_task t BATCH_SIZE w = Some w' /\
    response_queue w' ++ pending_log_responses w' = (response_queue w ++ pending_log_responses w) ++ owed t /\
    file_size w' <= file_size w + task_bytes t /\
    exists ms', disk_step (write_log_entry <$> ms) t = Some (write_log_entry <$> ms') /\
      forall d' s' r, persistence_work s' = mkSender true q -> log_bytes s' = log_bytes s -> term_votes s' = term_votes s ->
        on_disk ms' (rows ++ vote_rows t) (mkStateMachineExecutorImpl d' s') (w' <| response_queue := r |>).
Proof.
  intros [Hm He Hv Ht Hl Htv] Hq Hsize. simpl in *. rewrite Hq in Ht, Hl, Htv. simpl in Ht, Hl.
  inversion Ht as [|? ? Ht1 Ht2]; subst. destruct (disk_step _ t) as [es|] eqn:Hs; [|done]. simpl in Hl.
  pose proof (file_size_represents _ _ He) as Hbytes. rewrite Hbytes in Hsize.
  destruct (process_task_refines _ _ _ _ He Hs Hsize) as (w1 & Hw1 & He1 & Hr1 & Hv1). exists w1. split_and!; [done..| |].
  { rewrite (file_size_represents _ _ He1), Hbytes. by apply (disk_step_bytes _ _ _ Hs). }
  destruct (disk_step_built _ _ _ Hm Ht1 Hs) as (ms' & Hm' & ->).
  exists ms'. split; [done|]. intros d' s' r Hq' Hl' Hv'.
  split; simpl; [done|by destruct He1| |by rewrite Hq'|by rewrite Hq', Hl'|].
  - rewrite Hv1, Hv, fmap_app, join_app. done.
  - rewrite Hq', Hv', <- Htv. unfold replay_votes. simpl. by rewrite !fold_left_app.
Qed.

(** The answers handed over are typed, and so are those held back. *)
Lemma deliver_words d s w :
  words_ok s -> Forall typed_persistence (response_queue w) -> words_ok (shared_state (deliver_responses d s w).1).
Proof. intros Hok Hr. revert Hok. words. by apply Forall_app. Qed.

Lemma node_task_inv d s t q w :
  node_inv (mkStateMachineExecutorImpl d s, w) -> persistence_work s = mkSender true (t :: q) ->
  file_size w + task_bytes t < 2 ^ 64 ->
  exists w', process_task t BATCH_SIZE w = Some w' /\
    node_inv (deliver_responses d (s <| persistence_work := mkSender true q |>) w') /\
    response_queue w' ++ pending_log_responses w' = pending_log_responses w ++ owed t /\
    file_size w' <= file_size w + task_bytes t.
Proof.
  intros [Hwords [Ho Hst] [Hrq Hpend] (ms & rows & Hdisk)] Hq Hsize. simpl in *.
  destruct (on_disk_task _ _ _ _ _ _ _ Hdisk Hq Hsize) as (w' & Hw & Hr & Hfs & ms' & _ & Hnext). exists w'.
  rewrite Hrq in Hr. simpl in Hr. split_and!; [done| |done..].
  pose proof (ok_work _ Hwords) as Hwt. rewrite Hq in Hwt. simpl in Hwt.
  inversion Hwt as [|? ? Ht Hqt]; subst.
  assert (Forall typed_persistence (response_queue w' ++ pending_log_responses w')) as [Hrt Hpt]%Forall_app.
  { rewrite Hr. apply Forall_app. split; [done|by apply owed_typed]. }
  split.
  - apply deliver_words; [|done]. revert Hwords. words.
  - by split.
  - by split.
  - exists ms', (rows ++ vote_rows t).
    exact (Hnext d (shared_state (deliver_responses d (s <| persistence_work := mkSender true q |>) w').1) []
      eq_refl eq_refl eq_refl).
Qed.

Lemma on_disk_flush ms rows d s w :
  on_disk ms rows (mkStateMachineExecutorImpl d s) w ->
  on_disk ms rows (deliver_responses d s (flush_pending_logs w)).1 (deliver_responses d s (flush_pending_logs w)).2.
Proof.
  intros [Hm He Hv Ht Hl Htv]. destruct (flush_represents _ _ He) as (He' & _ & _ & _ & Hv').
  split; simpl; [done|by destruct He'|by rewrite Hv'|done..].
Qed.

Lemma node_flush_inv d s w :
  node_inv (mkStateMachineExecutorImpl d s, w) -> node_inv (deliver_responses d s (flush_pending_logs w)).
Proof.
  intros [Hwords [Ho Hst] [Hrq Hpend] (ms & rows & Hdisk)]. simpl in *.
  destruct (flush_represents _ _ (od_entries _ _ _ _ Hdisk)) as (_ & Hp' & _ & Hq' & _).
  split.
  - apply deliver_words; [done|]. rewrite Hq', Hrq. done.
  - by split.
  - simpl. by rewrite Hp'.
  - exists ms, rows. by apply on_disk_flush.
Qed.

Lemma node_step_inv n n' : node_inv n -> node_step n n' -> node_inv n'.
Proof.
  intros Hinv Hs. destruct Hs as [env x k x' w Hlen Ht|env m x x' w Hm Hb Ha|d s qr qt cbs w Hqr|d s t q w w' Hq Hsize Ht|d s w].
  - destruct Hinv as [Hwords Hok Hr (ms & rows & Hdisk)].
    assert (node_ok (shared_state x') /\ on_disk ms rows x' w) as [Hok' Hdisk'].
    { destruct (durable_time_step _ _ _ _ Hwords Hlen Ht); by eapply on_disk_durable. }
    split; [by apply (typed_time_step _ _ _ _ Hlen Ht)|done|done|by exists ms, rows].
  - destruct Hinv as [Hwords Hok Hr (ms & rows & Hdisk)].
    destruct (on_disk_durable _ _ _ _ x' _ Hok (durable_accept _ _ _ _ Hwords Hb Ha) Hdisk) as [Hok' Hdisk'].
    split; [by apply (typed_accept _ _ _ _ Hm Ha)|done|done|by exists ms, rows].
  - destruct Hinv as [Hwords Hok Hr (ms & rows & Hdisk)]. split; [|done|done|].
    + revert Hwords. words.
    + exists ms, rows. destruct Hdisk. by split.
  - destruct (node_task_inv _ _ _ _ _ Hinv Hq Hsize) as (w1 & Hw1 & Hinv' & _). by simplify_eq.
  - by apply node_flush_inv.
Qed.

Lemma node_steps_inv n n' : node_inv n -> rtc node_step n n' -> node_inv n'.
Proof. intros Hn Hs. induction Hs as [|n1 n2 n3 H12 _ IH]; [done|]. apply IH. by eapply node_step_inv. Qed.

End invariant.

(** ** Starting, crashing, draining *)

Section restart.
Context {CP : Capnp} {CL : CapnpLaws} {CSV : Csv} {CSVL : CsvLaws} {B : Type} `{Bus B}.
Implicit Types x : StateMachineExecutorImpl B.
Implicit Types w : PersistenceWorker.

Abbreviation log x := (replication_log (volatile_server_state (shared_state x))).
Abbreviation queue x := (chan_queue (persistence_work (shared_state x))).

Definition typed_row (v : VoteRow) : Prop := typed_vote (vote_term v) (vote_candidate_id v).

Lemma vote_map_typed rows votes :
  Forall typed_row rows -> map_Forall typed_vote votes -> map_Forall typed_vote (vote_map rows votes).
Proof.
  intros Hr. revert votes. induction Hr as [|v rows Hv Hr IH]; intros votes Hvs; simpl; [done|].
  apply IH. by apply map_Forall_insert_2.
Qed.

Lemma term_starts_typed i t l starts :
  map_Forall (fun t _ => u64 t) starts -> map_Forall (fun t _ => u64 t) (term_starts i t l starts).
Proof.
  revert i t starts. induction l as [|e l IH]; intros i t starts Hs; simpl; [done|].
  case_decide; apply IH; [|done]. apply map_Forall_insert_2; [apply term_u64|done].
Qed.

(** What is recovered from whole entries, a torn write behind them, and votes. *)
Lemma start_recovers ms tail rows nodes node_id max (bus : B) :
  Forall log_entry_built ms -> torn tail ->
  exists s w, start_node (mjoin (write_log_entry <$> ms) ++ tail) (mjoin (csv_row <$> rows)) nodes node_id max bus = Some (s, w) /\
    replication_log (volatile_server_state s) = map stored ms /\ term_votes s = vote_map rows ∅ /\
    persistence_work s = mkSender true [] /\
    w = PersistenceWorker_new (mjoin (write_log_entry <$> ms) ++ tail) (mjoin (csv_row <$> rows)) (offsets_from 0 (write_log_entry <$> ms)) /\
    (Forall typed_row rows -> u32 node_id -> words_ok s).
Proof.
  intros Hm Ht. unfold start_node, read_votes, read_log. rewrite csv_rows_written. cbn [mbind option_bind].
  unfold recover_persisted_data. rewrite deserialize_reads_back by done. cbn [mbind option_bind process_votes].
  do 2 eexists. split_and!; [reflexivity..|]. intros Hr Hid.
  assert (Hlast : forall m, vlast ms = Some m -> u64 (le_index m) /\ u64 (le_term m)).
  { intros m Hl. apply last_Some in Hl as [ms' ->]. apply Forall_app in Hm as [_ Hm]. inversion Hm as [|? ? Hb _]; subst.
    destruct Hb as (((? & ? & _) & _) & _). done. }
  split; simpl; unfold rd_last_log_index, rd_last_log_term; try done; try apply u64_add_u64; try (by constructor).
  - destruct (vlast ms) as [m|]; [by apply Hlast|done].
  - destruct (vlast ms) as [m|]; [by apply Hlast|done].
  - by apply vote_map_typed.
  - by apply term_starts_typed.
Qed.

Lemma surjective_bw b : b = mkBufWriter (bw_file b) (bw_buf b).
Proof. by destruct b. Qed.

(** What a start from whole files leaves on disk. *)
Lemma started_on_disk ms rows nodes node_id max (bus : B) s w env :
  Forall log_entry_built ms ->
  start_node (mjoin (write_log_entry <$> ms)) (mjoin (csv_row <$> rows)) nodes node_id max bus = Some (s, w) ->
  replication_log (volatile_server_state s) = map stored ms /\ node_ok s /\ queue (StateMachineExecutorImpl_new env s) = [] /\
  response_queue w = [] /\ pending_log_responses w = [] /\ on_disk ms rows (StateMachineExecutorImpl_new env s) w /\
  (Forall typed_row rows -> u32 node_id -> words_ok s).
Proof.
  intros Hm Hs. destruct (start_recovers ms [] rows nodes node_id max bus Hm torn_nil)
    as (s' & w' & Hs' & Hl & Hv & Hq & Hw & Hwords). rewrite app_nil_r in Hs', Hw. rewrite Hs in Hs'. simplify_eq.
  unfold node_ok. simpl. rewrite Hq. split_and!; try done.
  - rewrite Hl. apply Forall_fmap. eapply Forall_impl; [|exact Hm]. intros m Hb. by exists m.
  - split; simpl; rewrite ?Hq; simpl; try done.
    + split; simpl; [by rewrite app_nil_r|done|done|lia|by apply mjoin_take_prefix].
    + f_equal. unfold log_bytes. rewrite Hl. rewrite <- list_fmap_compose. done.
Qed.

(** A node started from whole files satisfies the invariant. *)
Lemma started_inv ms rows nodes node_id max (bus : B) s w env :
  Forall log_entry_built ms -> Forall typed_row rows -> u32 node_id ->
  start_node (mjoin (write_log_entry <$> ms)) (mjoin (csv_row <$> rows)) nodes node_id max bus = Some (s, w) ->
  node_inv (StateMachineExecutorImpl_new env s, w).
Proof.
  intros Hm Hr Hid Hs. destruct (started_on_disk _ _ _ _ _ _ _ _ env Hm Hs) as (Hl & Hok & Hq & Hrq & Hp & Hd & Hw).
  split; simpl; [by apply Hw|done|by rewrite Hrq, Hp|by exists ms, rows].
Qed.

(** What is left of a list of entries when the bytes are cut anywhere. *)
Lemma cut_entries ms file j :
  Forall log_entry_built ms -> mjoin (take j (write_log_entry <$> ms)) `prefix_of` file ->
  file `prefix_of` mjoin (write_log_entry <$> ms) ->
  exists k tail, file = mjoin (write_log_entry <$> take k ms) ++ tail /\ torn tail /\ (j <= k \/ length ms <= k)%nat.
Proof.
  revert file j. induction ms as [|m ms IH]; intros file j Hm Hj Hf.
  - apply prefix_nil_inv in Hf as ->. exists 0%nat, []. split; [done|]. split; [apply torn_nil|]. simpl. lia.
  - inversion Hm as [|? ? Hb Hms]; subst.
    change (mjoin (write_log_entry <$> m :: ms)) with (write_log_entry m ++ mjoin (write_log_entry <$> ms)) in Hf.
    destruct (decide (length (write_log_entry m) <= length file)%nat) as [Hlen|Hlen].
    + assert (exists file', file = write_log_entry m ++ file') as [file' ->].
      { destruct Hf as [k Hk]. exists (drop (length (write_log_entry m)) file).
        rewrite <- (take_drop (length (write_log_entry m)) file) at 1. f_equal.
        apply (f_equal (take (length (write_log_entry m)))) in Hk.
        rewrite take_app_length, take_app_le in Hk by done. done. }
      apply prefix_app_inv in Hf. destruct (IH file' (pred j) Hms) as (k & tail & -> & Ht & Hk); [|done|].
      { destruct j as [|j]; [apply prefix_nil|]. simpl in Hj. by apply prefix_app_inv in Hj. }
      exists (S k), tail. split; [by rewrite (assoc_L (++))|]. split; [done|]. simpl. lia.
    + destruct j as [|j].
      2:{ exfalso. simpl in Hj. apply prefix_length in Hj. rewrite length_app in Hj. lia. }
      exists 0%nat, file. split; [done|]. split; [|left; lia].
      destruct Hf as [k Hk]. exists m, (drop (length file) (write_log_entry m)). split.
      * rewrite <- (take_drop (length file) (write_log_entry m)) at 1. f_equal.
        apply (f_equal (take (length file))) in Hk. rewrite take_app_length, take_app_le in Hk by lia. done.
      * intros Hn. apply (f_equal length) in Hn. rewrite length_drop in Hn. simpl in Hn. lia.
Qed.

Lemma disk_run_grows ts es es' :
  Forall (fun t => ~ is_truncation t) ts -> disk_run ts es = Some es' -> es `prefix_of` es'.
Proof.
  intros Ht. revert es. induction Ht as [|t ts Hn Ht IH]; intros es; simpl; intros Hd; [by simplify_eq|].
  destruct t as [| |n]; simpl in Hd; [by apply IH| |by destruct Hn].
  etrans; [|by apply IH]. by eexists.
Qed.

Lemma log_bytes_inj (l1 l2 : list OwnedLogEntry) : as_bytes <$> l1 = as_bytes <$> l2 -> l1 = l2.
Proof. apply list_fmap_eq_inj. intros [] [] Heq. simpl in Heq. by subst. Qed.

(** C10: Whatever a running node does and however its state machine and its persistence worker
    interleave, a crash at any moment loses only what was never answered: a node started from
    the bytes that reached the file (of a write in progress perhaps only the front) and from
    its votes recovers every entry but the last ones whose response is still held back; the
    tasks still in the channel turn what was recovered and lost into exactly the log and votes
    the node had.  So the recovered log is a prefix of the log unless a truncation was
    still queued, and equal to it when nothing was left to write. *)
Theorem crash_recovers_node ms0 rows0 nodes node_id max (bus : B) s0 w0 env x w file :
  Forall log_entry_built ms0 -> Forall typed_row rows0 -> u32 node_id ->
  start_node (mjoin (write_log_entry <$> ms0)) (mjoin (csv_row <$> rows0)) nodes node_id max bus = Some (s0, w0) ->
  rtc node_step (StateMachineExecutorImpl_new env s0, w0) (x, w) ->
  bw_file (log_write_buffer w) `prefix_of` file ->
  file `prefix_of` bw_file (log_write_buffer w) ++ bw_buf (log_write_buffer w) ->
  exists s w' lost, start_node file (vote_file w) nodes node_id max bus = Some (s, w') /\
    (length lost <= length (pending_log_responses w))%nat /\
    disk_run (queue x) (log_bytes s ++ lost) = Some (log_bytes (shared_state x)) /\
    replay_votes (queue x) (term_votes s) = term_votes (shared_state x) /\
    (Forall (fun t => ~ is_truncation t) (queue x) -> replication_log (volatile_server_state s) `prefix_of` log x) /\
    (queue x = [] -> pending_log_responses w = [] ->
       replication_log (volatile_server_state s) = log x /\ term_votes s = term_votes (shared_state x)).
Proof.
  intros Hm0 Hr0 Hid Hs0 Hsteps Hlo Hhi. pose proof (started_inv _ _ _ _ _ _ _ _ env Hm0 Hr0 Hid Hs0) as Hinv.
  apply (node_steps_inv _ _ Hinv) in Hsteps. destruct Hsteps as [_ _ _ (ms & rows & [Hm He Hv Ht Hl Htv])]. simpl in *.
  pose proof He as [Hb _ _ Hp Hdur]. rewrite Hb in Hhi. rewrite length_fmap in *.
  set (j := (length ms - length (pending_log_responses w))%nat) in *.
  destruct (cut_entries ms file j Hm) as (k & tail & -> & Htorn & Hk); [by etrans|done|].
  destruct (start_recovers (take k ms) tail rows nodes node_id max bus) as (s & w' & Hs & Hsl & Hsv & _); [by apply Forall_take|done|].
  exists s, w', (write_log_entry <$> drop k ms).
  assert (Hall : log_bytes s ++ (write_log_entry <$> drop k ms) = write_log_entry <$> ms).
  { unfold log_bytes. rewrite Hsl, <- list_fmap_compose.
    change (as_bytes ∘ stored) with write_log_entry. by rewrite <- fmap_app, take_drop. }
  rewrite Hv. split_and!; [done| | | | |].
  - rewrite length_fmap, length_drop. lia.
  - by rewrite Hall.
  - by rewrite Hsv.
  - intros Hnt. apply (disk_run_grows _ _ _ Hnt) in Hl. rewrite <- Hall in Hl. destruct Hl as [rest Hrest].
    rewrite <- (assoc_L (++)) in Hrest. apply fmap_app_inv in Hrest as (l1 & l2 & Hl1 & _ & Heq).
    apply log_bytes_inj in Hl1. rewrite Heq, <- Hl1. by exists l2.
  - intros Hq Hpn. rewrite Hq in Hl, Htv. simpl in Hl, Htv. unfold j in Hk. rewrite Hpn in Hk. simpl in Hk.
    rewrite Hsv. split; [|done]. injection Hl as Hl. rewrite <- Hall in Hl.
    rewrite (drop_ge ms) in Hl by lia. simpl in Hl. rewrite app_nil_r in Hl. by apply log_bytes_inj in Hl.
Qed.

(** C18: The persistence worker never panics and always catches up: from every state of a
    running node, taking the queued tasks and flushing ends with every entry of the log in
    the file, every recorded vote in the vote file, and one response per task in the order of
    the tasks; log and votes do not change meanwhile. *)
Theorem worker_catches_up ms0 rows0 nodes node_id max (bus : B) s0 w0 env d s w :
  Forall log_entry_built ms0 -> Forall typed_row rows0 -> u32 node_id ->
  start_node (mjoin (write_log_entry <$> ms0)) (mjoin (csv_row <$> rows0)) nodes node_id max bus = Some (s0, w0) ->
  rtc node_step (StateMachineExecutorImpl_new env s0, w0) (mkStateMachineExecutorImpl d s, w) ->
  let ts := chan_queue (persistence_work s) in
  file_size w + tasks_bytes ts < 2 ^ 64 ->
  exists s' w', rtc node_step (mkStateMachineExecutorImpl d s, w) (mkStateMachineExecutorImpl d s', w') /\
    s' = s <| persistence_work := mkSender true [] |>
           <| persistence_response := persistence_response s ++ pending_log_responses w ++ mjoin (owed <$> ts) |> /\
    pending_log_responses w' = [] /\
    log_write_buffer w' = mkBufWriter (mjoin (log_bytes s')) [] /\
    exists rows, vote_file w' = mjoin (csv_row <$> rows) /\ vote_map rows ∅ = term_votes s'.
Proof.
  intros Hm0 Hr0 Hid Hs0 Hsteps ts. pose proof (started_inv _ _ _ _ _ _ _ _ env Hm0 Hr0 Hid Hs0) as Hinv.
  apply (node_steps_inv _ _ Hinv) in Hsteps. clear Hinv Hs0 Hm0 Hr0 Hid. rename Hsteps into Hinv.
  remember ts as q eqn:Hq. unfold ts in Hq. clear ts. revert s w Hinv Hq.
  induction q as [|t q IH]; intros s w Hinv Hq Hsize.
  - eexists _, _. split; [apply rtc_once, Node_flush|]. destruct Hinv as [_ [Ho _] [Hrq _] (ms & rows & [Hm He Hv Ht Hl Htv])].
    simpl in *. rewrite <- Hq in Hl, Htv. simpl in Hl, Htv. injection Hl as Hl.
    destruct (flush_represents _ _ He) as (He' & Hp' & Hf' & Hq' & Hv'). split_and!.
    + rewrite Hq', Hrq. simpl. rewrite app_nil_r. destruct s as [a b [] ? ? ? ? ? ? ? ? ? ? ?]. simpl in *. by subst.
    + done.
    + rewrite (surjective_bw (log_write_buffer _)). simpl. rewrite Hf', (rep_idle _ _ He' Hp'). by rewrite Hl.
    + exists rows. by rewrite Hv', Hv.
  - assert (Hwork : persistence_work s = mkSender true (t :: q)).
    { destruct Hinv as [_ [Ho _] _ _]. simpl in Ho. destruct (persistence_work s). simpl in *. by subst. }
    simpl in Hsize. pose proof (tasks_bytes_nonneg q).
    destruct (node_task_inv _ _ _ _ _ Hinv Hwork) as (w1 & Hw1 & Hinv1 & Hr1 & Hfs); [lia|].
    destruct (IH _ _ Hinv1) as (s' & w' & Hs' & Heq & Hrest); [done|simpl; unfold file_size in *; simpl in *; lia|].
    exists s', w'. split; [eapply rtc_l; [by apply (Node_task d s t q w w1); [|lia|]|exact Hs']|]. split; [|exact Hrest].
    rewrite Heq. simpl. f_equal. rewrite <- !(assoc_L (++)). f_equal.
    rewrite (assoc_L (++)), Hr1. by rewrite <- (assoc_L (++)).
Qed.

End restart.

(** ** A concrete run

    Node 1 starts on empty files, appends the first entry of a leader of term 1 and its worker
    takes the entry; then the node stops. *)

Definition first_node : StateMachineExecutorImpl ScriptedBus * PersistenceWorker :=
  match start_node [] [] [1; 2; 3] 1 1048576 empty_bus with
  | Some (s, w) => (StateMachineExecutorImpl_new (late_env 0) s, w)
  | None => (started_node, new_worker)
  end.

Definition first_entry : LocalRaftMessage :=
  mkLocalRaftMessage (RM_AppendEntries (mkLocalAppendEntries 1 2 0 0 5
    (Some (mkLogEntry 0 (write_log_entry (sample_message 0 1 0 0 1)) 0 1 0 0 1)) 0)) 3%nat.

Definition entry_received : StateMachineExecutorImpl ScriptedBus :=
  default first_node.1 (accept (late_env 0) first_entry first_node.1).

Definition entry_taken : StateMachineExecutorImpl ScriptedBus * PersistenceWorker :=
  match chan_queue (persistence_work (shared_state entry_received)) with
  | [t] =>
    deliver_responses (state_delegate entry_received)
      ((shared_state entry_received) <| persistence_work := mkSender true [] |>)
      (default first_node.2 (process_task t BATCH_SIZE first_node.2))
  | _ => first_node
  end.

Lemma first_node_runs : rtc node_step first_node (entry_received, first_node.2).
Proof.
  apply rtc_once. change first_node with (first_node.1, first_node.2) at 1.
  apply (Node_accept (late_env 0) first_entry).
  - refine (bool_decide_unpack _ _). vm_compute. exact I.
  - intros e He. vm_compute in He. injection He as <-. exists (sample_message 0 1 0 0 1).
    split; [|reflexivity]. by apply sample_message_built.
  - vm_compute. reflexivity.
Qed.

Lemma first_node_started :
  start_node (mjoin (write_log_entry <$> [])) (mjoin (csv_row <$> [])) [1; 2; 3] 1 1048576 empty_bus =
  Some (shared_state first_node.1, first_node.2).
Proof. vm_compute. reflexivity. Qed.

Lemma first_node_pair :
  (StateMachineExecutorImpl_new (late_env 0) (shared_state first_node.1), first_node.2) = first_node.
Proof. vm_compute. reflexivity. Qed.

Lemma executor_eta (x : StateMachineExecutorImpl ScriptedBus) :
  x = mkStateMachineExecutorImpl (state_delegate x) (shared_state x).
Proof. by destruct x. Qed.

Lemma entry_taken_reached : rtc node_step first_node entry_taken.
Proof.
  etrans; [exact first_node_runs|]. apply rtc_once.
  pose (t := PT_AppendLog 0 (write_log_entry (sample_message 0 1 0 0 1)) 5).
  pose (w := default first_node.2 (process_task t BATCH_SIZE first_node.2)).
  rewrite (executor_eta entry_received) at 1.
  replace entry_taken with (deliver_responses (state_delegate entry_received)
    ((shared_state entry_received) <| persistence_work := mkSender true [] |>) w) by (vm_compute; reflexivity).
  apply (Node_task _ _ t []); [vm_compute; reflexivity..].
Qed.

Lemma crash_recovers_node_witness :
  exists s w', start_node (bw_file (log_write_buffer entry_taken.2)) (vote_file entry_taken.2) [1; 2; 3] 1 1048576 empty_bus = Some (s, w') /\
    replication_log (volatile_server_state s) `prefix_of` replication_log (volatile_server_state (shared_state entry_taken.1)).
Proof.
  destruct (crash_recovers_node [] [] [1; 2; 3] 1 1048576 empty_bus (shared_state first_node.1) first_node.2 (late_env 0)
    entry_taken.1 entry_taken.2 (bw_file (log_write_buffer entry_taken.2))) as (s & w' & lost & Hs & _ & _ & _ & Hpre & _).
  - constructor.
  - constructor.
  - refine (bool_decide_unpack _ _). vm_compute. exact I.
  - exact first_node_started.
  - rewrite first_node_pair, <- (surjective_pairing entry_taken). exact entry_taken_reached.
  - done.
  - by apply prefix_app_r.
  - exists s, w'. split; [exact Hs|]. apply Hpre.
    replace (chan_queue _) with ([] : list PersistenceTaskType) by (vm_compute; reflexivity). constructor.
Defined.

Lemma worker_catches_up_witness :
  exists s' w', rtc node_step (entry_received, first_node.2) (mkStateMachineExecutorImpl (state_delegate entry_received) s', w') /\
    log_write_buffer w' = mkBufWriter (mjoin (log_bytes s')) [].
Proof.
  destruct (worker_catches_up [] [] [1; 2; 3] 1 1048576 empty_bus (shared_state first_node.1) first_node.2 (late_env 0)
    (state_delegate entry_received) (shared_state entry_received) first_node.2) as (s' & w' & Hs & _ & _ & Hf & _).
  - constructor.
  - constructor.
  - refine (bool_decide_unpack _ _). vm_compute. exact I.
  - exact first_node_started.
  - rewrite first_node_pair, <- executor_eta. exact first_node_runs.
  - vm_compute. reflexivity.
  - exists s', w'. rewrite <- executor_eta in Hs. split; [exact Hs|exact Hf].
Defined.
