(* ===== verification/NodeAcks.v ===== *)
(** * What an acknowledgement of a follower stands on

    State machine and persistence worker of one node, in any interleaving and in whatever
    role the node is: the answer to a request that brought an entry, and every report of the
    persistence worker, follow the entry into the log file.  The ledger below follows an entry
    from the task that describes it to the report, by the message id of the task. *)
From stdpp Require Import strings.
From S2P Require Import Prelude Capnp CapnpInstance RaftTypes Bus Samples Persistence PersistenceSpec RaftSm LogModel.
From S2P Require Import Follower FollowerSpec Leader LeaderSpec Candidate Executor Safety NodeTypes NodeLog ClusterLog.
From S2P Require Import Startup StartupSpec NodeDurability.

(** ** The ledger *)

Section ledger.
Context {CP : Capnp} {B : Type} `{Bus B}.
Implicit Types s : SharedState B.
Implicit Types T : gmap Z Data.

(** The file holds, after other entries, the complete entry [data]. *)
Definition in_file (data : Data) (file : list byte) : Prop :=
  exists ms m, Forall log_entry_built (ms ++ [m]) /\ data = write_log_entry m /\
    mjoin (write_log_entry <$> (ms ++ [m])) `prefix_of` file.

(** One of the states the file has had holds it. *)
Definition written (files : list (list byte)) (data : Data) : Prop := exists file, file ∈ files /\ in_file data file.

Lemma written_more files files' data : files ⊆ files' -> written files data -> written files' data.
Proof. intros Hf (file & Hin & Hd). exists file. split; [by apply Hf|done]. Qed.

(** The requests to append the node was asked: the callback, and the bytes of the entry. *)
Variable asked : list (Callback * option Data).
Variable files : list (list byte).

Abbreviation queue s := (chan_queue (persistence_work s)).
Abbreviation sent s := (cb_sent (callbacks s)).
Abbreviation outstanding s := (outstanding_messages s).
Abbreviation reports s := (persistence_response s).

Definition waits (cb : Callback) (om : option OutstandingMessage) : Prop := message_type <$> om = Some (OM_AppendLog cb).

(** [T] has the bytes of the entry every id was used for. *)
Record ledger T s : Prop := {
  led_open : chan_open (persistence_work s) = true;
  led_fresh : forall id, next_message_id s <= id -> T !! id = None;
  led_queue : forall id data rid, PT_AppendLog id data rid ∈ queue s -> T !! id = Some data;
  led_reports : forall id, PR_LogPersisted id ∈ reports s -> exists data, T !! id = Some data /\ written files data;
  led_waits : forall id cb, waits cb (outstanding s !! id) -> exists data, (cb, Some data) ∈ asked /\ T !! id = Some data;
  led_sent : forall cb, (cb, RP_AppendEntries AE_Ok) ∈ sent s ->
    (cb, None) ∈ asked \/ exists data, (cb, Some data) ∈ asked /\ written files data
}.

(** The handler uses at most [n] message ids, the counter does not wrap, and the ledger is kept. *)
Definition carries (n : Z) s s' : Prop :=
  0 <= next_message_id s -> next_message_id s + n < 2 ^ 64 -> forall T, ledger T s ->
  next_message_id s <= next_message_id s' <= next_message_id s + n /\ exists T', T ⊆ T' /\ ledger T' s'.

Lemma carries_refl s : carries 0 s s.
Proof. intros _ _ T HT. split; [lia|by exists T]. Qed.

Lemma carries_trans n1 n2 s1 s2 s3 : 0 <= n1 -> 0 <= n2 -> carries n1 s1 s2 -> carries n2 s2 s3 -> carries (n1 + n2) s1 s3.
Proof.
  intros Hn1 Hn2 H12 H23 H0 Hr T HT. destruct (H12 H0 ltac:(lia) T HT) as (Hle & T2 & Hs2 & HT2).
  destruct (H23 ltac:(lia) ltac:(lia) T2 HT2) as (Hle3 & T3 & Hs3 & HT3). split; [lia|]. exists T3. split; [by etrans|done].
Qed.

Lemma carries_more n n' s s' : n <= n' -> carries n s s' -> carries n' s s'.
Proof. intros Hn Hc H0 Hr T HT. destruct (Hc H0 ltac:(lia) T HT) as (? & HT'). split; [lia|done]. Qed.

(** Only what the conclusion needs of the state before. *)
Lemma carries_with n s s' : (chan_open (persistence_work s) = true -> carries n s s') -> carries n s s'.
Proof. intros Hs H0 Hr T HT. by apply Hs; [apply HT|..]. Qed.

(** A step that queues no entry and answers no request to append, or one that was reported. *)
Lemma carries_step n ts s s' :
  persistence_work s' = mkSender true (queue s ++ ts) -> Forall (fun t => ~ is_append t) ts ->
  (0 <= next_message_id s -> next_message_id s + n < 2 ^ 64 ->
     next_message_id s <= next_message_id s' <= next_message_id s + n) ->
  reports s' ⊆ reports s ->
  (forall id cb, waits cb (outstanding s' !! id) -> waits cb (outstanding s !! id)) ->
  (forall cb, (cb, RP_AppendEntries AE_Ok) ∈ sent s' -> (cb, RP_AppendEntries AE_Ok) ∈ sent s \/ (cb, None) ∈ asked \/
     exists id, PR_LogPersisted id ∈ reports s /\ waits cb (outstanding s !! id)) ->
  carries n s s'.
Proof.
  intros Hw Hts Hn Hr Ho Hs H0 Hroom T [Hop Hf Hq Hrep Hwt Hst]. specialize (Hn H0 Hroom). split; [done|].
  exists T. split; [done|]. split.
  - by rewrite Hw.
  - intros id Hid. apply Hf. lia.
  - intros id data rid. rewrite Hw. simpl. rewrite elem_of_app. intros [Hin|Hin]; [by eapply Hq|].
    rewrite Forall_forall in Hts. apply list_elem_of_In in Hin. by destruct (Hts _ Hin).
  - intros id Hid. by apply Hrep, Hr.
  - intros id cb Hid. by apply (Hwt id), Ho.
  - intros cb [Hin|[Hin|(id & Hid & Hwid)]]%Hs; [by apply Hst|by left|]. right.
    destruct (Hrep id Hid) as (data & Hd & Hwr). destruct (Hwt id cb Hwid) as (data' & Ha & Hd').
    rewrite Hd in Hd'. injection Hd' as <-. by exists data.
Qed.

(** A step that queues an entry under the next id. *)
Lemma carries_append data rid m s s' :
  persistence_work s' = mkSender true (queue s ++ [PT_AppendLog (next_message_id s) data rid]) ->
  next_message_id s' = next_message_id s +! 1 -> reports s' = reports s ->
  outstanding s' = <[next_message_id s := m]> (outstanding s) -> sent s' = sent s ->
  (forall cb, message_type m = OM_AppendLog cb -> (cb, Some data) ∈ asked) ->
  carries 1 s s'.
Proof.
  intros Hw Hn Hr Ho Hs Hm H0 Hroom T [Hop Hf Hq Hrep Hwt Hst].
  assert (Hn' : next_message_id s' = next_message_id s + 1) by (rewrite Hn; apply u64_add_small; lia).
  split; [lia|]. set (id0 := next_message_id s) in *. assert (Hnew : T !! id0 = None) by (apply Hf; lia).
  assert (Hsub : T ⊆ <[id0 := data]> T) by by apply insert_subseteq. exists (<[id0 := data]> T). split; [done|].
  assert (Hkeep : forall id d, T !! id = Some d -> <[id0 := data]> T !! id = Some d) by (intros; by eapply lookup_weaken).
  split.
  - by rewrite Hw.
  - intros id Hid. rewrite lookup_insert_ne by lia. apply Hf. lia.
  - intros id d r. rewrite Hw. simpl. rewrite elem_of_app, list_elem_of_singleton.
    intros [Hin|[= -> -> ->]]; [by eapply Hkeep, Hq|by rewrite lookup_insert_eq].
  - rewrite Hr. intros id Hid. destruct (Hrep id Hid) as (d & Hd & Hwr). exists d. split; [by apply Hkeep|done].
  - intros id cb. unfold waits. rewrite Ho. destruct (decide (id = id0)) as [->|Hne].
    + rewrite !lookup_insert_eq. simpl. intros [= Hcb]. exists data. split; [by apply Hm|done].
    + rewrite lookup_insert_ne by done. intros Hwid. destruct (Hwt id cb Hwid) as (d & Ha & Hd). exists d. split; [done|by apply Hkeep].
  - rewrite Hs. exact Hst.
Qed.

End ledger.

(** ** Small steps *)

Section steps.
Context {CP : Capnp} {B : Type} `{Bus B}.
Implicit Types s : SharedState B.

Variable asked : list (Callback * option Data).
Variable files : list (list byte).

Abbreviation ok := (carries asked files).
Abbreviation sent s := (cb_sent (callbacks s)).
Abbreviation outstanding s := (outstanding_messages s).
Abbreviation reports s := (persistence_response s).

Lemma carries_quiet n s s' :
  persistence_work s' = persistence_work s ->
  (0 <= next_message_id s -> next_message_id s + n < 2 ^ 64 ->
     next_message_id s <= next_message_id s' <= next_message_id s + n) ->
  reports s' ⊆ reports s ->
  (forall id cb, waits cb (outstanding s' !! id) -> waits cb (outstanding s !! id)) ->
  (forall cb, (cb, RP_AppendEntries AE_Ok) ∈ sent s' -> (cb, RP_AppendEntries AE_Ok) ∈ sent s \/ (cb, None) ∈ asked \/
     exists id, PR_LogPersisted id ∈ reports s /\ waits cb (outstanding s !! id)) ->
  ok n s s'.
Proof.
  intros Hw Hn Hr Ho Hs. apply carries_with. intros Hop. apply (carries_step _ _ n []); try done.
  rewrite Hw, app_nil_r. destruct (persistence_work s). simpl in *. by subst.
Qed.

(** Nothing the ledger reads changes. *)
Definition bystander s s' : Prop :=
  persistence_work s' = persistence_work s /\ next_message_id s' = next_message_id s /\ reports s' = reports s /\
  outstanding s' = outstanding s /\ sent s' = sent s.

Lemma carries_same s s' : bystander s s' -> ok 0 s s'.
Proof.
  intros (Hw & Hn & Hr & Ho & Hs). apply carries_quiet; rewrite ?Hr, ?Ho, ?Hs; try done; [lia|by left].
Qed.

Lemma carries_broadcast s s' : same_but_broadcast s s' -> ok 0 s s'.
Proof. intros (b & w & c & d & ->). by apply carries_same. Qed.

Lemma sent_callback_ok cb p s : sent (callback_send_ok cb p s) ⊆ sent s ++ [(cb, p)].
Proof. rewrite callback_send_ok_eq. simpl. unfold respond. case_decide; simpl; set_solver. Qed.

Lemma carries_callback cb p s :
  (p = RP_AppendEntries AE_Ok -> (cb, None) ∈ asked) -> ok 0 s (callback_send_ok cb p s).
Proof.
  intros Hp. apply carries_quiet.
  - by rewrite callback_send_ok_eq.
  - rewrite callback_send_ok_eq. simpl. lia.
  - by rewrite callback_send_ok_eq.
  - intros id cb'. by rewrite callback_send_ok_eq.
  - intros cb' Hin%sent_callback_ok. apply elem_of_app in Hin as [Hin|Hin]; [by left|]. right. left.
    apply list_elem_of_singleton in Hin as [= -> <-]. by apply Hp.
Qed.

Lemma carries_callback_send cb p s s' :
  (p = RP_AppendEntries AE_Ok -> (cb, None) ∈ asked) -> callback_send cb p s = Some s' -> ok 0 s s'.
Proof. intros Hp Hc. pose proof (carries_callback cb p s Hp) as Hk. unfold callback_send_ok in Hk. by rewrite Hc in Hk. Qed.

Lemma waits_delete id cb (m : gmap Z OutstandingMessage) id' : waits cb (delete id m !! id') -> waits cb (m !! id').
Proof.
  unfold waits. destruct (decide (id = id')) as [->|Hne]; [by rewrite lookup_delete_eq|by rewrite lookup_delete_ne].
Qed.

Lemma carries_delete id s : ok 0 s (s <| outstanding_messages ::= delete id |>).
Proof. apply carries_quiet; simpl; try done; [lia|by intros ? ? ?%waits_delete|by left]. Qed.

(** A message that waits for no report of an entry. *)
Lemma carries_register id m s :
  (forall cb, message_type m <> OM_AppendLog cb) -> ok 0 s (s <| outstanding_messages ::= <[id := m]> |>).
Proof.
  intros Hm. apply carries_quiet; simpl; try done; [lia| |by left]. intros id' cb. unfold waits.
  destruct (decide (id' = id)) as [->|Hne]; [|by rewrite lookup_insert_ne]. rewrite lookup_insert_eq. intros [= Hcb].
  by destruct (Hm cb).
Qed.

Lemma carries_update id m s :
  (forall cb, message_type m <> OM_AppendLog cb) ->
  ok 0 s (s <| outstanding_messages ::= delete id |> <| outstanding_messages ::= <[id := m]> |>).
Proof.
  intros Hm. apply (carries_trans _ _ 0 0) with (s2 := s <| outstanding_messages ::= delete id |>); [done..| |].
  - apply carries_delete.
  - by apply carries_register.
Qed.

Lemma carries_next s : ok 1 s (s <| next_message_id ::= fun n => n +! 1 |>).
Proof. apply carries_quiet; simpl; try done; [|by left]. intros. rewrite u64_add_small by lia. lia. Qed.

Lemma carries_pop t q s : reports s = t :: q -> ok 0 s (s <| persistence_response := q |>).
Proof. intros Hq. apply carries_quiet; simpl; try done; [lia|rewrite Hq; set_solver|by left]. Qed.

(** A task of the persistence worker that is no append. *)
Lemma carries_send t s s' : ~ is_append t -> persistence_send t s = Some s' -> ok 0 s s'.
Proof.
  intros Ht [_ ->]%persistence_send_Some. apply (carries_step _ _ 0 [t]); simpl; try done; [by apply Forall_singleton|lia|by left].
Qed.

(** The answer to a request whose entry was reported. *)
Lemma carries_reported id cb m q s s' :
  reports s = PR_LogPersisted id :: q -> outstanding s !! id = Some m -> message_type m = OM_AppendLog cb ->
  persistence_work s' = persistence_work s -> next_message_id s' = next_message_id s -> reports s' = q ->
  outstanding s' = delete id (outstanding s) -> sent s' ⊆ sent s ++ [(cb, RP_AppendEntries AE_Ok)] -> ok 0 s s'.
Proof.
  intros Hq Hm Hcb Hw Hn Hr Ho Hs. apply carries_quiet; rewrite ?Hn, ?Hr; try done; [lia|rewrite Hq; set_solver|..].
  - rewrite Ho. by intros ? ? ?%waits_delete.
  - intros cb' Hin%Hs. apply elem_of_app in Hin as [Hin|Hin]; [by left|]. right. right.
    apply list_elem_of_singleton in Hin as [= ->]. exists id. split; [rewrite Hq; by left|].
    unfold waits. rewrite Hm. simpl. by rewrite Hcb.
Qed.

End steps.

(** Extends a chain of steps that use no message id. *)
Ltac carry := eapply (carries_trans _ _ 0 0); [done|done|..].

(** ** The follower *)

Section follower.
Context {CP : Capnp} {B : Type} `{Bus B}.
Implicit Types s : SharedState B.

Variable asked : list (Callback * option Data).
Variable files : list (list byte).

Abbreviation ok := (carries asked files).
Abbreviation reports s := (persistence_response s).

Lemma carries_pop_quorum q s : ok 0 s (s <| quorum_response := q |>).
Proof. by apply carries_same. Qed.

Lemma carries_commit n s : ok 0 s (update_commit_index n s).
Proof. destruct (update_commit_index_frame n s) as (b & w & c & d & ->). by apply carries_same. Qed.

Lemma bystander_commit {P} `{Decision P} n s : bystander s (if decide P then update_commit_index n s else s).
Proof. destruct (decide P); [|done]. destruct (update_commit_index_frame n s) as (b & w & c & d & ->). done. Qed.

Lemma carries_observe t s : ok 0 s (observe_vote_term t s).
Proof. unfold observe_vote_term. case_decide; [by apply carries_same|apply carries_refl]. Qed.

Lemma carries_retry s : ok 0 s (retry_deferred_broadcast s).2.
Proof. apply carries_broadcast, retry_deferred_broadcast_frame. Qed.

Lemma carries_follower_persistence q n s n' s' :
  reports s = q -> Follower.process_persistence q n s = Some (n', s') -> ok 0 s s'.
Proof.
  revert n s. induction q as [|t q IH]; intros n s Hq; cbn [Follower.process_persistence]; intros Heq.
  { simplify_eq. apply carries_refl. }
  destruct (Follower.handle_persistence_response t _) as [s1|] eqn:Hs1; [|done]. cbn [mbind option_bind] in Heq.
  assert (ok 0 s s1 /\ reports s1 = q) as [H1 Hq1]; [|carry; [exact H1|by eapply IH]]. clear Heq IH.
  set (s0 := s <| persistence_response := q |>) in *. assert (H0 : ok 0 s s0) by by eapply carries_pop.
  destruct t as [id t c|id]; cbn [Follower.handle_persistence_response] in Hs1.
  - unfold Follower.handle_vote_persisted in Hs1. destruct (outstanding_messages s0 !! id) as [m|]; [|by simplify_eq].
    assert (Hd : ok 0 s (s0 <| outstanding_messages ::= delete id |>)) by (carry; [exact H0|apply carries_delete]).
    destruct (message_type m); try by simplify_eq. split; [|by apply callback_send_Some in Hs1 as ->].
    carry; [exact Hd|]. eapply carries_callback_send; [|exact Hs1]. done.
  - injection Hs1 as <-. unfold Follower.handle_log_persisted. destruct (outstanding_messages s0 !! id) as [m|] eqn:Hm; [|done].
    assert (Hd : ok 0 s (s0 <| outstanding_messages ::= delete id |>)) by (carry; [exact H0|apply carries_delete]).
    destruct (message_type m) as [| |cb| |] eqn:Hcb; try done. rewrite callback_send_ok_eq. split; [|done].
    eapply (carries_reported _ _ id cb m q s); try done. unfold respond. simpl. case_decide; simpl; set_solver.
Qed.

Lemma carries_truncate_log t i s : ok 0 s (truncate_log t i s).
Proof.
  unfold truncate_log. case_decide; [|apply carries_refl].
  match goal with |- context [persistence_send ?t ?x] => destruct (persistence_send t x) as [s2|] eqn:Hs; set (s1 := x) in * end; simpl.
  - carry; [|eapply carries_send; [|exact Hs]; by intros []]. by apply carries_same.
  - by apply carries_same.
Qed.

Lemma carries_follower_quorum q n s : ok 0 s (Follower.process_quorum q n s).2.
Proof.
  revert n s. induction q as [|t q IH]; intros n s; cbn [Follower.process_quorum]; [apply carries_refl|].
  carry; [apply (carries_pop_quorum q)|]. carry; [|apply IH].
  destruct t; try apply carries_refl. simpl. carry; [apply carries_truncate_log|]. by apply carries_same.
Qed.

Lemma carries_follower_time_step env d s sc n d' s' : Follower.time_step env d s = Some (sc, n, d', s') -> ok 0 s s'.
Proof.
  unfold Follower.time_step. destruct (Follower.process_persistence _ _ _) as [[w s1]|] eqn:H1; [|done].
  cbn [mbind option_bind]. apply carries_follower_persistence in H1; [|done].
  pose proof (carries_follower_quorum (quorum_response s1) w s1) as H2.
  destruct (Follower.process_quorum _ _ _) as [w2 s2]. pose proof (carries_retry s2) as H3.
  destruct (retry_deferred_broadcast s2) as [w3 s3]. cbn [snd] in *.
  intros Heq. assert (s' = s3) as -> by (destruct (check_timeout _ _); by simplify_eq).
  carry; [exact H1|]. carry; [exact H2|exact H3].
Qed.

Lemma carries_follower_request_vote r cb d s sc d' s' : Follower.request_vote r cb d s = Some (sc, d', s') -> ok 1 s s'.
Proof.
  unfold Follower.request_vote. destruct (negb _).
  - destruct (callback_send _ _ _) as [s1|] eqn:Hc; [|done]. cbn [mbind option_bind]. intros; simplify_eq.
    apply (carries_more _ _ 0); [done|]. carry; [apply (carries_observe (rv_term r))|]. eapply carries_callback_send; [|exact Hc]. done.
  - intros; simplify_eq. apply (carries_trans _ _ 0 1) with (s2 := observe_vote_term (rv_term r) s); [done..|apply carries_observe|].
    set (s1 := observe_vote_term _ _). apply (carries_trans _ _ 1 0) with (s2 := s1 <| next_message_id ::= fun n => n +! 1 |>);
      [done..|apply carries_next|]. by apply carries_register.
Qed.

(** What the request brings. *)
Definition request_data (r : LocalAppendEntries) : option Data := e_data <$> a_entry r.

(** A node that is a follower of the request's leader, or will be, gets it. *)
Lemma carries_apply_log_entry r cb s :
  request_data r <> None -> (forall data, request_data r = Some data -> (cb, Some data) ∈ asked) -> ok 1 s (apply_log_entry r cb s).
Proof.
  intros Hr Ha. apply carries_with. intros Hop. unfold request_data in *. destruct (a_entry r) as [e|] eqn:He; [|done].
  unfold apply_log_entry. rewrite He. destruct (note_received_entry _ _) as [data s1] eqn:Hn.
  assert (data = e_data e /\ bystander (s <| next_message_id ::= fun n => n +! 1 |>) s1) as [-> Hs1].
  { simpl in Hn. injection Hn as <- <-. split; [done|]. by case_decide. }
  pose proof Hs1 as (Hw & Hn1 & Hr1 & Ho1 & Hcb1). simpl in *.
  assert (Hone : ok 1 s s1).
  { apply (carries_trans _ _ 1 0) with (s2 := s <| next_message_id ::= fun n => n +! 1 |>); [done..|apply carries_next|by apply carries_same]. }
  destruct (from_bytes _) as [oe|].
  2: { apply (carries_trans _ _ 1 0) with (s2 := s1); [done..|]. by apply carries_callback. }
  rewrite persistence_send_open by (rewrite Hw; done).
  simpl. match goal with |- context [if decide ?P then update_commit_index ?n ?x else ?x] =>
    pose proof (bystander_commit (P := P) n x) as Hb; set (s3 := if decide P then _ else _) in *; clearbody s3 end.
  destruct Hb as (Hw3 & Hn3 & Hr3 & Ho3 & Hcb3). simpl in *.
  eapply (carries_append _ _ (e_data e) (a_request_id r)); simpl; rewrite ?Hw3, ?Hn3, ?Hr3, ?Ho3, ?Hcb3, ?Hw, ?Hn1, ?Hr1, ?Ho1, ?Hcb1; try done.
  intros cb' [= <-]. by apply Ha.
Qed.

End follower.

(** ** Requests to append, in every role *)

Section append.
Context {CP : Capnp} {CL : CapnpLaws} {B : Type} `{Bus B}.
Implicit Types s : SharedState B.

Variable asked : list (Callback * option Data).
Variable files : list (list byte).

Abbreviation ok := (carries asked files).
Abbreviation ok1 := (carries asked files 1).

Lemma carries_answer n cb p s s' : 0 <= n -> ok n s s' -> (p = RP_AppendEntries AE_Ok -> (cb, None) ∈ asked) -> ok n s (callback_send_ok cb p s').
Proof.
  intros Hn Hs Hp. replace n with (n + 0) by lia. eapply carries_trans; [done..|exact Hs|]. by apply carries_callback.
Qed.

Lemma carries_apply r cb s : (cb, request_data r) ∈ asked -> ok1 s (apply_log_entry r cb s).
Proof.
  intros Ha. destruct (request_data r) as [data|] eqn:Hd.
  - apply carries_apply_log_entry; [congruence|]. intros data' Hd'. congruence.
  - unfold request_data in Hd. unfold apply_log_entry. destruct (a_entry r); [done|]. cbn [note_received_entry].
    rewrite from_bytes_nil. apply carries_answer; [done|apply carries_next|done].
Qed.

(** A follower.  The entry of a heartbeat, the request with the id 0, may be left out. *)
Lemma carries_follower_append env r cb d s :
  (cb, request_data r) ∈ asked -> (a_request_id r = 0 -> (cb, None) ∈ asked) ->
  ok1 s (Follower.append_entries env r cb d s).2.
Proof.
  intros Ha H0. assert (Hone : forall s', ok 0 s s' -> ok1 s s') by (intros s'; by apply carries_more).
  unfold Follower.append_entries. case_decide.
  - unfold Follower.handle_new_leader.
    set (s1 := s <| server_state ; current_term := _ |> <| server_state ; leader_id := _ |> <| volatile_server_state ; next_term := _ |>).
    assert (Hs1 : ok 0 s s1) by by apply carries_same.
    destruct (validate_append_entries _ _ _); [destruct (a_entry r) eqn:He|]; cbn [snd].
    + apply (carries_trans _ _ 0 1) with (s2 := s1); [done..|]. by apply carries_apply.
    + apply Hone, carries_answer; [done..|]. intros _. unfold request_data in Ha. by rewrite He in Ha.
    + by apply Hone, carries_answer.
  - case_decide; [case_decide as Hid; [|destruct (negb _)]|]; cbn [snd].
    + unfold handle_heartbeat. apply H0 in Hid. case_decide; cbn [snd].
      * apply Hone, carries_answer; [done|apply carries_refl|done].
      * apply Hone, carries_answer; [done| |done]. case_decide; [apply carries_commit|apply carries_refl].
    + apply Hone, carries_answer; [done|apply carries_refl|done].
    + by apply carries_apply.
    + apply Hone, carries_answer; [done|apply carries_refl|done].
Qed.

(** A candidate and a leader answer for their position only: they may be sent no entry. *)
Lemma carries_candidate_append env r cb d s :
  (cb, None) ∈ asked -> ok1 s (Candidate.append_entries env r cb d s).2.
Proof.
  intros Ha. apply (carries_more _ _ 0); [done|]. unfold Candidate.append_entries. case_decide; cbn [snd].
  - case_decide; (apply carries_answer; [done|by apply carries_same|done]).
  - apply carries_answer; [done|apply carries_refl|done].
Qed.

Lemma carries_leader_append env r cb d s :
  (cb, None) ∈ asked -> ok1 s (Leader.append_entries env r cb d s).2.
Proof.
  intros Ha. unfold Leader.append_entries, Leader.handle_new_leader. case_decide; cbn [snd].
  - set (s1 := s <| server_state ; current_term := _ |> <| server_state ; leader_id := _ |> <| volatile_server_state ; next_term := _ |>).
    set (s2 := s1 <| next_message_id ::= _ |>). assert (H2 : ok1 s s2).
    { apply (carries_trans _ _ 0 1) with (s2 := s1); [done..|by apply carries_same|apply carries_next]. }
    assert (H3 : forall t, ok1 s (push_all_quorum t s2)).
    { intros t. apply (carries_trans _ _ 1 0) with (s2 := s2); [done..|]. by apply carries_same. }
    case_decide; by apply carries_answer.
  - apply (carries_more _ _ 0); [done|]. apply carries_answer; [done|apply carries_refl|done].
Qed.

End append.

(** ** The candidate *)

Section candidate.
Context {CP : Capnp} {B : Type} `{Bus B}.
Implicit Types s : SharedState B.

Variable asked : list (Callback * option Data).
Variable files : list (list byte).

Abbreviation ok := (carries asked files).
Abbreviation reports s := (persistence_response s).

Lemma carries_candidate_persistence env q n s sc n' s' :
  reports s = q -> Candidate.process_persistence env q n s = Some (sc, n', s') -> ok 0 s s'.
Proof.
  revert n s. induction q as [|t q IH]; intros n s Hq; cbn [Candidate.process_persistence]; intros Heq.
  { simplify_eq. apply carries_refl. }
  set (s0 := s <| persistence_response := q |>) in *. assert (H0 : ok 0 s s0) by by eapply carries_pop.
  assert (Hd : forall id, ok 0 s (s0 <| outstanding_messages ::= delete id |>)).
  { intros id. carry; [exact H0|apply carries_delete]. }
  destruct t as [id t c|id].
  - assert (Hv : ok 0 s (Candidate.handle_vote_persisted env id t s0).2).
    { unfold Candidate.handle_vote_persisted, become_leader. destruct (outstanding_messages s0 !! id) as [m|]; [|exact H0].
      destruct (message_type m); cbn [snd]; try apply Hd.
      - carry; [apply Hd|]. by apply carries_callback.
      - case_decide; cbn [snd]; [carry; [apply Hd|by apply carries_same]|]. carry; [apply Hd|]. by apply carries_register. }
    pose proof (candidate_vote_persisted_queue env id t s0) as Hq'.
    destruct (Candidate.handle_vote_persisted _ _ _ _) as [[] s1]; simplify_eq; try exact Hv.
    carry; [exact Hv|]. by eapply IH.
  - destruct (Candidate.handle_log_persisted _ _) as [s1|] eqn:Hs1; [|done]. cbn [mbind option_bind] in Heq.
    pose proof (candidate_log_persisted_queue _ _ _ Hs1) as Hq'. carry; [|by eapply IH]. clear Heq Hq'.
    unfold Candidate.handle_log_persisted in Hs1. destruct (outstanding_messages s0 !! id) as [m|] eqn:Hm; [|by simplify_eq].
    destruct (message_type m) as [| |cb| |] eqn:Hcb; simplify_eq; try apply Hd.
    apply callback_send_Some in Hs1 as ->.
    eapply (carries_reported _ _ id cb m q s); try done. unfold respond. simpl. case_decide; simpl; set_solver.
Qed.

Lemma carries_candidate_vote_response env id t v s sc s' :
  handle_vote_response env id t v s = Some (sc, s') -> ok 0 s s'.
Proof.
  unfold handle_vote_response, become_leader. destruct (outstanding_messages s !! id) as [m|]; [|intros ?; simplify_eq; apply carries_refl].
  pose proof (carries_delete asked files id s) as Hd. set (s1 := s <| outstanding_messages ::= delete id |>) in *. intros Heq.
  destruct (message_type m); try (simplify_eq; exact Hd).
  - destruct (callback_send _ _ _) as [s2|] eqn:Hc; [|done]. simpl in Heq. simplify_eq.
    carry; [exact Hd|]. eapply carries_callback_send; [|exact Hc]. done.
  - repeat case_decide; simplify_eq; [carry; [exact Hd|by apply carries_same]| |exact Hd].
    carry; [exact Hd|]. by apply carries_register.
  - destruct (callback_send _ _ _) as [s2|] eqn:Hc; [|done]. simpl in Heq. simplify_eq.
    carry; [exact Hd|]. eapply carries_callback_send; [|exact Hc]. done.
Qed.

Lemma carries_candidate_quorum env q n s sc n' s' :
  Candidate.process_quorum env q n s = Some (sc, n', s') -> ok 0 s s'.
Proof.
  revert n s. induction q as [|t q IH]; intros n s; cbn [Candidate.process_quorum]; intros Heq.
  { simplify_eq. apply carries_refl. }
  carry; [apply (carries_pop_quorum _ _ q)|].
  destruct t as [id t v| | | |]; try by eapply IH.
  destruct (handle_vote_response _ _ _ _ _) as [[sc1 s1]|] eqn:Hs1; [|done]. cbn [mbind option_bind] in Heq.
  apply carries_candidate_vote_response in Hs1.
  destruct sc1; simplify_eq; try exact Hs1. carry; [exact Hs1|]. by eapply IH.
Qed.

Lemma carries_election env now d s : ok 1 s (start_election env now d s).2.
Proof.
  unfold start_election. cbn [snd]. set (s1 := push_all_quorum _ _).
  assert (H1 : ok 1 s s1).
  { apply (carries_trans _ _ 1 0) with (s2 := s <| next_message_id ::= fun n => n +! 1 |>); [done..|apply carries_next|by apply carries_same]. }
  assert (Hfin : forall s2 t c id m, ok 1 s s2 -> (forall cb, message_type m <> OM_AppendLog cb) ->
    ok 1 s (s2 <| term_votes ::= <[t := c]> |> <| outstanding_messages ::= <[id := m]> |>)).
  { intros s2 t c id m H2 Hm. apply (carries_trans _ _ 1 0) with (s2 := s2); [done..|].
    carry; [|by apply carries_register]. by apply carries_same. }
  destruct (persistence_send _ s1) as [s2|] eqn:Hp; cbn [default]; apply Hfin; try done.
  apply (carries_trans _ _ 1 0) with (s2 := s1); [done..|]. eapply carries_send; [|exact Hp]. by intros [].
Qed.

Lemma carries_candidate_time_step env d s sc n d' s' : Candidate.time_step env d s = Some (sc, n, d', s') -> ok 1 s s'.
Proof.
  assert (Hone : forall s1, ok 0 s s1 -> ok 1 s s1) by (intros s1; by apply carries_more).
  unfold Candidate.time_step.
  destruct (Candidate.process_persistence _ _ _ _) as [[[sc1 w1] s1]|] eqn:H1; [|done]. cbn [mbind option_bind].
  apply carries_candidate_persistence in H1; [|done]. destruct sc1; [|intros ?; simplify_eq; by apply Hone..].
  destruct (Candidate.process_quorum _ _ _ _) as [[[sc2 w2] s2]|] eqn:H2; [|done]. cbn [mbind option_bind].
  apply carries_candidate_quorum in H2. assert (H02 : ok 0 s s2) by (carry; [exact H1|exact H2]).
  destruct sc2; [|intros ?; simplify_eq; by apply Hone..].
  set (r := if timeout_expired _ _ then _ else _). assert (He : ok 1 s2 r.2).
  { unfold r. destruct (timeout_expired _ _); [|apply (carries_more _ _ 0); [done|apply carries_refl]].
    pose proof (carries_election env (clock env 0%nat) d s2) as Hv. by destruct (start_election _ _ _ _). }
  destruct r as [[w3 d3] s3]. pose proof (carries_retry asked files s3) as H4.
  destruct (retry_deferred_broadcast s3) as [w4 s4]. intros ?; simplify_eq. cbn [snd] in *.
  apply (carries_trans _ _ 0 1) with (s2 := s2); [done..|]. by apply (carries_trans _ _ 1 0) with (s2 := s3).
Qed.

(** A vote that is granted, by the candidate or the leader. *)
Lemma carries_leader_request_vote r cb d s : ok 1 s (Leader.request_vote r cb d s).2.
Proof.
  unfold Leader.request_vote. set (s1 := observe_vote_term _ _). assert (H1 : ok 0 s s1) by apply carries_observe.
  assert (Hno : ok 1 s (callback_send_ok cb (RP_RequestVote false) s1)).
  { apply (carries_more _ _ 0); [done|]. carry; [exact H1|]. by apply carries_callback. }
  destruct (negb _); cbn [snd]; [exact Hno|].
  destruct (persistence_send _ _) as [s2|] eqn:Hp; cbn [snd]; [|exact Hno].
  assert (Hn : next_message_id s2 = next_message_id s1) by by apply persistence_send_Some in Hp as [_ ->].
  assert (H2 : ok 0 s s2) by (carry; [exact H1|]; eapply carries_send; [|exact Hp]; by intros []).
  apply (carries_trans _ _ 0 1) with (s2 := s2); [done..|].
  apply (carries_trans _ _ 1 0) with (s2 := s2 <| next_message_id ::= fun n => n +! 1 |>); [done..|apply carries_next|].
  rewrite <- Hn. carry; [|by apply carries_register]. by apply carries_same.
Qed.

Lemma carries_candidate_request_vote r cb d s : ok 1 s (Candidate.request_vote r cb d s).2.
Proof.
  pose proof (carries_leader_request_vote r cb (mkRaftLeaderStateDelegate 0 false) s) as Hl.
  unfold Leader.request_vote, Candidate.request_vote in *.
  destruct (negb _); [|destruct (persistence_send _ _)]; exact Hl.
Qed.

End candidate.

(** ** The leader *)

Section leader.
Context {CP : Capnp} {CL : CapnpLaws} {B : Type} `{Bus B}.
Implicit Types s : SharedState B.

Variable asked : list (Callback * option Data).
Variable files : list (list byte).

Abbreviation ok := (carries asked files).
Abbreviation reports s := (persistence_response s).

Lemma bystander_advance i s : bystander s (advance_commit_index i s).
Proof.
  unfold advance_commit_index. case_decide; [|done].
  match goal with |- context [broadcast_committed_entries i ?x] =>
    destruct (broadcast_committed_entries_frame i x) as (b & w & c & d & ->) end. done.
Qed.

Lemma carries_advance i s : ok 0 s (advance_commit_index i s).
Proof. apply carries_same, bystander_advance. Qed.

Lemma carries_complete i cb s s' : complete_write_batch i cb s = Some s' -> ok 0 s s' /\ reports s' = reports s.
Proof.
  unfold complete_write_batch, write_batch_response. destruct (build_owned_write_batch_response _) as [b|]; [|done].
  intros [= <-]. pose proof (bystander_advance i s) as (_ & _ & Hr & _). split.
  - carry; [apply carries_advance|]. by apply carries_callback.
  - by rewrite callback_send_ok_eq.
Qed.

Lemma carries_leader_persistence q n s n' s' :
  reports s = q -> Leader.process_persistence_responses q n s = Some (n', s') -> ok 0 s s'.
Proof.
  revert n s. induction q as [|t q IH]; intros n s Hq; cbn [Leader.process_persistence_responses]; intros Heq.
  { simplify_eq. apply carries_refl. }
  destruct (Leader.handle_persistence_response t _) as [s1|] eqn:Hs1; [|done]. cbn [mbind option_bind] in Heq.
  assert (ok 0 s s1 /\ reports s1 = q) as [H1 Hq1]; [|carry; [exact H1|by eapply IH]]. clear Heq IH.
  set (s0 := s <| persistence_response := q |>) in *. assert (H0 : ok 0 s s0) by by eapply carries_pop.
  assert (Hd : forall id, ok 0 s (s0 <| outstanding_messages ::= delete id |>)).
  { intros id. carry; [exact H0|apply carries_delete]. }
  destruct t as [id t c|id]; cbn [Leader.handle_persistence_response] in Hs1.
  - injection Hs1 as <-. unfold Leader.handle_vote_persisted. destruct (outstanding_messages s0 !! id) as [m|]; [|done].
    destruct (message_type m); try done. split; [|by rewrite callback_send_ok_eq].
    carry; [apply Hd|by apply carries_callback].
  - unfold Leader.handle_log_persisted in Hs1. destruct (outstanding_messages s0 !! id) as [m|]; [|by simplify_eq].
    destruct (message_type m) as [|cb|cb|p a cb i b|p a i]; simplify_eq; try done.
    + split; [|by rewrite callback_send_ok_eq]. carry; [apply Hd|by apply carries_callback].
    + case_decide; [apply carries_complete in Hs1 as [Hc ->]; split; [carry; [apply Hd|exact Hc]|done]|].
      simplify_eq. split; [|done]. carry; [apply Hd|by apply carries_register].
    + case_decide; simplify_eq.
      * pose proof (bystander_advance i (s0 <| outstanding_messages ::= delete id |>)) as (_ & _ & Hr & _).
        split; [carry; [apply Hd|apply carries_advance]|exact Hr].
      * split; [|done]. carry; [apply Hd|by apply carries_register].
Qed.

Lemma carries_acknowledged id s s' : handle_append_entries_response id s = Some s' -> ok 0 s s'.
Proof.
  unfold handle_append_entries_response. destruct (outstanding_messages s !! id) as [m|]; [|intros; simplify_eq; apply carries_refl].
  pose proof (carries_delete asked files id s) as Hd. set (s1 := s <| outstanding_messages ::= delete id |>) in *.
  destruct (message_type m) as [|cb|cb|p a cb i b|p a i]; intros Heq; simplify_eq; try exact Hd.
  - repeat case_decide; simplify_eq; try exact Hd; [apply carries_complete in Heq as [Hc _]; by carry|].
    carry; [exact Hd|by apply carries_register].
  - repeat case_decide; simplify_eq; try exact Hd; [carry; [exact Hd|apply carries_advance]|].
    carry; [exact Hd|by apply carries_register].
Qed.

Lemma carries_leader_quorum q bs n s bs' n' s' :
  process_quorum_responses q bs n s = Some (bs', n', s') ->
  ok 0 s s' /\ vlen bs' <= vlen bs + vlen q.
Proof.
  revert bs n s. induction q as [|t q IH]; intros bs n s; cbn [process_quorum_responses]; intros Heq.
  { simplify_eq. split; [apply carries_refl|unfold vlen; simpl; lia]. }
  change (t :: q) with ([t] ++ q). rewrite vlen_app. change (vlen [t]) with 1. assert (H0 : ok 0 s (s <| quorum_response := q |>)) by apply carries_pop_quorum.
  assert (Hrest : forall bs1 n1, vlen bs1 <= vlen bs + 1 ->
    process_quorum_responses q bs1 n1 (s <| quorum_response := q |>) = Some (bs', n', s') ->
    ok 0 s s' /\ vlen bs' <= vlen bs + (1 + vlen q)).
  { intros bs1 n1 Hb [H1 Hb1]%IH. split; [by carry|lia]. }
  destruct t as [id t v|id r|node t i|id r|id t i]; try by eapply Hrest; [|exact Heq]; lia.
  - destruct (handle_append_entries_response _ _) as [s1|] eqn:Hs1; [|done]. cbn [mbind option_bind] in Heq.
    apply carries_acknowledged in Hs1. apply IH in Heq as [H2 Hb]. split; [|lia]. carry; [exact H0|by carry].
  - eapply Hrest; [|exact Heq]. rewrite vlen_app. unfold vlen at 2. simpl. lia.
Qed.

Lemma carries_signal node t i s : ok 1 s (send_truncate_signal node t i s).
Proof.
  unfold send_truncate_signal. destruct (quorum_worker_tasks s !! _).
  - apply (carries_trans _ _ 1 0) with (s2 := s <| next_message_id ::= fun n => n +! 1 |>); [done..|apply carries_next|by apply carries_same].
  - apply (carries_more _ _ 0); [done|apply carries_refl].
Qed.

Lemma carries_backfill node t i s s' : handle_backfill_request node t i s = Some s' -> ok 1 s s'.
Proof.
  assert (Hsend : send_backfill_data node t i s = Some s' -> ok 1 s s').
  { unfold send_backfill_data. destruct (clone_subset _ _ _); [|done]. cbn [mbind option_bind].
    destruct (quorum_worker_tasks s !! _); intros [= <-]; (apply (carries_more _ _ 0); [done|by apply carries_same]). }
  unfold handle_backfill_request, handle_follower_ahead, handle_term_mismatch. intros Hs1.
  repeat (case_match || case_decide || simplify_eq); by first [apply carries_signal | apply Hsend].
Qed.

Lemma carries_backfills rs s s' : handle_backfill_requests rs s = Some s' -> ok (vlen rs) s s'.
Proof.
  revert s. induction rs as [|[[node t] i] rs IH]; intros s; cbn [handle_backfill_requests]; intros Heq.
  { simplify_eq. apply carries_refl. }
  destruct (handle_backfill_request node t i s) as [s1|] eqn:Hs1; [|done]. cbn [mbind option_bind] in Heq.
  replace (vlen ((node, t, i) :: rs)) with (1 + vlen rs) by (unfold vlen; simpl; lia).
  pose proof (vlen_nonneg rs). eapply carries_trans; [done..| |by apply IH]. by eapply carries_backfill.
Qed.

(** The entry a leader appends waits for its report as a batch or the entry of a new term. *)
Lemma carries_leader_entry e m s s0 s1 :
  bystander (s <| next_message_id ::= fun n => n +! 1 |>) s0 ->
  queue_persistence_task (next_message_id s) e s0 = Some s1 ->
  forall s', persistence_work s' = persistence_work s1 -> next_message_id s' = next_message_id s1 -> reports s' = reports s1 ->
    outstanding_messages s' = <[next_message_id s := m]> (outstanding_messages s1) -> callbacks s' = callbacks s1 ->
    (forall cb, message_type m <> OM_AppendLog cb) -> ok 1 s s'.
Proof.
  intros (Hw0 & Hn0 & Hr0 & Ho0 & Hcb0) [_ ->]%persistence_send_Some s' Hw Hn Hr Ho Hcb Hm. simpl in *.
  apply (carries_append _ _ (as_bytes e) (next_message_id s) m); rewrite ?Hw, ?Hn, ?Hr, ?Ho, ?Hcb; simpl; rewrite ?Hw0, ?Hn0, ?Hr0, ?Ho0; try done.
  intros cb Hcb'. by destruct (Hm cb).
Qed.

Lemma carries_write_batch env b cb s s' : Leader.write_batch env b cb s = Some s' -> ok 1 s s'.
Proof.
  unfold Leader.write_batch. set (s0 := s <| next_message_id ::= fun n => n +! 1 |>) in *.
  assert (H0 : ok 1 s s0) by apply carries_next.
  assert (Herr : forall msg s1, bystander s0 s1 -> send_error_response msg cb s1 = Some s' -> ok 1 s s').
  { intros msg s1 H1. rewrite send_error_response_ok. intros [= <-].
    apply (carries_trans _ _ 1 0) with (s2 := s0); [done..|]. carry; [by apply carries_same|].
    pose proof (carries_callback asked files cb (batch_answer (Some msg)) s1) as Hc. rewrite callback_send_ok_eq in Hc. by apply Hc. }
  destruct (validate_write_batch b) as [err|]; [by apply Herr|]. intros Heq.
  destruct (create_and_append_log_entry _ _ _ _ _) as [[e s1]|] eqn:Hc; [|done]. cbn [mbind option_bind] in Heq.
  assert (bystander s0 s1) as H1.
  { unfold create_and_append_log_entry in Hc. destruct (mjoin _); [|done]. simpl in Hc. injection Hc as -> <-.
    destruct (push_entry_spec e s0) as [starts ->]. done. }
  destruct (queue_persistence_task _ _ s1) as [s2|] eqn:Hq; [|by eapply Herr; [exact H1|exact Heq]]. injection Heq as <-.
  by eapply (carries_leader_entry e _ s s1 s2 H1 Hq).
Qed.

Lemma carries_initialize env s s' : initialize_leadership env s = Some s' -> ok 2 s s'.
Proof.
  unfold initialize_leadership. intros Heq. set (s1 := push_all_quorum _ _) in *.
  assert (H1 : ok 1 s s1).
  { apply (carries_trans _ _ 1 0) with (s2 := s <| next_message_id ::= fun n => n +! 1 |>); [done..|apply carries_next|by apply carries_same]. }
  set (s2 := if decide _ then _ else _) in *.
  assert (Hs2 : same_but_broadcast s1 s2).
  { unfold s2. case_decide; [apply broadcast_committed_entries_frame|reflexivity]. }
  assert (H2 : ok 1 s s2) by (apply (carries_trans _ _ 1 0) with (s2 := s1); [done..|by apply carries_broadcast]).
  apply (carries_trans _ _ 1 1) with (s2 := s2); [done..|]. clearbody s2. clear Hs2 H1 H2 s1.
  set (s3 := s2 <| next_message_id ::= fun n => n +! 1 |>) in *.
  destruct (create_and_append_noop_entry _ _ _ _) as [[e s4]|] eqn:Hc; [|done]. cbn [mbind option_bind] in Heq.
  assert (bystander s3 s4) as H4.
  { unfold create_and_append_noop_entry in Hc. destruct (build_owned_log_entry _); [|done]. simpl in Hc. injection Hc as -> <-.
    destruct (push_entry_spec e s3) as [starts ->]. done. }
  destruct (queue_persistence_task _ e s4) as [s5|] eqn:Hq; cbn [default] in Heq; injection Heq as <-.
  - by eapply (carries_leader_entry e _ s2 s4 s5 H4 Hq).
  - apply (carries_trans _ _ 1 0) with (s2 := s3); [done..|apply carries_next|].
    carry; [apply (carries_same _ _ _ _ H4)|].
    carry; [apply (carries_same _ _ s4 (dispatch_to_quorum (next_message_id s2) e s4)); done|].
    set (s6 := dispatch_to_quorum _ e s4). carry; [|apply carries_same with (s := register_noop_outstanding_message (next_message_id s2) (next_log_index (volatile_server_state s2)) s6); done].
    by apply carries_register.
Qed.

(** The responses of the quorum workers wait while the entry of the term and the reports are handled. *)
Lemma responses_advance i s : quorum_response (advance_commit_index i s) = quorum_response s.
Proof.
  unfold advance_commit_index. case_decide; [|done].
  match goal with |- context [broadcast_committed_entries i ?x] =>
    destruct (broadcast_committed_entries_frame i x) as (b & w & c & d & ->) end. done.
Qed.

Lemma responses_initialize env s s' : initialize_leadership env s = Some s' -> quorum_response s' = quorum_response s.
Proof.
  unfold initialize_leadership. set (s1 := push_all_quorum _ _). set (s2 := if decide _ then _ else _).
  assert (Hs2 : same_but_broadcast s1 s2).
  { unfold s2. case_decide; [apply broadcast_committed_entries_frame|reflexivity]. }
  assert (H2 : quorum_response s2 = quorum_response s) by (destruct Hs2 as (? & ? & ? & ? & ->); done).
  unfold create_and_append_noop_entry. destruct (build_owned_log_entry _) as [e|]; [|done]. cbn [mbind option_bind].
  match goal with |- context [push_entry e ?x] => destruct (push_entry_spec e x) as [starts ->] end.
  unfold queue_persistence_task, persistence_send. destruct (send _ _); cbn [mbind option_bind default]; by intros [= <-].
Qed.

Lemma responses_persistence q n s n' s' :
  process_persistence_responses q n s = Some (n', s') -> quorum_response s' = quorum_response s.
Proof.
  revert n s. induction q as [|t q IH]; intros n s; cbn [process_persistence_responses]; intros Heq; [by simplify_eq|].
  destruct (Leader.handle_persistence_response t _) as [s1|] eqn:Hs1; [|done]. cbn [mbind option_bind] in Heq.
  rewrite (IH _ _ Heq). clear Heq IH. destruct t as [id t c|id]; simpl in Hs1.
  - injection Hs1 as <-. unfold Leader.handle_vote_persisted. repeat case_match; by rewrite ?callback_send_ok_eq.
  - unfold Leader.handle_log_persisted, complete_write_batch, complete_noop, write_batch_response in Hs1.
    destruct (build_owned_write_batch_response _); simpl in Hs1.
    all: repeat (case_match || case_decide || simplify_eq); by rewrite ?callback_send_ok_eq; simpl; rewrite ?responses_advance.
Qed.

Lemma carries_leader_time_step env d s sc n d' s' :
  Leader.time_step env d s = Some (sc, n, d', s') ->
  carries asked files (2 + vlen (quorum_response s)) s s'.
Proof.
  unfold Leader.time_step.
  destruct (if negb (initialized d) then _ else _) as [[[w d1] s1]|] eqn:H1; [|done]. cbn [mbind option_bind].
  destruct (process_persistence_responses _ _ _) as [[c s2]|] eqn:H2; [|done]. cbn [mbind option_bind].
  destruct (process_quorum_responses _ _ _ _) as [[[bs w3] s3]|] eqn:H3; [|done]. cbn [mbind option_bind].
  destruct (handle_backfill_requests _ _) as [s4|] eqn:H4; [|done]. cbn [mbind option_bind].
  pose proof (carries_broadcast asked files _ _ (retry_deferred_broadcast_frame s4)) as H5.
  destruct (retry_deferred_broadcast s4) as [w5 s5]. intros [= <- <- <- <-]. cbn [snd] in H5.
  assert (carries asked files 2 s s1 /\ quorum_response s1 = quorum_response s) as [H01 Hq1].
  { destruct (initialized d); simpl in H1.
    - simplify_eq. split; [|done]. apply (carries_more _ _ 0); [done|apply carries_refl].
    - destruct (initialize_leadership env s) as [s0|] eqn:Hi; [|done]. simpl in H1. simplify_eq.
      split; [by eapply carries_initialize|by eapply responses_initialize]. }
  pose proof (responses_persistence _ _ _ _ _ H2) as Hq2. apply carries_leader_persistence in H2; [|done].
  apply carries_leader_quorum in H3 as [H3 Hb]. apply carries_backfills in H4. pose proof (vlen_nonneg bs).
  rewrite Hq2, Hq1 in Hb. change (vlen []) with 0 in Hb.
  apply (carries_more _ _ (2 + vlen bs)); [lia|]. eapply carries_trans; [done..|exact H01|].
  apply (carries_trans _ _ 0 (vlen bs)) with (s2 := s3); [done..|by carry; [exact H2|]|].
  replace (vlen bs) with (vlen bs + 0) by lia. by eapply carries_trans; [| |exact H4|].
Qed.

End leader.

(** ** The executor *)

Section executor.
Context {CP : Capnp} {CL : CapnpLaws} {B : Type} `{Bus B}.
Implicit Types x : StateMachineExecutorImpl B.

Variable asked : list (Callback * option Data).
Variable files : list (list byte).

(** What a message asks the node to append: the entry when the node is a follower, nothing
    when it is none, or when the request is a heartbeat. *)
Definition asks x (m : LocalRaftMessage) : list (Callback * option Data) :=
  match lrm_payload m with
  | RM_AppendEntries r =>
    (lrm_callback m, match state_delegate x with D_Follower _ => request_data r | _ => None end) ::
    if decide (a_request_id r = 0) then [(lrm_callback m, None)] else []
  | _ => []
  end.

(** The message ids one call may use. *)
Definition tick_ids x : Z := 2 + vlen (quorum_response (shared_state x)).

Lemma carries_tick env x n x' :
  Executor.time_step env x = Some (n, x') -> carries asked files (tick_ids x) (shared_state x) (shared_state x').
Proof.
  unfold tick_ids. pose proof (vlen_nonneg (quorum_response (shared_state x))).
  destruct x as [[d|d|d] s]; unfold Executor.time_step, delegate_time_step; simpl in *.
  - destruct (Follower.time_step env d s) as [[[[sc w] d1] s1]|] eqn:Ht; [|done]. simpl. intros ?; simplify_eq.
    apply (carries_more _ _ 0); [lia|]. by eapply carries_follower_time_step.
  - destruct (Candidate.time_step env d s) as [[[[sc w] d1] s1]|] eqn:Ht; [|done]. simpl. intros ?; simplify_eq.
    apply (carries_more _ _ 1); [lia|]. by eapply carries_candidate_time_step.
  - destruct (Leader.time_step env d s) as [[[[sc w] d1] s1]|] eqn:Ht; [|done]. simpl. intros ?; simplify_eq.
    by eapply carries_leader_time_step.
Qed.

Lemma carries_refused cb d s x' msg :
  (let* p := write_batch_response msg in Some (mkStateMachineExecutorImpl d (callback_send_ok cb p s))) = Some x' ->
  carries asked files 1 s (shared_state x').
Proof.
  rewrite write_batch_response_ok. simpl. intros ?; simplify_eq. apply (carries_more _ _ 0); [done|]. by apply carries_callback.
Qed.

Lemma carries_accept env m x x' :
  accept env m x = Some x' -> asks x m ⊆ asked -> carries asked files 1 (shared_state x) (shared_state x').
Proof.
  destruct x as [d s]. destruct m as [[r|r| |b] cb]; unfold accept, delegate_accept, asks; simpl.
  - intros Heq _. destruct d as [d|d|d]; simpl in Heq.
    + destruct (Follower.request_vote r cb d _) as [[[sc d1] s1]|] eqn:Hr; [|done]. simpl in Heq. simplify_eq.
      by eapply carries_follower_request_vote.
    + pose proof (carries_candidate_request_vote asked files r cb d s) as Hd.
      destruct (Candidate.request_vote r cb d _) as [[sc d1] s1]. by simplify_eq.
    + pose proof (carries_leader_request_vote asked files r cb d s) as Hd.
      destruct (Leader.request_vote r cb d _) as [[sc d1] s1]. by simplify_eq.
  - intros Heq Ha. destruct d as [d|d|d]; simpl in Heq.
    + pose proof (carries_follower_append asked files env r cb d s) as Hd.
      destruct (Follower.append_entries env r cb d _) as [[sc d1] s1]. simplify_eq. apply Hd; [set_solver|].
      intros H0. rewrite decide_True in Ha by done. set_solver.
    + pose proof (carries_candidate_append asked files env r cb d s) as Hd.
      destruct (Candidate.append_entries env r cb d _) as [[sc d1] s1]. simplify_eq. apply Hd. set_solver.
    + pose proof (carries_leader_append asked files env r cb d s) as Hd.
      destruct (Leader.append_entries env r cb d _) as [[sc d1] s1]. simplify_eq. apply Hd. set_solver.
  - intros Heq _. apply (carries_more _ _ 0); [done|]. destruct d; simplify_eq; by apply carries_callback.
  - intros Heq _. destruct d as [d|d|d]; simpl in Heq; [by eapply carries_refused..|].
    destruct (write_batch env b cb _) as [s1|] eqn:Hw; [|done]. simpl in Heq. simplify_eq.
    by eapply carries_write_batch.
Qed.

End executor.

(** ** State machine and worker, with what was asked and what was in the file *)

Section history.
Context {CP : Capnp} {B : Type} `{Bus B}.
Implicit Types x : StateMachineExecutorImpl B.
Implicit Types w : PersistenceWorker.

Definition file_of w : list byte := bw_file (log_write_buffer w).

(** A node, the requests it was asked and the states its log file has had. *)
Record History := mkHistory {
  h_node : StateMachineExecutorImpl B;
  h_disk : PersistenceWorker;
  h_asked : list (Callback * option Data);
  h_files : list (list byte)
}.

(** The file while the worker handles a task: a vote and a truncation flush first. *)
Definition task_files {CSV : Csv} (t : PersistenceTaskType) w w' : list (list byte) :=
  match t with PT_AppendLog _ _ _ => [file_of w'] | _ => [file_of (flush_pending_logs w); file_of w'] end.

(** The steps of [node_step].  The state machine has message ids left. *)
Inductive history_step {CSV : Csv} : History -> History -> Prop :=
| History_time env x n x' w asked files :
    vlen (replication_log (volatile_server_state (shared_state x))) < 2 ^ 64 ->
    next_message_id (shared_state x) + tick_ids x < 2 ^ 64 -> Executor.time_step env x = Some (n, x') ->
    history_step (mkHistory x w asked files) (mkHistory x' w asked files)
| History_accept env m x x' w asked files :
    typed_message m -> built_message m -> next_message_id (shared_state x) + 1 < 2 ^ 64 -> accept env m x = Some x' ->
    history_step (mkHistory x w asked files) (mkHistory x' w (asked ++ asks x m) files)
| History_other d s qr qt ds w asked files :
    Forall typed_quorum qr ->
    history_step (mkHistory (mkStateMachineExecutorImpl d s) w asked files)
      (mkHistory (mkStateMachineExecutorImpl d
        (s <| quorum_response := qr |> <| quorum_worker_tasks := qt |> <| callbacks ; cb_dropped := ds |>)) w asked files)
| History_task d s t q w w' asked files :
    persistence_work s = mkSender true (t :: q) -> file_size w + task_bytes t < 2 ^ 64 ->
    process_task t BATCH_SIZE w = Some w' ->
    let n := deliver_responses d (s <| persistence_work := mkSender true q |>) w' in
    history_step (mkHistory (mkStateMachineExecutorImpl d s) w asked files)
      (mkHistory n.1 n.2 asked (files ++ task_files t w w'))
| History_flush d s w asked files :
    let n := deliver_responses d s (flush_pending_logs w) in
    history_step (mkHistory (mkStateMachineExecutorImpl d s) w asked files)
      (mkHistory n.1 n.2 asked (files ++ [file_of n.2])).

End history.

Arguments History {B}.

Section invariant.
Context {CP : Capnp} {CL : CapnpLaws} {CSV : Csv} {CSVL : CsvLaws} {B : Type} `{Bus B}.
Implicit Types x : StateMachineExecutorImpl B.
Implicit Types w : PersistenceWorker.
Implicit Types s : SharedState B.
Implicit Types h : History (B := B).
Implicit Types T : gmap Z Data.

(** The reports the worker holds back are those of the last entries it took. *)
Definition held_back T (ms : list InternalLogEntry) w : Prop :=
  exists es ids datas, write_log_entry <$> ms = es ++ datas /\ pending_log_responses w = PR_LogPersisted <$> ids /\
    Forall2 (fun id data => T !! id = Some data) ids datas.

Record history_at T h : Prop := {
  hi_words : words_ok (shared_state (h_node h));
  hi_node : node_ok (shared_state (h_node h));
  hi_responses : response_queue (h_disk h) = [] /\ Forall typed_persistence (pending_log_responses (h_disk h));
  hi_ledger : exists ms rows, on_disk ms rows (h_node h) (h_disk h) /\ held_back T ms (h_disk h) /\
    ledger (h_asked h) (h_files h) T (shared_state (h_node h))
}.

Lemma ledger_more asked asked' files files' T s :
  asked ⊆ asked' -> files ⊆ files' -> ledger asked files T s -> ledger asked' files' T s.
Proof.
  intros Ha Hf [Ho Hfr Hq Hr Hw Hs]. split; [done..| | |].
  - intros id (data & Hd & Hwr)%Hr. exists data. split; [done|by eapply written_more].
  - intros id cb (data & Hin & Hd)%Hw. exists data. split; [by apply Ha|done].
  - intros cb [Hin|(data & Hin & Hwr)]%Hs; [left; by apply Ha|right]. exists data. split; [by apply Ha|by eapply written_more].
Qed.

Lemma held_back_more T T' ms w : T ⊆ T' -> held_back T ms w -> held_back T' ms w.
Proof.
  intros HT (es & ids & datas & ? & ? & Hf). exists es, ids, datas. split_and!; [done..|].
  eapply Forall2_impl; [|exact Hf]. simpl. intros. by eapply lookup_weaken.
Qed.

(** Every entry of a file of whole entries is in it. *)
Lemma in_whole_file ms data :
  Forall log_entry_built ms -> data ∈ write_log_entry <$> ms -> in_file data (mjoin (write_log_entry <$> ms)).
Proof.
  intros Hm Hin. apply list_elem_of_fmap in Hin as (m & -> & Hin). apply list_elem_of_split in Hin as (l1 & l2 & ->).
  exists l1, m. split_and!; [|done|].
  - apply Forall_app in Hm as [H1 H2]. inversion H2; subst. apply Forall_app. split; [done|by apply Forall_singleton].
  - rewrite (cons_middle m l1 l2), (assoc_L (++)), (fmap_app _ (l1 ++ [m])), join_app. by eexists.
Qed.

Lemma whole_file es w : represents es w -> pending_log_responses w = [] -> file_of w = mjoin es.
Proof.
  intros Hr Hp. pose proof (rep_bytes _ _ Hr) as Hb. rewrite (rep_idle _ _ Hr Hp), app_nil_r in Hb. exact Hb.
Qed.

(** Reports that are handed over, all of entries that are in the file. *)
Lemma ledger_deliver asked files T s d w :
  ledger asked files T s ->
  (forall id, PR_LogPersisted id ∈ response_queue w -> exists data, T !! id = Some data /\ written files data) ->
  ledger asked files T (shared_state (deliver_responses d s w).1).
Proof.
  intros [Ho Hfr Hq Hr Hw Hs] Hwr. split; simpl; try done.
  intros id Hin. apply elem_of_app in Hin as [Hin|Hin]; [by apply Hr|by apply Hwr].
Qed.

(** A task leaves the channel. *)
Lemma ledger_take asked files T s t q :
  persistence_work s = mkSender true (t :: q) -> ledger asked files T s ->
  ledger asked files T (s <| persistence_work := mkSender true q |>).
Proof.
  intros Hw [Ho Hfr Hq Hr Hwt Hs]. rewrite Hw in Hq. split; simpl; try done.
  intros id data rid Hin. eapply Hq. simpl. by apply list_elem_of_further.
Qed.

(** What the worker held back is in the file once it has flushed. *)
Lemma held_back_written T ms w files :
  Forall log_entry_built ms -> held_back T ms w -> mjoin (write_log_entry <$> ms) ∈ files ->
  forall id, PR_LogPersisted id ∈ pending_log_responses w -> exists data, T !! id = Some data /\ written files data.
Proof.
  intros Hm (es & ids & datas & Hes & Hp & Hf) Hfile id Hin. rewrite Hp in Hin.
  apply list_elem_of_fmap in Hin as (id' & [= <-] & Hin). apply list_elem_of_lookup in Hin as [i Hi].
  destruct (Forall2_lookup_l _ _ _ _ _ Hf Hi) as (data & Hdata & Hd). exists data. split; [done|].
  exists (mjoin (write_log_entry <$> ms)). split; [done|]. apply in_whole_file; [done|]. rewrite Hes.
  apply elem_of_app. right. by eapply list_elem_of_lookup_2.
Qed.

Lemma held_back_none T ms w : pending_log_responses w = [] -> held_back T ms w.
Proof. intros Hp. exists (write_log_entry <$> ms), [], []. rewrite app_nil_r, Hp. split_and!; [done..|constructor]. Qed.

Lemma history_flush T d s w asked files :
  let n := deliver_responses d s (flush_pending_logs w) in
  history_at T (mkHistory (mkStateMachineExecutorImpl d s) w asked files) ->
  history_at T (mkHistory n.1 n.2 asked (files ++ [file_of n.2])).
Proof.
  intros n [Hwords Hok [Hrq Hpend] (ms & rows & Hd & Hh & Hl)]. cbn [h_node h_disk h_asked h_files] in *.
  destruct (flush_represents _ _ (od_entries _ _ _ _ Hd)) as (Hr & Hp & Hf & Hq & _).
  split; cbn [h_node h_disk h_asked h_files].
  - apply (deliver_words d s); [done|]. rewrite Hq, Hrq. done.
  - done.
  - split; [done|]. unfold n. simpl. by rewrite Hp.
  - exists ms, rows. split; [by apply on_disk_flush|]. split; [by apply held_back_none; unfold n; simpl|].
    apply (ledger_more asked asked files (files ++ [file_of n.2])) in Hl; [|done|set_solver].
    apply (ledger_deliver _ _ T s d); [done|]. intros id Hin. rewrite Hq, Hrq in Hin.
    apply (held_back_written T ms w); [apply Hd|done| |done]. apply elem_of_app. right. apply list_elem_of_singleton. exact (eq_sym Hf).
Qed.

(** What one task of the worker reports is in the file by then. *)
Lemma task_reports T ms ms' t w w' :
  represents (write_log_entry <$> ms) w -> represents (write_log_entry <$> ms') w' ->
  Forall log_entry_built ms -> Forall log_entry_built ms' ->
  disk_step (write_log_entry <$> ms) t = Some (write_log_entry <$> ms') ->
  process_task t BATCH_SIZE w = Some w' -> response_queue w = [] -> held_back T ms w ->
  (forall id data rid, t = PT_AppendLog id data rid -> T !! id = Some data) ->
  held_back T ms' w' /\
  (forall id, PR_LogPersisted id ∈ response_queue w' ->
     exists data, T !! id = Some data /\ written (task_files t w w') data).
Proof.
  intros Hr Hr' Hm Hm' Hs Ht Hrq Hh Hid. destruct (flush_represents _ _ Hr) as (_ & Hp & Hf & Hq & _). rewrite Hrq in Hq.
  assert (Hflush : forall id files, PR_LogPersisted id ∈ response_queue (flush_pending_logs w) -> file_of (flush_pending_logs w) ∈ files ->
    exists data, T !! id = Some data /\ written files data).
  { intros id files Hin Hfile. rewrite Hq in Hin. apply (held_back_written T ms w); [done..| |done]. by rewrite <- Hf. }
  destruct t as [id t c|id data rid|n]; cbn [process_task task_files] in *.
  - injection Ht as <-. split; [by apply held_back_none|]. intros id' Hin. simpl in Hin.
    apply elem_of_app in Hin as [Hin|Hin]; [|set_solver]. apply Hflush; [done|by left].
  - specialize (Hid _ _ _ eq_refl). simpl in Hs. injection Hs as Hs.
    set (w1 := write_log_entry_buffer data w) in *. injection Ht as Ht.
    match type of Ht with (if _ then flush_pending_logs ?x else _) = _ => set (w2 := x) in * end.
    assert (Hh2 : held_back T ms' w2).
    { destruct Hh as (es & ids & datas & Hes & Hids & Hall). exists es, (ids ++ [id]), (datas ++ [data]).
      split_and!; [by rewrite <- Hs, Hes, (assoc_L (++))|simpl; by rewrite Hids, fmap_app|].
      apply Forall2_app; [done|]. by constructor. }
    case_decide; subst w'; [|split; [done|]; simpl; rewrite Hrq; set_solver].
    assert (Hp' : pending_log_responses (flush_pending_logs w2) = []) by (unfold flush_pending_logs; by case_decide).
    split; [by apply held_back_none|]. intros id' Hin.
    assert (Hin2 : PR_LogPersisted id' ∈ pending_log_responses w2).
    { unfold flush_pending_logs in Hin. case_decide; simpl in Hin; rewrite Hrq in Hin; [set_solver|done]. }
    apply (held_back_written T ms' w2); [done..| |done]. rewrite <- (whole_file _ _ Hr' Hp'). by left.
  - destruct (if decide (n = 0) then _ else _) as [pos|]; [|done]. simpl in Ht. injection Ht as <-.
    split; [by apply held_back_none|]. intros id' Hin. apply Hflush; [done|by left].
Qed.

Lemma history_task T d s t q w w' asked files :
  persistence_work s = mkSender true (t :: q) -> file_size w + task_bytes t < 2 ^ 64 ->
  process_task t BATCH_SIZE w = Some w' ->
  let n := deliver_responses d (s <| persistence_work := mkSender true q |>) w' in
  history_at T (mkHistory (mkStateMachineExecutorImpl d s) w asked files) ->
  history_at T (mkHistory n.1 n.2 asked (files ++ task_files t w w')).
Proof.
  intros Hq Hsize Ht n [Hwords Hok Hres (ms & rows & Hd & Hh & Hl)]. cbn [h_node h_disk h_asked h_files] in *.
  destruct (node_task_inv d s t q w) as (w1 & Hw1 & [Hwords' Hok' Hres' _] & _ & _); [split; by eauto|done..|].
  rewrite Ht in Hw1. injection Hw1 as <-.
  destruct (on_disk_task _ _ _ _ _ _ _ Hd Hq Hsize) as (w1 & Hw1 & _ & _ & ms' & Hs & Hnext).
  rewrite Ht in Hw1. injection Hw1 as <-.
  specialize (Hnext d (shared_state n.1) [] eq_refl eq_refl eq_refl).
  assert (Hr' : represents (write_log_entry <$> ms') w') by (destruct (od_entries _ _ _ _ Hnext); by split).
  destruct (task_reports T ms ms' t w w') as [Hh' Hrep]; [apply Hd|done|apply Hd|apply Hnext|done|done|apply Hres|done|..].
  { intros id data rid ->. apply (led_queue _ _ _ _ Hl id data rid). cbn [shared_state]. rewrite Hq. by left. }
  split; cbn [h_node h_disk h_asked h_files]; [done..|]. exists ms', (rows ++ vote_rows t).
  split; [exact Hnext|]. split; [done|]. apply (ledger_deliver _ _ T (s <| persistence_work := mkSender true q |>) d).
  - eapply ledger_take; [exact Hq|]. eapply ledger_more; [..|exact Hl]; [done|set_solver].
  - intros id Hin. destruct (Hrep id Hin) as (data & Hdt & Hwr). exists data. split; [done|]. eapply written_more; [|exact Hwr]. set_solver.
Qed.

(** A step of the state machine. *)
Lemma history_carries T (P : PersistenceTaskType -> Prop) n x x' w asked asked' files :
  0 <= n -> asked ⊆ asked' -> words_ok (shared_state x') -> durable P (shared_state x) (shared_state x') ->
  next_message_id (shared_state x) + n < 2 ^ 64 -> carries asked' files n (shared_state x) (shared_state x') ->
  history_at T (mkHistory x w asked files) ->
  next_message_id (shared_state x) <= next_message_id (shared_state x') /\
  exists T', T ⊆ T' /\ history_at T' (mkHistory x' w asked' files).
Proof.
  intros Hn Ha Hwords' Hdur Hroom Hc [Hwords Hok Hres (ms & rows & Hd & Hh & Hl)]. cbn [h_node h_disk h_asked h_files] in *.
  destruct (on_disk_durable P ms rows x x' w Hok Hdur Hd) as [Hok' Hd'].
  apply (ledger_more asked asked' files files) in Hl; [|done..].
  pose proof (ok_next_message_id _ Hwords) as [H0 _]. destruct (Hc H0 Hroom T Hl) as ([Hnext _] & T' & HT & Hl').
  split; [done|]. exists T'. split; [done|].
  split; cbn [h_node h_disk h_asked h_files]; [done..|]. exists ms, rows. split; [done|]. split; [by eapply held_back_more|done].
Qed.

Lemma history_step_at T h h' : history_at T h -> history_step h h' ->
  next_message_id (shared_state (h_node h)) <= next_message_id (shared_state (h_node h')) /\
  exists T', T ⊆ T' /\ history_at T' h'.
Proof.
  intros Hinv Hs. destruct Hs as [env x n x' w asked files Hlen Hroom Ht|env m x x' w asked files Hm Hb Hroom Ha|d s qr qt ds w asked files Hqr|d s t q w w' asked files Hq Hsize Ht n|d s w asked files n].
  - pose proof (hi_words _ _ Hinv) as Hwords. simpl in Hwords. pose proof (vlen_nonneg (quorum_response (shared_state x))).
    assert (Hw' : words_ok (shared_state x')) by by apply (typed_time_step _ _ _ _ Hlen Ht).
    pose proof (carries_tick asked files _ _ _ _ Ht) as Hc.
    destruct (durable_time_step _ _ _ _ Hwords Hlen Ht) as [Hd|Hd];
      (eapply (history_carries _ _ (tick_ids x)); [unfold tick_ids; lia|done|done|exact Hd|exact Hroom|exact Hc|exact Hinv]).
  - pose proof (hi_words _ _ Hinv) as Hwords. simpl in Hwords.
    eapply (history_carries _ _ 1); [done| | |by eapply durable_accept|done| |exact Hinv]; [set_solver|by apply (typed_accept _ _ _ _ Hm Ha)|].
    eapply carries_accept; [exact Ha|set_solver].
  - split; [done|]. exists T. split; [done|].
    destruct Hinv as [Hwords Hok Hres (ms & rows & Hd & Hh & Hl)]. cbn [h_node h_disk h_asked h_files] in *. split; cbn [h_node h_disk h_asked h_files].
    + revert Hwords. words.
    + done.
    + done.
    + exists ms, rows. split; [by destruct Hd|]. split; [done|]. by destruct Hl.
  - split; [done|]. exists T. split; [done|by apply history_task].
  - split; [done|]. exists T. split; [done|by apply history_flush].
Qed.

Lemma history_steps_at T h h' : history_at T h -> rtc history_step h h' -> exists T', T ⊆ T' /\ history_at T' h'.
Proof.
  intros Hh Hs. revert T Hh. induction Hs as [|h1 h2 h3 H12 _ IH]; intros T Hh; [by exists T|].
  destruct (history_step_at _ _ _ Hh H12) as (_ & T2 & HT2 & Hh2). destruct (IH _ Hh2) as (T3 & HT3 & Hh3).
  exists T3. split; [by etrans|done].
Qed.

Lemma started_history ms rows nodes node_id max (bus : B) s w env :
  Forall log_entry_built ms -> Forall typed_row rows -> u32 node_id ->
  start_node (mjoin (write_log_entry <$> ms)) (mjoin (csv_row <$> rows)) nodes node_id max bus = Some (s, w) ->
  history_at ∅ (mkHistory (StateMachineExecutorImpl_new env s) w [] []).
Proof.
  intros Hm Hr Hid Hs. destruct (started_on_disk _ _ _ _ _ _ _ _ env Hm Hs) as (_ & Hok & _ & Hrq & Hp & Hd & Hw).
  split; simpl; [by apply Hw|done|by rewrite Hrq, Hp|]. exists ms, rows. split; [done|]. split; [by apply held_back_none|].
  unfold start_node in Hs. destruct (read_votes _) as [votes|]; [|done]. cbn [mbind option_bind] in Hs.
  destruct (recover_persisted_data _ _) as [r|]; [|done]. simpl in Hs. injection Hs as <- _.
  split; simpl; try done; [set_solver..].
Qed.

(** C7: A follower acknowledges an entry only after its own log file held it.  In every run
    of a node from its start, however its state machine, its persistence worker and the
    other workers interleave and whatever roles it takes on: when the callback of a request
    has been answered with Ok, the request brought the node no entry to store (it had none, it
    was a heartbeat, or the node was no follower when it came), or the entry had been
    written to the log file completely, behind whole entries. *)
Theorem acknowledged_entries_were_written ms rows nodes node_id max (bus : B) s0 w0 env h cb :
  Forall log_entry_built ms -> Forall typed_row rows -> u32 node_id ->
  start_node (mjoin (write_log_entry <$> ms)) (mjoin (csv_row <$> rows)) nodes node_id max bus = Some (s0, w0) ->
  rtc history_step (mkHistory (StateMachineExecutorImpl_new env s0) w0 [] []) h ->
  (cb, RP_AppendEntries AE_Ok) ∈ cb_sent (callbacks (shared_state (h_node h))) ->
  (cb, None) ∈ h_asked h \/ exists data, (cb, Some data) ∈ h_asked h /\ written (h_files h) data.
Proof.
  intros Hm Hr Hid Hs Hrun Hin. pose proof (started_history _ _ _ _ _ _ _ _ env Hm Hr Hid Hs) as Hinv.
  destruct (history_steps_at _ _ _ Hinv Hrun) as (T & _ & [_ _ _ (ms' & rows' & _ & _ & Hl)]). by apply (led_sent _ _ _ _ Hl).
Qed.

End invariant.

(** ** A concrete run

    Node 1 starts on empty files, is sent an entry, its worker takes it and flushes, and at the
    next tick the request is answered with Ok. *)

Definition entry_flushed : StateMachineExecutorImpl ScriptedBus * PersistenceWorker :=
  deliver_responses (state_delegate entry_taken.1) (shared_state entry_taken.1) (flush_pending_logs entry_taken.2).

Definition entry_answered : StateMachineExecutorImpl ScriptedBus :=
  match Executor.time_step (late_env 1) entry_flushed.1 with Some (_, x) => x | None => entry_flushed.1 end.

Definition first_asked : list (Callback * option Data) := [(3%nat, Some (write_log_entry (sample_message 0 1 0 0 1)))].

Definition answered_history : History (B := ScriptedBus) :=
  mkHistory entry_answered entry_flushed.2 first_asked [file_of entry_taken.2; file_of entry_flushed.2].

Definition first_task : PersistenceTaskType :=
  PT_AppendLog 0 (write_log_entry (sample_message 0 1 0 0 1)) 5.

(** A task of the worker, with the states given. *)
Lemma history_task_eq (x : StateMachineExecutorImpl ScriptedBus) w t q w' n asked files files' :
  persistence_work (shared_state x) = mkSender true (t :: q) -> file_size w + task_bytes t < 2 ^ 64 ->
  process_task t BATCH_SIZE w = Some w' ->
  n = deliver_responses (state_delegate x) ((shared_state x) <| persistence_work := mkSender true q |>) w' ->
  files' = files ++ task_files t w w' ->
  history_step (mkHistory x w asked files) (mkHistory n.1 n.2 asked files').
Proof. intros Hq Hsize Hw -> ->. destruct x as [d s]. by apply (History_task d s t q w w'). Qed.

Lemma history_flush_eq (x : StateMachineExecutorImpl ScriptedBus) w n asked files files' :
  n = deliver_responses (state_delegate x) (shared_state x) (flush_pending_logs w) -> files' = files ++ [file_of n.2] ->
  history_step (mkHistory x w asked files) (mkHistory n.1 n.2 asked files').
Proof. intros -> ->. destruct x as [d s]. apply (History_flush d s w). Qed.

Lemma history_accept_eq env m (x x' : StateMachineExecutorImpl ScriptedBus) w asked asked' files :
  typed_message m -> built_message m -> next_message_id (shared_state x) + 1 < 2 ^ 64 -> accept env m x = Some x' ->
  asked' = asked ++ asks x m -> history_step (mkHistory x w asked files) (mkHistory x' w asked' files).
Proof. intros ? ? ? ? ->. by eapply History_accept. Qed.

Lemma answered_history_runs : rtc history_step (mkHistory first_node.1 first_node.2 [] []) answered_history.
Proof.
  eapply rtc_l; [apply (history_accept_eq (late_env 0) first_entry first_node.1 entry_received first_node.2 [] first_asked [])|].
  { vm_compute. by split_and!. }
  { intros e He. vm_compute in He. injection He as <-. exists (sample_message 0 1 0 0 1).
    split; [|reflexivity]. by apply sample_message_built. }
  1-3: vm_compute; reflexivity.
  eapply rtc_l; [apply (history_task_eq entry_received first_node.2 first_task []
    (default first_node.2 (process_task first_task BATCH_SIZE first_node.2)) entry_taken first_asked [] [file_of entry_taken.2])|].
  1-5: vm_compute; reflexivity.
  eapply rtc_l; [apply (history_flush_eq entry_taken.1 entry_taken.2 entry_flushed first_asked
    [file_of entry_taken.2] [file_of entry_taken.2; file_of entry_flushed.2])|].
  1-2: vm_compute; reflexivity.
  apply rtc_once, (History_time (late_env 1) entry_flushed.1 (default 0 (fst <$> Executor.time_step (late_env 1) entry_flushed.1))).
  1-3: vm_compute; reflexivity.
Qed.

Lemma acknowledged_entries_were_written_witness :
  (3%nat, RP_AppendEntries AE_Ok) ∈ cb_sent (callbacks (shared_state (h_node answered_history))) /\
  written (h_files answered_history) (write_log_entry (sample_message 0 1 0 0 1)).
Proof.
  assert (Hin : (3%nat, RP_AppendEntries AE_Ok) ∈ cb_sent (callbacks (shared_state (h_node answered_history)))).
  { vm_compute. by left. }
  split; [exact Hin|].
  destruct (acknowledged_entries_were_written [] [] [1; 2; 3] 1 1048576 empty_bus (shared_state first_node.1) first_node.2 (late_env 0)
    answered_history 3%nat) as [Hn|(data & Hd & Hw)];
    [constructor|constructor|done|exact first_node_started| |exact Hin|..].
  - assert (Hx : StateMachineExecutorImpl_new (late_env 0) (shared_state first_node.1) = first_node.1) by (vm_compute; reflexivity).
    rewrite Hx. exact answered_history_runs.
  - apply list_elem_of_singleton in Hn. discriminate Hn.
  - apply list_elem_of_singleton in Hd. injection Hd as ->. exact Hw.
Defined.
