(* ===== verification/LeaderCommit.v ===== *)
(** * What a commit of a leader stands on

    [LeaderSpec.v] follows one outstanding entry; here a leader runs from its election on,
    with any number of batches in flight and the responses of all workers in any order.  The
    commit index and the answers to the clients are compared with what the leader has been
    told: the responses its quorum workers and its persistence worker have put into its
    queues. *)
From stdpp Require Import strings.
From S2P Require Import Prelude Capnp CapnpInstance RaftTypes Bus Samples RaftSm LogModel.
From S2P Require Import Follower FollowerSpec Leader LeaderSpec Candidate Executor Safety NodeTypes NodeLog ClusterLog.

(** ** What a leader has been told *)

Definition acknowledges (id : Z) (r : LocalQuorumTaskResponseType) : Prop :=
  match r with QR_AppendEntries id' _ => id' = id | _ => False end.

#[export] Instance acknowledges_dec id r : Decision (acknowledges id r).
Proof. destruct r; simpl; apply _. Defined.

(** How often a quorum worker has acknowledged the entry sent under [id]. *)
Definition ack_count (id : Z) (acks : list LocalQuorumTaskResponseType) : Z :=
  vlen (filter (acknowledges id) acks).

Record Told := mkTold {
  told_acks : list LocalQuorumTaskResponseType;
  told_reports : list PersistenceResponseType;
  told_batches : list (OwnedWriteBatch * Callback)
}.

(** [quorum] acknowledgements of the entry [id] and the report of the leader's own worker. *)
Definition backed (quorum : Z) (told : Told) (id : Z) : Prop :=
  quorum <= ack_count id (told_acks told) /\ PR_LogPersisted id ∈ told_reports told.

(** What has been told only grows. *)
Record told_more (told told' : Told) : Prop := {
  more_acks : forall id, ack_count id (told_acks told) <= ack_count id (told_acks told');
  more_reports : told_reports told ⊆ told_reports told';
  more_batches : told_batches told ⊆ told_batches told'
}.

Lemma ack_count_app id acks acks' : ack_count id (acks ++ acks') = ack_count id acks + ack_count id acks'.
Proof. unfold ack_count. by rewrite list.filter_app, vlen_app. Qed.

Lemma ack_count_nonneg id acks : 0 <= ack_count id acks.
Proof. apply vlen_nonneg. Qed.

Lemma ack_count_one id ok : ack_count id [QR_AppendEntries id ok] = 1.
Proof. unfold ack_count. by rewrite filter_cons_True. Qed.

Lemma told_more_refl told : told_more told told.
Proof. by split. Qed.

Lemma told_more_app acks reports batches acks' reports' batches' :
  told_more (mkTold acks reports batches) (mkTold (acks ++ acks') (reports ++ reports') (batches ++ batches')).
Proof.
  split; simpl; [|set_solver..].
  intros id. rewrite ack_count_app. pose proof (ack_count_nonneg id acks'). lia.
Qed.

Lemma backed_more quorum told told' id : told_more told told' -> backed quorum told id -> backed quorum told' id.
Proof. intros [Ha Hr _] [Hq Hp]. split; [by etrans|by apply Hr]. Qed.

(** ** The tally *)

Section tally.
Context {CP : Capnp} {CL : CapnpLaws} {B : Type} `{Bus B}.
Implicit Types s : SharedState B.
Implicit Types told : Told.

Abbreviation log s := (replication_log (volatile_server_state s)).
Abbreviation commit s := (commit_index (volatile_server_state s)).
Abbreviation sent s := (cb_sent (callbacks s)).

(** The commands of a batch, in order. *)
Definition batch_requests (b : OwnedWriteBatch) : list InternalPutRequest :=
  default [] (mjoin (batch_with_message b wb_requests)).

(** The length of the log when the leadership began. *)
Variable l0 : Z.

(** The entry of the leader's term at index [i] that was appended and sent under [id]. *)
Definition entry_at s (id i : Z) (e : OwnedLogEntry) : Prop :=
  l0 <= i /\ vget (log s) i = Some e /\ message_id e = id /\ term e = current_term (server_state s).

(** ... and holds the commands of the batch [b]. *)
Definition batch_at s (b : OwnedWriteBatch) (id i : Z) : Prop :=
  exists e, entry_at s id i e /\ with_message e le_commands = Some (Some (map copy_command (batch_requests b))).

(** An outstanding message counts no more than the leader was told. *)
Definition counted told s (id : Z) (m : OutstandingMessageType) : Prop :=
  match m with
  | OM_WriteBatch persisted acks cb i _ =>
    acks <= ack_count id (told_acks told) /\ (persisted = true -> PR_LogPersisted id ∈ told_reports told) /\
    exists b, (b, cb) ∈ told_batches told /\ batch_at s b id i
  | OM_NoOp persisted acks i =>
    acks <= ack_count id (told_acks told) /\ (persisted = true -> PR_LogPersisted id ∈ told_reports told) /\
    exists e, entry_at s id i e
  | _ => True
  end.

(** The answer a client gets when its batch is committed. *)
Definition success (p : LocalRaftResponsePayload) : Prop :=
  match p with RP_WriteBatch r => wbr_err r = None | _ => False end.

(** The leader started with the commit index [c0] and the answers [sent0]. *)
Record tally (c0 : Z) (sent0 : list (Callback * LocalRaftResponsePayload)) told s : Prop := {
  tally_length : l0 <= vlen (log s);
  tally_counts : map_Forall (fun id m => counted told s id (message_type m)) (outstanding_messages s);
  tally_from : c0 <= commit s;
  tally_commit : commit s = c0 \/ exists id e, entry_at s id (commit s) e /\ backed (quorum_size s) told id;
  tally_answers : forall cb p, (cb, p) ∈ sent s -> success p -> (cb, p) ∈ sent0 \/
    exists b id i, (b, cb) ∈ told_batches told /\ batch_at s b id i /\ backed (quorum_size s) told id /\ i <= commit s
}.

(** The leader's entries stay where they are. *)
Definition extends s s' : Prop :=
  log s `prefix_of` log s' /\ current_term (server_state s') = current_term (server_state s) /\
  quorum_size s' = quorum_size s.

Lemma entry_at_extends s s' id i e : extends s s' -> entry_at s id i e -> entry_at s' id i e.
Proof. intros (Hl & Ht & _) (? & Hg & ? & ?). split_and!; [done|by eapply prefix_get|done|congruence]. Qed.

Lemma batch_at_extends s s' b id i : extends s s' -> batch_at s b id i -> batch_at s' b id i.
Proof. intros He (e & Hat & Hc). exists e. split; [by eapply entry_at_extends|done]. Qed.

Lemma counted_more told told' s s' id m :
  told_more told told' -> extends s s' -> counted told s id m -> counted told' s' id m.
Proof.
  intros [Ha Hr Hb] He. specialize (Ha id). destruct m as [| | |p q cb i n|p q i]; simpl; try done.
  - intros (? & Hp & b & Hin & Hat). split_and!; [lia|by intros ?%Hp%Hr|].
    exists b. split; [by apply Hb|by eapply batch_at_extends].
  - intros (? & Hp & e & Hat). split_and!; [lia|by intros ?%Hp%Hr|]. exists e. by eapply entry_at_extends.
Qed.

Lemma prefix_vlen {A} (l l' : list A) : l `prefix_of` l' -> vlen l <= vlen l'.
Proof. intros [k ->]. rewrite vlen_app. pose proof (vlen_nonneg k). lia. Qed.

(** The general step: nothing is committed or answered. *)
Lemma tally_step c0 sent0 told told' s s' :
  told_more told told' -> extends s s' -> commit s' = commit s ->
  (forall cb p, (cb, p) ∈ sent s' -> success p -> (cb, p) ∈ sent s) ->
  (forall id m, outstanding_messages s' !! id = Some m ->
     outstanding_messages s !! id = Some m \/ counted told' s' id (message_type m)) ->
  tally c0 sent0 told s -> tally c0 sent0 told' s'.
Proof.
  intros Hmore He Hc Hsent Hout [Hlen Hm Hf Hcm Ha]. pose proof He as (Hpre & _ & Hq). split.
  - etrans; [exact Hlen|by apply prefix_vlen].
  - intros id m [Hid|Hid]%Hout; [|done]. eapply counted_more; [done..|]. by apply (Hm id m).
  - by rewrite Hc.
  - rewrite Hc, Hq. destruct Hcm as [|(id & e & Hat & Hb)]; [by left|right]. exists id, e.
    split; [by eapply entry_at_extends|by eapply backed_more].
  - intros cb p Hin Hp. destruct (Ha cb p (Hsent _ _ Hin Hp) Hp) as [|(b & id & i & Hb & Hat & Hbk & Hi)]; [by left|right].
    exists b, id, i. rewrite Hc, Hq. split_and!; [by apply (more_batches _ _ Hmore)|by eapply batch_at_extends|by eapply backed_more|done].
Qed.

(** A commit of an entry that is backed. *)
Lemma tally_advance c0 sent0 told id i e s :
  tally c0 sent0 told s -> entry_at s id i e -> backed (quorum_size s) told id ->
  tally c0 sent0 told (advance_commit_index i s).
Proof.
  intros [Hlen Hm Hf Hcm Ha] Hat Hb. destruct (advance_commit_index_spec i s) as (Ho & Hcb & Hq & Hs & Hl & Hc).
  assert (He : extends s (advance_commit_index i s)) by (split_and!; rewrite ?Hl, ?Hs, ?Hq; done).
  split.
  - by rewrite Hl.
  - rewrite Ho. intros id' m Hid. eapply counted_more; [apply told_more_refl|done|]. by apply (Hm id' m).
  - rewrite Hc. lia.
  - rewrite Hc, Hq. destruct (Z.max_spec (commit s) i) as [[_ ->]|[_ ->]].
    + right. exists id, e. split; [by eapply entry_at_extends|done].
    + destruct Hcm as [|(id' & e' & Hat' & Hb')]; [by left|right]. exists id', e'. split; [by eapply entry_at_extends|done].
  - rewrite Hcb, Hc, Hq. intros cb p Hin Hp. destruct (Ha cb p Hin Hp) as [|(b & id' & i' & ? & ? & ? & ?)]; [by left|right].
    exists b, id', i'. split_and!; [done|by eapply batch_at_extends|done|lia].
Qed.

(** The answer to the client of a committed batch. *)
Lemma tally_answer c0 sent0 told b id i cb p s :
  tally c0 sent0 told s -> (b, cb) ∈ told_batches told -> batch_at s b id i -> backed (quorum_size s) told id ->
  i <= commit s -> tally c0 sent0 told (callback_send_ok cb p s).
Proof.
  intros [Hlen Hm Hf Hcm Ha] Hb Hat Hbk Hi. rewrite callback_send_ok_eq. split; [done..|]. intros cb' p' Hin Hp. simpl in Hin.
  unfold respond in Hin. case_decide; simpl in Hin; [by apply Ha|]. apply elem_of_app in Hin as [Hin|Hin]; [by apply Ha|].
  apply list_elem_of_singleton in Hin as [= -> ->]. right. by exists b, id, i.
Qed.

End tally.

(** ** The responses *)

Section responses.
Context {CP : Capnp} {CL : CapnpLaws} {B : Type} `{Bus B}.
Implicit Types s : SharedState B.
Implicit Types told : Told.

Abbreviation log s := (replication_log (volatile_server_state s)).
Abbreviation commit s := (commit_index (volatile_server_state s)).
Abbreviation sent s := (cb_sent (callbacks s)).

Variables l0 c0 : Z.
Variable sent0 : list (Callback * LocalRaftResponsePayload).
Abbreviation ok := (tally l0 c0 sent0).

(** Changes that neither commit nor answer, and leave the outstanding messages. *)
Definition untouched s s' : Prop :=
  log s' = log s /\ server_state s' = server_state s /\ quorum_size s' = quorum_size s /\ commit s' = commit s /\
  outstanding_messages s' = outstanding_messages s /\ callbacks s' = callbacks s /\
  quorum_response s' = quorum_response s /\ persistence_response s' = persistence_response s.

#[export] Instance untouched_preorder : PreOrder untouched.
Proof. split; [by repeat split|]. intros s1 s2 s3 ? ?. unfold untouched in *. naive_solver congruence. Qed.

Lemma untouched_broadcast s s' : same_but_broadcast s s' -> untouched s s'.
Proof. by intros (b & w & c & d & ->). Qed.

Lemma extends_same s s' :
  log s' = log s -> server_state s' = server_state s -> quorum_size s' = quorum_size s -> extends s s'.
Proof. intros Hl Hs Hq. split_and!; by rewrite ?Hl, ?Hs, ?Hq. Qed.

Lemma tally_untouched told s s' : untouched s s' -> ok told s -> ok told s'.
Proof.
  intros (Hl & Hs & Hq & Hc & Ho & Hcb & _). apply tally_step; [apply told_more_refl|by apply extends_same|done|..].
  - by rewrite Hcb.
  - rewrite Ho. by left.
Qed.

(** Popping a queue. *)
Lemma tally_pop told s s' :
  s' = s <| persistence_response := persistence_response s' |> <| quorum_response := quorum_response s' |> ->
  ok told s -> ok told s'.
Proof. intros ->. apply tally_step; [apply told_more_refl|by apply extends_same|done|done|by left]. Qed.

Lemma tally_told told told' s : told_more told told' -> ok told s -> ok told' s.
Proof. intros Hm. apply tally_step; [done|by apply extends_same|done|done|by left]. Qed.

(** An answer that is not the success of a batch. *)
Lemma tally_callback told cb p s : ~ success p -> ok told s -> ok told (callback_send_ok cb p s).
Proof.
  intros Hp. rewrite callback_send_ok_eq. apply tally_step; [apply told_more_refl|by apply extends_same|done| |by left].
  intros cb' p'. simpl. unfold respond. case_decide; [done|]. simpl. rewrite elem_of_app, list_elem_of_singleton.
  by intros [?|[= -> ->]].
Qed.

Lemma tally_delete told id s : ok told s -> ok told (s <| outstanding_messages ::= delete id |>).
Proof.
  apply tally_step; [apply told_more_refl|by apply extends_same|done|done|].
  intros id' m. simpl. rewrite lookup_delete_Some. by intros [_ ?]; left.
Qed.

Lemma tally_register told id m s :
  counted l0 told s id (message_type m) -> ok told s -> ok told (s <| outstanding_messages ::= <[id := m]> |>).
Proof.
  intros Hm. apply tally_step; [apply told_more_refl|by apply extends_same|done|done|].
  intros id' m'. simpl. rewrite lookup_insert_Some. intros [[<- <-]|[_ ?]]; [right|by left].
  eapply counted_more; [apply told_more_refl|by apply (extends_same s)|done].
Qed.

Definition add_ack (r : LocalQuorumTaskResponseType) told : Told :=
  mkTold (told_acks told ++ [r]) (told_reports told) (told_batches told).

Definition add_report (r : PersistenceResponseType) told : Told :=
  mkTold (told_acks told) (told_reports told ++ [r]) (told_batches told).

Lemma add_ack_more r told : told_more told (add_ack r told).
Proof. split; simpl; [|set_solver..]. intros id. rewrite ack_count_app. pose proof (ack_count_nonneg id [r]). lia. Qed.

Lemma add_report_more r told : told_more told (add_report r told).
Proof. split; simpl; [done|set_solver..]. Qed.

Lemma complete_write_batch_tally told b id i cb s s' :
  ok told s -> (b, cb) ∈ told_batches told -> batch_at l0 s b id i -> backed (quorum_size s) told id ->
  complete_write_batch i cb s = Some s' -> ok told s'.
Proof.
  intros Hok Hb Hat Hbk. pose proof Hat as (e & Hate & _). unfold complete_write_batch. rewrite write_batch_response_ok.
  intros [= <-]. destruct (advance_commit_index_spec i s) as (_ & _ & Hq & Hs & Hl & Hc).
  eapply (tally_answer _ _ _ _ b id i); [by eapply tally_advance|done| |by rewrite Hq|rewrite Hc; lia].
  eapply batch_at_extends; [|done]. by apply extends_same.
Qed.

(** An acknowledgement. *)
Lemma tally_ack told id a s s' :
  ok told s -> handle_append_entries_response id s = Some s' -> ok (add_ack (QR_AppendEntries id a) told) s'.
Proof.
  intros Hs. pose proof (add_ack_more (QR_AppendEntries id a) told) as Hmore. unfold handle_append_entries_response.
  destruct (outstanding_messages s !! id) as [m|] eqn:Hm; [|intros [= <-]; by eapply tally_told].
  assert (Hc : counted l0 told s id (message_type m)) by apply (tally_counts _ _ _ _ _ Hs _ _ Hm). apply (tally_told _ _ _ Hmore), (tally_delete _ id) in Hs.
  set (told' := add_ack _ told) in *. set (s1 := s <| outstanding_messages ::= delete id |>) in *.
  apply (counted_more l0 told told' s s1) in Hc as Hc'; [|done|by apply extends_same].
  assert (Hone : ack_count id (told_acks told') = ack_count id (told_acks told) + 1).
  { unfold told'. simpl. by rewrite ack_count_app, ack_count_one. }
  destruct (message_type m) as [| | |p q cb i n|p q i]; try by intros [= <-].
  - destruct Hc as (Hle & _), Hc' as (_ & Hp & b & Hb & Hat). case_decide as Hd.
    + destruct Hd as [Hq ->]. apply (complete_write_batch_tally _ b id); [done..|]. split; [cbn in *; lia|by apply Hp].
    + case_decide; intros [= <-]; [|done]. apply (tally_register _ id _ s1); [|done]. cbn [counted message_type]. split_and!; [lia|done|by exists b].
  - destruct Hc as (Hle & _), Hc' as (_ & Hp & e & Hat). case_decide as Hd.
    + destruct Hd as [Hq ->]. intros [= <-]. eapply tally_advance; [done..|]. split; [cbn in *; lia|by apply Hp].
    + case_decide; intros [= <-]; [|done]. apply (tally_register _ id _ s1); [|done]. cbn [counted message_type]. split_and!; [lia|done|by exists e].
Qed.

(** The report of the leader's own persistence worker. *)
Lemma tally_persisted told id s s' :
  ok told s -> Leader.handle_log_persisted id s = Some s' -> ok (add_report (PR_LogPersisted id) told) s'.
Proof.
  intros Hs. pose proof (add_report_more (PR_LogPersisted id) told) as Hmore. unfold Leader.handle_log_persisted.
  destruct (outstanding_messages s !! id) as [m|] eqn:Hm; [|intros [= <-]; by eapply tally_told].
  assert (Hc : counted l0 told s id (message_type m)) by apply (tally_counts _ _ _ _ _ Hs _ _ Hm). apply (tally_told _ _ _ Hmore), (tally_delete _ id) in Hs.
  set (told' := add_report _ told) in *. set (s1 := s <| outstanding_messages ::= delete id |>) in *.
  apply (counted_more l0 told told' s s1) in Hc; [|done|by apply extends_same].
  assert (Hin : PR_LogPersisted id ∈ told_reports told') by (simpl; set_solver).
  destruct (message_type m) as [cb| | |p q cb i n|p q i]; try by intros [= <-].
  - intros [= <-]. apply tally_callback; [by intros []|done].
  - destruct Hc as (Hle & _ & b & Hb & Hat). case_decide as Hd.
    + apply (complete_write_batch_tally _ b id); [done..|]. split; [cbn in *; lia|done].
    + intros [= <-]. apply (tally_register _ id _ s1); [|done]. cbn [counted message_type]. split_and!; [lia|done|by exists b].
  - destruct Hc as (Hle & _ & e & Hat). case_decide as Hd; intros [= <-].
    + eapply tally_advance; [done..|]. split; [cbn in *; lia|done].
    + apply (tally_register _ id _ s1); [|done]. cbn [counted message_type]. split_and!; [lia|done|by exists e].
Qed.

End responses.

(** ** The handlers *)

Section handlers.
Context {CP : Capnp} {CL : CapnpLaws} {B : Type} `{Bus B}.
Implicit Types s : SharedState B.
Implicit Types told : Told.

Abbreviation log s := (replication_log (volatile_server_state s)).
Abbreviation commit s := (commit_index (volatile_server_state s)).
Abbreviation sent s := (cb_sent (callbacks s)).

Variables l0 c0 : Z.
Variable sent0 : list (Callback * LocalRaftResponsePayload).
Abbreviation ok := (tally l0 c0 sent0).

Lemma tally_vote_persisted told id s : ok told s -> ok told (Leader.handle_vote_persisted id s).
Proof.
  intros Hs. unfold Leader.handle_vote_persisted. destruct (outstanding_messages s !! id) as [m|]; [|done].
  apply (tally_delete _ _ _ _ id) in Hs. destruct (message_type m); try done. apply tally_callback; [by intros []|done].
Qed.

(** The leader pops the whole queue of its persistence worker. *)
Lemma tally_reports told q n s n' s' :
  words_ok s -> persistence_response s = q -> ok told s -> process_persistence_responses q n s = Some (n', s') ->
  ok (mkTold (told_acks told) (told_reports told ++ q) (told_batches told)) s' /\ words_ok s' /\
  persistence_response s' = [] /\ quorum_response s' = quorum_response s.
Proof.
  revert told n s. induction q as [|t q IH]; intros told n s Hw Hq Hs; cbn [process_persistence_responses]; intros Heq.
  { simplify_eq. rewrite app_nil_r. by destruct told. }
  destruct (typed_pop_persistence t q s Hq Hw) as [Ht Hpop]. set (s0 := s <| persistence_response := q |>) in *.
  apply (tally_pop _ _ _ _ s s0) in Hs; [|by destruct s]. destruct (Leader.handle_persistence_response t s0) as [s1|] eqn:Hs1; [|done]. cbn [mbind option_bind] in Heq.
  assert (typed_response s0 s1 /\ ok (add_report t told) s1) as ((Hst & Hp1 & Hq1) & Hok1).
  { destruct t as [id t c|id]; cbn [Leader.handle_persistence_response] in Hs1.
    - injection Hs1 as <-. split; [by apply typed_leader_vote_persisted|].
      by eapply tally_told, tally_vote_persisted; [apply add_report_more|].
    - split; [by eapply typed_leader_log_persisted|by eapply tally_persisted]. }
  destruct (IH (add_report t told) _ _ (Hst Hpop) Hp1 Hok1 Heq) as (Hok & ? & ? & Hrest).
  simpl in Hok. rewrite <- (assoc_L (++)) in Hok. split_and!; try done. by rewrite Hrest, Hq1.
Qed.

(** ... and the queue of its quorum workers. *)
Lemma tally_acks told q bs n s bs' n' s' :
  words_ok s -> quorum_response s = q -> ok told s -> process_quorum_responses q bs n s = Some (bs', n', s') ->
  ok (mkTold (told_acks told ++ q) (told_reports told) (told_batches told)) s' /\ words_ok s' /\
  quorum_response s' = [] /\ persistence_response s' = persistence_response s.
Proof.
  revert told bs n s. induction q as [|t q IH]; intros told bs n s Hw Hq Hs; cbn [process_quorum_responses]; intros Heq.
  { simplify_eq. rewrite app_nil_r. by destruct told. }
  destruct (typed_pop_quorum t q s Hq Hw) as [Ht Hpop]. set (s0 := s <| quorum_response := q |>) in *.
  apply (tally_pop _ _ _ _ s s0) in Hs; [|by destruct s].
  assert (exists s1 bs1, process_quorum_responses q bs1 (n + 1) s1 = Some (bs', n', s') /\ typed_response s0 s1 /\
    ok (add_ack t told) s1) as (s1 & bs1 & Heq1 & (Hst & Hp1 & Hq1) & Hok1).
  { assert (Hmore : ok (add_ack t told) s0) by (eapply tally_told; [apply add_ack_more|done]).
    destruct t as [|id a| | |]; try by (eexists s0, _; split_and!; [exact Heq|done..]).
    destruct (handle_append_entries_response _ _) as [s1|] eqn:Hs1; [|done]. cbn [mbind option_bind] in Heq.
    exists s1, bs. split_and!; [done|by eapply typed_leader_append_response..|by eapply tally_ack]. }
  destruct (IH (add_ack t told) _ _ _ (Hst Hpop) Hq1 Hok1 Heq1) as (Hok & ? & ? & Hrest).
  simpl in Hok. rewrite <- (assoc_L (++)) in Hok. split_and!; try done. by rewrite Hrest, Hp1.
Qed.

Lemma untouched_signal node t i s : untouched s (send_truncate_signal node t i s).
Proof. unfold send_truncate_signal. by case_match. Qed.

Lemma untouched_send_backfill node t i s s' : send_backfill_data node t i s = Some s' -> untouched s s'.
Proof.
  unfold send_backfill_data. destruct (clone_subset _ _ _); cbn [mbind option_bind]; [|done].
  intros Heq. by case_match; simplify_eq.
Qed.

Lemma untouched_backfills rs s s' : handle_backfill_requests rs s = Some s' -> untouched s s'.
Proof.
  revert s. induction rs as [|[[node t] i] rs IH]; intros s; cbn [handle_backfill_requests]; intros Heq; [by simplify_eq|].
  destruct (handle_backfill_request node t i s) as [s1|] eqn:Hs1; [|done]. cbn [mbind option_bind] in Heq.
  etrans; [|by apply IH]. clear Heq. unfold handle_backfill_request, handle_follower_ahead, handle_term_mismatch in Hs1.
  repeat (case_match || case_decide || simplify_eq); first [apply untouched_signal | by eapply untouched_send_backfill].
Qed.

(** *** Entries the leader builds *)

Lemma built_fields (m : InternalLogEntry) : log_entry_built m ->
  build_owned_log_entry m = Some (mkOwnedLogEntry (write_log_entry m)) /\
  let e := mkOwnedLogEntry (write_log_entry m) in
  term e = le_term m /\ message_id e = le_message_id m /\ with_message e le_commands = Some (le_commands m).
Proof.
  intros Hm. split; [by apply build_owned_log_entry_ok|]. unfold term, message_id. by rewrite !with_message_written.
Qed.

Lemma created_batch_fields env b idx id s e s' :
  words_ok s -> u64 idx -> u64 id -> create_and_append_log_entry env b idx id s = Some (e, s') ->
  s' = push_entry e s /\ term e = current_term (server_state s) /\ message_id e = id /\
  with_message e le_commands = Some (Some (map copy_command (batch_requests b))).
Proof.
  intros Hok Hi Hid. unfold create_and_append_log_entry, batch_requests, batch_with_message.
  destruct (read_message_from_flat_slice _) as [[r rest]|]; [|done].
  destruct (write_batch_root r) as [msg|] eqn:Hroot; [|done]. simpl.
  set (m := mkInternalLogEntry _ _ _ _ _ _ _ _). assert (Hm : log_entry_made m).
  { apply (entry_message_made env idx id (map copy_command (default [] (wb_requests msg))) s); try apply Hok; try done.
    by eapply copied_commands_built. }
  destruct (build_owned_log_entry m) as [owned|] eqn:Hbuild; [|done]. apply build_owned_log_entry_made in Hbuild as [Hb ->]; [|done].
  destruct (built_fields m Hb) as (_ & Ht & Hmid & Hc). simpl. intros [= <- <-]. done.
Qed.

Lemma created_noop_fields env idx id s e s' :
  words_ok s -> u64 idx -> u64 id -> create_and_append_noop_entry env idx id s = Some (e, s') ->
  s' = push_entry e s /\ term e = current_term (server_state s) /\ message_id e = id.
Proof.
  intros Hok Hi Hid. unfold create_and_append_noop_entry. set (m := mkInternalLogEntry _ _ _ _ _ _ _ _).
  assert (Hm : log_entry_built m) by (by apply (entry_message_built env idx id [] s); try apply Hok).
  destruct (built_fields m Hm) as (-> & Ht & Hmid & _). simpl. intros [= <- <-]. done.
Qed.

(** An entry goes to the end of the log and is registered under its id. *)
Lemma tally_append told s s' e id m :
  log s' = log s ++ [e] -> server_state s' = server_state s -> quorum_size s' = quorum_size s ->
  commit s' = commit s -> callbacks s' = callbacks s ->
  outstanding_messages s' = <[id := m]> (outstanding_messages s) ->
  (entry_at l0 s' id (vlen (log s)) e -> counted l0 told s' id (message_type m)) ->
  term e = current_term (server_state s) -> message_id e = id -> ok told s -> ok told s'.
Proof.
  intros Hl Hs Hq Hc Hcb Ho Hm Ht Hid Hok. pose proof (tally_length _ _ _ _ _ Hok) as Hlen. revert Hok.
  apply tally_step; [apply told_more_refl| |done|by rewrite Hcb|].
  - split_and!; rewrite ?Hl, ?Hs, ?Hq; [by exists [e]|done..].
  - intros id' m'. rewrite Ho, lookup_insert_Some. intros [[<- <-]|[_ ?]]; [right|by left]. apply Hm.
    split_and!; [done|by rewrite Hl, vget_app_last|done|by rewrite Hs].
Qed.

Lemma tally_write_batch told env b cb s s' :
  words_ok s -> chan_open (persistence_work s) = true -> next_log_index (volatile_server_state s) = vlen (log s) ->
  write_batch env b cb s = Some s' -> (b, cb) ∈ told_batches told -> ok told s ->
  ok told s' /\ quorum_response s' = quorum_response s /\ persistence_response s' = persistence_response s.
Proof.
  intros Hok Hopen Hnext Heq Hb Hs. unfold write_batch in Heq.
  set (s0 := s <| next_message_id ::= fun n => n +! 1 |>) in *.
  assert (Hs0 : ok told s0) by (by apply (tally_untouched _ _ _ _ s)).
  assert (Hok0 : words_ok s0) by (revert Hok; unfold s0; words).
  destruct (validate_write_batch b) as [err|].
  { rewrite send_error_response_ok in Heq. injection Heq as <-. split; [|done].
    pose proof (tally_callback l0 c0 sent0 told cb (batch_answer (Some err)) s0) as Hc. rewrite callback_send_ok_eq in Hc.
    by apply Hc. }
  destruct (create_and_append_log_entry _ _ _ _ _) as [[e s1]|] eqn:Hc; [|done]. cbn [mbind option_bind] in Heq.
  destruct (created_batch_fields _ _ _ _ _ _ _ Hok0 (ok_next_log_index _ Hok) (ok_next_message_id _ Hok) Hc)
    as (-> & Ht & Hid & Hcmd). destruct (push_entry_spec e s0) as [starts Hp]. rewrite Hp in Heq.
  unfold queue_persistence_task in Heq. rewrite persistence_send_open in Heq by done. injection Heq as <-.
  split; [|done]. eapply (tally_append _ s0 _ e); try done. intros Hat. rewrite Hnext in *. cbn [counted message_type].
  split_and!; [apply ack_count_nonneg|done|]. exists b. split; [done|]. by exists e.
Qed.

Lemma tally_initialize told env s s' :
  words_ok s -> chan_open (persistence_work s) = true -> vlen (log s) < 2 ^ 64 ->
  initialize_leadership env s = Some s' -> ok told s ->
  ok told s' /\ quorum_response s' = quorum_response s /\ persistence_response s' = persistence_response s.
Proof.
  unfold initialize_leadership. intros Hok Hopen Hlen Heq Hs. pose proof (vlen_nonneg (log s)) as Hpos.
  set (idx := vlen _) in *. set (s1 := push_all_quorum _ _) in *.
  assert (Hok1 : words_ok s1) by (revert Hok; unfold s1; words; done). set (s2 := if decide _ then _ else _) in *.
  assert (Hs2 : same_but_broadcast s1 s2).
  { unfold s2. case_decide; [apply broadcast_committed_entries_frame|reflexivity]. }
  pose proof (typed_broadcast _ _ Hs2 Hok1) as Hok2. set (s3 := s2 <| next_message_id ::= fun n => n +! 1 |>) in *.
  assert (Hok3 : words_ok s3) by (revert Hok2; unfold s3; words).
  assert (H3 : untouched s s3) by (unfold s3; destruct Hs2 as (? & ? & ? & ? & ->); done).
  assert (Hopen3 : chan_open (persistence_work s3) = true) by (unfold s3; destruct Hs2 as (? & ? & ? & ? & ->); done).
  assert (Hnl : next_log_index (volatile_server_state s2) = idx) by (destruct Hs2 as (? & ? & ? & ? & ->); done).
  rewrite Hnl in Heq. destruct (create_and_append_noop_entry _ _ _ _) as [[e s4]|] eqn:Hc; [|done].
  destruct (created_noop_fields _ idx _ _ _ _ Hok3 ltac:(done) (ok_next_message_id _ Hok2) Hc) as (-> & Ht & Hid).
  cbn [mbind option_bind] in Heq. destruct (push_entry_spec e s3) as [starts Hp]. rewrite Hp in Heq.
  unfold queue_persistence_task in Heq. rewrite persistence_send_open in Heq by done. injection Heq as <-.
  pose proof H3 as (Hl & Hss & Hq & Hcm & Ho & Hcb & Hqr & Hpr).
  split; [|split; [exact Hqr|exact Hpr]]. apply (tally_untouched _ _ _ _ _ _ H3) in Hs.
  eapply (tally_append _ s3 _ e); try done. rewrite Hl. intros Hat. cbn [counted message_type].
  split_and!; [apply ack_count_nonneg|done|by exists e].
Qed.

Lemma tally_time_step told env d s sc n d' s' :
  words_ok s -> chan_open (persistence_work s) = true -> vlen (log s) < 2 ^ 64 ->
  Leader.time_step env d s = Some (sc, n, d', s') -> ok told s ->
  ok (mkTold (told_acks told ++ quorum_response s) (told_reports told ++ persistence_response s) (told_batches told)) s' /\
  quorum_response s' = [] /\ persistence_response s' = [].
Proof.
  intros Hok Hopen Hlen. unfold Leader.time_step.
  destruct (if negb (initialized d) then _ else _) as [[[w d1] s1]|] eqn:H1; [|done]. cbn [mbind option_bind].
  destruct (process_persistence_responses _ _ _) as [[c s2]|] eqn:H2; [|done]. cbn [mbind option_bind].
  destruct (process_quorum_responses _ _ _ _) as [[[bs w3] s3]|] eqn:H3; [|done]. cbn [mbind option_bind].
  destruct (handle_backfill_requests _ _) as [s4|] eqn:H4; [|done]. cbn [mbind option_bind].
  pose proof (untouched_broadcast _ _ (retry_deferred_broadcast_frame s4)) as H5.
  destruct (retry_deferred_broadcast s4) as [w5 s5]. intros [= <- <- <- <-] Hs. cbn [snd] in H5.
  assert (words_ok s1 /\ ok told s1 /\ quorum_response s1 = quorum_response s /\
    persistence_response s1 = persistence_response s) as (Hok1 & Hs1 & Hq1 & Hp1).
  { destruct (initialized d); simpl in H1; [by simplify_eq|].
    destruct (initialize_leadership env s) as [s0|] eqn:Hi; [|done]. simpl in H1. simplify_eq.
    split; [by eapply typed_initialize|by eapply tally_initialize]. }
  destruct (tally_reports _ _ _ _ _ _ Hok1 eq_refl Hs1 H2) as (Hs2 & Hok2 & Hp2 & Hq2).
  destruct (tally_acks _ _ _ _ _ _ _ _ Hok2 eq_refl Hs2 H3) as (Hs3 & _ & Hq3 & Hp3).
  simpl in Hs3. rewrite Hq2, Hq1, Hp1 in Hs3. pose proof (untouched_backfills _ _ _ H4) as H45.
  assert (H35 : untouched s3 s5) by by etrans. pose proof H35 as (_ & _ & _ & _ & _ & _ & Hq5 & Hp5).
  split_and!; [by eapply tally_untouched|by rewrite Hq5|by rewrite Hp5, Hp3].
Qed.

Lemma tally_request_vote told r cb d s :
  ok told s -> let s' := (Leader.request_vote r cb d s).2 in
  ok told s' /\ quorum_response s' = quorum_response s /\ persistence_response s' = persistence_response s.
Proof.
  intros Hs. assert (Ho : untouched s (observe_vote_term (rv_term r) s)) by (unfold observe_vote_term; by case_decide).
  unfold Leader.request_vote. set (s1 := observe_vote_term _ _) in *. pose proof Ho as (_ & _ & _ & _ & _ & _ & Hq & Hp).
  assert (Hno : ok told (callback_send_ok cb (RP_RequestVote false) s1)).
  { apply tally_callback; [by intros []|by eapply tally_untouched]. }
  destruct (negb _); cbn [snd]; [split; [done|by rewrite callback_send_ok_eq]|].
  destruct (persistence_send _ _) as [s2|] eqn:Hsend; cbn [snd]; [|split; [done|by rewrite callback_send_ok_eq]].
  apply persistence_send_Some in Hsend as [_ ->]. split; [|done].
  eapply (tally_register _ _ _ told (next_message_id s1)); [done|]. by eapply (tally_untouched _ _ _ _ s1), tally_untouched.
Qed.

Lemma tally_refused told p cb s :
  ~ success p -> ok told s -> let s' := callback_send_ok cb p s in
  ok told s' /\ quorum_response s' = quorum_response s /\ persistence_response s' = persistence_response s.
Proof. intros Hp Hs. split; [by apply tally_callback|by rewrite callback_send_ok_eq]. Qed.

End handlers.

(** ** A leadership *)

Section leadership.
Context {CP : Capnp} {CL : CapnpLaws} {B : Type} `{Bus B}.
Implicit Types x : StateMachineExecutorImpl B.
Implicit Types s : SharedState B.
Implicit Types evs : list event.

Abbreviation node_log x := (replication_log (volatile_server_state (shared_state x))).
Abbreviation commit x := (commit_index (volatile_server_state (shared_state x))).
Abbreviation sent x := (cb_sent (callbacks (shared_state x))).

Definition acks_of evs : list LocalQuorumTaskResponseType :=
  omap (fun ev => match ev with Ev_Quorum r => Some r | _ => None end) evs.

Definition reports_of evs : list PersistenceResponseType :=
  omap (fun ev => match ev with Ev_Persisted r => Some r | _ => None end) evs.

Definition batches_of evs : list (OwnedWriteBatch * Callback) :=
  omap (fun ev => match ev with
    | Ev_Message _ m => match lrm_payload m with RM_WriteBatch b => Some (b, lrm_callback m) | _ => None end
    | _ => None
    end) evs.

(** What [x0] had in its queues when it became leader, and what has come since. *)
Definition told_of x0 evs : Told :=
  mkTold (quorum_response (shared_state x0) ++ acks_of evs) (persistence_response (shared_state x0) ++ reports_of evs)
    (batches_of evs).

(** A write batch does not come before the leader's first time step. *)
Definition admits (ev : event) x : bool :=
  match ev with Ev_Message _ m => ready m x | _ => true end.

(** No write batch and no entry of an election is outstanding. *)
Definition no_writes (s : SharedState B) : Prop :=
  map_Forall (fun _ m => match message_type m with OM_WriteBatch _ _ _ _ _ | OM_NoOp _ _ _ => False | _ => True end)
    (outstanding_messages s).

(** A leader between its election and its first time step; no entry of an earlier leadership
    is outstanding.  [FirstLeadership.v] shows this of the first leadership since a start. *)
Record new_leader x : Prop := {
  nl_delegate : exists d, state_delegate x = D_Leader d /\ initialized d = false;
  nl_words : words_ok (shared_state x);
  nl_tail : tail_wf (volatile_server_state (shared_state x));
  nl_open : chan_open (persistence_work (shared_state x)) = true;
  nl_length : vlen (node_log x) < 2 ^ 64 - 1;
  nl_outstanding : no_writes (shared_state x)
}.

(** The node [x0] has stayed leader until [x]; [evs] is what it has received.  Meanwhile the
    workers take tasks and receivers of callbacks may be dropped. *)
Inductive leads x0 : list event -> StateMachineExecutorImpl B -> Prop :=
| leads_start : leads x0 [] x0
| leads_event evs x ev x' :
    leads x0 evs x -> typed_event ev -> admits ev x = true -> apply_event ev x = Some x' -> is_leader x' = true ->
    vlen (node_log x') < 2 ^ 64 - 1 -> leads x0 (evs ++ [ev]) x'
| leads_persistence_work evs d s n :
    leads x0 evs (mkStateMachineExecutorImpl d s) ->
    leads x0 evs (mkStateMachineExecutorImpl d
      (s <| persistence_work := mkSender true (drop n (chan_queue (persistence_work s))) |>))
| leads_quorum_tasks evs d s i n :
    leads x0 evs (mkStateMachineExecutorImpl d s) ->
    leads x0 evs (mkStateMachineExecutorImpl d (s <| quorum_worker_tasks ::= alter (drop n) i |>))
| leads_callback_dropped evs d s cb :
    leads x0 evs (mkStateMachineExecutorImpl d s) ->
    leads x0 evs (mkStateMachineExecutorImpl d (s <| callbacks ; cb_dropped ::= fun c => {[cb]} ∪ c |>)).

(** The shape of a leader's state. *)
Record lead_shape (d : RaftLeaderStateDelegate) s : Prop := {
  ls_words : words_ok s;
  ls_tail : tail_wf (volatile_server_state s);
  ls_open : chan_open (persistence_work s) = true;
  ls_length : vlen (replication_log (volatile_server_state s)) < 2 ^ 64 - 1;
  ls_next : initialized d = true -> next_log_index (volatile_server_state s) = vlen (replication_log (volatile_server_state s))
}.

Definition lead_told x0 evs s : Prop :=
  exists acks reports,
    told_acks (told_of x0 evs) = acks ++ quorum_response s /\
    told_reports (told_of x0 evs) = reports ++ persistence_response s /\
    tally (vlen (node_log x0)) (commit x0) (sent x0) (mkTold acks reports (batches_of evs)) s.

Lemma shape_ranges d s : lead_shape d s -> append_ranges s.
Proof. intros Hs. split_and!; [pose proof (ls_length _ _ Hs); lia|apply Hs|apply Hs]. Qed.

Lemma shape_calm d s s' : lead_shape d s -> leader_calm s s' -> words_ok s' -> lead_shape d s'.
Proof.
  intros [Hw [Hi Ht] Ho Hlen Hn] [(Hl & Htail & Hopen & _) _] Hok. injection Htail as Hi' Ht' Hn'.
  split; [done| |congruence|by rewrite Hl|by rewrite Hl, Hn'].
  unfold tail_wf. by rewrite Hl, Hi', Ht'.
Qed.

Lemma shape_appends d s s' :
  appends s s' -> words_ok s' -> vlen (replication_log (volatile_server_state s')) < 2 ^ 64 - 1 -> lead_shape d s'.
Proof. by intros (e & _ & _ & _ & _ & Htail & Hn & Ho & _) Hok Hlen. Qed.

Lemma told_of_snoc x0 evs ev :
  told_of x0 (evs ++ [ev]) = mkTold (told_acks (told_of x0 evs) ++ acks_of [ev])
    (told_reports (told_of x0 evs) ++ reports_of [ev]) (batches_of evs ++ batches_of [ev]).
Proof. unfold told_of, acks_of, reports_of, batches_of. simpl. by rewrite !omap_app, !(assoc_L (++)). Qed.

(** A message. *)
Lemma lead_told_message x0 evs env m s s' :
  (forall told, told_batches told = batches_of (evs ++ [Ev_Message env m]) -> tally (vlen (node_log x0)) (commit x0) (sent x0) told s ->
     tally (vlen (node_log x0)) (commit x0) (sent x0) told s' /\ quorum_response s' = quorum_response s /\
     persistence_response s' = persistence_response s) ->
  lead_told x0 evs s -> lead_told x0 (evs ++ [Ev_Message env m]) s'.
Proof.
  intros Hs (acks & reports & Ha & Hr & Ht). set (told := mkTold acks reports (batches_of (evs ++ [Ev_Message env m]))).
  assert (Ht' : tally (vlen (node_log x0)) (commit x0) (sent x0) told s).
  { eapply tally_told; [|done]. split; unfold told, batches_of; simpl; [done..|]. rewrite omap_app. set_solver. }
  destruct (Hs told eq_refl Ht') as (Hok & Hq & Hp). exists acks, reports. rewrite told_of_snoc. simpl.
  rewrite !app_nil_r, Hq, Hp. by split_and!.
Qed.

Lemma lead_accept x0 evs env m d s x' :
  lead_shape d s -> lead_told x0 evs s -> ready m (mkStateMachineExecutorImpl (D_Leader d) s) = true ->
  accept env m (mkStateMachineExecutorImpl (D_Leader d) s) = Some x' -> is_leader x' = true ->
  words_ok (shared_state x') -> vlen (node_log x') < 2 ^ 64 - 1 ->
  state_delegate x' = D_Leader d /\ lead_shape d (shared_state x') /\
  lead_told x0 (evs ++ [Ev_Message env m]) (shared_state x').
Proof.
  intros Hshape Ht Hready. destruct m as [[r|r| |b] cb]; unfold accept, delegate_accept; simpl.
  - pose proof (calm_leader_request_vote r cb d s) as Hc. pose proof (fun l0 c0 sent0 told => tally_request_vote l0 c0 sent0 told r cb d s) as Hv.
    destruct (Leader.request_vote r cb d s) as [[sc d1] s1]. destruct Hc as (Hc & Hss & -> & ->). intros [= <-] _ Hw _. simpl in *.
    split_and!; [done|by eapply shape_calm|]. eapply lead_told_message; [|done]. intros told _. apply Hv.
  - unfold Leader.append_entries. case_decide.
    { destruct (Leader.handle_new_leader _ _ _ _) as [sc s1] eqn:Hn. injection Hn as <- <-. by intros [= <-] ?. }
    intros [= <-] _ Hw _. simpl in *. split_and!; [done|eapply shape_calm; [done| |done]|].
    + split; [apply calm_callback|]. by rewrite callback_server_state.
    + eapply lead_told_message; [|done]. intros told _. apply tally_refused. by intros [].
  - intros [= <-] _ Hw _. simpl in *. split_and!; [done|eapply shape_calm; [done| |done]|].
    + split; [apply calm_callback|]. by rewrite callback_server_state.
    + eapply lead_told_message; [|done]. intros told _. apply tally_refused. by intros [].
  - destruct (write_batch env b cb s) as [s1|] eqn:Hwb; [|done]. simpl. intros [= <-] _ Hw Hlen. simpl in *.
    pose proof (ls_next _ _ Hshape Hready) as Hn. split_and!; [done| |].
    + apply write_batch_effect in Hwb as [Hc|Ha]; [by eapply shape_calm|by eapply shape_appends|apply Hshape|by eapply shape_ranges|apply Hshape..|done|apply Hshape].
    + eapply lead_told_message; [|done]. intros told Hb. eapply tally_write_batch; [apply Hshape..|done|done|].
      rewrite Hb. unfold batches_of. rewrite omap_app. simpl. set_solver.
Qed.

Lemma lead_tick x0 evs env d s w x' :
  lead_shape d s -> lead_told x0 evs s -> Executor.time_step env (mkStateMachineExecutorImpl (D_Leader d) s) = Some (w, x') ->
  words_ok (shared_state x') -> vlen (node_log x') < 2 ^ 64 - 1 ->
  exists d', state_delegate x' = D_Leader d' /\ lead_shape d' (shared_state x') /\
  lead_told x0 (evs ++ [Ev_Tick env]) (shared_state x').
Proof.
  intros Hshape (acks & reports & Ha & Hr & Ht). unfold Executor.time_step, delegate_time_step. simpl.
  destruct (Leader.time_step env d s) as [[[[sc n] d1] s1]|] eqn:Hts; [|done]. simpl. intros [= <- <-] Hw Hlen. simpl in *.
  destruct (leader_time_step_effect _ _ _ _ _ _ _ (ls_tail _ _ Hshape) (shape_ranges _ _ Hshape) (ls_open _ _ Hshape) Hts)
    as (-> & Hi & Heff).
  pose proof (ls_length _ _ Hshape).
  eapply tally_time_step in Hts as (Hok & Hq & Hp); [|apply Hshape|apply Hshape|lia|exact Ht]. exists d1. split_and!; [done| |].
  - destruct (initialized d) eqn:Hd; [|by eapply shape_appends]. eapply (shape_calm d) in Heff; [|done..].
    destruct Heff as [? ? ? ? Hn]. split; [done..|]. intros _. by apply Hn.
  - exists (acks ++ quorum_response s), (reports ++ persistence_response s). rewrite told_of_snoc. simpl.
    rewrite Hq, Hp, !app_nil_r. split_and!; [done..|]. unfold batches_of. rewrite omap_app. simpl. by rewrite app_nil_r.
Qed.

Lemma lead_event x0 evs d s ev x' :
  lead_shape d s -> lead_told x0 evs s -> typed_event ev -> admits ev (mkStateMachineExecutorImpl (D_Leader d) s) = true ->
  apply_event ev (mkStateMachineExecutorImpl (D_Leader d) s) = Some x' -> is_leader x' = true ->
  vlen (node_log x') < 2 ^ 64 - 1 ->
  exists d', state_delegate x' = D_Leader d' /\ lead_shape d' (shared_state x') /\ lead_told x0 (evs ++ [ev]) (shared_state x').
Proof.
  intros Hshape Ht Hty Had Hap Hl Hlen.
  assert (Hw : words_ok (shared_state x')).
  { eapply (typed_any_step (mkStateMachineExecutorImpl (D_Leader d) s)); [simpl; pose proof (ls_length _ _ Hshape); lia| |apply Hshape].
    eapply event_step; done. }
  destruct ev as [env|env m|r|r]; simpl in Hap.
  - destruct (Executor.time_step _ _) as [[w x1]|] eqn:Hts; [|done]. simpl in Hap. injection Hap as ->. by eapply lead_tick.
  - exists d. by eapply lead_accept.
  - injection Hap as <-. exists d. destruct Ht as (acks & reports & Ha & Hr & Ht). split_and!; [done| |].
    + by eapply shape_calm.
    + exists acks, reports. rewrite told_of_snoc. cbn [told_acks told_reports acks_of reports_of omap list_omap].
      rewrite Ha, Hr, !app_nil_r, <- (assoc_L (++)). split_and!; [done..|].
      unfold batches_of. rewrite omap_app. simpl. rewrite app_nil_r. by apply (tally_pop _ _ _ _ s).
  - injection Hap as <-. exists d. destruct Ht as (acks & reports & Ha & Hr & Ht). split_and!; [done| |].
    + by eapply shape_calm.
    + exists acks, reports. rewrite told_of_snoc. cbn [told_acks told_reports acks_of reports_of omap list_omap].
      rewrite Ha, Hr, !app_nil_r, <- (assoc_L (++)). split_and!; [done..|].
      unfold batches_of. rewrite omap_app. simpl. rewrite app_nil_r. by apply (tally_pop _ _ _ _ s).
Qed.

(** A step that only touches the tasks of the workers or the receivers of callbacks. *)
Lemma lead_silent x0 evs d s s' :
  step (mkStateMachineExecutorImpl (D_Leader d) s) (mkStateMachineExecutorImpl (D_Leader d) s') ->
  volatile_server_state s' = volatile_server_state s -> server_state s' = server_state s ->
  chan_open (persistence_work s') = true -> quorum_size s' = quorum_size s -> sent (mkStateMachineExecutorImpl (D_Leader d) s') = cb_sent (callbacks s) ->
  outstanding_messages s' = outstanding_messages s -> quorum_response s' = quorum_response s ->
  persistence_response s' = persistence_response s ->
  lead_shape d s -> lead_told x0 evs s -> lead_shape d s' /\ lead_told x0 evs s'.
Proof.
  intros Hst Hv Hss Ho Hq Hcb Hom Hqr Hpr [Hw Htl _ Hlen Hn] (acks & reports & Ha & Hr & Ht). simpl in Hcb. split.
  - split; rewrite ?Hv; try done. eapply (typed_any_step _ (mkStateMachineExecutorImpl (D_Leader d) s')); [|exact Hst|exact Hw]. simpl. lia.
  - exists acks, reports. rewrite Hqr, Hpr. split_and!; [done..|]. revert Ht. apply tally_step.
    + apply told_more_refl.
    + by apply extends_same; rewrite ?Hv.
    + by rewrite Hv.
    + by rewrite Hcb.
    + rewrite Hom. by left.
Qed.

Lemma leads_inv x0 evs x :
  new_leader x0 -> leads x0 evs x ->
  exists d, state_delegate x = D_Leader d /\ lead_shape d (shared_state x) /\ lead_told x0 evs (shared_state x).
Proof.
  intros [(d0 & Hd0 & Hi0) Hw Htl Ho Hlen Hout]. induction 1 as [|evs x ev x' _ (d & Hd & Hsh & Ht) Hty Had Hap Hl Hln|
    evs d s n _ (d' & Hd & Hsh & Ht)|evs d s i n _ (d' & Hd & Hsh & Ht)|evs d s cb _ (d' & Hd & Hsh & Ht)].
  - exists d0. split_and!; [done|by split; try rewrite Hi0|]. exists [], []. simpl. rewrite !app_nil_r. split_and!; [done..|].
    split; [done| |done|by left|intros; by left]. intros id m Hm. specialize (Hout id m Hm). simpl in *. by destruct (message_type m).
  - destruct x as [dx s]. simpl in *. subst dx. by eapply lead_event.
  - simpl in *. subst d. exists d'. split; [done|]. eapply (lead_silent _ _ _ s); try done. apply (step_persistence_work _ n). done.
  - simpl in *. subst d. exists d'. split; [done|]. eapply (lead_silent _ _ _ s); try done; [|apply Hsh].
    apply step_quorum_tasks. by rewrite length_alter.
  - simpl in *. subst d. exists d'. split; [done|]. eapply (lead_silent _ _ _ s); try done; [|apply Hsh].
    apply step_callback_dropped.
Qed.

(** The tally against everything the leader was told. *)
Lemma leads_tally x0 evs x :
  new_leader x0 -> leads x0 evs x -> tally (vlen (node_log x0)) (commit x0) (sent x0) (told_of x0 evs) (shared_state x).
Proof.
  intros Hn Hl. destruct (leads_inv _ _ _ Hn Hl) as (d & _ & _ & acks & reports & Ha & Hr & Ht).
  eapply tally_told; [|exact Ht]. unfold told_of in *. simpl in *. rewrite Ha, Hr.
  pose proof (told_more_app acks reports (batches_of evs) (quorum_response (shared_state x))
    (persistence_response (shared_state x)) []) as Hm. by rewrite app_nil_r in Hm.
Qed.

(** C8: A leader commits only what is backed by a quorum, and by counting only entries of its
    own term.  This holds in a leadership that begins with the cursors at the end of the log
    and no write or no-op of an earlier leadership outstanding, as the first one since a start
    does ([first_leadership_is_new]), and in which no batch comes before the first time step;
    in a later one an old acknowledgement can commit another entry
    ([late_ack_commits_other_entry]).  In such a leadership, of any length, with any number of
    batches in flight and the responses of the workers in any order: the commit index never
    goes back, and if it has moved, it points at an entry of the leader's term, appended since
    the election, that [quorum_size] acknowledgements of quorum workers and the report of the
    leader's own persistence worker name by its message id. *)
Theorem commit_is_backed x0 evs x :
  new_leader x0 -> leads x0 evs x ->
  commit x0 <= commit x /\
  (commit x = commit x0 \/ exists e, vlen (node_log x0) <= commit x /\ vget (node_log x) (commit x) = Some e /\
     term e = current_term (server_state (shared_state x)) /\
     backed (quorum_size (shared_state x)) (told_of x0 evs) (message_id e)).
Proof.
  intros Hn Hl. destruct (leads_tally _ _ _ Hn Hl) as [_ _ Hf Hc _]. split; [done|].
  destruct Hc as [|(id & e & (Hi0 & Hg & <- & Ht) & Hb)]; [by left|right]. by exists e.
Qed.

(** C2: A client is told that its write is committed only when it is, in a leadership that
    begins with the cursors at the end of the log and no write or no-op of an earlier
    leadership outstanding, as the first one since a start does ([first_leadership_is_new]),
    and in which no batch comes before the first time step; in a later one an old
    acknowledgement can commit another entry ([late_ack_commits_other_entry]).  If during such
    a leadership a client's callback gets the answer of success, the leader has received a
    write batch with this callback; the commands of the batch are, in order, those of an entry
    it has appended since its election, of its term and at an index that is committed, and a
    quorum of acknowledgements and the report of the leader's own disk name this entry. *)
Theorem answered_write_is_committed x0 evs x cb r :
  new_leader x0 -> leads x0 evs x ->
  (cb, RP_WriteBatch r) ∈ sent x -> wbr_err r = None -> (cb, RP_WriteBatch r) ∉ sent x0 ->
  exists b i e, (b, cb) ∈ batches_of evs /\ vlen (node_log x0) <= i <= commit x /\ vget (node_log x) i = Some e /\
    term e = current_term (server_state (shared_state x)) /\
    with_message e le_commands = Some (Some (map copy_command (batch_requests b))) /\
    backed (quorum_size (shared_state x)) (told_of x0 evs) (message_id e).
Proof.
  intros Hn Hl Hin Hr Hnew. destruct (leads_tally _ _ _ Hn Hl) as [_ _ _ _ Ha].
  destruct (Ha _ _ Hin Hr) as [|(b & id & i & Hb & (e & (Hi0 & Hg & <- & Ht) & Hc) & Hbk & Hi)]; [done|].
  by exists b, i, e.
Qed.

(** In a cluster a node that has just been elected is such a leader. *)
Lemma good_new_leader x d :
  node_good x -> state_delegate x = D_Leader d -> initialized d = false ->
  no_writes (shared_state x) -> new_leader x.
Proof. intros [] Hd Hi Hout. split; [by exists d|done..]. Qed.

(** *** Scripts of a leadership *)

Definition lead_apply (ev : event) x : option (StateMachineExecutorImpl B) :=
  if decide (typed_event ev /\ admits ev x = true) then
    let* x' := apply_event ev x in
    if decide (is_leader x' = true /\ vlen (node_log x') < 2 ^ 64 - 1) then Some x' else None
  else None.

Fixpoint lead_run (script : list event) x : option (StateMachineExecutorImpl B) :=
  match script with
  | [] => Some x
  | ev :: script => let* x := lead_apply ev x in lead_run script x
  end.

Lemma lead_run_leads x0 evs script x x' :
  leads x0 evs x -> lead_run script x = Some x' -> leads x0 (evs ++ script) x'.
Proof.
  revert evs x. induction script as [|ev script IH]; intros evs x Hl; cbn [lead_run].
  { intros [= <-]. by rewrite app_nil_r. }
  unfold lead_apply. case_decide as Hev; [|done]. destruct (apply_event ev x) as [x1|] eqn:Hx1; [|done].
  cbn [mbind option_bind]. case_decide as Hx; [|done]. cbn [mbind option_bind]. intros Hr.
  replace (evs ++ ev :: script) with ((evs ++ [ev]) ++ script) by by rewrite <- (assoc_L (++)).
  apply (IH _ x1); [|done]. destruct Hev, Hx. by eapply leads_event.
Qed.

End leadership.
