(* ===== verification/FirstLeadership.v ===== *)
(** * The first leadership of a node

    A node that has not led since it was started has no write batch and no entry of an
    election outstanding: only a leader registers them.  So its first leadership begins as
    [LeaderCommit.v] asks for.  A later one need not: the messages of the earlier leadership
    stay registered, see [late_ack_commits_other_entry]. *)
From stdpp Require Import strings.
From S2P Require Import Prelude Capnp RaftTypes Bus RaftSm LogModel.
From S2P Require Import Follower FollowerSpec Leader LeaderSpec Candidate Executor Safety NodeTypes NodeLog ClusterLog LeaderCommit.

Section unled.
Context {CP : Capnp} {B : Type} `{Bus B}.
Implicit Types s : SharedState B.
Implicit Types x : StateMachineExecutorImpl B.

(** What a node does until it leads. *)
Definition keeps s s' : Prop := no_writes s -> no_writes s'.

#[export] Instance keeps_preorder : PreOrder keeps.
Proof. split; [by intros s Hs|]. intros s1 s2 s3 H12 H23 H1. by apply H23, H12. Qed.

Lemma keeps_same s s' : outstanding_messages s' = outstanding_messages s -> keeps s s'.
Proof. unfold keeps, no_writes. by intros ->. Qed.

Lemma keeps_delete id s s' : outstanding_messages s' = delete id (outstanding_messages s) -> keeps s s'.
Proof. unfold keeps, no_writes. intros ->. apply map_Forall_delete. Qed.

(** A message a node registers when it does not lead. *)
Definition not_a_write (m : OutstandingMessage) : Prop :=
  match message_type m with OM_WriteBatch _ _ _ _ _ | OM_NoOp _ _ _ => False | _ => True end.

Lemma keeps_insert id m s s' :
  outstanding_messages s' = <[id := m]> (outstanding_messages s) -> not_a_write m -> keeps s s'.
Proof. unfold keeps, no_writes. intros -> Hm Hs. by apply map_Forall_insert_2. Qed.

Lemma keeps_callback cb p s : keeps s (callback_send_ok cb p s).
Proof. rewrite callback_send_ok_eq. by apply keeps_same. Qed.

Lemma keeps_callback_send cb p s s' : callback_send cb p s = Some s' -> keeps s s'.
Proof. intros ->%callback_send_Some. by apply keeps_same. Qed.

Lemma keeps_broadcast s s' : same_but_broadcast s s' -> keeps s s'.
Proof. intros (b & v & c & d & ->). by apply keeps_same. Qed.

Lemma keeps_update_commit n s : keeps s (update_commit_index n s).
Proof. unfold update_commit_index. etrans; [|apply keeps_broadcast, broadcast_committed_entries_frame]. by apply keeps_same. Qed.

Lemma keeps_retry s : keeps s (retry_deferred_broadcast s).2.
Proof. apply keeps_broadcast, retry_deferred_broadcast_frame. Qed.

Lemma keeps_observe t s : keeps s (observe_vote_term t s).
Proof. unfold observe_vote_term. by case_decide; apply keeps_same. Qed.

(** *** Follower *)

Lemma keeps_apply_log r cb s : keeps s (apply_log_entry r cb s).
Proof.
  unfold apply_log_entry. destruct (note_received_entry _ _) as [data s1] eqn:Hn.
  assert (keeps s s1) as H1.
  { apply keeps_same. unfold note_received_entry in Hn. destruct (a_entry r); [case_decide|]; by simplify_eq. }
  destruct (from_bytes data) as [e|]; [|etrans; [exact H1|apply keeps_callback]].
  destruct (persistence_send _ s1) as [s2|] eqn:Hp; [|etrans; [exact H1|apply keeps_callback]].
  apply persistence_send_Some in Hp as [_ ->]. etrans; [exact H1|].
  case_decide.
  - match goal with |- context [update_commit_index ?n ?y] => etrans; [|eapply (keeps_insert _ _ (update_commit_index n y)); [reflexivity|done]] end.
    etrans; [|apply keeps_update_commit]. by apply keeps_same.
  - by eapply keeps_insert.
Qed.

Lemma keeps_follower_append env r cb d s : keeps s (Follower.append_entries env r cb d s).2.
Proof.
  unfold Follower.append_entries, Follower.handle_new_leader, handle_heartbeat.
  case_decide; [|case_decide; [case_decide; [case_decide|]|]]; simpl.
  - match goal with |- context [apply_log_entry r cb ?y] => assert (keeps s y) as H1 by by apply keeps_same end.
    destruct (validate_append_entries _ _ _); [destruct (a_entry r)|]; simpl;
      (etrans; [exact H1|]); first [apply keeps_apply_log|apply keeps_callback].
  - apply keeps_callback.
  - case_decide; [|apply keeps_callback]. etrans; [apply keeps_update_commit|apply keeps_callback].
  - destruct (negb _); simpl; [apply keeps_callback|apply keeps_apply_log].
  - apply keeps_callback.
Qed.

Lemma keeps_follower_persistence q n s n' s' : Follower.process_persistence q n s = Some (n', s') -> keeps s s'.
Proof.
  revert n s. induction q as [|t q IH]; intros n s; simpl; [by intros [= <- <-]|].
  destruct (Follower.handle_persistence_response t _) as [s1|] eqn:Hs; [|done]. simpl. intros Heq%IH. etrans; [|exact Heq].
  clear Heq IH. destruct t as [i t c|i]; simpl in Hs.
  - unfold Follower.handle_vote_persisted in Hs. simpl in Hs. case_match; [|simplify_eq; by apply keeps_same].
    case_match; try (simplify_eq; by eapply keeps_delete). apply keeps_callback_send in Hs. etrans; [|exact Hs]. by eapply keeps_delete.
  - simplify_eq. unfold Follower.handle_log_persisted. simpl. case_match; [|by apply keeps_same].
    case_match; try by eapply keeps_delete. etrans; [|apply keeps_callback]. by eapply keeps_delete.
Qed.

Lemma keeps_truncate t i s : keeps s (truncate_log t i s).
Proof.
  unfold truncate_log, persistence_send, send. case_decide; [|done]. simpl. by destruct (chan_open _); apply keeps_same.
Qed.

Lemma keeps_follower_quorum q n s : keeps s (Follower.process_quorum q n s).2.
Proof.
  revert n s. induction q as [|t q IH]; intros n s; simpl; [done|]. etrans; [|apply IH].
  destruct t; simpl; try by apply keeps_same. etrans; [|by apply keeps_same]. etrans; [|apply keeps_truncate]. by apply keeps_same.
Qed.

Lemma keeps_follower_tick env d s sc w d' s' : Follower.time_step env d s = Some (sc, w, d', s') -> keeps s s'.
Proof.
  unfold Follower.time_step. destruct (Follower.process_persistence _ _ _) as [[n1 s1]|] eqn:H1; [|done].
  apply keeps_follower_persistence in H1. simpl. pose proof (keeps_follower_quorum (quorum_response s1) n1 s1) as H2.
  destruct (Follower.process_quorum _ _ _) as [n2 s2]. simpl in H2. pose proof (keeps_retry s2) as H3.
  destruct (retry_deferred_broadcast s2) as [n3 s3]. simpl in H3. intros Heq.
  assert (s' = s3) as -> by (destruct (check_timeout _ _); by simplify_eq). etrans; [exact H1|]. by etrans.
Qed.

Lemma keeps_follower_vote r cb d s sc d' s' : Follower.request_vote r cb d s = Some (sc, d', s') -> keeps s s'.
Proof.
  unfold Follower.request_vote. pose proof (keeps_observe (rv_term r) s) as Ho. destruct (negb _).
  - destruct (callback_send _ _ _) as [s1|] eqn:Hs; [|done]. intros [= <- <- <-]. etrans; [exact Ho|by eapply keeps_callback_send].
  - intros [= <- <- <-]. etrans; [exact Ho|]. by eapply keeps_insert.
Qed.

(** *** Candidate *)

Lemma keeps_candidate_append env r cb d s : keeps s (Candidate.append_entries env r cb d s).2.
Proof.
  unfold Candidate.append_entries. case_decide; [|apply keeps_callback].
  case_decide; simpl; (etrans; [|apply keeps_callback]); by apply keeps_same.
Qed.

Lemma keeps_candidate_vote r cb d s : keeps s (Candidate.request_vote r cb d s).2.
Proof.
  unfold Candidate.request_vote. pose proof (keeps_observe (rv_term r) s) as Ho. destruct (negb _).
  - etrans; [exact Ho|apply keeps_callback].
  - destruct (persistence_send _ _) as [s1|] eqn:Hp; (etrans; [exact Ho|]); [|apply keeps_callback].
    apply persistence_send_Some in Hp as [_ ->]. by eapply keeps_insert.
Qed.

Lemma keeps_candidate_persistence env q n s sc n' s' : Candidate.process_persistence env q n s = Some (sc, n', s') -> keeps s s'.
Proof.
  revert n s. induction q as [|t q IH]; intros n s; simpl; [by intros [= <- <- <-]|]. destruct t as [i t c|i].
  - assert (keeps s (Candidate.handle_vote_persisted env i t (s <| persistence_response := q |>)).2) as Hv.
    { unfold Candidate.handle_vote_persisted. simpl. case_match; [|by apply keeps_same].
      assert (keeps s ((s <| persistence_response := q |>) <| outstanding_messages ::= delete i |>)) as Hd by by eapply keeps_delete.
      case_match; simpl; try exact Hd; [etrans; [exact Hd|apply keeps_callback]|].
      case_decide; simpl; (etrans; [exact Hd|]); [by apply keeps_same|by eapply keeps_insert]. }
    destruct (Candidate.handle_vote_persisted _ _ _ _) as [[] s1]; [intros Heq%IH; by etrans|by intros [= <- <- <-]..].
  - destruct (Candidate.handle_log_persisted _ _) as [s1|] eqn:Hs; [|done]. intros Heq%IH. etrans; [|exact Heq]. clear Heq IH.
    unfold Candidate.handle_log_persisted in Hs. simpl in Hs. case_match; [|simplify_eq; by apply keeps_same].
    case_match; try (simplify_eq; by eapply keeps_delete). apply keeps_callback_send in Hs. etrans; [|exact Hs]. by eapply keeps_delete.
Qed.

Lemma keeps_candidate_quorum env q n s sc n' s' : Candidate.process_quorum env q n s = Some (sc, n', s') -> keeps s s'.
Proof.
  revert n s. induction q as [|t q IH]; intros n s; simpl; [by intros [= <- <- <-]|].
  destruct t; try (intros Heq%IH; etrans; [|exact Heq]; by apply keeps_same).
  destruct (handle_vote_response _ _ _ _ _) as [[sc1 s1]|] eqn:Hs; [|done]. simpl.
  assert (keeps s s1) as H1.
  { unfold handle_vote_response in Hs. simpl in Hs. case_match; [|simplify_eq; by apply keeps_same].
    assert (keeps s ((s <| quorum_response := q |>) <| outstanding_messages ::= delete id |>)) as Hd by by eapply keeps_delete.
    case_match; try (simplify_eq; exact Hd).
    1,3: destruct (callback_send _ _ _) as [s2|] eqn:Hc; [|done]; simpl in Hs; simplify_eq;
         etrans; [exact Hd|by eapply keeps_callback_send].
    case_decide; [injection Hs as <- <-; etrans; [exact Hd|by apply keeps_same]|].
    case_decide; injection Hs as <- <-; [|exact Hd]. etrans; [exact Hd|by eapply keeps_insert]. }
  destruct sc1; [intros Heq%IH; by etrans|by intros [= <- <- <-]..].
Qed.

Lemma keeps_election env now d s : keeps s (start_election env now d s).2.
Proof.
  unfold start_election. simpl.
  match goal with |- context [persistence_send ?t ?x] => destruct (persistence_send t x) as [s1|] eqn:Hs end; simpl.
  - apply persistence_send_Some in Hs as [_ ->]. by eapply keeps_insert.
  - by eapply keeps_insert.
Qed.

Lemma keeps_candidate_tick env d s sc w d' s' : Candidate.time_step env d s = Some (sc, w, d', s') -> keeps s s'.
Proof.
  unfold Candidate.time_step. destruct (Candidate.process_persistence _ _ _ _) as [[[sc1 n1] s1]|] eqn:H1; [|done].
  apply keeps_candidate_persistence in H1. cbn [mbind option_bind]. destruct sc1; [|by intros [= <- <- <- <-]..].
  destruct (Candidate.process_quorum _ _ _ _) as [[[sc2 n2] s2]|] eqn:H2; [|done].
  apply keeps_candidate_quorum in H2. cbn [mbind option_bind]. assert (keeps s s2) as H12 by by etrans.
  destruct sc2; [|by intros [= <- <- <- <-]..]. destruct (timeout_expired _ _).
  - pose proof (keeps_election env (clock env 0%nat) d s2) as H3. destruct (start_election _ _ _ _) as [d1 s3].
    pose proof (keeps_retry s3) as H4. destruct (retry_deferred_broadcast s3). intros [= <- <- <- <-].
    etrans; [exact H12|]. by etrans.
  - pose proof (keeps_retry s2) as H4. destruct (retry_deferred_broadcast s2). intros [= <- <- <- <-]. by etrans.
Qed.

(** ** Steps of a node that does not lead *)

Lemma unled_step x x' : is_leader x = false -> step x x' -> keeps (shared_state x) (shared_state x').
Proof.
  unfold is_leader. intros Hx Hs. destruct Hs as [env x w x' Ht|env m x x' _ Ha|r d s _|r d s _|c n d s _|qs d s _|cb d s];
    [| |by apply keeps_same..].
  - unfold time_step, delegate_time_step in Ht. destruct x as [[d|d|d] s]; simpl in *; [| |done].
    + destruct (Follower.time_step _ _ _) as [[[[sc n] d'] s']|] eqn:Hf; simplify_eq/=. by eapply keeps_follower_tick.
    + destruct (Candidate.time_step _ _ _) as [[[[sc n] d'] s']|] eqn:Hf; simplify_eq/=. by eapply keeps_candidate_tick.
  - unfold accept, delegate_accept in Ha. destruct x as [[d|d|d] s], (lrm_payload m) as [r|r| |batch]; simpl in *;
      try done; try (simplify_eq; apply keeps_callback);
      try (destruct (write_batch_response _); simplify_eq/=; apply keeps_callback).
    + destruct (Follower.request_vote _ _ _ _) as [[[sc d'] s']|] eqn:Hr; simplify_eq/=. by eapply keeps_follower_vote.
    + pose proof (keeps_follower_append env r (lrm_callback m) d s) as Hk.
      destruct (Follower.append_entries _ _ _ _ _) as [[sc d'] s']. by simplify_eq.
    + pose proof (keeps_candidate_vote r (lrm_callback m) d s) as Hk.
      destruct (Candidate.request_vote _ _ _ _) as [[sc d'] s']. by simplify_eq.
    + pose proof (keeps_candidate_append env r (lrm_callback m) d s) as Hk.
      destruct (Candidate.append_entries _ _ _ _ _) as [[sc d'] s']. by simplify_eq.
Qed.

(** A node has not led on its way from [x] to [x']. *)
Definition unled x x' : Prop := rtc (fun y y' => is_leader y = false /\ step y y') x x'.

Lemma unled_no_writes x x' : no_writes (shared_state x) -> unled x x' -> no_writes (shared_state x').
Proof. intros Hx Hr. induction Hr as [|y y1 y2 [Hy Hs] _ IH]; [done|]. apply IH. by eapply unled_step. Qed.

(** A node that leads for the first time since it was started without outstanding messages
    begins its leadership with none of an earlier one.  What remains to be asked for is that
    the cursors are at the end of its log and the numbers have room. *)
Theorem first_leadership_is_new x0 x d :
  outstanding_messages (shared_state x0) = ∅ -> unled x0 x ->
  state_delegate x = D_Leader d -> initialized d = false ->
  words_ok (shared_state x) -> tail_wf (volatile_server_state (shared_state x)) ->
  chan_open (persistence_work (shared_state x)) = true -> vlen (replication_log (volatile_server_state (shared_state x))) < 2 ^ 64 - 1 -> new_leader x.
Proof.
  intros H0 Hr Hd Hi Hw Ht Ho Hl. split; try done; [by exists d|]. eapply unled_no_writes; [|exact Hr].
  unfold no_writes. rewrite H0. apply map_Forall_empty.
Qed.

End unled.
