(* ===== verification/LeaderTasks.v ===== *)
(** * The tasks of a leader

    What a leader appends to its log it gives to its persistence worker, and what it gives to
    its quorum workers are entries of its log, to be sent under their own message ids. *)
From stdpp Require Import strings.
From S2P Require Import Prelude Capnp CapnpInstance RaftTypes Bus Samples Persistence PersistenceSpec RaftSm LogModel.
From S2P Require Import Follower FollowerSpec Leader LeaderSpec Candidate Executor Safety NodeTypes NodeLog ClusterLog.
From S2P Require Import LeaderCommit.

(** ** What a leader appends, it gives to its worker *)

Section grown.
Context {CP : Capnp} {CL : CapnpLaws} {B : Type} `{Bus B}.
Implicit Types s : SharedState B.

Abbreviation log s := (replication_log (volatile_server_state s)).

(** The ids a handler may use for a new entry: the heartbeats of a new leader take the first. *)
Definition next_id s (id : Z) : Prop := id = next_message_id s \/ id = next_message_id s +! 1.

(** The log is the same, or has one more entry, and the task to write it is queued. *)
Definition grown s s' : Prop :=
  log s' = log s \/
  exists e rid, log s' = log s ++ [e] /\ next_id s (message_id e) /\
    PT_AppendLog (message_id e) (as_bytes e) rid ∈ chan_queue (persistence_work s').

Lemma grown_same s s' : log s' = log s -> grown s s'.
Proof. by left. Qed.

Lemma grown_queued e s0 s1 s s' :
  log s0 = log s -> next_id s (message_id e) -> queue_persistence_task (message_id e) e (push_entry e s0) = Some s1 ->
  log s' = log s1 -> persistence_work s' = persistence_work s1 -> grown s s'.
Proof.
  intros Hl0 Hid Hq Hl Hw. right. exists e, (message_id e). destruct (push_entry_spec e s0) as [starts Hp]. rewrite Hp in Hq.
  apply persistence_send_Some in Hq as [_ ->]. rewrite Hl, Hw. simpl. rewrite Hl0. split_and!; [done..|]. set_solver.
Qed.

Lemma grown_write_batch env b cb s s' :
  words_ok s -> chan_open (persistence_work s) = true -> write_batch env b cb s = Some s' -> grown s s'.
Proof.
  intros Hok Hopen Heq. unfold write_batch in Heq. set (s0 := s <| next_message_id ::= fun n => n +! 1 |>) in *.
  assert (Hok0 : words_ok s0) by (revert Hok; unfold s0; words).
  destruct (validate_write_batch b) as [err|].
  { rewrite send_error_response_ok in Heq. injection Heq as <-. by apply grown_same. }
  destruct (create_and_append_log_entry _ _ _ _ _) as [[e s1]|] eqn:Hc; [|done]. cbn [mbind option_bind] in Heq.
  destruct (created_batch_fields _ _ _ _ _ _ _ Hok0 (ok_next_log_index _ Hok) (ok_next_message_id _ Hok) Hc)
    as (-> & _ & Hid & _). destruct (queue_persistence_task _ _ _) as [s1|] eqn:Hq.
  - injection Heq as <-. rewrite <- Hid in Hq at 1. by eapply (grown_queued e s0 s1 s); [done|left|..].
  - destruct (push_entry_spec e s0) as [starts Hp]. unfold queue_persistence_task in Hq.
    by rewrite Hp, persistence_send_open in Hq.
Qed.

Lemma grown_initialize env s s' :
  words_ok s -> chan_open (persistence_work s) = true -> vlen (log s) < 2 ^ 64 ->
  initialize_leadership env s = Some s' -> grown s s'.
Proof.
  unfold initialize_leadership. intros Hok Hopen Hlen Heq. pose proof (vlen_nonneg (log s)) as Hpos.
  set (idx := vlen _) in *. set (s1 := push_all_quorum _ _) in *.
  assert (Hok1 : words_ok s1) by (revert Hok; unfold s1; words; done). set (s2 := if decide _ then _ else _) in *.
  assert (Hs2 : same_but_broadcast s1 s2).
  { unfold s2. case_decide; [apply broadcast_committed_entries_frame|reflexivity]. }
  pose proof (typed_broadcast _ _ Hs2 Hok1) as Hok2. set (s3 := s2 <| next_message_id ::= fun n => n +! 1 |>) in *.
  assert (Hok3 : words_ok s3) by (revert Hok2; unfold s3; words).
  assert (H3 : log s3 = log s /\ chan_open (persistence_work s3) = true /\
    next_log_index (volatile_server_state s2) = idx /\ next_message_id s2 = next_message_id s +! 1).
  { unfold s3. destruct Hs2 as (? & ? & ? & ? & ->). done. }
  destruct H3 as (Hl & Hopen3 & Hnl & Hni). rewrite Hnl in Heq.
  destruct (create_and_append_noop_entry _ _ _ _) as [[e s4]|] eqn:Hc; [|done].
  destruct (created_noop_fields _ idx _ _ _ _ Hok3 ltac:(done) (ok_next_message_id _ Hok2) Hc) as (-> & _ & Hid).
  cbn [mbind option_bind] in Heq. destruct (queue_persistence_task _ _ _) as [s4|] eqn:Hq; cbn [default] in Heq.
  - injection Heq as <-. rewrite <- Hid in Hq at 1. eapply (grown_queued e s3 s4 s); [done|right; congruence|exact Hq|done|done].
  - destruct (push_entry_spec e s3) as [starts Hp]. unfold queue_persistence_task in Hq.
    by rewrite Hp, persistence_send_open in Hq.
Qed.

Lemma grown_quiet s s1 s' : grown s s1 -> quiet s1 s' -> grown s s'.
Proof.
  intros [Hl|(e & rid & Hl & Hid & Hin)] [(_ & Hl' & _ & Hw & _) _]; [by left; congruence|right].
  exists e, rid. by rewrite Hl', Hw.
Qed.

Lemma grown_time_step env d s sc n d' s' :
  words_ok s -> chan_open (persistence_work s) = true -> vlen (log s) < 2 ^ 64 ->
  Leader.time_step env d s = Some (sc, n, d', s') -> grown s s'.
Proof.
  intros Hok Hopen Hlen. unfold Leader.time_step.
  destruct (if negb (initialized d) then _ else _) as [[[w d1] s1]|] eqn:H1; [|done]. cbn [mbind option_bind].
  destruct (process_persistence_responses _ _ _) as [[c s2]|] eqn:H2; [|done]. cbn [mbind option_bind].
  destruct (process_quorum_responses _ _ _ _) as [[[bs w3] s3]|] eqn:H3; [|done]. cbn [mbind option_bind].
  destruct (handle_backfill_requests _ _) as [s4|] eqn:H4; [|done]. cbn [mbind option_bind].
  pose proof (quiet_retry_deferred s4) as H5. destruct (retry_deferred_broadcast s4) as [w5 s5]. intros [= <- <- <- <-].
  apply quiet_leader_persistence in H2. apply quiet_leader_quorum in H3. apply quiet_backfills in H4.
  apply (grown_quiet s s1); [|etrans; [exact H2|]; etrans; [exact H3|]; by etrans].
  destruct (initialized d); simpl in H1; [by simplify_eq; left|].
  destruct (initialize_leadership env s) as [s0|] eqn:Hi; [|done]. injection H1 as <- <- <-. by eapply grown_initialize.
Qed.

End grown.

(** ** What a leader sends, it sends under the id of the entry *)

Section labels.
Context {CP : Capnp} {CL : CapnpLaws} {B : Type} `{Bus B}.
Implicit Types s : SharedState B.

Definition labelled (t : LocalQuorumWorkerTaskType) : Prop :=
  match t with QT_AppendEntries id e _ => id = message_id e | _ => True end.

(** The tasks a handler adds are labelled. *)
Definition labels s s' : Prop :=
  forall ts t, ts ∈ quorum_worker_tasks s' -> t ∈ ts ->
    labelled t \/ exists ts0, ts0 ∈ quorum_worker_tasks s /\ t ∈ ts0.

#[export] Instance labels_preorder : PreOrder labels.
Proof.
  split; [intros s ts t Hts Ht; right; by exists ts|].
  intros s1 s2 s3 H12 H23 ts t Hts Ht. destruct (H23 ts t Hts Ht) as [?|(ts2 & Hts2 & Ht2)]; [by left|by eapply H12].
Qed.

Lemma labels_same s s' : quorum_worker_tasks s' = quorum_worker_tasks s -> labels s s'.
Proof. intros Hq ts t Hts Ht. rewrite Hq in Hts. right. by exists ts. Qed.

Lemma labels_broadcast s s' : same_but_broadcast s s' -> labels s s'.
Proof. intros (b & w & c & d & ->). by apply labels_same. Qed.

Lemma labels_push_all t s : labelled t -> labels s (push_all_quorum t s).
Proof.
  intros Hl ts t' Hts Ht. simpl in Hts. apply list_elem_of_fmap in Hts as (ts0 & -> & Hts0).
  apply elem_of_app in Ht as [Ht|Ht]; [right; by exists ts0|left]. by apply list_elem_of_singleton in Ht as ->.
Qed.

Lemma labels_push i t s : labelled t -> labels s (push_quorum i t s).
Proof.
  intros Hl ts t' Hts Ht. simpl in Hts. apply list_elem_of_lookup in Hts as [j Hj]. destruct (decide (i = j)) as [->|Hne].
  - rewrite list_lookup_alter_eq in Hj. destruct (quorum_worker_tasks s !! j) as [ts0|] eqn:Hq; simplify_eq/=.
    apply elem_of_app in Ht as [Ht|Ht]; [right; exists ts0; split; [by eapply list_elem_of_lookup_2|done]|left].
    by apply list_elem_of_singleton in Ht as ->.
  - rewrite list_lookup_alter_ne in Hj by done. right. exists ts. split; [by eapply list_elem_of_lookup_2|done].
Qed.

Lemma labels_callback cb p s : labels s (callback_send_ok cb p s).
Proof. apply labels_same. by rewrite callback_send_ok_eq. Qed.

Lemma labels_advance index s : labels s (advance_commit_index index s).
Proof.
  unfold advance_commit_index. case_decide; [|done].
  match goal with |- context [broadcast_committed_entries ?i ?x] =>
    destruct (broadcast_committed_entries_frame i x) as (b & w & c & d & ->) end.
  etrans; [|by apply labels_push_all]. by apply labels_same.
Qed.

Lemma labels_complete index cb s s' : complete_write_batch index cb s = Some s' -> labels s s'.
Proof.
  unfold complete_write_batch. rewrite write_batch_response_ok. intros [= <-].
  etrans; [apply labels_advance|apply labels_callback].
Qed.

Lemma labels_log_persisted id s s' : Leader.handle_log_persisted id s = Some s' -> labels s s'.
Proof.
  unfold Leader.handle_log_persisted, complete_noop. destruct (outstanding_messages s !! id) as [m|]; [|by intros [= <-]].
  set (s1 := s <| outstanding_messages ::= delete id |>). assert (H1 : labels s s1) by by apply labels_same.
  destruct (message_type m); try by intros [= <-].
  - intros [= <-]. etrans; [exact H1|apply labels_callback].
  - case_decide; [intros Hs; etrans; [exact H1|by eapply labels_complete]|intros [= <-]; by apply labels_same].
  - case_decide; intros [= <-]; [etrans; [exact H1|apply labels_advance]|by apply labels_same].
Qed.

Lemma labels_append_response id s s' : handle_append_entries_response id s = Some s' -> labels s s'.
Proof.
  unfold handle_append_entries_response, complete_noop. destruct (outstanding_messages s !! id) as [m|]; [|by intros [= <-]].
  set (s1 := s <| outstanding_messages ::= delete id |>). assert (H1 : labels s s1) by by apply labels_same.
  destruct (message_type m); try by intros [= <-].
  - case_decide; [intros Hs; etrans; [exact H1|by eapply labels_complete]|].
    case_decide; intros [= <-]; by apply labels_same.
  - case_decide; [intros [= <-]; etrans; [exact H1|apply labels_advance]|]. case_decide; intros [= <-]; by apply labels_same.
Qed.

Lemma labels_persistence q n s n' s' : process_persistence_responses q n s = Some (n', s') -> labels s s'.
Proof.
  revert n s. induction q as [|t q IH]; intros n s; simpl; intros Heq; [by simplify_eq|].
  destruct (Leader.handle_persistence_response t _) as [s1|] eqn:Hs1; [|done]. simpl in Heq. apply IH in Heq.
  etrans; [|exact Heq]. apply (transitivity (y := s <| persistence_response := q |>)); [by apply labels_same|].
  destruct t as [id|id]; simpl in Hs1; [|by eapply labels_log_persisted]. simplify_eq.
  unfold Leader.handle_vote_persisted. case_match; [|done]. case_match; try by apply labels_same.
  apply (transitivity (y := s <| persistence_response := q |> <| outstanding_messages ::= delete id |>)); [by apply labels_same|].
  apply labels_callback.
Qed.

Lemma labels_quorum q bs n s bs' n' s' : process_quorum_responses q bs n s = Some (bs', n', s') -> labels s s'.
Proof.
  revert bs n s. induction q as [|t q IH]; intros bs n s; simpl; intros Heq; [by simplify_eq|].
  destruct t; try by (apply IH in Heq; etrans; [|exact Heq]; apply labels_same).
  destruct (handle_append_entries_response _ _) as [s1|] eqn:Hs1; [|done]. simpl in Heq. apply IH in Heq.
  etrans; [|exact Heq]. apply labels_append_response in Hs1. etrans; [|exact Hs1]. by apply labels_same.
Qed.

Lemma labels_backfills rs s s' : handle_backfill_requests rs s = Some s' -> labels s s'.
Proof.
  revert s. induction rs as [|[[node t] i] rs IH]; intros s; cbn [handle_backfill_requests]; intros Heq; [by simplify_eq|].
  destruct (handle_backfill_request node t i s) as [s1|] eqn:Hs1; [|done]. cbn [mbind option_bind] in Heq.
  etrans; [|by apply IH]. clear Heq.
  assert (Hsig : forall n' t' i', labels s (send_truncate_signal n' t' i' s)).
  { intros n' t' i'. unfold send_truncate_signal. case_match; [|done]. etrans; [|by apply labels_push]. by apply labels_same. }
  assert (Hdata : forall n' t' i' s2, send_backfill_data n' t' i' s = Some s2 -> labels s s2).
  { intros n' t' i' s2. unfold send_backfill_data. destruct (clone_subset _ _ _); cbn [mbind option_bind]; [|done].
    case_match; intros ?; simplify_eq; [by apply labels_push|done]. }
  unfold handle_backfill_request, handle_follower_ahead, handle_term_mismatch in Hs1.
  repeat (case_match || case_decide || simplify_eq); first [apply Hsig | by eapply Hdata].
Qed.

Lemma labels_write_batch env b cb s s' :
  words_ok s -> chan_open (persistence_work s) = true -> write_batch env b cb s = Some s' -> labels s s'.
Proof.
  intros Hok Hopen Heq. unfold write_batch in Heq. set (s0 := s <| next_message_id ::= fun n => n +! 1 |>) in *.
  assert (Hok0 : words_ok s0) by (revert Hok; unfold s0; words).
  destruct (validate_write_batch b) as [err|].
  { rewrite send_error_response_ok in Heq. injection Heq as <-. by apply labels_same. }
  destruct (create_and_append_log_entry _ _ _ _ _) as [[e s1]|] eqn:Hc; [|done]. cbn [mbind option_bind] in Heq.
  destruct (created_batch_fields _ _ _ _ _ _ _ Hok0 (ok_next_log_index _ Hok) (ok_next_message_id _ Hok) Hc)
    as (-> & _ & Hid & _). destruct (push_entry_spec e s0) as [starts Hp]. rewrite Hp in Heq.
  unfold queue_persistence_task in Heq. rewrite persistence_send_open in Heq by done. injection Heq as <-.
  unfold dispatch_to_quorum. match goal with |- context [push_all_quorum ?t ?x] => apply (transitivity (y := push_all_quorum t x)) end.
  - etrans; [|by apply labels_push_all]. by apply labels_same.
  - by apply labels_same.
Qed.

Lemma labels_initialize env s s' :
  words_ok s -> chan_open (persistence_work s) = true -> vlen (replication_log (volatile_server_state s)) < 2 ^ 64 ->
  initialize_leadership env s = Some s' -> labels s s'.
Proof.
  unfold initialize_leadership. intros Hok Hopen Hlen Heq. pose proof (vlen_nonneg (replication_log (volatile_server_state s))) as Hpos.
  set (idx := vlen _) in *. set (s1 := push_all_quorum _ _) in *.
  assert (H1 : labels s s1) by (etrans; [|by apply labels_push_all]; by apply labels_same).
  assert (Hok1 : words_ok s1) by (revert Hok; unfold s1; words; done). set (s2 := if decide _ then _ else _) in *.
  assert (Hs2 : same_but_broadcast s1 s2).
  { unfold s2. case_decide; [apply broadcast_committed_entries_frame|reflexivity]. }
  pose proof (typed_broadcast _ _ Hs2 Hok1) as Hok2. set (s3 := s2 <| next_message_id ::= fun n => n +! 1 |>) in *.
  assert (Hok3 : words_ok s3) by (revert Hok2; unfold s3; words).
  assert (H3 : labels s s3) by (etrans; [exact H1|]; etrans; [by apply labels_broadcast|]; by apply labels_same).
  assert (Ho : chan_open (persistence_work s3) = true /\ next_log_index (volatile_server_state s2) = idx).
  { unfold s3. destruct Hs2 as (? & ? & ? & ? & ->). done. }
  destruct Ho as (Hopen3 & Hnl). rewrite Hnl in Heq.
  destruct (create_and_append_noop_entry _ _ _ _) as [[e s4]|] eqn:Hc; [|done].
  destruct (created_noop_fields _ idx _ _ _ _ Hok3 ltac:(done) (ok_next_message_id _ Hok2) Hc) as (-> & _ & Hid).
  cbn [mbind option_bind] in Heq. destruct (push_entry_spec e s3) as [starts Hp]. rewrite Hp in Heq.
  unfold queue_persistence_task in Heq. rewrite persistence_send_open in Heq by done. injection Heq as <-.
  etrans; [exact H3|]. unfold dispatch_to_quorum.
  match goal with |- context [push_all_quorum ?t ?x] => apply (transitivity (y := push_all_quorum t x)) end.
  - etrans; [|by apply labels_push_all]. by apply labels_same.
  - by apply labels_same.
Qed.

Lemma labels_time_step env d s sc n d' s' :
  words_ok s -> chan_open (persistence_work s) = true -> vlen (replication_log (volatile_server_state s)) < 2 ^ 64 ->
  Leader.time_step env d s = Some (sc, n, d', s') -> labels s s'.
Proof.
  intros Hok Hopen Hlen. unfold Leader.time_step.
  destruct (if negb (initialized d) then _ else _) as [[[w d1] s1]|] eqn:H1; [|done]. cbn [mbind option_bind].
  destruct (process_persistence_responses _ _ _) as [[c s2]|] eqn:H2; [|done]. cbn [mbind option_bind].
  destruct (process_quorum_responses _ _ _ _) as [[[bs w3] s3]|] eqn:H3; [|done]. cbn [mbind option_bind].
  destruct (handle_backfill_requests _ _) as [s4|] eqn:H4; [|done]. cbn [mbind option_bind].
  pose proof (retry_deferred_broadcast_frame s4) as H5. destruct (retry_deferred_broadcast s4) as [w5 s5]. intros [= <- <- <- <-].
  apply (transitivity (y := s1)).
  - destruct (initialized d); simpl in H1; [by simplify_eq|].
    destruct (initialize_leadership env s) as [s0|] eqn:Hi; [|done]. injection H1 as <- <- <-. by eapply labels_initialize.
  - etrans; [by eapply labels_persistence|]. etrans; [by eapply labels_quorum|].
    etrans; [by eapply labels_backfills|]. by apply labels_broadcast.
Qed.

Lemma labels_request_vote r cb d s : labels s (Leader.request_vote r cb d s).2.
Proof.
  assert (Ho : labels s (observe_vote_term (rv_term r) s)) by (unfold observe_vote_term; case_decide; [by apply labels_same|done]).
  unfold Leader.request_vote. destruct (negb _); cbn [snd]; [etrans; [exact Ho|apply labels_callback]|].
  destruct (persistence_send _ _) as [s2|] eqn:Hs; cbn [snd]; [|etrans; [exact Ho|apply labels_callback]].
  apply persistence_send_Some in Hs as [_ ->]. etrans; [exact Ho|]. by apply labels_same.
Qed.

End labels.
