(* ===== verification/LeaderDisk.v ===== *)
(** * What a committed entry of a leader stands on, on its own disk

    [LeaderCommit.v] compares a leader with what it is told, [NodeAcks.v] follows what a node
    writes.  Here the two run together: a node that was started, elected, and leads on, its
    state machine and its persistence worker in any interleaving.  The reports the leader
    counts are now those of its own worker, so an entry it has committed is in its log file. *)
From stdpp Require Import strings.
From S2P Require Import Prelude Capnp CapnpInstance RaftTypes Bus Samples Persistence PersistenceSpec RaftSm LogModel.
From S2P Require Import Follower FollowerSpec Leader LeaderSpec Candidate Executor Safety NodeTypes NodeLog ClusterLog.
From S2P Require Import Startup StartupSpec NodeDurability NodeAcks LeaderCommit LeaderTasks.

(** ** A leadership, with the worker *)

Section reigns.
Context {CP : Capnp} {CSV : Csv} {B : Type} `{Bus B}.
Implicit Types x : StateMachineExecutorImpl B.
Implicit Types w : PersistenceWorker.
Implicit Types s : SharedState B.
Implicit Types h : History (B := B).

Abbreviation node_log x := (replication_log (volatile_server_state (shared_state x))).

(** The steps of [history_step] with the events of [leads]: the node stays leader, and the
    reports it receives are those its own worker makes. *)
Inductive reign_step : list event -> History -> History -> Prop :=
| reign_time env x n x' w asked files :
    next_message_id (shared_state x) + tick_ids x < 2 ^ 64 -> Executor.time_step env x = Some (n, x') ->
    is_leader x' = true -> vlen (node_log x') < 2 ^ 64 - 1 ->
    reign_step [Ev_Tick env] (mkHistory x w asked files) (mkHistory x' w asked files)
| reign_message env m x x' w asked files :
    typed_message m -> built_message m -> next_message_id (shared_state x) + 1 < 2 ^ 64 -> ready m x = true ->
    accept env m x = Some x' -> is_leader x' = true -> vlen (node_log x') < 2 ^ 64 - 1 ->
    reign_step [Ev_Message env m] (mkHistory x w asked files) (mkHistory x' w (asked ++ asks x m) files)
| reign_quorum r d s w asked files :
    typed_quorum r ->
    reign_step [Ev_Quorum r] (mkHistory (mkStateMachineExecutorImpl d s) w asked files)
      (mkHistory (mkStateMachineExecutorImpl d (s <| quorum_response ::= fun q => q ++ [r] |>)) w asked files)
| reign_quorum_tasks d s i n w asked files :
    reign_step [] (mkHistory (mkStateMachineExecutorImpl d s) w asked files)
      (mkHistory (mkStateMachineExecutorImpl d (s <| quorum_worker_tasks ::= alter (drop n) i |>)) w asked files)
| reign_callback_dropped d s cb w asked files :
    reign_step [] (mkHistory (mkStateMachineExecutorImpl d s) w asked files)
      (mkHistory (mkStateMachineExecutorImpl d (s <| callbacks ; cb_dropped ::= fun c => {[cb]} ∪ c |>)) w asked files)
| reign_task d s t q w w' asked files :
    persistence_work s = mkSender true (t :: q) -> file_size w + task_bytes t < 2 ^ 64 ->
    process_task t BATCH_SIZE w = Some w' ->
    let n := deliver_responses d (s <| persistence_work := mkSender true q |>) w' in
    reign_step (Ev_Persisted <$> response_queue w') (mkHistory (mkStateMachineExecutorImpl d s) w asked files)
      (mkHistory n.1 n.2 asked (files ++ task_files t w w'))
| reign_flush d s w asked files :
    let n := deliver_responses d s (flush_pending_logs w) in
    reign_step (Ev_Persisted <$> response_queue (flush_pending_logs w)) (mkHistory (mkStateMachineExecutorImpl d s) w asked files)
      (mkHistory n.1 n.2 asked (files ++ [file_of n.2])).

(** A leadership from [h0] on; [evs] is what the leader has received. *)
Inductive reigns h0 : list event -> History -> Prop :=
| reigns_start : reigns h0 [] h0
| reigns_step evs new h h' : reigns h0 evs h -> reign_step new h h' -> reigns h0 (evs ++ new) h'.

End reigns.

Section invariant.
Context {CP : Capnp} {CL : CapnpLaws} {CSV : Csv} {CSVL : CsvLaws} {B : Type} `{Bus B}.
Implicit Types x : StateMachineExecutorImpl B.
Implicit Types w : PersistenceWorker.
Implicit Types s : SharedState B.
Implicit Types h : History (B := B).
Implicit Types T : gmap Z Data.

Abbreviation node_log x := (replication_log (volatile_server_state (shared_state x))).
Abbreviation commit x := (commit_index (volatile_server_state (shared_state x))).
Abbreviation sent x := (cb_sent (callbacks (shared_state x))).

(** The entries since the election are in the ledger, and the reports stand on the file. *)
Record backing T x0 evs h : Prop := {
  bk_leads : leads x0 evs (h_node h);
  bk_history : history_at T h;
  bk_entries : forall i e, vlen (node_log x0) <= i -> vget (node_log (h_node h)) i = Some e ->
    T !! message_id e = Some (as_bytes e);
  bk_reports : forall id, PR_LogPersisted id ∈ told_reports (told_of x0 evs) ->
    exists data, T !! id = Some data /\ written (h_files h) data
}.

Lemma leads_reports x0 evs d s rs :
  leads x0 evs (mkStateMachineExecutorImpl (D_Leader d) s) -> Forall typed_persistence rs -> vlen (replication_log (volatile_server_state s)) < 2 ^ 64 - 1 ->
  leads x0 (evs ++ (Ev_Persisted <$> rs))
    (mkStateMachineExecutorImpl (D_Leader d) (s <| persistence_response ::= fun q => q ++ rs |>)).
Proof.
  revert evs s. induction rs as [|r rs IH]; intros evs s Hl Ht Hlen.
  - rewrite fmap_nil, app_nil_r. destruct s. cbn. by rewrite app_nil_r.
  - inversion Ht as [|? ? Hr Hrs]; subst. rewrite fmap_cons.
    replace (evs ++ Ev_Persisted r :: (Ev_Persisted <$> rs)) with ((evs ++ [Ev_Persisted r]) ++ (Ev_Persisted <$> rs))
      by by rewrite <- (assoc_L (++)).
    assert (Hs : s <| persistence_response ::= fun q => q ++ r :: rs |> =
      s <| persistence_response ::= fun q => q ++ [r] |> <| persistence_response ::= fun q => q ++ rs |>).
    { destruct s. cbn. by rewrite <- (assoc_L (++)). }
    rewrite Hs. apply IH; [|done..]. by eapply leads_event.
Qed.

Lemma told_reports_snoc x0 evs evs' :
  told_reports (told_of x0 (evs ++ evs')) = told_reports (told_of x0 evs) ++ reports_of evs'.
Proof. unfold told_of, reports_of. simpl. by rewrite omap_app, (assoc_L (++)). Qed.

Lemma reports_of_reports rs : reports_of (Ev_Persisted <$> rs) = rs.
Proof. induction rs as [|r rs IH]; [done|]. exact (f_equal (cons r) IH). Qed.

Lemma backing_step T x0 evs new evs' h h' :
  evs' = evs ++ new -> backing T x0 evs h -> leads x0 evs' (h_node h') -> history_step h h' ->
  grown (shared_state (h_node h)) (shared_state (h_node h')) -> h_files h ⊆ h_files h' ->
  reports_of new ⊆ persistence_response (shared_state (h_node h')) -> exists T', T ⊆ T' /\ backing T' x0 evs' h'.
Proof.
  intros -> [_ Hh He Hr] Hl Hs Hg Hf Hnew. destruct (history_step_at _ _ _ Hh Hs) as (_ & T' & HT & Hh'). exists T'. split; [done|].
  pose proof (hi_ledger _ _ Hh') as (_ & _ & _ & _ & Hled). split; [done|done| |].
  - intros i e Hi Hget. destruct Hg as [Hsame|(e' & rid & Hlog & _ & Hin)].
    + rewrite Hsame in Hget. eapply lookup_weaken; [by apply (He i)|done].
    + rewrite Hlog in Hget. apply vget_snoc_Some in Hget as [Hget|[-> ->]]; [|by eapply led_queue].
      eapply lookup_weaken; [by apply (He i)|done].
  - intros id. rewrite told_reports_snoc, elem_of_app. intros [Hin|Hin%Hnew]; [|by apply (led_reports _ _ _ _ Hled)].
    destruct (Hr id Hin) as (data & Hd & Hw). exists data. split; [by eapply lookup_weaken|by eapply written_more].
Qed.

Lemma backing_leader T x0 evs x w asked files :
  new_leader x0 -> backing T x0 evs (mkHistory x w asked files) ->
  leads x0 evs x /\ exists d s, x = mkStateMachineExecutorImpl (D_Leader d) s /\ lead_shape d s.
Proof.
  intros Hn [Hl _ _ _]. simpl in Hl. split; [done|]. destruct (leads_inv _ _ _ Hn Hl) as (d & Hd & Hsh & _).
  destruct x as [dx s]. simpl in *. subst dx. by exists d, s.
Qed.

Lemma grown_accept env d s m x' :
  words_ok s -> chan_open (persistence_work s) = true ->
  accept env m (mkStateMachineExecutorImpl (D_Leader d) s) = Some x' -> is_leader x' = true -> grown s (shared_state x').
Proof.
  intros Hok Hopen. destruct m as [[r|r| |b] cb]; unfold accept, delegate_accept; simpl.
  - pose proof (calm_leader_request_vote r cb d s) as Hc. destruct (Leader.request_vote r cb d s) as [[sc d1] s1].
    destruct Hc as ((Hc & _) & _). by intros [= <-] _; left.
  - unfold Leader.append_entries. case_decide.
    { destruct (Leader.handle_new_leader _ _ _ _) as [sc s1] eqn:Hn. injection Hn as <- <-. by intros [= <-] ?. }
    intros [= <-] _. apply grown_same. by rewrite callback_send_ok_eq.
  - intros [= <-] _. apply grown_same. by rewrite callback_send_ok_eq.
  - destruct (write_batch env b cb s) as [s1|] eqn:Hwb; [|done]. simpl. intros [= <-] _. by eapply grown_write_batch.
Qed.

Lemma history_other_eq d s s' w asked files :
  s' = s <| quorum_response := quorum_response s' |> <| quorum_worker_tasks := quorum_worker_tasks s' |>
         <| callbacks ; cb_dropped := cb_dropped (callbacks s') |> ->
  Forall typed_quorum (quorum_response s') ->
  history_step (mkHistory (mkStateMachineExecutorImpl d s) w asked files) (mkHistory (mkStateMachineExecutorImpl d s') w asked files).
Proof. intros Hs Hq. rewrite Hs. by apply History_other. Qed.

(** The tasks a step adds carry entries of the log, under their ids. *)
Definition sends s s' : Prop :=
  labels s s' /\ offers_from (replication_log (volatile_server_state s')) (quorum_worker_tasks s) (quorum_worker_tasks s').

Lemma sends_same s s' : quorum_worker_tasks s' = quorum_worker_tasks s -> sends s s'.
Proof. intros Hq. split; [by apply labels_same|]. rewrite Hq. reflexivity. Qed.

Lemma sends_calm s s' : labels s s' -> calm s s' -> sends s s'.
Proof. intros Hl (Hlog & _ & _ & Ho). split; [done|]. by rewrite Hlog. Qed.

Lemma sends_accept env d s m x' :
  lead_shape d s -> ready m (mkStateMachineExecutorImpl (D_Leader d) s) = true ->
  accept env m (mkStateMachineExecutorImpl (D_Leader d) s) = Some x' -> is_leader x' = true -> sends s (shared_state x').
Proof.
  intros Hsh Hready. destruct m as [[r|r| |b] cb]; unfold accept, delegate_accept; simpl.
  - pose proof (calm_leader_request_vote r cb d s) as Hc. pose proof (labels_request_vote r cb d s) as Hl.
    destruct (Leader.request_vote r cb d s) as [[sc d1] s1]. destruct Hc as (Hc & _). intros [= <-] _. by apply sends_calm.
  - unfold Leader.append_entries. case_decide.
    { destruct (Leader.handle_new_leader _ _ _ _) as [sc s1] eqn:Hn. injection Hn as <- <-. by intros [= <-] ?. }
    intros [= <-] _. apply sends_same. by rewrite callback_send_ok_eq.
  - intros [= <-] _. apply sends_same. by rewrite callback_send_ok_eq.
  - destruct (write_batch env b cb s) as [s1|] eqn:Hwb; [|done]. simpl. intros [= <-] _. simpl.
    assert (Hl : labels s s1) by (eapply labels_write_batch; [apply Hsh..|done]).
    apply write_batch_effect in Hwb as [[Hc _]|Ha]; [by apply sends_calm| |apply Hsh|by eapply shape_ranges|apply Hsh|by apply (ls_next _ _ Hsh)|apply Hsh].
    destruct Ha as (e & _ & _ & _ & _ & _ & _ & _ & _ & Ho). by split.
Qed.

Lemma sends_tick env d s n x' :
  lead_shape d s -> Executor.time_step env (mkStateMachineExecutorImpl (D_Leader d) s) = Some (n, x') -> sends s (shared_state x').
Proof.
  intros Hsh. unfold Executor.time_step, delegate_time_step. simpl.
  destruct (Leader.time_step env d s) as [[[[sc k] d1] s1]|] eqn:Hts; [|done]. simpl. intros [= <- <-]. simpl.
  pose proof (ls_length _ _ Hsh). assert (Hl : labels s s1) by (eapply labels_time_step; [apply Hsh..| |done]; lia).
  destruct (leader_time_step_effect _ _ _ _ _ _ _ (ls_tail _ _ Hsh) (shape_ranges _ _ Hsh) (ls_open _ _ Hsh) Hts) as (_ & _ & He).
  destruct (initialized d); [destruct He; by apply sends_calm|]. destruct He as (e & _ & _ & _ & _ & _ & _ & _ & _ & Ho). by split.
Qed.

Lemma sends_drop i n s : sends s (s <| quorum_worker_tasks ::= alter (drop n) i |>).
Proof.
  assert (Hd : forall ts, ts ∈ alter (drop n) i (quorum_worker_tasks s) -> exists ts0, ts0 ∈ quorum_worker_tasks s /\ ts ⊆ ts0).
  { intros ts [j Hj]%list_elem_of_lookup. destruct (decide (i = j)) as [->|Hne].
    - rewrite list_lookup_alter_eq in Hj. destruct (quorum_worker_tasks s !! j) as [ts0|] eqn:Hq; simplify_eq/=.
      exists ts0. split; [by eapply list_elem_of_lookup_2|]. intros t Ht. rewrite <- (take_drop n ts0). apply elem_of_app. by right.
    - rewrite list_lookup_alter_ne in Hj by done. exists ts. split; [by eapply list_elem_of_lookup_2|done]. }
  split.
  - intros ts t (ts0 & Hin & Hsub)%Hd Ht. right. exists ts0. split; [done|by apply Hsub].
  - intros e (ts & t & (ts0 & Hin & Hsub)%Hd & Ht & He)%elem_of_offered. left. apply elem_of_offered. exists ts0, t. split_and!; [done|by apply Hsub|done].
Qed.

(** The worker hands its reports to the leader. *)
Lemma leads_delivers T x0 evs d s w h' :
  leads x0 evs (mkStateMachineExecutorImpl (D_Leader d) s) -> vlen (replication_log (volatile_server_state s)) < 2 ^ 64 - 1 -> history_at T h' ->
  h_node h' = (deliver_responses (D_Leader d) s w).1 ->
  leads x0 (evs ++ (Ev_Persisted <$> response_queue w)) (h_node h').
Proof.
  intros Hl Hlen Hh Hn. pose proof (ok_persistence _ (hi_words _ _ Hh)) as Hw. rewrite Hn in *.
  apply leads_reports; [done| |done]. simpl in Hw. by apply Forall_app in Hw as [_ Hw].
Qed.

Lemma reign_step_facts T x0 evs new h h' :
  new_leader x0 -> backing T x0 evs h -> reign_step new h h' ->
  leads x0 (evs ++ new) (h_node h') /\ history_step h h' /\ grown (shared_state (h_node h)) (shared_state (h_node h')) /\
  (node_log (h_node h') = node_log (h_node h) \/ next_message_id (shared_state (h_node h)) + 1 < 2 ^ 64) /\
  sends (shared_state (h_node h)) (shared_state (h_node h')) /\ h_files h ⊆ h_files h' /\ reports_of new ⊆ persistence_response (shared_state (h_node h')).
Proof.
  intros Hnew IH Hs. destruct Hs as
    [env x n x' w asked files Hroom Ht Hl Hlen|env m x x' w asked files Hm Hb Hroom Had Ha Hl Hlen|r d s w asked files Hty
    |d s i n w asked files|d s cb w asked files|d s t q w w' asked files Hq Hsize Ht n|d s w asked files n].
  - destruct (backing_leader _ _ _ _ _ _ _ Hnew IH) as (Hlead & d & s & -> & Hsh).
    pose proof (ls_length _ _ Hsh). split_and!; [ |eapply History_time; [|done..]; simpl; lia| |right; unfold tick_ids in Hroom; pose proof (vlen_nonneg (quorum_response s)); simpl in *; lia|by eapply sends_tick|done|apply list_subseteq_nil].
    + eapply leads_event; [apply IH|done|done| |done..]. simpl. by rewrite Ht.
    + revert Ht. unfold Executor.time_step, delegate_time_step. simpl.
      destruct (Leader.time_step env d s) as [[[[sc k] d1] s1]|] eqn:Hts; [|done]. simpl. intros [= <- <-].
      eapply grown_time_step; [apply Hsh..| |done]. lia.
  - destruct (backing_leader _ _ _ _ _ _ _ Hnew IH) as (Hlead & d & s & -> & Hsh).
    split_and!; [ |by eapply History_accept| |by right|by eapply sends_accept|done|apply list_subseteq_nil].
    + by eapply leads_event; [apply IH|..].
    + by eapply grown_accept; [apply Hsh..|done|].
  - destruct (backing_leader _ _ _ _ _ _ _ Hnew IH) as (Hlead & d1 & s1 & [= -> ->] & Hsh).
    split_and!; [ | |by apply grown_same|by left|by apply sends_same|done|apply list_subseteq_nil].
    + eapply leads_event; [apply IH|done|done|done|done|apply Hsh].
    + apply history_other_eq; [by destruct s1 as [], callbacks|]. apply Forall_app. split; [apply Hsh|by apply Forall_singleton].
  - destruct (backing_leader _ _ _ _ _ _ _ Hnew IH) as (Hlead & d1 & s1 & [= -> ->] & Hsh).
    split_and!; [rewrite app_nil_r; by apply leads_quorum_tasks| |by apply grown_same|by left|apply sends_drop|done|apply list_subseteq_nil].
    apply history_other_eq; [by destruct s1 as [], callbacks|apply Hsh].
  - destruct (backing_leader _ _ _ _ _ _ _ Hnew IH) as (Hlead & d1 & s1 & [= -> ->] & Hsh).
    split_and!; [rewrite app_nil_r; by apply leads_callback_dropped| |by apply grown_same|by left|by apply sends_same|done|apply list_subseteq_nil].
    apply history_other_eq; [by destruct s1 as [], callbacks|apply Hsh].
  - destruct (backing_leader _ _ _ _ _ _ _ Hnew IH) as (Hlead & d1 & s1 & [= -> ->] & Hsh).
    assert (Hs : history_step (mkHistory (mkStateMachineExecutorImpl (D_Leader d1) s1) w asked files)
      (mkHistory n.1 n.2 asked (files ++ task_files t w w'))) by by eapply History_task.
    destruct (history_step_at _ _ _ (bk_history _ _ _ _ IH) Hs) as (_ & T' & _ & HT').
    split_and!; [ |exact Hs|by apply grown_same|by left|by apply sends_same|simpl; set_solver|].
    + eapply (leads_delivers _ _ _ d1 (s1 <| persistence_work := mkSender true q |>)); [|apply Hsh|exact HT'|done].
      pose proof (leads_persistence_work _ _ _ _ 1 Hlead) as Hl. by rewrite Hq in Hl.
    + rewrite reports_of_reports. simpl. set_solver.
  - destruct (backing_leader _ _ _ _ _ _ _ Hnew IH) as (Hlead & d1 & s1 & [= -> ->] & Hsh).
    assert (Hs : history_step (mkHistory (mkStateMachineExecutorImpl (D_Leader d1) s1) w asked files)
      (mkHistory n.1 n.2 asked (files ++ [file_of n.2]))) by by eapply History_flush.
    destruct (history_step_at _ _ _ (bk_history _ _ _ _ IH) Hs) as (_ & T' & _ & HT').
    split_and!; [ |exact Hs|by apply grown_same|by left|by apply sends_same|simpl; set_solver|].
    + by eapply leads_delivers; [|apply Hsh|exact HT'|].
    + rewrite reports_of_reports. simpl. set_solver.
Qed.

Lemma reign_step_backing T x0 evs new h h' :
  new_leader x0 -> backing T x0 evs h -> reign_step new h h' -> exists T', T ⊆ T' /\ backing T' x0 (evs ++ new) h'.
Proof.
  intros Hn Hb Hs. destruct (reign_step_facts _ _ _ _ _ _ Hn Hb Hs) as (? & ? & ? & _ & _ & ? & ?).
  by eapply backing_step.
Qed.

Lemma reigns_backing T0 h0 evs h :
  new_leader (h_node h0) -> history_at T0 h0 -> reigns h0 evs h -> exists T, T0 ⊆ T /\ backing T (h_node h0) evs h.
Proof.
  intros Hnew H0 Hr. induction Hr as [|evs new h h' _ (T & HT & IH) Hs].
  - exists T0. split; [done|]. split; [apply leads_start|done| |].
    + intros i e Hi Hget%vget_lt. lia.
    + intros id. unfold told_of, reports_of. simpl. rewrite app_nil_r.
      destruct (hi_ledger _ _ H0) as (? & ? & _ & _ & Hled). apply (led_reports _ _ _ _ Hled).
  - destruct (reign_step_backing _ _ _ _ _ _ Hnew IH Hs) as (T' & HT' & Hb). exists T'. split; [by etrans|done].
Qed.

End invariant.
