(* ===== verification/ClusterCrash.v ===== *)
(** * Crashes and restarts in a cluster

    The cluster of [ClusterLog.v] with the disks of its nodes: every node has its persistence
    worker, which takes tasks, flushes and answers at its own pace, and any node may crash at
    any moment and start again from what has reached its files.  A crash loses entries the
    node had in its log, so its log is cut in a way no message asked for; what it recovers is
    still the front of a log that has existed, and the guarantees of [ClusterLog.v] hold. *)
From stdpp Require Import strings.
From S2P Require Import Prelude Capnp CapnpInstance RaftTypes Bus Samples Persistence PersistenceSpec RaftSm LogModel.
From S2P Require Import Follower FollowerSpec Leader LeaderSpec Candidate Executor Safety NodeTypes NodeLog ClusterLog.
From S2P Require Import Startup StartupSpec NodeDurability.

(** ** Nodes with disks *)

Section disks.
Context {CP : Capnp} {CSV : Csv} {B : Type} `{Bus B}.
Implicit Types x : StateMachineExecutorImpl B.
Implicit Types w : PersistenceWorker.

Abbreviation node_log x := (replication_log (volatile_server_state (shared_state x))).

(** A file that a crash did not leave in the middle of an entry. *)
Definition whole (file : list byte) : Prop :=
  exists ms, Forall log_entry_built ms /\ file = mjoin (write_log_entry <$> ms).

(** What can happen to a node and its disk when the entries of [sent] have been sent.  Of the
    buffered bytes any whole entries may have reached the file when the node crashes; a write
    that is torn in the middle of an entry is left out (see [torn_write_is_not_cut_off]).  The
    configuration may change between two starts, the identity of the node may not. *)
Inductive disk_move (sent : list OwnedLogEntry) :
    StateMachineExecutorImpl B * PersistenceWorker -> StateMachineExecutorImpl B * PersistenceWorker -> Prop :=
| disk_live x x' w : live_move sent x x' -> disk_move sent (x, w) (x', w)
| disk_task d s t q w w' :
    persistence_work s = mkSender true (t :: q) -> file_size w + task_bytes t < 2 ^ 64 ->
    process_task t BATCH_SIZE w = Some w' ->
    disk_move sent (mkStateMachineExecutorImpl d s, w) (deliver_responses d (s <| persistence_work := mkSender true q |>) w')
| disk_flush d s w :
    disk_move sent (mkStateMachineExecutorImpl d s, w) (deliver_responses d s (flush_pending_logs w))
| disk_crash x w file nodes max bus env s w' :
    bw_file (log_write_buffer w) `prefix_of` file ->
    file `prefix_of` bw_file (log_write_buffer w) ++ bw_buf (log_write_buffer w) -> whole file ->
    start_node file (vote_file w) nodes (identity (shared_state x)) max bus = Some (s, w') ->
    disk_move sent (x, w) (StateMachineExecutorImpl_new env s, w').

(** The cluster and the persistence worker of every node. *)
Record Disks := mkDisks { machines : Cluster B; disks : list PersistenceWorker }.
Implicit Types D : Disks.

Inductive disks_step D : Disks -> Prop :=
| disks_move n x w x' w' :
    nodes (machines D) !! n = Some x -> disks D !! n = Some w -> disk_move (wire (machines D)) (x, w) (x', w') ->
    vlen (node_log x') < 2 ^ 64 - 1 -> election_safe x x' (machines D) ->
    disks_step D (mkDisks (moved n x x' (machines D)) (<[n := w']> (disks D))).

(** A node that has started without files. *)
Definition fresh_node x w : Prop :=
  exists ids id max bus env s, u32 id /\ start_node [] [] ids id max bus = Some (s, w) /\
    x = StateMachineExecutorImpl_new env s.

Definition disks_start D : Prop :=
  Forall2 fresh_node (nodes (machines D)) (disks D) /\ wire (machines D) = [] /\ led (machines D) = ∅.

End disks.

Arguments Disks B : clear implicits.

(** ** What a start leaves of a node *)

Section started.
Context {CP : Capnp} {CL : CapnpLaws} {CSV : Csv} {CSVL : CsvLaws} {B : Type} `{Bus B}.
Implicit Types s : SharedState B.

(** Nothing is offered to a quorum worker; the cursors are those of the last entry. *)
Lemma started_tail ms rows ids id max (bus : B) s w :
  Forall log_entry_built ms -> log_wf (map stored ms) ->
  start_node (mjoin (write_log_entry <$> ms)) (mjoin (csv_row <$> rows)) ids id max bus = Some (s, w) ->
  tail_wf (volatile_server_state s) /\ offered (quorum_worker_tasks s) = [].
Proof.
  intros Hm Hwf. unfold start_node, read_votes, read_log. rewrite csv_rows_written. cbn [mbind option_bind].
  pose proof (parse_written_file ms [] Hm torn_nil) as Hp. rewrite app_nil_r in Hp.
  unfold recover_persisted_data. rewrite (deserialize_parse _ _ _ Hp). cbn [mbind option_bind].
  destruct (process_votes _ _). intros [= <- <-]. split.
  - split; simpl; [by apply last_index_recovered|done].
  - unfold offered. simpl. by induction (cluster_nodes_without_self ids id).
Qed.

End started.

(** ** What is on its way to the disk

    Whatever the worker has taken so far, the tasks still queued lead it through fronts of
    logs that have existed: a crash recovers such a front. *)

Section staged.
Context {CP : Capnp} {CL : CapnpLaws} {CSV : Csv} {CSVL : CsvLaws} {B : Type} `{Bus B}.
Implicit Types x : StateMachineExecutorImpl B.
Implicit Types w : PersistenceWorker.
Implicit Types past : list (list OwnedLogEntry).

Abbreviation node_log x := (replication_log (volatile_server_state (shared_state x))).
Abbreviation queue x := (chan_queue (persistence_work (shared_state x))).

(** The front of a log of [past]. *)
Definition known past (es : list Data) : Prop := exists l, l ∈ past /\ es `prefix_of` (as_bytes <$> l).

Definition staged past (ms : list InternalLogEntry) (ts : list PersistenceTaskType) : Prop :=
  forall j es, disk_run (take j ts) (write_log_entry <$> ms) = Some es -> known past es.

Lemma known_prefix past es es' : es `prefix_of` es' -> known past es' -> known past es.
Proof. intros Hp (l & Hl & He). exists l. split; [done|]. by etrans. Qed.

Lemma known_more l past es : known past es -> known (l :: past) es.
Proof. intros (l' & Hl & He). exists l'. split; [|done]. apply elem_of_cons. by right. Qed.

Lemma known_entries past ms : known past (write_log_entry <$> ms) -> exists l, l ∈ past /\ map stored ms `prefix_of` l.
Proof.
  intros (l & Hl & rest & Hrest). exists l. split; [done|].
  apply fmap_app_inv in Hrest as (l1 & l2 & Hl1 & _ & ->). exists l2. f_equal.
  apply log_bytes_inj. by rewrite <- Hl1, <- list_fmap_compose.
Qed.

Lemma disk_run_shrinks ts es es' : Forall no_append ts -> disk_run ts es = Some es' -> es' `prefix_of` es.
Proof.
  intros Ht. revert es. induction Ht as [|t ts Hn Ht IH]; intros es; simpl; [intros ?; by simplify_eq|].
  destruct t as [| |n]; simpl; [apply IH|by destruct Hn|]. case_decide; [|done]. simpl. intros Hd%IH.
  etrans; [exact Hd|]. apply prefix_take.
Qed.

(** The tasks of one handler lead from the old log to the new one through fronts of the two. *)
Lemma handler_stages past ts es es' j :
  Forall no_append ts \/ Forall no_truncation ts -> disk_run ts es = Some es' -> known past es -> known past es' ->
  forall e, disk_run (take j ts) es = Some e -> known past e.
Proof.
  intros Hk Hd Hold Hnew e He. destruct Hk as [Hk|Hk].
  - eapply known_prefix; [|exact Hold]. eapply disk_run_shrinks; [|exact He]. by apply Forall_take.
  - eapply known_prefix; [|exact Hnew]. rewrite <- (take_drop j ts), disk_run_app, He in Hd.
    eapply disk_run_grows; [|exact Hd]. by apply Forall_drop.
Qed.

(** A handler call queues its tasks behind the others. *)
Lemma staged_durable past ms x x' :
  durable no_append (shared_state x) (shared_state x') \/ durable no_truncation (shared_state x) (shared_state x') ->
  node_ok (shared_state x) -> disk_run (queue x) (write_log_entry <$> ms) = Some (log_bytes (shared_state x)) ->
  node_log x ∈ past -> staged past ms (queue x) -> staged (node_log x' :: past) ms (queue x').
Proof.
  intros Hdur Hok Hq Hpast Hst j es.
  assert (exists ts, persistence_work (shared_state x') = mkSender true (queue x ++ ts) /\
    (Forall no_append ts \/ Forall no_truncation ts) /\
    disk_run ts (log_bytes (shared_state x)) = Some (log_bytes (shared_state x'))) as (ts & Hw & Hk & Hd).
  { destruct Hdur as [Hdur|Hdur]; destruct (Hdur Hok) as (_ & ts & Hw & _ & Hk & Hd & _); exists ts; eauto. }
  rewrite Hw. simpl. rewrite take_app, disk_run_app.
  destruct (disk_run (take j (queue x)) _) as [es1|] eqn:Hj; [|done]. cbn [mbind option_bind].
  destruct (decide (j <= length (queue x)))%nat as [Hle|Hgt].
  - replace (j - length (queue x))%nat with 0%nat by lia. simpl. intros [= <-]. apply known_more. by eapply Hst.
  - rewrite take_ge in Hj by lia. rewrite Hq in Hj. injection Hj as <-. eapply handler_stages; [exact Hk|exact Hd|..].
    + exists (node_log x). split; [|done]. apply elem_of_cons. by right.
    + exists (node_log x'). split; [|done]. apply elem_of_cons. by left.
Qed.

(** The worker takes the first task. *)
Lemma staged_task past ms ms' t ts :
  disk_step (write_log_entry <$> ms) t = Some (write_log_entry <$> ms') -> staged past ms (t :: ts) -> staged past ms' ts.
Proof. intros Ht Hst j es Hj. apply (Hst (S j)). simpl. by rewrite Ht. Qed.

Lemma staged_more l past ms ts : staged past ms ts -> staged (l :: past) ms ts.
Proof. intros Hst j es Hj. apply known_more. by eapply Hst. Qed.

(** What the worker has taken is the front of a log that has existed. *)
Lemma staged_known past ms ts : staged past ms ts -> known past (write_log_entry <$> ms).
Proof. intros Hst. by apply (Hst 0%nat). Qed.

(** A node and its disk. *)
Record disk_inv past x w : Prop := {
  di_node : node_ok (shared_state x);
  di_responses : response_queue w = [] /\ Forall typed_persistence (pending_log_responses w);
  di_disk : exists ms rows, on_disk ms rows x w /\ Forall typed_row rows /\ staged past ms (queue x)
}.

Lemma disk_inv_more l past x w : disk_inv past x w -> disk_inv (l :: past) x w.
Proof.
  intros [? ? (ms & rows & ? & ? & ?)]. split; [done..|]. exists ms, rows. split_and!; [done..|by apply staged_more].
Qed.

(** *** The steps *)

(** An entry that was sent is stored, so the request that brings it is built. *)
Lemma live_durable sent x x' :
  words_ok (shared_state x) -> vlen (node_log x) < 2 ^ 64 -> Forall stored_entry sent -> live_move sent x x' ->
  durable no_append (shared_state x) (shared_state x') \/ durable no_truncation (shared_state x) (shared_state x').
Proof.
  intros Hok Hlen Hsent. destruct 1 as [env w x' _ Ht|env e t l rid c cb x' He _ Ha|env [p cb] x' _ Hn _ Ha|r _|i n|cb].
  - by eapply durable_time_step.
  - right. eapply durable_accept; [done| |exact Ha]. intros e' [= <-].
    rewrite Forall_forall in Hsent. destruct (Hsent e (proj1 (list_elem_of_In _ _) He)) as (m & Hm & ->). by exists m.
  - right. eapply durable_accept; [done| |exact Ha]. destruct p as [r|r| |b]; try done.
    apply bool_decide_eq_true in Hn. intros e He. simpl in *. congruence.
  - left. by apply durable_still.
  - left. by apply durable_still.
  - left. by apply durable_still.
Qed.

Lemma disk_inv_live past sent x x' w :
  words_ok (shared_state x) -> vlen (node_log x) < 2 ^ 64 -> Forall stored_entry sent -> live_move sent x x' ->
  node_log x ∈ past -> disk_inv past x w -> disk_inv (node_log x' :: past) x' w.
Proof.
  intros Hok Hlen Hsent Hmv Hpast [Hn Hr (ms & rows & Hd & Hrows & Hst)].
  pose proof (live_durable _ _ _ Hok Hlen Hsent Hmv) as Hdur.
  assert (node_ok (shared_state x') /\ on_disk ms rows x' w) as [Hn' Hd'] by (destruct Hdur; by eapply on_disk_durable).
  split; [done..|]. exists ms, rows. split_and!; [done..|].
  by eapply staged_durable; [|apply Hn|destruct Hd|..].
Qed.

Lemma disk_node_inv past x w : words_ok (shared_state x) -> disk_inv past x w -> node_inv (x, w).
Proof. intros Hok [Hn Hr (ms & rows & Hd & _)]. split; [done..|]. by exists ms, rows. Qed.

Lemma disk_inv_task past d s t q w w' :
  words_ok s -> persistence_work s = mkSender true (t :: q) -> file_size w + task_bytes t < 2 ^ 64 ->
  process_task t BATCH_SIZE w = Some w' -> disk_inv past (mkStateMachineExecutorImpl d s) w ->
  let n := deliver_responses d (s <| persistence_work := mkSender true q |>) w' in
  words_ok (shared_state n.1) /\ disk_inv past n.1 n.2.
Proof.
  intros Hok Hq Hsize Ht Hinv n. destruct (node_task_inv _ _ _ _ _ (disk_node_inv _ (mkStateMachineExecutorImpl d s) _ Hok Hinv) Hq Hsize) as (w1 & Hw1 & [? ? ? _] & _).
  simplify_eq. split; [done|]. split; [done..|]. destruct Hinv as [_ _ (ms & rows & Hd & Hrows & Hst)].
  destruct (on_disk_task _ _ _ _ _ _ _ Hd Hq Hsize) as (w1 & Hw & _ & _ & ms' & Hs & Hnext). simplify_eq.
  exists ms', (rows ++ vote_rows t). split_and!.
  - exact (Hnext d (shared_state n.1) [] eq_refl eq_refl eq_refl).
  - apply Forall_app. split; [done|]. pose proof (ok_work _ Hok) as Hwt. rewrite Hq in Hwt. inversion Hwt as [|? ? Htt _]; subst.
    destruct t; simpl; [|constructor..]. apply Forall_singleton. by destruct Htt.
  - simpl in Hst. rewrite Hq in Hst. by eapply staged_task.
Qed.

Lemma disk_inv_flush past d s w :
  words_ok s -> disk_inv past (mkStateMachineExecutorImpl d s) w ->
  let n := deliver_responses d s (flush_pending_logs w) in
  words_ok (shared_state n.1) /\ disk_inv past n.1 n.2.
Proof.
  intros Hok Hinv n. destruct (node_flush_inv _ _ _ (disk_node_inv _ (mkStateMachineExecutorImpl d s) _ Hok Hinv)) as [? ? ? _].
  split; [done|]. split; [done..|]. destruct Hinv as [_ _ (ms & rows & Hd & Hrows & Hst)].
  exists ms, rows. split_and!; [by apply on_disk_flush|done..].
Qed.

(** The entries of a whole file that a crash has left are among those the worker has taken. *)
Lemma crash_entries ms rows x w ms2 :
  on_disk ms rows x w -> Forall log_entry_built ms2 ->
  mjoin (write_log_entry <$> ms2) `prefix_of` bw_file (log_write_buffer w) ++ bw_buf (log_write_buffer w) ->
  map stored ms2 `prefix_of` map stored ms.
Proof.
  intros Hd Hm2 Hf. rewrite (rep_bytes _ _ (od_entries _ _ _ _ Hd)) in Hf.
  destruct (cut_entries ms _ 0%nat (od_built _ _ _ _ Hd) (prefix_nil _) Hf) as (k & tail & Heq & Ht & _).
  pose proof (parse_written_file ms2 [] Hm2 torn_nil) as Hp2. rewrite app_nil_r in Hp2.
  pose proof (parse_written_file (take k ms) tail (Forall_take _ _ _ (od_built _ _ _ _ Hd)) Ht) as Hp.
  cbv zeta in Hp. rewrite <- Heq, Hp2 in Hp. injection Hp as -> _. rewrite <- firstn_map. apply prefix_take.
Qed.

(** A node that starts again has the front of a log that has existed, and is no leader. *)
Lemma disk_inv_crash past x w file ids max (bus : B) env s w' :
  words_ok (shared_state x) -> Forall log_wf past -> disk_inv past x w ->
  file `prefix_of` bw_file (log_write_buffer w) ++ bw_buf (log_write_buffer w) -> whole file ->
  start_node file (vote_file w) ids (identity (shared_state x)) max bus = Some (s, w') ->
  let x' := StateMachineExecutorImpl_new env s in
  words_ok s /\ tail_wf (volatile_server_state s) /\ offered (quorum_worker_tasks s) = [] /\
  (exists l, l ∈ past /\ node_log x' `prefix_of` l) /\ disk_inv past x' w'.
Proof.
  intros Hok Hwf [Hn Hr (ms & rows & Hd & Hrows & Hst)] Hf (ms2 & Hm2 & ->) Hs x'.
  rewrite (od_votes _ _ _ _ Hd) in Hs. pose proof (crash_entries _ _ _ _ _ Hd Hm2 Hf) as Hpre.
  destruct (known_entries _ _ (staged_known _ _ _ Hst)) as (l & Hl & Hml).
  assert (Hl2 : map stored ms2 `prefix_of` l) by by etrans.
  assert (Hwf2 : log_wf (map stored ms2)).
  { rewrite Forall_forall in Hwf. destruct Hl2 as [k Hk]. apply (log_wf_prefix _ k). rewrite <- Hk.
    by apply Hwf, list_elem_of_In. }
  destruct (started_tail _ _ _ _ _ _ _ _ Hm2 Hwf2 Hs) as [Htail Hoff].
  destruct (started_on_disk _ _ _ _ _ _ _ _ env Hm2 Hs) as (Hlog & Hnode & Hq & Hrq & Hpend & Hdisk & Hwords).
  split_and!; [by apply Hwords; [|apply Hok]|done..| |].
  - exists l. split; [done|]. unfold x'. simpl. by rewrite Hlog.
  - split; [done|by rewrite Hpend|]. exists ms2, rows. split_and!; [done..|]. rewrite (Hq : queue x' = []). intros j es.
    rewrite take_nil. intros [= <-]. exists l. split; [done|]. destruct Hl2 as [k ->].
    exists (as_bytes <$> k). by rewrite fmap_app, <- list_fmap_compose.
Qed.

End staged.

(** ** The cluster *)

Section cluster.
Context {CP : Capnp} {CL : CapnpLaws} {CSV : Csv} {CSVL : CsvLaws} {B : Type} `{Bus B}.
Implicit Types x : StateMachineExecutorImpl B.
Implicit Types w : PersistenceWorker.
Implicit Types c : Cluster B.
Implicit Types D : Disks B.
Implicit Types past : list (list OwnedLogEntry).

Abbreviation node_log x := (replication_log (volatile_server_state (shared_state x))).
Abbreviation node_term x := (current_term (server_state (shared_state x))).
Abbreviation tasks x := (quorum_worker_tasks (shared_state x)).

Record crash_inv past D : Prop := {
  ci_machines : cluster_inv past (machines D);
  ci_stored : Forall (Forall stored_entry) past;
  ci_disks : forall n x w, nodes (machines D) !! n = Some x -> disks D !! n = Some w -> disk_inv past x w
}.

Lemma wire_stored past c : cluster_inv past c -> Forall (Forall stored_entry) past -> Forall stored_entry (wire c).
Proof.
  intros Hinv Hst. rewrite !Forall_forall in *. intros e He%list_elem_of_In.
  destruct (inv_wire _ _ Hinv e He) as (l & Hl%list_elem_of_In & Hel%list_elem_of_In).
  specialize (Hst l Hl). rewrite Forall_forall in Hst. by apply Hst.
Qed.

Lemma disk_move_inv past c n x w x' w' :
  cluster_inv past c -> Forall (Forall stored_entry) past -> nodes c !! n = Some x -> disk_inv past x w ->
  disk_move (wire c) (x, w) (x', w') -> vlen (node_log x') < 2 ^ 64 - 1 -> election_safe x x' c ->
  cluster_inv (node_log x' :: past) (moved n x x' c) /\ disk_inv (node_log x' :: past) x' w'.
Proof.
  intros Hinv Hst Hx Hd Hmv Hlen Hsafe. pose proof (inv_good _ _ Hinv n x Hx) as Hg.
  pose proof (good_words _ Hg) as Hok. pose proof (inv_past _ _ Hinv n x Hx) as Hpast.
  inversion Hmv as [? ? ? Hl|d s t q ? w1 Hq Hsize Ht|d s ?|? ? file ids max bus env s ? _ Hf Hw Hs]; subst.
  - split; [apply effect_inv; try done|].
    + apply live_effect; [done|by eapply wire_readable|done].
    + eapply move_words; [done..|by apply move_live].
    + eapply disk_inv_live; [done| |by eapply wire_stored|done..]. pose proof (good_length _ Hg). lia.
  - destruct (disk_inv_task _ _ _ _ _ _ _ Hok Hq Hsize Ht Hd) as [Hok' Hd'].
    split; [|by apply disk_inv_more]. apply effect_inv; try done.
    apply effect_calm; [split_and!; simpl; by rewrite ?Hq|by apply keeps_leader_same].
  - destruct (disk_inv_flush _ _ _ _ Hok Hd) as [Hok' Hd'].
    split; [|by apply disk_inv_more]. apply effect_inv; try done.
    apply effect_calm; [by split_and!|by apply keeps_leader_same].
  - assert (Hwf : Forall log_wf past).
    { eapply Forall_impl; [|apply (inv_history _ _ Hinv)]. by intros l (? & _). }
    destruct (disk_inv_crash _ _ _ _ _ _ _ env _ _ Hok Hwf Hd Hf Hw Hs) as (Hok' & Htail & Hoff & (l & Hl & Hp) & Hd').
    split; [|by apply disk_inv_more]. eapply (step_within _ _ _ _ _ l); try done.
    + left. intros e. unfold StateMachineExecutorImpl_new. simpl. rewrite Hoff. by intros ?%elem_of_nil.
    + intros Hww. eapply good_follower; [done|done| |done..]. apply Hd'.
Qed.

Lemma disks_step_inv past D D' : crash_inv past D -> disks_step D D' -> exists l, crash_inv (l :: past) D'.
Proof.
  intros [Hinv Hst Hds] [n x w x' w' Hx Hw Hmv Hlen Hsafe].
  destruct (disk_move_inv _ _ _ _ _ _ _ Hinv Hst Hx (Hds n x w Hx Hw) Hmv Hlen Hsafe) as [Hinv' Hd'].
  exists (node_log x'). split; simpl; [done| |].
  - constructor; [by apply Hd'|done].
  - intros m y v. rewrite !list_lookup_insert_Some.
    intros [(<- & <- & _)|[Hne Hy]] [(Heq & <- & _)|[Hne' Hv]]; [done..|].
    by apply disk_inv_more, (Hds m).
Qed.

Lemma disks_steps_inv past D D' :
  crash_inv past D -> rtc disks_step D D' -> exists past', past ⊆ past' /\ crash_inv past' D'.
Proof.
  intros Hinv Hr. revert past Hinv. induction Hr as [D|D D1 D2 Hs _ IH]; intros past Hinv; [by exists past|].
  destruct (disks_step_inv _ _ _ Hinv Hs) as [l Hinv1]. destruct (IH _ Hinv1) as (past' & Hsub & Hinv2).
  exists past'. split; [|done]. intros l' Hl'. apply Hsub, elem_of_cons. by right.
Qed.

(** *** Nodes that start *)

Lemma fresh_node_inv x w :
  fresh_node x w ->
  is_leader x = false /\ node_log x = [] /\ tail_wf (volatile_server_state (shared_state x)) /\
  chan_open (persistence_work (shared_state x)) = true /\ words_ok (shared_state x) /\ offered (tasks x) = [] /\
  disk_inv [[]] x w.
Proof.
  intros (ids & id & max & bus & env & s & Hid & Hs & ->).
  destruct (started_tail [] [] _ _ _ _ _ _ (List.Forall_nil _) log_wf_nil Hs) as [Htail Hoff].
  destruct (started_on_disk [] [] _ _ _ _ _ _ env (List.Forall_nil _) Hs) as (Hlog & Hnode & Hq & Hrq & Hpend & Hdisk & Hwords).
  split_and!; [done|done|done|apply Hnode|by apply Hwords; [constructor|]|done|].
  split; [done|by rewrite Hpend|]. exists [], []. split_and!; [done|constructor|]. rewrite Hq. intros j es.
  rewrite take_nil. intros [= <-]. exists []. split; [by apply list_elem_of_singleton|done].
Qed.

(** Without the disks, these are nodes that start a cluster. *)
Lemma fresh_nodes_start (xs : list (StateMachineExecutorImpl B)) ws : Forall2 fresh_node xs ws -> cluster_start (mkCluster xs [] ∅).
Proof.
  intros Hf. split; [|done]. simpl. induction Hf as [|x w xs ws Hx _ IH]; [constructor|]. constructor; [|done].
  by destruct (fresh_node_inv x w Hx) as (? & ? & ? & ? & ? & ? & _).
Qed.

Lemma disks_start_inv D : disks_start D -> crash_inv [[]] D.
Proof.
  destruct D as [[xs sent ld] ws]. intros (Hf & Hw & Hl). simpl in *. subst. split; simpl.
  - by eapply start_inv, fresh_nodes_start.
  - by apply Forall_singleton.
  - intros n x w Hx Hw. by apply fresh_node_inv, (Forall2_lookup_lr _ _ _ _ _ _ Hf Hx Hw).
Qed.

Lemma disks_reach_inv D0 D : disks_start D0 -> rtc disks_step D0 D -> exists past, crash_inv past D.
Proof.
  intros Hs Hr. destruct (disks_steps_inv _ _ _ (disks_start_inv _ Hs) Hr) as (past & _ & Hinv). by exists past.
Qed.

(** C4: Log matching through crashes.  Nodes start without files; what happens and in whatever
    order (elections, the delivery, loss, repetition and reordering of requests, truncations,
    the steps of every worker, and at any moment the crash of any node, which loses the
    entries its persistence worker has not written and starts again from the files): if the
    log of a node and the log of any node, now or later, have entries of the same term at the
    same index, the two logs agree up to that index.  As in [log_matching], every term is won
    at most once, truncate signals name entries of the follower and a new leader takes a time
    step before its first write batch. *)
Theorem crash_log_matching D0 D1 D2 n1 n2 x1 x2 i e1 e2 :
  disks_start D0 -> rtc disks_step D0 D1 -> rtc disks_step D1 D2 ->
  nodes (machines D1) !! n1 = Some x1 -> nodes (machines D2) !! n2 = Some x2 ->
  vget (node_log x1) i = Some e1 -> vget (node_log x2) i = Some e2 -> term e1 = term e2 ->
  vtruncate (i + 1) (node_log x1) = vtruncate (i + 1) (node_log x2).
Proof.
  intros Hstart Hr1 Hr2 Hx1 Hx2 He1 He2 Ht. destruct (disks_reach_inv _ _ Hstart Hr1) as (past1 & Hinv1).
  destruct (disks_steps_inv _ _ _ Hinv1 Hr2) as (past2 & Hsub & [Hinv2 _ _]).
  eapply logs_match_eq; [|done..]. apply (inv_history _ _ Hinv2); [by eapply Hsub, (inv_past _ _ (ci_machines _ _ Hinv1))|by eapply inv_past].
Qed.

(** C6: In runs as those of [crash_log_matching], where every term is won at most once, every
    truncate signal that arrives names an entry of the follower, and a new leader takes a time
    step before its first write batch, and also through crashes: the log of a node is always
    well formed (position [i] holds the entry of index [i], every entry names its predecessor,
    the cursors point at the end), and the leader of a term holds every entry that any node
    has of this term, with everything before it.  A crash leaves whole entries in the file
    ([disk_move]).  None of the other conditions is ensured by the
    code, and without them the log can break ([early_batch_reuses_index],
    [ahead_signal_breaks_matching]). *)
Theorem crash_leader_holds_its_term D0 D n x :
  disks_start D0 -> rtc disks_step D0 D -> nodes (machines D) !! n = Some x ->
  log_wf (node_log x) /\ tail_wf (volatile_server_state (shared_state x)) /\
  (is_leader x = true -> forall m y i e, nodes (machines D) !! m = Some y -> vget (node_log y) i = Some e ->
     term e = node_term x -> vtruncate (i + 1) (node_log y) `prefix_of` node_log x).
Proof.
  intros Hstart Hr. destruct (disks_reach_inv _ _ Hstart Hr) as (past & [Hinv _ _]). by apply (inv_holds_its_term past).
Qed.

(** C5: Repair of a follower's log, also of one that has lost entries in a crash, in runs as
    those of [crash_log_matching]: every term is won at most once, every truncate signal that
    arrives names an entry of the follower, and a new leader takes a time step before its
    first write batch, which the code does not ensure ([early_batch_reuses_index],
    [ahead_signal_breaks_matching]); a crash leaves whole entries in the file ([disk_move]).
    In such a run the leader [x] handles the backfill request of a node [y] that reports the
    end of its log, an index the leader has.  The worker of [y] then gets one task: either the
    entries of the leader that [y] lacks, and with them the log of [y] becomes that of the
    leader, or a truncate signal; unless it is the signal "truncate everything", it names an
    entry of [y] by index and term, and up to this entry the two logs are the same. *)
Theorem crash_repair_task_fits D0 D n m x y node q s' :
  disks_start D0 -> rtc disks_step D0 D -> nodes (machines D) !! n = Some x -> nodes (machines D) !! m = Some y ->
  let v := volatile_server_state (shared_state y) in
  let w := get_quorum_worker_index node (identity (shared_state x)) in
  last_log_index v < vlen (node_log x) -> tasks x !! w = Some q ->
  handle_backfill_request node (last_log_term v) (last_log_index v) (shared_state x) = Some s' ->
  exists task, quorum_worker_tasks s' !! w = Some (q ++ [task]) /\
    match task with
    | QT_BackfillLog data => node_log y ++ data = node_log x
    | QT_TruncateLog _ t j => t = 0 \/
        (exists e, vget (node_log y) j = Some e /\ term e = t) /\
        vtruncate (j + 1) (node_log y) = vtruncate (j + 1) (node_log x)
    | _ => False
    end.
Proof.
  intros Hstart Hr Hx Hy v w. destruct (disks_reach_inv _ _ Hstart Hr) as (past & [Hinv _ _]). by eapply repair_fits.
Qed.

End cluster.

(** ** Scripts of a cluster with disks *)

Section scripts.
Context {CP : Capnp} {CSV : Csv} {B : Type} `{Bus B}.
Implicit Types x : StateMachineExecutorImpl B.
Implicit Types w : PersistenceWorker.
Implicit Types D : Disks B.

(** The worker takes the first task, or flushes. *)
Inductive disk_event :=
| DE_Live (ev : cluster_event)
| DE_Task
| DE_Flush.

Definition disk_apply (sent : list OwnedLogEntry) (ev : disk_event) x w
    : option (StateMachineExecutorImpl B * PersistenceWorker) :=
  match ev with
  | DE_Live ev => let* x' := live_of sent ev x in Some (x', w)
  | DE_Task =>
    match persistence_work (shared_state x) with
    | mkSender true (t :: q) =>
      let* w' := process_task t BATCH_SIZE w in
      if decide (file_size w + task_bytes t < 2 ^ 64)
      then Some (deliver_responses (state_delegate x) ((shared_state x) <| persistence_work := mkSender true q |>) w')
      else None
    | _ => None
    end
  | DE_Flush => Some (deliver_responses (state_delegate x) (shared_state x) (flush_pending_logs w))
  end.

Definition disks_apply (n : nat) (ev : disk_event) D : option (Disks B) :=
  let* x := nodes (machines D) !! n in
  let* w := disks D !! n in
  let* (x', w') := disk_apply (wire (machines D)) ev x w in
  if decide (vlen (replication_log (volatile_server_state (shared_state x'))) < 2 ^ 64 - 1 /\
             (elected x x' = true -> 0 < current_term (server_state (shared_state x')) /\
                                     current_term (server_state (shared_state x')) ∉ led (machines D)))
  then Some (mkDisks (moved n x x' (machines D)) (<[n := w']> (disks D))) else None.

Fixpoint disks_run (script : list (nat * disk_event)) D : option (Disks B) :=
  match script with
  | [] => Some D
  | (n, ev) :: script => let* D := disks_apply n ev D in disks_run script D
  end.

Lemma disk_apply_move sent ev x w n : disk_apply sent ev x w = Some n -> disk_move sent (x, w) n.
Proof.
  destruct ev as [ev| |]; simpl.
  - destruct (live_of sent ev x) as [x'|] eqn:Hl; [|done]. simpl. intros [= <-]. by eapply disk_live, live_of_move.
  - destruct x as [d s]. simpl. destruct (persistence_work s) as [[] [|t q]] eqn:Hq; try done.
    destruct (process_task _ _ _) as [w'|] eqn:Ht; [|done]. simpl. case_decide; [|done]. intros [= <-].
    by eapply disk_task.
  - intros [= <-]. destruct x. apply disk_flush.
Qed.

Lemma disks_run_steps script D D' : disks_run script D = Some D' -> rtc disks_step D D'.
Proof.
  revert D. induction script as [|[n ev] script IH]; intros D; simpl; [intros ?; by simplify_eq|].
  unfold disks_apply. destruct (nodes _ !! n) as [x|] eqn:Hx; [|done]. destruct (disks D !! n) as [w|] eqn:Hw; [|done].
  cbn [mbind option_bind]. destruct (disk_apply _ _ _ _) as [[x' w']|] eqn:Hm; [|done]. cbn [mbind option_bind].
  case_decide as Hc; [|done]. cbn [mbind option_bind]. intros Hr. apply disk_apply_move in Hm. destruct Hc.
  eapply rtc_l; [by eapply disks_move|by apply IH].
Qed.

Definition after_disks script D : Disks B := default D (disks_run script D).

Lemma after_disks_steps script D :
  match disks_run script D with Some _ => true | None => false end = true ->
  rtc disks_step D (after_disks script D).
Proof.
  unfold after_disks. destruct (disks_run script D) as [D'|] eqn:Hr; [|done]. intros _. by eapply disks_run_steps.
Qed.

End scripts.
