(* ===== verification/QuorumWorkerSpec.v ===== *)
(** * What the quorum workers guarantee

    Two workers talk through a connection: what the worker of one node sends, the worker of
    the other handles.  Theorems over the definitions of [QuorumWorker.v]. *)
From stdpp Require Import strings.
From S2P Require Import Prelude Capnp CapnpInstance RaftTypes Bus QuorumMessage QuorumWorker.
From S2P Require Import Samples RaftSm LogModel Follower FollowerSpec Leader LeaderSpec.

Section sending.
Context {CP : Capnp}.
Implicit Types w : QuorumWorker.

(** The messages a worker has sent on its connection. *)
Definition outbox w : list OwnedQuorumMessage :=
  match qw_outbound_tx w with Some tx => chan_queue tx | None => [] end.

Definition connected w : Prop :=
  exists tx, qw_outbound_tx w = Some tx /\ chan_open tx = true.

(** The worker after [ms] have been sent. *)
Definition sent (ms : list OwnedQuorumMessage) w : QuorumWorker :=
  w <| qw_outbound_tx := Some (mkSender true (outbox w ++ ms)) |>.

(** Integer fields of their Rust types. *)
Definition worker_ranges w : Prop :=
  u64 (qw_term w) /\ u32 (qw_self_id w) /\ u64 (qw_prev_log_index w) /\
  u64 (qw_prev_log_term w) /\ u64 (qw_commit_index w).

Lemma send_message_connected m w :
  connected w -> send_message m w = (true, sent [m] w).
Proof.
  intros (tx & Htx & Hopen). unfold send_message, sent, outbox, send. by rewrite Htx, Hopen.
Qed.

Lemma connected_sent ms w : connected (sent ms w).
Proof. by eexists. Qed.

Lemma outbox_sent ms w : outbox (sent ms w) = outbox w ++ ms.
Proof. done. Qed.

Lemma sent_app ms1 ms2 w : sent ms2 (sent ms1 w) = sent (ms1 ++ ms2) w.
Proof. unfold sent. destruct w. simpl. unfold outbox. simpl. by rewrite (assoc_L (++)). Qed.

Lemma sent_nil w : connected w -> sent [] w = w.
Proof.
  intros ([op q] & Htx & Hopen). unfold sent, outbox. destruct w. simpl in *. subst. simpl.
  by rewrite app_nil_r.
Qed.

End sending.

#[export] Hint Resolve connected_sent : kraft.

(** ** Replication across two nodes *)

Section replication.
Context `{CapnpLaws} {B : Type} `{Bus B}.
Implicit Types w : QuorumWorker.
Implicit Types s : SharedState B.

(** The entry parses down to its root, as every entry a node has built does. *)
Definition parses (e : OwnedLogEntry) : Prop := is_Some (with_message e (fun m => m)).

Lemma parses_readable e : parses e -> readable e.
Proof.
  unfold parses, with_message, readable, from_bytes.
  destruct (read_message_from_flat_slice _); [by destruct e|by intros [? ?]].
Qed.

Lemma parses_fields e :
  parses e -> exists reader, log_entry_ranges reader /\
    (forall R (f : InternalLogEntry -> R), with_message e f = Some (f reader)).
Proof.
  intros [reader Hr]. exists reader. split; [by eapply with_message_ranges|].
  by apply with_message_fields.
Qed.

(** A message with the bytes of the entry is not refused when it is read. *)
Definition travels (e : OwnedLogEntry) : Prop := 32 + blob_words (Some (as_bytes e)) <= traversal_limit_in_words.

(** What the other worker reads of the message that carries an entry. *)
Lemma append_message_received e t self rid commit w :
  parses e -> travels e -> u64 t -> u32 self -> u64 rid -> u64 commit ->
  handle_inbound_message
    (build_append_entries_message t self (prev_log_index e) (prev_log_term e) rid commit (Some e)) w =
  Some (ask_state_machine (RM_AppendEntries (entry_request e t self rid commit))
          (PQ_AppendEntries rid (index e) (term e)) w).
Proof.
  intros (reader & Hr & Hf)%parses_fields Htr Ht Hs Hi Hc.
  unfold handle_inbound_message, build_append_entries_message.
  unfold prev_log_index, prev_log_term, index, term, entry_request, message_id.
  unfold Capnp.prev_log_index, Capnp.prev_log_term, Capnp.index, Capnp.term, Capnp.message_id.
  rewrite !Hf. simpl. rewrite quorum_with_message_small; [done| |exact Htr].
  destruct Hr as (? & ? & ? & ? & ? & ?). split; [|by eexists]. simpl. unfold remote_entry_ranges. simpl.
  by split_and!.
Qed.

(** What the worker of the leader reads of an acknowledgement. *)
Lemma ack_message_received lt li rid ok w :
  u64 lt -> u64 li -> u64 rid ->
  handle_inbound_message (build_append_entries_ack_message lt li rid ok) w =
  Some (on_append_entries_ack rid li lt ok w).
Proof.
  intros. unfold handle_inbound_message, build_append_entries_ack_message.
  by rewrite quorum_with_message_small by done.
Qed.

Lemma send_append_entries_sent now rid e commit w :
  connected w ->
  send_append_entries now rid e commit w =
  sent [build_append_entries_message (qw_term w) (qw_self_id w) (prev_log_index e) (prev_log_term e)
          rid commit (Some e)] w
    <| qw_prev_log_term := term e |> <| qw_prev_log_index := index e |>
    <| qw_commit_index := commit |>
    <| qw_pending_append_entries ::= fun p => {[ rid ]} ∪ p |> <| qw_last_heartbeat := now |>.
Proof.
  intros Hc. unfold send_append_entries. rewrite send_message_connected; [done|].
  destruct Hc as (tx & ? & ?). by exists tx.
Qed.

(** C12: Replication of one entry, end to end.  The worker of the leader turns the task into
    one message and from then on announces the entry as the last one; the worker of the
    follower hands the state machine exactly that entry and waits; a follower whose log ends
    at the named predecessor appends it and queues its bytes for persistence; once the
    persistence worker has reported, the follower answers, its worker sends one
    acknowledgement, and the worker of the leader reports it to the leader under the id of
    the task. *)
Theorem replication_round_trip now env rid e commit d n wl wf s :
  connected wl -> worker_ranges wl -> connected wf -> u64 rid -> rid <> 0 -> u64 commit -> parses e -> travels e ->
  recognized (entry_request e (qw_term wl) (qw_self_id wl) rid commit) s ->
  prev_log_index e = last_log_index (volatile_server_state s) ->
  prev_log_term e = last_log_term (volatile_server_state s) ->
  chan_open (persistence_work s) = true -> cb_dropped (callbacks s) = ∅ ->
  let wl1 := process_task now (QT_AppendEntries rid e commit) wl in
  let r := entry_request e (qw_term wl) (qw_self_id wl) rid commit in
  let s1 := (Follower.append_entries env r (qw_next_channel wf) d s).2 in
  exists m wf1 s2 ack wl2,
    outbox wl1 = outbox wl ++ [m] /\ qw_prev_log_index wl1 = index e /\ qw_prev_log_term wl1 = term e /\
    handle_inbound_message m wf = Some wf1 /\
    qw_task_queue wf1 = qw_task_queue wf ++ [mkLocalRaftMessage (RM_AppendEntries r) (qw_next_channel wf)] /\
    qw_pending_tasks wf1 = qw_pending_tasks wf ++
      [mkPendingQuorumTask (qw_next_channel wf) (PQ_AppendEntries rid (index e) (term e))] /\
    replication_log (volatile_server_state s1) = replication_log (volatile_server_state s) ++ [e] /\
    callbacks s1 = callbacks s /\
    chan_queue (persistence_work s1) =
      chan_queue (persistence_work s) ++ [PT_AppendLog (next_message_id s) (as_bytes e) rid] /\
    Follower.process_persistence [PR_LogPersisted (next_message_id s)] n s1 = Some (n + 1, s2) /\
    cb_sent (callbacks s2) = cb_sent (callbacks s) ++ [(qw_next_channel wf, RP_AppendEntries AE_Ok)] /\
    handle_pending_task_response (PQ_AppendEntries rid (index e) (term e)) (RP_AppendEntries AE_Ok) wf1 =
      sent [ack] wf1 /\
    handle_inbound_message ack wl1 = Some wl2 /\
    qw_response_queue wl2 = qw_response_queue wl ++ [QR_AppendEntries rid true].
Proof.
  intros Hcl (Ht & Hself & _) Hcf Hrid Hrid0 Hcommit He Htr Hrec Hpi Hpt Hopen Hdrop wl1 r s1.
  assert (Hwl1 : wl1 = send_append_entries now rid e commit wl) by done.
  rewrite send_append_entries_sent in Hwl1 by done.
  destruct (append_entries_cases env e (qw_term wl) (qw_self_id wl) rid commit (qw_next_channel wf) d s Hrec)
    as (s0 & Hv & Hw & Hcb & Hn & Ho & Heq).
  unfold Follower.validate_append_entries in Heq. rewrite !bool_decide_true in Heq by done. simpl in Heq.
  change (s1 = apply_log_entry r (qw_next_channel wf) s0) in Heq. clearbody s1.
  destruct (apply_log_entry_spec e (qw_term wl) (qw_self_id wl) rid commit (qw_next_channel wf) s0)
    as (Hlog & _ & _ & Hq & Hout & Hcb1 & _); [by apply parses_readable|by rewrite Hw|].
  fold r in Hlog, Hq, Hout, Hcb1. assert (Hr : r = entry_request e (qw_term wl) (qw_self_id wl) rid commit) by done.
  clearbody r. rewrite <- Heq in Hlog, Hq, Hout, Hcb1.
  rewrite Hn, ?Hw in *.
  assert (Hlk : outstanding_messages s1 !! next_message_id s =
    Some (mkOutstandingMessage (next_message_id s) 1 (OM_AppendLog (qw_next_channel wf))))
    by (rewrite Hout; apply lookup_insert_eq).
  eexists _, _, _, _, _. split_and!.
  - by rewrite Hwl1.
  - by rewrite Hwl1.
  - by rewrite Hwl1.
  - by apply append_message_received.
  - by rewrite Hr.
  - done.
  - rewrite Hlog, Hv. done.
  - by rewrite Hcb1.
  - done.
  - simpl. unfold Follower.handle_log_persisted. simpl. rewrite Hlk. simpl.
    rewrite callback_send_ok_eq. reflexivity.
  - simpl. rewrite Hcb1, Hcb. unfold respond. by rewrite Hdrop, decide_False by set_solver.
  - simpl. rewrite send_message_connected; [done|]. destruct Hcf as (tx & ? & ?). by exists tx.
  - apply ack_message_received; [apply term_u64|apply index_u64|done].
  - rewrite Hwl1. unfold on_append_entries_ack. cbn [negb]. by rewrite decide_True.
Qed.

End replication.

(** ** Repair of a lagging follower *)

Section repair.
Context `{CapnpLaws} {B : Type} `{Bus B}.
Implicit Types w : QuorumWorker.
Implicit Types s : SharedState B.

(** Sending changes the connection only. *)
Lemma send_message_frame m w :
  exists tx, (send_message m w).2 = w <| qw_outbound_tx := tx |>.
Proof.
  unfold send_message. destruct (qw_outbound_tx w) as [tx|] eqn:Htx.
  - destruct (send tx m) as [tx'|]; [by exists (Some tx')|]. exists (Some tx).
    destruct w. simpl in *. by rewrite Htx.
  - exists None. destruct w. simpl in *. by rewrite Htx.
Qed.

Lemma send_backfill_loop_frame entries w :
  exists tx, send_backfill_loop entries w = w <| qw_outbound_tx := tx |>.
Proof.
  revert w. induction entries as [|e entries IH]; intros w; simpl.
  - exists (qw_outbound_tx w). by destruct w.
  - match goal with |- context [send_message ?m w] =>
      destruct (send_message_frame m w) as [tx Htx]; destruct (send_message m w) as [[] w'] end;
      simpl in Htx; [|subst w'; by exists tx].
    destruct (IH w') as [tx' ->]. exists tx'. by rewrite Htx.
Qed.

(** A negative answer of the follower's state machine makes its worker send one
    acknowledgement, with the position the state machine asked for or, for an unrecognized
    leader, the position of the refused entry.  The worker of the leader then has a backfill
    in progress, and it asks the leader for one only if none was in progress. *)
Theorem negative_answer_requests_backfill rid i t r wf wl :
  connected wf -> u64 rid -> u64 (append_answer i t r).1.2 -> u64 (append_answer i t r).2 -> r <> AE_Ok ->
  exists ack wl',
    outbox (handle_pending_task_response (PQ_AppendEntries rid i t) (RP_AppendEntries r) wf) =
      outbox wf ++ [ack] /\
    handle_inbound_message ack wl = Some wl' /\ is_Some (qw_ongoing_backfill wl') /\
    qw_response_queue wl' = qw_response_queue wl ++
      match qw_ongoing_backfill wl with
      | None => [QR_BackfillLog (qw_member_id wl) (append_answer i t r).2 (append_answer i t r).1.2]
      | Some _ => []
      end.
Proof.
  intros Hc Hrid Hli Hlt Hr. unfold handle_pending_task_response.
  destruct (append_answer i t r) as [[ok li] lt] eqn:Ha. simpl in Hli, Hlt |- *.
  assert (ok = false) as -> by (destruct r; simpl in Ha; naive_solver).
  eexists _, _. split.
  { rewrite send_message_connected; [|destruct Hc as (tx & ? & ?); destruct r; by exists tx].
    simpl. rewrite outbox_sent. f_equal. by destruct r. }
  split; [by apply ack_message_received|]. unfold on_append_entries_ack. simpl.
  destruct (qw_ongoing_backfill wl) eqn:Hb; simpl; [rewrite Hb, app_nil_r|]; (split; [by eexists|done]).
Qed.

(** C17: While a backfill is in progress the worker does not ask for another one, whatever the
    other node sends, and only a truncate response of that node or a backfill with at least
    one entry ends it. *)
Theorem one_backfill_at_a_time b w :
  qw_ongoing_backfill w = Some b ->
  (forall msg w', handle_inbound_message msg w = Some w' ->
     (forall r, quorum_with_message msg (fun m => m) <> Some (TruncateLogResponse r)) ->
     qw_ongoing_backfill w' = Some b /\
     (forall n t i, QR_BackfillLog n t i ∈ qw_response_queue w' ->
                    QR_BackfillLog n t i ∈ qw_response_queue w)) /\
  (forall now task, (forall data, task = QT_BackfillLog data -> data = []) ->
     qw_ongoing_backfill (process_task now task w) = Some b).
Proof.
  intros Hb. split.
  - intros msg w' Hm Hno. unfold handle_inbound_message in Hm.
    destruct (quorum_with_message msg _) as [m|] eqn:Hq; [|by simplify_eq].
    destruct m as [| |r|r|r|r|r|r|r|r]; simplify_eq/=; try (split; [done|]; set_solver).
    + unfold on_append_entries_request_capnp. destruct (received_entry r) as [[? ?] ?]. split; [done|set_solver].
    + unfold on_append_entries_ack. simpl. rewrite Hb. destruct (ack_ok r); simpl; [|done].
      case_decide; simpl; (split; [done|set_solver]).
    + unfold on_put_batch_request_capnp in Hm. destruct (build_owned_write_batch _); simplify_eq/=.
      split; [done|set_solver].
    + unfold on_put_batch_response_capnp in Hm. case_match; [|by simplify_eq].
      destruct (build_owned_write_batch_response _); simplify_eq/=. split; [done|set_solver].
    + unfold on_truncate_log_request. match goal with |- context [send_message ?m ?x] =>
        destruct (send_message_frame m x) as [tx ->] end. simpl. split; [done|set_solver].
    + by destruct (Hno r).
  - intros now task Hdata. destruct task; simpl; try done;
      unfold send_vote_request, send_append_entries, send_write_batch, send_truncate_log;
      try (match goal with |- context [send_message ?m ?x] =>
             destruct (send_message_frame m x) as [tx ->] end; done).
    by rewrite (Hdata _ eq_refl).
Qed.

(** A follower that refuses an entry it already has is left without repair: the leader
    answers its backfill request with an empty backfill, the worker does nothing with it, so
    the backfill stays in progress and every later refusal of that follower is ignored. *)
Theorem empty_backfill_blocks_repair node s q e now w b rid t i :
  vlast (replication_log (volatile_server_state s)) = Some e -> 0 < term e ->
  vlen (replication_log (volatile_server_state s)) < 2 ^ 64 ->
  quorum_worker_tasks s !! get_quorum_worker_index node (identity s) = Some q ->
  qw_ongoing_backfill w = Some b ->
  (exists s', handle_backfill_request node (term e)
                (vlen (replication_log (volatile_server_state s)) - 1) s = Some s' /\
     quorum_worker_tasks s' !! get_quorum_worker_index node (identity s) =
       Some (q ++ [QT_BackfillLog []])) /\
  process_task now (QT_BackfillLog []) w = w /\
  qw_ongoing_backfill (on_append_entries_ack rid i t false w) = Some b /\
  qw_response_queue (on_append_entries_ack rid i t false w) = qw_response_queue w.
Proof.
  set (l := replication_log (volatile_server_state s)). intros Hlast Ht Hlen Hq Hb.
  assert (Hget : vget l (vlen l - 1) = Some e).
  { unfold vlast in Hlast. apply last_Some in Hlast as [l' ->]. rewrite vlen_app.
    replace (vlen l' + vlen [e] - 1) with (vlen l') by (unfold vlen; simpl; lia). apply vget_app_last. }
  pose proof (vget_lt _ _ _ Hget). split; [|split_and!].
  - unfold handle_backfill_request. fold l. rewrite decide_False by lia. rewrite Hget.
    rewrite decide_False by tauto. unfold send_backfill_data. fold l.
    rewrite decide_False by lia. rewrite u64_add_small by lia.
    replace (vlen l - 1 + 1) with (vlen l) by lia. unfold clone_subset. rewrite decide_True by lia. simpl.
    rewrite Hq. eexists. split; [done|]. simpl. rewrite list_lookup_alter_eq, Hq. simpl.
    by rewrite Nat.sub_diag, take_0.
  - done.
  - unfold on_append_entries_ack. simpl. by rewrite Hb.
  - unfold on_append_entries_ack. simpl. by rewrite Hb.
Qed.

(** A request to truncate is acted on whatever its term and sender are: the worker passes
    it on and confirms it at once, and a follower that works off its queue cuts its log after
    the named entry, also where that removes committed entries. *)
Theorem stale_truncate_removes_committed pt pi t leader rid w s n :
  connected w -> u64 pt -> u64 pi -> u64 t -> u32 leader -> u64 rid ->
  pi + 1 < vlen (replication_log (volatile_server_state s)) -> pi + 1 < 2 ^ 64 ->
  chan_open (persistence_work s) = true ->
  exists msg w' r, msg = build_truncate_log_request_message pt pi t leader rid /\
    handle_inbound_message msg w = Some w' /\
    outbox w' = outbox w ++ [build_truncate_log_response_message rid true] /\
    qw_response_queue w' = qw_response_queue w ++ [r] /\
    replication_log (volatile_server_state (process_quorum [r] n s).2) =
      vtruncate (pi + 1) (replication_log (volatile_server_state s)) /\
    commit_index (volatile_server_state (process_quorum [r] n s).2) =
      commit_index (volatile_server_state s).
Proof.
  intros (tx & Htx & Htxo) Hpt Hpi Ht Hl Hrid Hlt Hpi' Hopen. eexists _, _, _. split; [done|].
  split.
  { unfold handle_inbound_message, build_truncate_log_request_message.
    rewrite quorum_with_message_small by done. reflexivity. }
  simpl. unfold on_truncate_log_request. rewrite send_message_connected by by exists tx.
  split; [done|]. split; [done|]. simpl.
  unfold truncate_log. simpl. rewrite u64_add_small by (unfold u64 in Hpi; lia).
  rewrite decide_True by done. rewrite persistence_send_open by done. done.
Qed.

End repair.

(** ** Answers of the state machine *)

Section pending.
Context {CP : Capnp}.
Implicit Types w : QuorumWorker.
Implicit Types try_recv : Callback -> TryRecv.

(** The task is still waiting for the state machine. *)
Definition waiting try_recv (pt : PendingQuorumTask) : bool :=
  match try_recv (pq_callback pt) with TR_Empty => true | _ => false end.

(** The answer of one task, if there is one. *)
Definition answer_pending try_recv w (pt : PendingQuorumTask) : QuorumWorker :=
  match try_recv (pq_callback pt) with
  | TR_Received r => handle_pending_task_response (pq_task pt) r w
  | _ => w
  end.

(** Positions, from [i], of the tasks that are done. *)
Fixpoint done_positions try_recv (i : nat) (tasks : list PendingQuorumTask) : list nat :=
  match tasks with
  | [] => []
  | pt :: tasks =>
    if waiting try_recv pt then done_positions try_recv (S i) tasks
    else i :: done_positions try_recv (S i) tasks
  end.

Lemma poll_pending_spec try_recv tasks i rm w :
  poll_pending try_recv i tasks rm w =
  (rm ++ done_positions try_recv i tasks, fold_left (answer_pending try_recv) tasks w).
Proof.
  revert i rm w. induction tasks as [|pt tasks IH]; intros i rm w; simpl; [by rewrite app_nil_r|].
  unfold answer_pending at 2, waiting. destruct (try_recv (pq_callback pt)); rewrite IH;
    by rewrite <- ?(assoc_L (++)).
Qed.

Lemma remove_all_app {A} (is1 is2 : list nat) (l : list A) :
  remove_all (is1 ++ is2) l = mbind (remove_all is2) (remove_all is1 l).
Proof.
  revert l. induction is1 as [|i is1 IH]; intros l; simpl; [done|].
  destruct (vec_remove i l); simpl; [apply IH|done].
Qed.

(** Removing the positions in reverse order keeps exactly the waiting tasks. *)
Lemma remove_done try_recv p tasks :
  remove_all (rev (done_positions try_recv (length p) tasks)) (p ++ tasks) =
  Some (p ++ filter (fun pt => waiting try_recv pt = true) tasks).
Proof.
  revert p. induction tasks as [|pt tasks IH]; intros p; simpl.
  { done. }
  specialize (IH (p ++ [pt])). rewrite length_app, Nat.add_1_r in IH. rewrite <- (assoc_L (++)) in IH. simpl in IH.
  destruct (waiting try_recv pt) eqn:Hw.
  - rewrite IH, filter_cons_True by done. by rewrite <- (assoc_L (++)).
  - simpl. rewrite remove_all_app, IH, filter_cons_False by congruence. simpl.
    unfold vec_remove. rewrite decide_True by (rewrite !length_app; simpl; lia). simpl.
    rewrite <- (assoc_L (++)). simpl. by rewrite delete_middle.
Qed.

Lemma answer_pending_tasks try_recv tasks w :
  qw_pending_tasks (fold_left (answer_pending try_recv) tasks w) = qw_pending_tasks w.
Proof.
  revert w. induction tasks as [|pt tasks IH]; intros w; simpl; [done|]. rewrite IH.
  unfold answer_pending, handle_pending_task_response.
  destruct (try_recv (pq_callback pt)) as [r| |]; try done.
  destruct r as [| |ae| |], (pq_task pt); try done; [|destruct ae; simpl|];
    match goal with |- context [send_message ?m ?x] => destruct (send_message_frame m x) as [tx ->] end; done.
Qed.

Lemma process_pending_eq try_recv w :
  process_pending_task_responses try_recv w =
  Some ((fold_left (answer_pending try_recv) (qw_pending_tasks w) w)
          <| qw_pending_tasks := filter (fun pt => waiting try_recv pt = true) (qw_pending_tasks w) |>).
Proof.
  unfold process_pending_task_responses. rewrite poll_pending_spec. simpl.
  pose proof (remove_done try_recv [] (qw_pending_tasks w)) as Hr. simpl in Hr.
  by rewrite answer_pending_tasks, Hr.
Qed.

(** Polling the pending tasks answers those whose callback holds a response, in order,
    and keeps exactly those that still wait; no index of the removal is out of range. *)
Theorem pending_tasks_polled try_recv w :
  process_pending_task_responses try_recv w =
  Some ((fold_left (answer_pending try_recv) (qw_pending_tasks w) w)
          <| qw_pending_tasks := filter (fun pt => waiting try_recv pt = true) (qw_pending_tasks w) |>).
Proof. apply process_pending_eq. Qed.

End pending.

(** ** Totality *)

Section total.
Context `{CapnpLaws}.
Implicit Types w : QuorumWorker.

Lemma from_remote_put_built r : u32 (rp_node_id r) -> put_request_built (from_remote_put r).
Proof. intros. split_and!; simpl; first [done|by eexists]. Qed.

Lemma quorum_with_message_ranges msg m :
  quorum_with_message msg (fun m => m) = Some m -> quorum_message_ranges m.
Proof.
  unfold quorum_with_message. destruct (read_message_from_flat_slice _) as [[r rest]|]; [|done].
  destruct (quorum_message_root r) eqn:Hr; [|done]. intros. simplify_eq. by eapply quorum_message_root_ranges.
Qed.

(** The batch and the response a worker builds of a message it has received are small enough
    to be read; the code builds them with [expect]. *)
Definition rebuilds (msg : OwnedQuorumMessage) : Prop :=
  match quorum_with_message msg id with
  | Some (PutBatchRequest r) =>
    write_batch_words (mkInternalWriteBatch (Some (text_or_empty (rb_batch_id r)))
      (Some (from_remote_put <$> default [] (rb_put_requests r)))) <= traversal_limit_in_words
  | Some (PutBatchResponse r) =>
    write_batch_response_words (mkInternalWriteBatchResponse
      (Some (copy_put_response <$> default [] (rr_responses r)))
      (Some (text_or_empty (rr_batch_id r)))) <= traversal_limit_in_words
  | _ => True
  end.

(** The messages an iteration may receive. *)
Definition received (inbound : option Receiver) w : list OwnedQuorumMessage :=
  match qw_inbound_rx w with
  | Some rx => rx_queue rx
  | None => match inbound with Some rx => rx_queue rx | None => [] end
  end.

Lemma handle_inbound_total msg w : rebuilds msg -> is_Some (handle_inbound_message msg w).
Proof.
  unfold handle_inbound_message, rebuilds. destruct (quorum_with_message msg _) as [m|] eqn:Hq; [|by eexists].
  intros Hfit.
  apply quorum_with_message_ranges in Hq. destruct m; simpl in Hq; try by eexists.
  - unfold on_put_batch_request_capnp. rewrite build_owned_write_batch_ok; [by eexists|].
    apply write_batch_small_built; [|done]. split; [by eexists|]. eexists. split; [done|].
    eapply Forall_fmap_built; [|done]. intros. by apply from_remote_put_built.
  - unfold on_put_batch_response_capnp. case_match; [|by eexists].
    rewrite build_owned_write_batch_response_ok; [by eexists|].
    apply write_batch_response_small_built; [|done]. split; [by eexists|]. eexists. split; [done|].
    eapply Forall_fmap_built; [|done]. intros. by apply copy_put_response_built.
Qed.

Lemma handle_messages_total msgs w : Forall rebuilds msgs -> is_Some (handle_messages msgs w).
Proof.
  intros Hall. revert w. induction Hall as [|m msgs Hm Hall IH]; intros w; simpl; [by eexists|].
  destruct (handle_inbound_total m w Hm) as [w' ->]. simpl. apply IH.
Qed.

Lemma collect_messages_front n rx ms ms' dis rx' :
  collect_messages n rx ms = (ms', dis, rx') -> exists new, ms' = ms ++ new /\ new `prefix_of` rx_queue rx.
Proof.
  revert rx ms. induction n as [|n IH]; intros rx ms; simpl.
  { intros [= <- _ _]. exists []. split; [by rewrite app_nil_r|apply prefix_nil]. }
  destruct (rx_queue rx) as [|m rest] eqn:Hq.
  { intros Heq. exists []. rewrite app_nil_r. split; [by destruct (rx_connected rx); simplify_eq|apply prefix_nil]. }
  intros (new & -> & Hp)%IH. exists (m :: new). split; [by rewrite <- (assoc_L (++))|by apply prefix_cons].
Qed.

(** Connecting changes neither what has been received nor takes any of it. *)
Lemma ensure_received has_outbound connect inbound w ok w1 :
  ensure_connections has_outbound connect inbound w = (ok, w1) ->
  forall rx, qw_inbound_rx w1 = Some rx -> rx_queue rx = received inbound w.
Proof.
  unfold ensure_connections, received. intros Heq rx Hrx.
  destruct w as [? ? ? ? ? ? ? ? ? ? ? ? ? ? ? tx rxo ? ? ?]; simpl in *.
  repeat (case_match; simplify_eq/=; try done).
Qed.

(** C32: One iteration of a worker does not panic, whatever bytes the other node sends,
    whatever the state machine answers, the connection does and the clock shows, with one
    exception: a batch or a batch response that is larger than the limit of the reader, once
    it has been built again from the message it came in, is not read back. *)
Theorem run_iteration_total has_outbound connect inbound try_recv now w :
  Forall rebuilds (received inbound w) ->
  is_Some (run_iteration has_outbound connect inbound try_recv now w).
Proof.
  intros Hall. unfold run_iteration.
  destruct (ensure_connections _ _ _ _) as [[] w1] eqn:Hens; simpl; [|by eexists].
  assert (is_Some (process_incoming_messages w1)) as [w2 ->].
  { unfold process_incoming_messages. destruct (qw_inbound_rx w1) as [rx|] eqn:Hrx; [|by eexists].
    destruct (collect_messages _ rx []) as [[ms dis] rx'] eqn:Hc. apply handle_messages_total.
    apply collect_messages_front in Hc as (new & -> & [rest Hp]). rewrite (ensure_received _ _ _ _ _ _ Hens _ Hrx) in Hp.
    rewrite Hp in Hall. by apply Forall_app in Hall as [Hall _]. }
  cbn [mbind option_bind]. rewrite process_pending_eq. by eexists.
Qed.

End total.

(** ** Order of messages *)

Section order.
Context {CP : Capnp}.
Implicit Types w : QuorumWorker.

(** A task that replicates one entry. *)
Record Replicate := mkReplicate { rp_request : Z; rp_entry : OwnedLogEntry; rp_commit : Z }.

Definition replicate_task (r : Replicate) : LocalQuorumWorkerTaskType :=
  QT_AppendEntries (rp_request r) (rp_entry r) (rp_commit r).

Definition replicate_message w (r : Replicate) : OwnedQuorumMessage :=
  build_append_entries_message (qw_term w) (qw_self_id w) (prev_log_index (rp_entry r))
    (prev_log_term (rp_entry r)) (rp_request r) (rp_commit r) (Some (rp_entry r)).

Lemma process_replicate now r w :
  connected w ->
  let w' := process_task now (replicate_task r) w in
  outbox w' = outbox w ++ [replicate_message w r] /\ qw_work_queue w' = qw_work_queue w /\
  connected w' /\ (forall r', replicate_message w' r' = replicate_message w r').
Proof.
  intros Hc w'. assert (Hw : w' = send_append_entries now (rp_request r) (rp_entry r) (rp_commit r) w) by done.
  rewrite send_append_entries_sent in Hw by done. rewrite Hw. split_and!; try done. by eexists.
Qed.

Lemma work_loop_replicates now n rs rest w :
  connected w -> qw_work_queue w = (replicate_task <$> rs) ++ rest -> (length rs <= n)%nat ->
  (rest = [] \/ length rs = n) ->
  outbox (work_loop now n w) = outbox w ++ (replicate_message w <$> rs) /\
  qw_work_queue (work_loop now n w) = rest.
Proof.
  revert rs w. induction n as [|n IH]; intros rs w Hc Hq Hle Hend.
  { destruct rs; simpl in *; [|lia]. by rewrite app_nil_r. }
  destruct rs as [|r rs]; cbn [work_loop].
  { simpl in *. destruct Hend as [->|?]; [|done]. rewrite Hq. by rewrite app_nil_r. }
  rewrite fmap_cons in Hq. simpl in Hle, Hend. rewrite Hq. cbn [app].
  match goal with |- context [process_task _ _ ?x] => set (w0 := x) end.
  destruct (process_replicate (now n) r w0) as (Ho & Hq0 & Hc0 & Hm); [done|].
  destruct (IH rs (process_task (now n) (replicate_task r) w0)) as [Ho' Hq'];
    [done|by rewrite Hq0|lia|destruct Hend; [by left|right; lia]|].
  split; [|done]. rewrite Ho', Ho, fmap_cons, <- (assoc_L (++)). simpl. do 2 f_equal.
  apply list_fmap_ext. intros. by rewrite Hm.
Qed.

(** The worker sends the entries it is given in the order of its tasks, one message per
    entry, at most [MAX_MESSAGES_PER_ITERATION] of them per iteration, and keeps the rest of
    its queue for the next one. *)
Theorem entries_sent_in_order now rs rest w :
  connected w -> qw_work_queue w = (replicate_task <$> rs) ++ rest ->
  (length rs <= MAX_MESSAGES_PER_ITERATION)%nat ->
  (rest = [] \/ length rs = MAX_MESSAGES_PER_ITERATION) ->
  let w' := process_work_queue now w in
  outbox w' = outbox w ++ (replicate_message w <$> rs) /\ qw_work_queue w' = rest.
Proof. apply work_loop_replicates. Qed.

(** A heartbeat is sent exactly when heartbeats are on and the last message is at least
    100 ms old, also when the clock has gone back; it names the last position the worker has
    sent and the commit index, so a follower can tell whether it is behind. *)
Theorem heartbeat_sent_when_due now w :
  connected w ->
  let due := qw_send_heartbeats w &&
    bool_decide (HEARTBEAT_INTERVAL_MS <= u128_sub now (qw_last_heartbeat w)) in
  outbox (send_heartbeat_if_needed now w) = outbox w ++
    (if due then [build_heartbeat_message (qw_term w) (qw_self_id w) (qw_prev_log_index w)
                    (qw_prev_log_term w) (qw_commit_index w) 0] else []) /\
  qw_last_heartbeat (send_heartbeat_if_needed now w) = if due then now else qw_last_heartbeat w.
Proof.
  intros Hc. unfold send_heartbeat_if_needed. simpl.
  destruct (qw_send_heartbeats w); simpl; [|by rewrite app_nil_r].
  case_decide; [rewrite bool_decide_false by lia; simpl; by rewrite app_nil_r|].
  rewrite bool_decide_true by lia. simpl.
  rewrite send_message_connected by (destruct Hc as (tx & ? & ?); by exists tx). done.
Qed.

End order.

(** ** Forwarded writes *)

Section forwarding.
Context `{CapnpLaws}.
Implicit Types w : QuorumWorker.

(** A request as the leader gets it when another node forwards it. *)
Definition forwarded_put (r : InternalPutRequest) : InternalPutRequest :=
  mkInternalPutRequest (put_id r) (from_utf8_lossy <$> put_payload r) (put_node_id r).

Definition forwarded_batch (b : InternalWriteBatch) : InternalWriteBatch :=
  mkInternalWriteBatch (wb_batch_id b) (map forwarded_put <$> wb_requests b).

Definition payload_utf8 (r : InternalPutRequest) : Prop :=
  forall p, put_payload r = Some p -> utf8_valid p = true.

Lemma from_to_remote_put r : put_request_built r -> from_remote_put (to_remote_put r) = forwarded_put r.
Proof. intros ([i Hi] & [p Hp] & _). destruct r; simpl in *. by subst. Qed.

Lemma to_remote_put_built r :
  put_request_built r -> u32 (rp_node_id (to_remote_put r)) /\ remote_put_pointers (to_remote_put r).
Proof. intros (_ & _ & Hn). split; [done|]. split; by eexists. Qed.

Lemma forwarded_words rs : Forall put_request_built rs ->
  sum_words remote_put_words (to_remote_put <$> rs) = sum_words put_request_words (map forwarded_put rs).
Proof.
  induction 1 as [|r rs (_ & [p Hp] & _) _ IH]; [done|]. rewrite fmap_cons. simpl. rewrite IH.
  unfold remote_put_words, put_request_words, blob_words. simpl. by rewrite Hp.
Qed.

Lemma forwarded_put_id r : forwarded_put r = r <-> payload_utf8 r.
Proof.
  unfold forwarded_put, payload_utf8. destruct r as [i [p|] n]; simpl; [|naive_solver].
  split.
  - intros Heq p' ?. simplify_eq. assert (Hl : from_utf8_lossy p' = p') by congruence. rewrite <- Hl.
    apply from_utf8_lossy_utf8.
  - intros Hp. by rewrite from_utf8_lossy_valid_id by (by apply Hp).
Qed.

Lemma forwarded_batch_id b rs :
  wb_requests b = Some rs -> forwarded_batch b = b <-> Forall payload_utf8 rs.
Proof.
  intros Hrs. unfold forwarded_batch. destruct b as [i rqs]. simpl in *. subst rqs. simpl. split.
  - intros Heq. injection Heq as Hm.
    induction rs as [|r rs IH]; [constructor|]. simpl in Hm. injection Hm as Hr Hm.
    constructor; [by apply forwarded_put_id|by apply IH].
  - intros Hall. do 2 f_equal. induction Hall as [|r rs Hr Hall IH]; [done|].
    simpl. f_equal; [by apply forwarded_put_id|done].
Qed.

(** C29: A batch forwarded to the leader registers its callback under the batch id, travels as
    one message, and is handed to the leader's state machine with the same id, keys and
    nodes, in order; the payloads have gone through a lossy UTF-8 conversion, so the batch
    arrives unchanged if and only if every payload is valid UTF-8. *)
Theorem put_batch_forwarded b rs wb w1 w2 :
  connected w1 -> write_message wb = mkOwnedWriteBatch (write_write_batch b) -> write_batch_built b ->
  wb_batch_id b = Some (write_batch_id wb) -> utf8_valid (write_batch_id wb) = true ->
  wb_requests b = Some rs -> 16 + write_batch_words (forwarded_batch b) <= traversal_limit_in_words ->
  exists msg,
    outbox (send_write_batch wb w1) = outbox w1 ++ [msg] /\
    qw_pending_write_batches (send_write_batch wb w1) =
      <[write_batch_id wb := write_callback wb]> (qw_pending_write_batches w1) /\
    handle_inbound_message msg w2 =
      Some (ask_state_machine (RM_WriteBatch (mkOwnedWriteBatch (write_write_batch (forwarded_batch b))))
              (PQ_PutBatch (write_batch_id wb)) w2) /\
    (forwarded_batch b = b <-> Forall payload_utf8 rs).
Proof.
  intros Hc Hm Hb Hid Hutf Hrs Hfit. destruct (Hb) as ((_ & rs' & Hrs' & Hall) & _). simplify_eq.
  unfold write_batch_words, forwarded_batch in Hfit. rewrite Hrs in Hfit. simpl in Hfit.
  unfold send_write_batch. rewrite send_message_connected by (destruct Hc as (tx & ? & ?); by exists tx).
  eexists. split_and!; [done|done| |by apply forwarded_batch_id].
  unfold handle_inbound_message, build_put_batch_request_message.
  rewrite Hm, batch_with_message_written by done. simpl. rewrite Hid, Hrs. simpl.
  rewrite quorum_with_message_small; last first.
  { unfold quorum_message_words. simpl. rewrite forwarded_words by done. rewrite Hid in Hfit. simpl in *. lia. }
  { split; simpl.
    - eapply Forall_fmap_built; [|exact Hall]. intros r Hr. by apply to_remote_put_built.
    - split; [by eexists|]. eexists. split; [done|].
      eapply Forall_fmap_built; [|exact Hall]. intros r Hr. by apply to_remote_put_built. }
  unfold on_put_batch_request_capnp, text_or_empty. simpl. unfold to_str. rewrite Hutf. simpl.
  assert (Hmap : from_remote_put <$> (to_remote_put <$> rs) = forwarded_put <$> rs).
  { rewrite <- list_fmap_compose. clear -Hall. induction Hall as [|r rs Hr Hall IH]; [done|].
    rewrite !fmap_cons, IH. f_equal. by apply from_to_remote_put. }
  rewrite Hmap, build_owned_write_batch_ok.
  - simpl. unfold forwarded_batch. by rewrite Hid, Hrs.
  - apply write_batch_small_built.
    2: { unfold write_batch_words. simpl. rewrite Hid in Hfit. simpl in Hfit.
         change (forwarded_put <$> rs) with (map forwarded_put rs). lia. }
    split; [by eexists|]. eexists. split; [done|].
    eapply Forall_fmap_built; [|exact Hall]. intros r (Hi & [p Hp] & Hn). split_and!; [done| |done].
    simpl. rewrite Hp. by eexists.
Qed.

(** The answer to a forwarded batch finds its way back: the responses of the leader's
    state machine travel under the id of the batch, and the node that forwarded it answers
    the callback registered under that id, once.  The error of the leader does not travel:
    the answer has status [Ok] whatever it was. *)
Theorem forwarded_answer_returns id cb r rs err w1 w2 :
  connected w2 -> qw_pending_write_batches w1 !! id = Some cb -> utf8_valid id = true ->
  write_batch_response_built r -> wr_responses r = Some rs ->
  32 + blob_words (Some id) + sum_words put_response_words rs <= traversal_limit_in_words ->
  exists msg w1',
    outbox (handle_pending_task_response (PQ_PutBatch id)
              (RP_WriteBatch (mkLocalRaftWriteBatchResponse
                 (mkOwnedWriteBatchResponse (write_write_batch_response r)) err)) w2) =
      outbox w2 ++ [msg] /\
    handle_inbound_message msg w1 = Some w1' /\
    qw_pending_write_batches w1' = delete id (qw_pending_write_batches w1) /\
    qw_write_responses w1' = qw_write_responses w1 ++
      [(cb, mkWriteResponse (mkOwnedWriteBatchResponse (write_write_batch_response
              (mkInternalWriteBatchResponse (Some rs) (Some id)))) WS_Ok)].
Proof.
  intros Hc Hcb Hutf Hr Hrs Hfit. destruct (Hr) as ((Hbid & rs' & ? & Hall) & _). simplify_eq.
  pose proof (copy_put_responses_id rs Hall) as Hcopy.
  simpl. rewrite send_message_connected by done. eexists _, _. split; [done|].
  unfold handle_inbound_message, build_put_batch_response_message.
  rewrite response_with_message_written by done. simpl. rewrite Hrs. simpl. rewrite Hcopy.
  rewrite quorum_with_message_small; last first.
  { unfold quorum_message_words. simpl. lia. }
  { split; simpl.
    - revert Hall. apply Forall_impl. by intros p (_ & _ & _ & ? & _).
    - split; [by eexists|]. exists rs. split; [done|].
      revert Hall. apply Forall_impl. by intros p (? & ? & ? & _ & ?). }
  unfold on_put_batch_response_capnp, text_or_empty. simpl. unfold to_str. rewrite Hutf. simpl.
  rewrite Hcb, Hcopy. rewrite build_owned_write_batch_response_ok; [done|].
  apply write_batch_response_small_built; [|unfold write_batch_response_words; simpl; lia].
  split; [by eexists|]. by exists rs.
Qed.

End forwarding.

(** ** Concrete runs *)

(** The worker of node 2, the leader of term 1, and the one of the follower that talks to it. *)
Definition leader_worker : QuorumWorker :=
  (QuorumWorker_new 2 0 1 1048576) <| qw_outbound_tx := Some (mkSender true []) |> <| qw_term := 1 |>.

Definition follower_worker : QuorumWorker :=
  (QuorumWorker_new 1 0 2 1048576) <| qw_outbound_tx := Some (mkSender true []) |>.

Lemma workers_connected : connected leader_worker /\ connected follower_worker.
Proof. split; by eexists. Qed.

Lemma replication_round_trip_witness :
  exists m wf1, outbox (process_task 1000 (QT_AppendEntries 9 (sample_entry 1 1 0 1 2) 0) leader_worker) = [m] /\
    handle_inbound_message m follower_worker = Some wf1 /\ length (qw_task_queue wf1) = 1%nat.
Proof.
  destruct workers_connected as [Hl Hf].
  destruct (replication_round_trip 1000 sample_env 9 (sample_entry 1 1 0 1 2) 0 sample_delegate 0
    leader_worker follower_worker sample_follower Hl) as (m & wf1 & s2 & ack & wl2 & Ho & _ & _ & Hm & Hq & _).
  - unfold worker_ranges, u64, u32. simpl. lia.
  - exact Hf.
  - unfold u64. lia.
  - lia.
  - unfold u64. lia.
  - by eexists.
  - by vm_compute.
  - right. split; [reflexivity|done].
  - reflexivity.
  - reflexivity.
  - reflexivity.
  - reflexivity.
  - exists m, wf1. split_and!; [exact Ho|exact Hm|]. by rewrite Hq.
Defined.

Lemma negative_answer_requests_backfill_witness :
  exists ack wl', handle_inbound_message ack leader_worker = Some wl' /\
    qw_response_queue wl' = [QR_BackfillLog 1 1 0].
Proof.
  destruct workers_connected as [_ Hf].
  destruct (negative_answer_requests_backfill 9 3 1 (AE_WantedPreviousEntry 1 0) follower_worker
    leader_worker Hf) as (ack & wl' & _ & Hm & _ & Hq); [unfold u64; simpl; lia..|done|].
  exists ack, wl'. split; [exact Hm|exact Hq].
Defined.

Definition repairing_worker : QuorumWorker :=
  leader_worker <| qw_ongoing_backfill := Some (mkOngoingBackfill 1 0) |>.

Lemma one_backfill_at_a_time_witness :
  qw_ongoing_backfill (process_task 1000 (QT_BackfillLog []) repairing_worker) = Some (mkOngoingBackfill 1 0).
Proof.
  apply (one_backfill_at_a_time (mkOngoingBackfill 1 0) repairing_worker); [reflexivity|].
  intros data Hd. by simplify_eq.
Defined.

Lemma empty_backfill_blocks_repair_witness :
  qw_response_queue (on_append_entries_ack 9 0 1 false repairing_worker) = [].
Proof.
  apply (empty_backfill_blocks_repair 2 (sample_leader []) [] (sample_entry 1 1 0 1 2) 1000
    repairing_worker (mkOngoingBackfill 1 0) 9 1 0); [reflexivity|vm_compute; done|vm_compute; done|reflexivity|reflexivity].
Defined.

Lemma stale_truncate_removes_committed_witness :
  exists msg w', handle_inbound_message msg follower_worker = Some w' /\
    outbox w' = [build_truncate_log_response_message 7 true].
Proof.
  destruct workers_connected as [_ Hf].
  destruct (stale_truncate_removes_committed 0 0 0 3 7 follower_worker
    (sample_leader []) 0 Hf) as (msg & w' & r & _ & Hm & Ho & _);
    [unfold u64, u32; lia..|vm_compute; done|lia|reflexivity|].
  exists msg, w'. split; [exact Hm|exact Ho].
Defined.

(** Bytes that are no message, and a batch. *)
Definition batch_and_garbage : Receiver :=
  mkReceiver [mkOwnedQuorumMessage [Init.Byte.xff];
              build_put_batch_request_message (mkOwnedWriteBatch (write_write_batch sample_batch))] true.

Lemma run_iteration_total_witness :
  is_Some (run_iteration true None (Some batch_and_garbage) (fun _ => TR_Empty) (fun _ => 1000) follower_worker).
Proof. apply run_iteration_total. apply Forall_cons; [done|]. apply Forall_singleton. by vm_compute. Defined.

Lemma entries_sent_in_order_witness :
  let rs := [mkReplicate 8 (sample_entry 0 1 0 0 1) 0; mkReplicate 9 (sample_entry 1 1 0 1 2) 0] in
  length (outbox (process_work_queue (fun _ => 1000)
    (leader_worker <| qw_work_queue := replicate_task <$> rs |>))) = 2%nat.
Proof.
  intros rs. destruct (entries_sent_in_order (fun _ => 1000) rs []
    (leader_worker <| qw_work_queue := replicate_task <$> rs |>)) as [-> _];
    [by eexists|done|unfold MAX_MESSAGES_PER_ITERATION; simpl; lia|by left|]. reflexivity.
Defined.

Lemma heartbeat_sent_when_due_witness :
  length (outbox (send_heartbeat_if_needed 1000 (leader_worker <| qw_send_heartbeats := true |>))) = 1%nat.
Proof.
  destruct (heartbeat_sent_when_due 1000 (leader_worker <| qw_send_heartbeats := true |>)) as [-> _];
    [by eexists|]. reflexivity.
Defined.

(** A payload of one byte that is not UTF-8. *)
Definition binary_batch : InternalWriteBatch :=
  mkInternalWriteBatch (Some [Init.Byte.x62])
    (Some [mkInternalPutRequest (Some [Init.Byte.x6b]) (Some [Init.Byte.xff]) 1]).

Lemma put_batch_forwarded_witness :
  forwarded_batch binary_batch <> binary_batch /\
  exists msg, outbox (send_write_batch (mkWriteBatch [Init.Byte.x62]
      (mkOwnedWriteBatch (write_write_batch binary_batch)) 4%nat) follower_worker) = [msg].
Proof.
  destruct workers_connected as [_ Hf].
  destruct (put_batch_forwarded binary_batch [mkInternalPutRequest (Some [Init.Byte.x6b]) (Some [Init.Byte.xff]) 1]
    (mkWriteBatch [Init.Byte.x62] (mkOwnedWriteBatch (write_write_batch binary_batch)) 4%nat)
    follower_worker leader_worker Hf) as (msg & Ho & _ & _ & Hiff); try reflexivity.
  { apply write_batch_small_built; [|by vm_compute].
    split; [by eexists|]. eexists. split; [reflexivity|]. constructor; [|constructor].
    split_and!; [by eexists..|simpl; unfold u32; lia]. }
  { by vm_compute. }
  split; [|by exists msg]. rewrite Hiff. intros Hall.
  apply Forall_inv in Hall. specialize (Hall _ eq_refl). vm_compute in Hall. done.
Defined.

Lemma forwarded_answer_returns_witness :
  exists msg w1', handle_inbound_message msg
      (follower_worker <| qw_pending_write_batches := {[ [Init.Byte.x62] := 4%nat ]} |>) = Some w1' /\
    length (qw_write_responses w1') = 1%nat.
Proof.
  destruct workers_connected as [Hl _].
  destruct (forwarded_answer_returns [Init.Byte.x62] 4%nat empty_response [] (Some "Empty write batch request"%string)
    (follower_worker <| qw_pending_write_batches := {[ [Init.Byte.x62] := 4%nat ]} |>) leader_worker Hl)
    as (msg & w1' & _ & Hm & _ & Hw); [reflexivity..|apply empty_response_built|reflexivity|by vm_compute|].
  exists msg, w1'. split; [exact Hm|]. by rewrite Hw.
Defined.
