(* ===== verification/ClusterRuns.v ===== *)
(** * Runs of a cluster

    Concrete executions of several nodes started by [start_node] without files: the instances
    of the theorems of [ClusterLog.v], [ClusterCrash.v] and [LeaderCommit.v], and what happens
    without the conditions that the code does not establish. *)
From stdpp Require Import strings.
From S2P Require Import Prelude Capnp CapnpInstance RaftTypes Bus Samples Persistence PersistenceSpec RaftSm LogModel.
From S2P Require Import QuorumMessage QuorumWorker QuorumWorkerSpec.
From S2P Require Import Follower FollowerSpec Leader LeaderSpec Candidate Executor Safety NodeTypes NodeLog ClusterLog.
From S2P Require Import Startup StartupSpec NodeDurability ClusterCrash LeaderCommit.

(** Node [id] of a cluster of three. *)
Definition fresh_pair (id : Z) : StateMachineExecutorImpl ScriptedBus * PersistenceWorker :=
  match start_node [] [] [1; 2; 3] id 1048576 empty_bus with
  | Some (s, w) => (StateMachineExecutorImpl_new (late_env 0) s, w)
  | None => (started_node, new_worker)
  end.

Definition fresh (id : Z) : StateMachineExecutorImpl ScriptedBus := (fresh_pair id).1.

Definition fresh_cluster : Cluster ScriptedBus := mkCluster [fresh 1; fresh 2] [] ∅.

Definition fresh_disks : Disks ScriptedBus := mkDisks fresh_cluster [(fresh_pair 1).2; (fresh_pair 2).2].

Lemma fresh_pair_node id :
  u32 id -> match start_node [] [] [1; 2; 3] id 1048576 empty_bus with Some _ => true | None => false end = true ->
  fresh_node (fresh_pair id).1 (fresh_pair id).2.
Proof.
  intros Hid. unfold fresh_pair. destruct (start_node _ _ _ _ _ _) as [[s w]|] eqn:Hs; [|done]. intros _.
  by exists [1; 2; 3], id, 1048576, empty_bus, (late_env 0), s.
Qed.

Lemma fresh_disks_start : disks_start fresh_disks.
Proof.
  split_and!; [|reflexivity..]. constructor; [|constructor; [|constructor]];
    (apply fresh_pair_node; [unfold u32; lia|vm_compute; reflexivity]).
Qed.

Lemma fresh_cluster_starts : cluster_start fresh_cluster.
Proof. eapply fresh_nodes_start. apply fresh_disks_start. Qed.

(** Node 1 is elected for term 1 and appends its first entry, which node 2 takes. *)
Definition ev (e : event) : cluster_event := CE_Event e.

Definition replication_script : list (nat * cluster_event) :=
  [ (0, ev (Ev_Tick (late_env 10000)));
    (0, ev (Ev_Tick (late_env 10001)));
    (0, ev (Ev_Persisted (PR_VotePersisted 0 1 1)));
    (0, ev (Ev_Tick (late_env 10002)));
    (0, ev (Ev_Quorum (QR_RequestVoteResponse 0 1 true)));
    (0, ev (Ev_Tick (late_env 10003)));
    (0, ev (Ev_Tick (late_env 10004)));
    (1, CE_Entry (late_env 10005) 0 1 1 2 0 4%nat) ]%nat.

Definition replicated : Cluster ScriptedBus := after_script replication_script fresh_cluster.

Lemma replicated_reached : rtc cluster_step fresh_cluster replicated.
Proof. apply after_script_steps. vm_compute. reflexivity. Qed.

(** The leader takes a batch; node 2 has not got the second entry yet. *)
Definition put_batch : LocalRaftMessage :=
  mkLocalRaftMessage (RM_WriteBatch (mkOwnedWriteBatch (write_write_batch sample_batch))) 5%nat.

Definition behind : Cluster ScriptedBus := after_script [(0%nat, ev (Ev_Message (late_env 10006) put_batch))] replicated.

Lemma behind_reached : rtc cluster_step replicated behind.
Proof. apply after_script_steps. vm_compute. reflexivity. Qed.

Definition node_of (n : nat) (c : Cluster ScriptedBus) : StateMachineExecutorImpl ScriptedBus :=
  default started_node (nodes c !! n).

Definition log_of (n : nat) (c : Cluster ScriptedBus) : list OwnedLogEntry :=
  replication_log (volatile_server_state (shared_state (node_of n c))).

Definition entry_of (n : nat) (i : Z) (c : Cluster ScriptedBus) : OwnedLogEntry :=
  default (mkOwnedLogEntry []) (vget (log_of n c) i).

Lemma log_matching_witness :
  vtruncate (0 + 1) (log_of 1 replicated) = vtruncate (0 + 1) (log_of 0 behind) /\ vlen (log_of 0 behind) = 2.
Proof.
  split; [|vm_compute; reflexivity].
  apply (log_matching fresh_cluster replicated behind 1 0 (node_of 1 replicated) (node_of 0 behind) 0
    (entry_of 1 0 replicated) (entry_of 0 0 behind)).
  - exact fresh_cluster_starts.
  - exact replicated_reached.
  - exact behind_reached.
  - vm_compute. reflexivity.
  - vm_compute. reflexivity.
  - vm_compute. reflexivity.
  - vm_compute. reflexivity.
  - vm_compute. reflexivity.
Defined.

Lemma leader_holds_its_term_witness :
  is_leader (node_of 0 behind) = true /\ vtruncate (0 + 1) (log_of 1 behind) `prefix_of` log_of 0 behind.
Proof.
  assert (Hl : is_leader (node_of 0 behind) = true) by (vm_compute; reflexivity). split; [exact Hl|].
  apply (leader_holds_its_term fresh_cluster behind 0 (node_of 0 behind) fresh_cluster_starts) with (m := 1%nat)
    (y := node_of 1 behind) (e := entry_of 1 0 behind).
  - etrans; [exact replicated_reached|exact behind_reached].
  - vm_compute. reflexivity.
  - exact Hl.
  - vm_compute. reflexivity.
  - vm_compute. reflexivity.
  - vm_compute. reflexivity.
Defined.

Lemma repair_task_fits_witness :
  exists task q s', handle_backfill_request 2 1 0 (shared_state (node_of 0 behind)) = Some s' /\
    quorum_worker_tasks s' !! 0%nat = Some (q ++ [task]).
Proof.
  assert (Hs : exists s', handle_backfill_request 2 1 0 (shared_state (node_of 0 behind)) = Some s').
  { eexists. vm_compute. reflexivity. }
  assert (Hq : exists q, quorum_worker_tasks (shared_state (node_of 0 behind)) !! 0%nat = Some q).
  { eexists. vm_compute. reflexivity. }
  destruct Hs as [s' Hs]. destruct Hq as [q Hq].
  destruct (repair_task_fits fresh_cluster behind 0 1 (node_of 0 behind) (node_of 1 behind) 2 q s') as (task & Ht & _).
  - exact fresh_cluster_starts.
  - etrans; [exact replicated_reached|exact behind_reached].
  - vm_compute. reflexivity.
  - vm_compute. reflexivity.
  - vm_compute. reflexivity.
  - exact Hq.
  - exact Hs.
  - exists task, q, s'. split; [exact Hs|exact Ht].
Defined.

(** ** A crash

    As above, but with the disks: the worker of node 1 persists its vote, and the worker of
    node 2 has taken the first entry without flushing it when node 2 stops. *)

Definition live (e : event) : disk_event := DE_Live (CE_Event e).

Definition before_crash_script : list (nat * disk_event) :=
  [ (0, live (Ev_Tick (late_env 10000)));
    (0, live (Ev_Tick (late_env 10001)));
    (0, DE_Task);
    (0, live (Ev_Tick (late_env 10002)));
    (0, live (Ev_Quorum (QR_RequestVoteResponse 0 1 true)));
    (0, live (Ev_Tick (late_env 10003)));
    (0, live (Ev_Tick (late_env 10004)));
    (0, DE_Task);
    (1, DE_Live (CE_Entry (late_env 10005) 0 1 1 2 0 4));
    (1, DE_Task) ]%nat.

Definition before_crash : Disks ScriptedBus := after_disks before_crash_script fresh_disks.

Lemma before_crash_reached : rtc disks_step fresh_disks before_crash.
Proof. apply after_disks_steps. vm_compute. reflexivity. Qed.

(** Node 2 starts again from its empty file. *)
Definition after_crash : Disks ScriptedBus :=
  mkDisks (moved 1 (node_of 1 (machines before_crash)) (fresh 2) (machines before_crash))
    (<[1%nat := (fresh_pair 2).2]> (disks before_crash)).

Definition disk_of (n : nat) (D : Disks ScriptedBus) : PersistenceWorker := default new_worker (disks D !! n).

Lemma after_crash_reached : rtc disks_step before_crash after_crash.
Proof.
  apply rtc_once. apply (disks_move _ 1 (node_of 1 (machines before_crash)) (disk_of 1 before_crash)).
  - vm_compute. reflexivity.
  - vm_compute. reflexivity.
  - unfold fresh. destruct (fresh_pair 2) as [x w] eqn:Hf.
    assert (exists s, start_node [] [] [1; 2; 3] 2 1048576 empty_bus = Some (s, w) /\ x = StateMachineExecutorImpl_new (late_env 0) s)
      as (s & Hs & ->).
    { unfold fresh_pair in Hf. destruct (start_node _ _ _ _ _ _) as [[s w']|] eqn:Hs; [|by vm_compute in Hs].
      exists s. by simplify_eq. }
    apply (disk_crash _ _ _ [] [1; 2; 3] 1048576 empty_bus (late_env 0) s w).
    + exists []. vm_compute. reflexivity.
    + apply prefix_nil.
    + by exists [].
    + etrans; [|exact Hs]. f_equal; vm_compute; reflexivity.
  - vm_compute. reflexivity.
  - intros He. vm_compute in He. discriminate.
Qed.

(** The entry arrives again; the leader takes a batch. *)
Definition restored : Disks ScriptedBus :=
  after_disks [ (1, DE_Live (CE_Entry (late_env 10006) 0 1 1 2 0 4)); (1, DE_Task); (1, DE_Flush);
                (0, live (Ev_Message (late_env 10007) put_batch)) ]%nat after_crash.

Lemma restored_reached : rtc disks_step after_crash restored.
Proof. apply after_disks_steps. vm_compute. reflexivity. Qed.

(** The entry is lost and comes back. *)
Example crash_loses_entry :
  vlen (log_of 1 (machines before_crash)) = 1 /\ log_of 1 (machines after_crash) = [] /\
  log_of 1 (machines restored) = log_of 1 (machines before_crash) /\
  bw_file (log_write_buffer (disk_of 1 restored)) = mjoin (as_bytes <$> log_of 1 (machines restored)).
Proof. vm_compute. done. Qed.

Lemma crash_log_matching_witness :
  vtruncate (0 + 1) (log_of 1 (machines before_crash)) = vtruncate (0 + 1) (log_of 0 (machines restored)) /\
  vlen (log_of 0 (machines restored)) = 2.
Proof.
  split; [|vm_compute; reflexivity].
  apply (crash_log_matching fresh_disks before_crash restored 1 0 (node_of 1 (machines before_crash))
    (node_of 0 (machines restored)) 0 (entry_of 1 0 (machines before_crash)) (entry_of 0 0 (machines restored))).
  - exact fresh_disks_start.
  - exact before_crash_reached.
  - etrans; [exact after_crash_reached|exact restored_reached].
  - vm_compute. reflexivity.
  - vm_compute. reflexivity.
  - vm_compute. reflexivity.
  - vm_compute. reflexivity.
  - vm_compute. reflexivity.
Defined.

Lemma restored_from_start : rtc disks_step fresh_disks restored.
Proof. etrans; [exact before_crash_reached|]. etrans; [exact after_crash_reached|exact restored_reached]. Qed.

Lemma crash_leader_holds_its_term_witness :
  is_leader (node_of 0 (machines restored)) = true /\
  vtruncate (0 + 1) (log_of 1 (machines restored)) `prefix_of` log_of 0 (machines restored).
Proof.
  assert (Hl : is_leader (node_of 0 (machines restored)) = true) by (vm_compute; reflexivity). split; [exact Hl|].
  apply (crash_leader_holds_its_term fresh_disks restored 0 (node_of 0 (machines restored)) fresh_disks_start) with (m := 1%nat)
    (y := node_of 1 (machines restored)) (e := entry_of 1 0 (machines restored)).
  - exact restored_from_start.
  - vm_compute. reflexivity.
  - exact Hl.
  - vm_compute. reflexivity.
  - vm_compute. reflexivity.
  - vm_compute. reflexivity.
Defined.

(** Node 2, with nothing left after its crash, asks for what it lacks. *)
Lemma crash_repair_task_fits_witness :
  exists task q s', handle_backfill_request 2 0 0 (shared_state (node_of 0 (machines after_crash))) = Some s' /\
    quorum_worker_tasks s' !! 0%nat = Some (q ++ [task]).
Proof.
  assert (Hs : exists s', handle_backfill_request 2 0 0 (shared_state (node_of 0 (machines after_crash))) = Some s').
  { eexists. vm_compute. reflexivity. }
  assert (Hq : exists q, quorum_worker_tasks (shared_state (node_of 0 (machines after_crash))) !! 0%nat = Some q).
  { eexists. vm_compute. reflexivity. }
  destruct Hs as [s' Hs]. destruct Hq as [q Hq].
  destruct (crash_repair_task_fits fresh_disks after_crash 0 1 (node_of 0 (machines after_crash)) (node_of 1 (machines after_crash)) 2 q s')
    as (task & Ht & _).
  - exact fresh_disks_start.
  - etrans; [exact before_crash_reached|exact after_crash_reached].
  - vm_compute. reflexivity.
  - vm_compute. reflexivity.
  - vm_compute. reflexivity.
  - exact Hq.
  - exact Hs.
  - exists task, q, s'. split; [exact Hs|exact Ht].
Defined.

(** ** A leadership *)

(** Node 1 has just been elected. *)
Definition just_elected : Cluster ScriptedBus := after_script (take 6 replication_script) fresh_cluster.

Definition new_leader_one : StateMachineExecutorImpl ScriptedBus := node_of 0 just_elected.

Lemma new_leader_one_is_new : new_leader new_leader_one.
Proof.
  assert (Hr : rtc cluster_step fresh_cluster just_elected) by (apply after_script_steps; vm_compute; reflexivity).
  destruct (steps_inv _ _ _ (start_inv _ fresh_cluster_starts) Hr) as (past & _ & Hinv).
  eapply good_new_leader; [eapply (inv_good _ _ Hinv 0%nat); vm_compute; reflexivity|vm_compute; reflexivity..|].
  intros id m Hm. vm_compute in Hm. discriminate.
Qed.

(** Two entries are sent, under the ids 2 and 3.  The batch is acknowledged and stored first,
    the entry of the election later. *)
Definition leadership_script : list event :=
  [ Ev_Tick (late_env 10004);
    Ev_Message (late_env 10006) put_batch;
    Ev_Quorum (QR_AppendEntries 3 true);
    Ev_Persisted (PR_LogPersisted 2);
    Ev_Persisted (PR_LogPersisted 3);
    Ev_Tick (late_env 10007);
    Ev_Quorum (QR_AppendEntries 3 true);
    Ev_Quorum (QR_AppendEntries 2 true);
    Ev_Tick (late_env 10008) ].

Definition leading_one : StateMachineExecutorImpl ScriptedBus :=
  default started_node (lead_run leadership_script new_leader_one).

Lemma leading_one_leads : leads new_leader_one leadership_script leading_one.
Proof.
  apply (lead_run_leads _ [] leadership_script new_leader_one); [apply leads_start|].
  unfold leading_one. destruct (lead_run _ _) eqn:Hr; [done|]. exfalso. revert Hr. vm_compute. discriminate.
Qed.

Lemma commit_is_backed_witness :
  commit_index (volatile_server_state (shared_state leading_one)) = 1 /\
  exists e, vget (replication_log (volatile_server_state (shared_state leading_one))) 1 = Some e /\ term e = 1 /\
    2 <= ack_count (message_id e) (told_acks (told_of new_leader_one leadership_script)).
Proof.
  assert (Hc : commit_index (volatile_server_state (shared_state leading_one)) = 1) by (vm_compute; reflexivity).
  split; [exact Hc|].
  destruct (commit_is_backed _ _ _ new_leader_one_is_new leading_one_leads) as [_ [H|(e & _ & He & Ht & Hb & _)]].
  - exfalso. revert H. vm_compute. discriminate.
  - rewrite Hc in He. exists e. split; [exact He|split; [|exact Hb]]. rewrite Ht. vm_compute. reflexivity.
Defined.

Lemma answered_write_is_committed_witness :
  exists b i e, (b, 5%nat) ∈ batches_of leadership_script /\
    vget (replication_log (volatile_server_state (shared_state leading_one))) i = Some e /\ i <= 1 /\ term e = 1.
Proof.
  destruct (answered_write_is_committed _ _ _ 5%nat
    (mkLocalRaftWriteBatchResponse (mkOwnedWriteBatchResponse (write_write_batch_response empty_response)) None)
    new_leader_one_is_new leading_one_leads) as (b & i & e & Hb & [_ Hi] & He & Ht & _).
  - apply list_elem_of_lookup. exists 0%nat. vm_compute. reflexivity.
  - reflexivity.
  - intros Hin. vm_compute in Hin. by apply not_elem_of_nil in Hin.
  - exists b, i, e. split; [exact Hb|split; [exact He|split]].
    + etrans; [exact Hi|]. vm_compute. discriminate.
    + rewrite Ht. vm_compute. reflexivity.
Defined.

(** ** Without the conditions *)

(** An entry of node 3, the leader of term 1, arrives. *)
Definition from_leader (now : Z) (e : OwnedLogEntry) (t leader rid : Z) : event :=
  Ev_Message (late_env now) (mkLocalRaftMessage (RM_AppendEntries (entry_request e t leader rid 0)) 4%nat).

(** Node 1 has one entry of term 1 and is elected for term 2. *)
Definition elected_script : list event :=
  [ from_leader 100 (sample_entry 0 1 0 0 1) 1 3 5;
    Ev_Tick (late_env 20000);
    Ev_Tick (late_env 20001);
    Ev_Persisted (PR_VotePersisted 1 2 1);
    Ev_Tick (late_env 20002);
    Ev_Quorum (QR_RequestVoteResponse 1 2 true) ].

(** Its first entry is at index 1.  Node 2 reports that its log ends at index 2 with term 1. *)
Definition leader_two : StateMachineExecutorImpl ScriptedBus :=
  after_events (elected_script ++
    [ Ev_Tick (late_env 20003); Ev_Tick (late_env 20004); Ev_Quorum (QR_BackfillLog 2 1 2);
      Ev_Tick (late_env 20005); Ev_Message (late_env 20006) put_batch ]) (fresh 1).

(** Node 2 has three entries of term 1, gets the signal, and then the third entry of node 1. *)
Definition follower_two : StateMachineExecutorImpl ScriptedBus :=
  after_events
    [ from_leader 100 (sample_entry 0 1 0 0 1) 1 3 5;
      from_leader 101 (sample_entry 1 1 0 1 2) 1 3 6;
      from_leader 102 (sample_entry 2 1 1 1 3) 1 3 7;
      Ev_Quorum (QR_TruncateLog 1 2 1);
      Ev_Tick (late_env 103);
      from_leader 104 (default (mkOwnedLogEntry []) (vget (replication_log (volatile_server_state (shared_state leader_two))) 2)) 2 1 8 ]
    (fresh 2).

Abbreviation node_log x := (replication_log (volatile_server_state (shared_state x))).

(** The signal to a follower that is ahead carries the leader's own last entry.  A follower
    that has another entry there keeps it and takes the term of the signal for its own: it
    then takes the leader's next entry on top of an entry the leader does not have, and the
    logs of the two no longer match. *)
Theorem ahead_signal_breaks_matching :
  rtc step (fresh 1) leader_two /\ rtc step (fresh 2) follower_two /\
  is_leader leader_two = true /\
  QT_TruncateLog 4 2 1 ∈ mjoin (quorum_worker_tasks (shared_state leader_two)) /\
  vget (node_log leader_two) 2 = vget (node_log follower_two) 2 /\
  vlen (node_log leader_two) = 3 /\ vlen (node_log follower_two) = 3 /\
  term <$> vget (node_log leader_two) 1 = Some 2 /\ term <$> vget (node_log follower_two) 1 = Some 1.
Proof.
  split_and!.
  - apply after_events_steps; vm_compute; reflexivity.
  - apply after_events_steps; vm_compute; reflexivity.
  - vm_compute. reflexivity.
  - apply list_elem_of_lookup. exists 3%nat. vm_compute. reflexivity.
  - vm_compute. reflexivity.
  - vm_compute. reflexivity.
  - vm_compute. reflexivity.
  - vm_compute. reflexivity.
  - vm_compute. reflexivity.
Qed.

(** A node with three entries of term 1 whose election is decided. *)
Definition about_to_lead : StateMachineExecutorImpl ScriptedBus :=
  after_events
    [ from_leader 100 (sample_entry 0 1 0 0 1) 1 3 5;
      from_leader 101 (sample_entry 1 1 0 1 2) 1 3 6;
      from_leader 102 (sample_entry 2 1 1 1 3) 1 3 7;
      Ev_Tick (late_env 20000);
      Ev_Tick (late_env 20001);
      Ev_Persisted (PR_VotePersisted 3 2 1);
      Ev_Tick (late_env 20002);
      Ev_Quorum (QR_RequestVoteResponse 3 2 true) ] (fresh 1).

(** Its next iteration, with a batch in the queue. *)
Definition leads_early : StateMachineExecutorImpl ScriptedBus :=
  match run_iteration (late_env 20003) (fun _ => late_env 20003) [put_batch] about_to_lead with
  | Some (_, x) => x
  | None => about_to_lead
  end.

(** A batch that is taken in the iteration of the election, before the first time step of the
    leader, is given the index after the one the node started with: it becomes the fourth
    entry of the log with index 1, and the cursors go back to it. *)
Theorem early_batch_reuses_index :
  rtc step (fresh 1) about_to_lead /\ rtc step about_to_lead leads_early /\
  is_leader leads_early = true /\
  node_log about_to_lead = [sample_entry 0 1 0 0 1; sample_entry 1 1 0 1 2; sample_entry 2 1 1 1 3] /\
  vlen (node_log leads_early) = 4 /\ index <$> vget (node_log leads_early) 3 = Some 1 /\
  last_log_index (volatile_server_state (shared_state leads_early)) = 1 /\ ~ log_wf (node_log leads_early).
Proof.
  split_and!.
  - apply after_events_steps; vm_compute; reflexivity.
  - replace leads_early with (after_events [Ev_Tick (late_env 20003); Ev_Message (late_env 20003) put_batch] about_to_lead)
      by (vm_compute; reflexivity).
    apply after_events_steps; vm_compute; reflexivity.
  - vm_compute. reflexivity.
  - vm_compute. reflexivity.
  - vm_compute. reflexivity.
  - vm_compute. reflexivity.
  - vm_compute. reflexivity.
  - intros Hwf. destruct (vget (node_log leads_early) 3) as [e|] eqn:He; [|by vm_compute in He].
    pose proof (log_wf_index _ _ _ Hwf He) as Hi.
    assert (index <$> vget (node_log leads_early) 3 = Some 1) as Hi' by (vm_compute; reflexivity).
    rewrite He in Hi'. simpl in Hi'. congruence.
Qed.

(** Node 1 leads term 1; its batch has the id 3 and the index 1 and is stored and acknowledged
    by one worker. *)
Definition one_ack_missing : list event :=
  [ Ev_Tick (late_env 10000);
    Ev_Tick (late_env 10001);
    Ev_Persisted (PR_VotePersisted 0 1 1);
    Ev_Tick (late_env 10002);
    Ev_Quorum (QR_RequestVoteResponse 0 1 true);
    Ev_Tick (late_env 10003);
    Ev_Tick (late_env 10004);
    Ev_Message (late_env 10006) put_batch;
    Ev_Persisted (PR_LogPersisted 3);
    Ev_Quorum (QR_AppendEntries 3 true);
    Ev_Tick (late_env 10007) ].

(** Node 3 leads term 2 and makes it remove the batch; then node 1 is elected for term 3 and
    appends its first entry, with the id 7, at index 1. *)
Definition elected_again : list event :=
  [ Ev_Message (late_env 10010) (mkLocalRaftMessage (RM_AppendEntries (mkLocalAppendEntries 2 3 0 1 0 None 0)) 9%nat);
    Ev_Quorum (QR_TruncateLog 3 1 0);
    Ev_Tick (late_env 10011);
    Ev_Tick (late_env 20000);
    Ev_Tick (late_env 20001);
    Ev_Persisted (PR_VotePersisted 5 3 1);
    Ev_Tick (late_env 20002);
    Ev_Quorum (QR_RequestVoteResponse 5 3 true);
    Ev_Tick (late_env 20003);
    Ev_Tick (late_env 20004) ].

(** The second acknowledgement of the removed batch. *)
Definition late_ack : list event :=
  [ Ev_Quorum (QR_AppendEntries 3 true); Ev_Tick (late_env 20005) ].

Definition leads_again : StateMachineExecutorImpl ScriptedBus :=
  after_events (one_ack_missing ++ elected_again ++ late_ack) (fresh 1).

(** A leader that steps down keeps its outstanding messages.  When it leads again, a late
    acknowledgement of an entry that has been removed in between completes it: the client is
    told that its write is committed although no entry of the log has a command, and the
    entry that now has the index is committed although nobody has acknowledged it and the
    leader's own worker has not stored it. *)
Theorem late_ack_commits_other_entry :
  rtc step (fresh 1) leads_again /\ is_leader leads_again = true /\
  current_term (server_state (shared_state leads_again)) = 3 /\
  (5%nat, batch_answer None) ∈ cb_sent (callbacks (shared_state leads_again)) /\
  command_count <$> node_log leads_again = [0; 0] /\
  commit_index (volatile_server_state (shared_state leads_again)) = 1 /\
  message_id <$> vget (node_log leads_again) 1 = Some 7 /\
  message_type <$> outstanding_messages (shared_state leads_again) !! 7 = Some (OM_NoOp false 0 1).
Proof.
  split_and!.
  - apply after_events_steps; vm_compute; reflexivity.
  - vm_compute. reflexivity.
  - vm_compute. reflexivity.
  - apply list_elem_of_lookup. exists 1%nat. vm_compute. reflexivity.
  - vm_compute. reflexivity.
  - vm_compute. reflexivity.
  - vm_compute. reflexivity.
  - vm_compute. reflexivity.
Qed.

(** Node 1 has an entry of the leader of term 1, which gave it the id 3, and is elected for term
    2.  Its own first entry gets the id 3 as well.  Nodes 2 and 3 have nothing and ask for a
    backfill. *)
Definition repairs_others : StateMachineExecutorImpl ScriptedBus :=
  after_events
    [ from_leader 100 (sample_entry 0 1 0 0 3) 1 3 5;
      Ev_Tick (late_env 20000);
      Ev_Tick (late_env 20001);
      Ev_Persisted (PR_VotePersisted 1 2 1);
      Ev_Tick (late_env 20002);
      Ev_Quorum (QR_RequestVoteResponse 1 2 true);
      Ev_Tick (late_env 20003);
      Ev_Tick (late_env 20004);
      Ev_Quorum (QR_BackfillLog 2 0 0);
      Ev_Quorum (QR_BackfillLog 3 0 0);
      Ev_Tick (late_env 20005) ] (fresh 1).

(** The worker of the leader has sent its tasks; the other node has answered Ok to the request
    that carried the old entry. *)
Definition repairing_worker_of (i : nat) : QuorumWorker :=
  fold_left (fun w t => process_task 20006 t w)
    (default [] (quorum_worker_tasks (shared_state repairs_others) !! i)) leader_worker.

Definition request_of_old_entry (m : OwnedQuorumMessage) : option Z :=
  mjoin (quorum_with_message m (fun p =>
    match p with
    | AppendEntriesRequest r =>
      match ae_entry r with
      | Some (Some e) => if decide (re_data e = Some (as_bytes (sample_entry 0 1 0 0 3))) then Some (ae_request_id r) else None
      | _ => None
      end
    | _ => None
    end)).

Definition acknowledged_by (w : QuorumWorker) : list LocalQuorumTaskResponseType :=
  qw_response_queue (fold_left (fun w id =>
    default w (handle_inbound_message (build_append_entries_ack_message 1 0 id true) w))
    (omap request_of_old_entry (outbox w)) w).

(** Its own worker has stored its entry; both acknowledgements of the old entry arrive. *)
Definition counts_repairs : StateMachineExecutorImpl ScriptedBus :=
  after_events (Ev_Persisted (PR_LogPersisted 3) ::
    (Ev_Quorum <$> acknowledged_by (repairing_worker_of 0) ++ acknowledged_by (repairing_worker_of 1)) ++
    [Ev_Tick (late_env 20006)]) repairs_others.

(** A backfill sends an entry under the message id its own leader gave it, and these ids are
    counters of each node.  The answers of the two other nodes, which have stored the old
    entry, are counted for the entry of the new leader that has the same id: it is committed
    although no other node has it. *)
Theorem backfill_commits_other_entry :
  rtc step (fresh 1) repairs_others /\ rtc step repairs_others counts_repairs /\
  is_leader counts_repairs = true /\
  acknowledged_by (repairing_worker_of 0) = [QR_AppendEntries 3 true] /\
  acknowledged_by (repairing_worker_of 1) = [QR_AppendEntries 3 true] /\
  message_id <$> node_log counts_repairs = [3; 3] /\ term <$> node_log counts_repairs = [1; 2] /\
  commit_index (volatile_server_state (shared_state repairs_others)) = 0 /\
  commit_index (volatile_server_state (shared_state counts_repairs)) = 1.
Proof.
  split_and!.
  - apply after_events_steps; vm_compute; reflexivity.
  - apply after_events_steps; vm_compute; reflexivity.
  - vm_compute. reflexivity.
  - vm_compute. reflexivity.
  - vm_compute. reflexivity.
  - vm_compute. reflexivity.
  - vm_compute. reflexivity.
  - vm_compute. reflexivity.
  - vm_compute. reflexivity.
Qed.
