(* ===== verification/WorkerFlow.v ===== *)
(** * What passes through a quorum worker

    A worker plays two parts on its connection: it sends the entries of its node and reports
    the acknowledgements it receives, and it hands the requests of the other node to its state
    machine and sends the answers back.  The invariant below follows an entry through both
    parts, by the id it is sent under, for every message, task and answer in any order. *)
From stdpp Require Import strings.
From S2P Require Import Prelude Capnp CapnpInstance RaftTypes Bus QuorumMessage QuorumWorker QuorumWorkerSpec.
From S2P Require Import Samples Follower FollowerSpec.

(** The entries a task sends, with the ids of the requests. *)
Definition task_sends {CP : Capnp} (t : LocalQuorumWorkerTaskType) : list (Z * OwnedLogEntry) :=
  match t with
  | QT_AppendEntries id e _ => [(id, e)]
  | QT_BackfillLog data => (fun e => (message_id e, e)) <$> data
  | _ => []
  end.

Section flow.
Context {CP : Capnp} {CL : CapnpLaws}.
Implicit Types w : QuorumWorker.

(** Fields of their Rust types, and entries that parse, as those of a node do. *)
Definition typed_work (t : LocalQuorumWorkerTaskType) : Prop :=
  match t with
  | QT_StartHeartbeats id term prev_term prev_index commit_index =>
    u64 term /\ u64 prev_term /\ u64 prev_index /\ u64 commit_index
  | QT_RequestVote id term last_term last_index => u64 id /\ u64 term /\ u64 last_term /\ u64 last_index
  | QT_AppendEntries id e commit_index => u64 id /\ u64 commit_index /\ parses e
  | QT_BackfillLog data => Forall parses data
  | QT_TruncateLog _ prev_term prev_index => u64 prev_term /\ u64 prev_index
  | QT_UpdateCommitIndex commit_index => u64 commit_index
  | _ => True
  end.

Definition typed_pending (t : PendingQuorumTaskEnum) : Prop :=
  match t with
  | PQ_Vote request_id term => u64 request_id /\ u64 term
  | PQ_AppendEntries request_id log_index term => u64 request_id /\ u64 log_index /\ u64 term
  | PQ_PutBatch _ => True
  end.

Definition typed_answer (p : LocalRaftResponsePayload) : Prop :=
  match p with
  | RP_AppendEntries (AE_WantedPreviousEntry t i) | RP_AppendEntries (AE_TruncateLog t i) => u64 t /\ u64 i
  | _ => True
  end.

(** [R id e]: the entry [e] may be sent under [id]; [K id]: [id] may be acknowledged.  An id
    of 0 is that of a heartbeat, whose answer is not reported. *)
Definition allowed (R : Z -> OwnedLogEntry -> Prop) (K : Z -> Prop) (p : RemoteQuorumMessage) : Prop :=
  match p with
  | AppendEntriesRequest r => ae_request_id r <> 0 ->
    exists e re, R (ae_request_id r) e /\ ae_entry r = Some (Some re) /\ default [] (re_data re) = as_bytes e
  | AppendEntriesAcknowledge a => ack_ok a = true -> ack_request_id a <> 0 -> K (ack_request_id a)
  | _ => True
  end.

Definition says R K (m : OwnedQuorumMessage) : Prop :=
  exists p, m = build_owned_message p /\ quorum_message_made p /\ allowed R K p.

(** A message a worker has handed to its state machine. *)
Definition given_ok (R : Z -> OwnedLogEntry -> Prop) (next : nat) (m : LocalRaftMessage) : Prop :=
  (lrm_callback m < next)%nat /\
  match lrm_payload m with
  | RM_AppendEntries r => a_request_id r <> 0 -> exists e, R (a_request_id r) e /\ e_data <$> a_entry r = Some (as_bytes e)
  | _ => True
  end.

Definition pending_ok (given : list LocalRaftMessage) (pt : PendingQuorumTask) : Prop :=
  typed_pending (pq_task pt) /\
  match pq_task pt with
  | PQ_AppendEntries rid _ _ =>
    exists r, mkLocalRaftMessage (RM_AppendEntries r) (pq_callback pt) ∈ given /\ a_request_id r = rid
  | _ => True
  end.

Definition response_ok (K : Z -> Prop) (r : LocalQuorumTaskResponseType) : Prop :=
  match r with QR_AppendEntries rid _ => K rid | _ => True end.

Definition inbox w : list OwnedQuorumMessage :=
  match qw_inbound_rx w with Some rx => rx_queue rx | None => [] end.

(** [R] and [K] for what the worker sends, [R'] and [K'] for what it receives; [D] are the
    messages its state machine has taken. *)
Record flow R K R' K' (D : list LocalRaftMessage) w : Prop := {
  fl_ranges : worker_ranges w;
  fl_work : Forall (fun t => typed_work t /\ forall id e, (id, e) ∈ task_sends t -> id <> 0 -> R id e) (qw_work_queue w);
  fl_outbox : Forall (says R K) (outbox w);
  fl_inbox : Forall (says R' K') (inbox w);
  fl_given : Forall (given_ok R' (qw_next_channel w)) (D ++ qw_task_queue w);
  fl_unique : NoDup (lrm_callback <$> D ++ qw_task_queue w);
  fl_pending : Forall (pending_ok (D ++ qw_task_queue w)) (qw_pending_tasks w);
  fl_responses : Forall (response_ok K') (qw_response_queue w)
}.

Variables (R : Z -> OwnedLogEntry -> Prop) (K : Z -> Prop) (R' : Z -> OwnedLogEntry -> Prop) (K' : Z -> Prop).
Variable D : list LocalRaftMessage.

Abbreviation ok := (flow R K R' K' D).

(** Fields the invariant does not read, or reads for their ranges only. *)
Lemma flow_same w w' :
  worker_ranges w' -> qw_work_queue w' = qw_work_queue w -> outbox w' = outbox w -> inbox w' = inbox w ->
  qw_next_channel w' = qw_next_channel w -> qw_task_queue w' = qw_task_queue w ->
  qw_pending_tasks w' = qw_pending_tasks w -> qw_response_queue w' = qw_response_queue w -> ok w -> ok w'.
Proof. intros Hr Hw Ho Hi Hn Ht Hp Hq []. split; rewrite ?Hw, ?Ho, ?Hi, ?Hn, ?Ht, ?Hp, ?Hq; done. Qed.

Lemma flow_send m w : says R K m -> ok w -> ok (send_message m w).2.
Proof.
  intros Hm [Hr Hw Ho Hi Hg Hu Hp Hq]. unfold send_message.
  destruct (qw_outbound_tx w) as [[[] q]|] eqn:Htx; unfold send; simpl; [|by split|by split].
  split; try done. unfold outbox in *. rewrite Htx in Ho. simpl in *. apply Forall_app. split; [done|by apply Forall_singleton].
Qed.

Lemma flow_push r w : response_ok K' r -> ok w -> ok (push_response r w).
Proof.
  intros Hr []. split; try done. simpl. apply Forall_app. split; [done|by apply Forall_singleton].
Qed.

Lemma says_built p : quorum_message_made p -> allowed R K p -> says R K (build_owned_message p).
Proof. intros Hb Ha. by exists p. Qed.

(** A message read back is the one that was written. *)
Lemma says_read m p : says R' K' m -> quorum_with_message m id = Some p -> quorum_message_ranges p /\ allowed R' K' p.
Proof.
  intros (p' & -> & Hb & Ha) Hp. apply quorum_with_message_made in Hp as ->; [|done]. split; [apply Hb|done].
Qed.

(** *** Requests *)

(** The fields of an entry that parses are in range, also in the message that carries it. *)
Lemma append_message_built t self rid commit e :
  parses e -> u64 t -> u32 self -> u64 rid -> u64 commit -> (rid <> 0 -> R rid e) ->
  says R K (build_append_entries_message t self (prev_log_index e) (prev_log_term e) rid commit (Some e)).
Proof.
  intros (reader & Hr & Hf)%parses_fields Ht Hs Hi Hc HR. apply says_built.
  - unfold prev_log_index, prev_log_term. unfold Capnp.prev_log_index, Capnp.prev_log_term. rewrite !Hf. simpl.
    destruct Hr as (? & ? & ? & ? & ? & ?). split; [|by eexists]. simpl. unfold remote_entry_ranges. simpl. by split_and!.
  - intros Hne. exists e. rewrite Hf. eexists. split; [by apply HR|]. split; [done|]. done.
Qed.

Lemma message_id_u64 e : parses e -> u64 (message_id e).
Proof. intros (reader & Hr & Hf)%parses_fields. unfold message_id, Capnp.message_id. rewrite Hf. apply Hr. Qed.

Lemma flow_append now id e commit w :
  u64 id -> u64 commit -> parses e -> (id <> 0 -> R id e) -> ok w -> ok (send_append_entries now id e commit w).
Proof.
  intros Hid Hc He HR Hw. unfold send_append_entries. pose proof (fl_ranges _ _ _ _ _ _ Hw) as (Ht & Hs & _).
  match goal with |- context [send_message ?m ?x] => assert (Hx : ok x); [|assert (Hm : says R K m)] end.
  - revert Hw. apply flow_same; try done. split_and!; [done..|apply index_u64|apply term_u64|done].
  - by apply append_message_built.
  - pose proof (flow_send _ _ Hm Hx) as Hs'. eapply flow_same; [apply Hs'|..|exact Hs']; done.
Qed.

Lemma flow_backfill_loop entries w :
  Forall parses entries -> (forall e, e ∈ entries -> message_id e <> 0 -> R (message_id e) e) -> ok w ->
  ok (send_backfill_loop entries w).
Proof.
  revert w. induction entries as [|e entries IH]; intros w Hp HR Hw; simpl; [done|]. inversion Hp as [|? ? He Hes]; subst.
  pose proof (fl_ranges _ _ _ _ _ _ Hw) as (Ht & Hs & _ & _ & Hc).
  match goal with |- context [send_message ?m w] => assert (Hm : says R K m) end.
  { apply append_message_built; try done; [by apply message_id_u64|]. apply HR. by left. }
  pose proof (flow_send _ _ Hm Hw) as Hs'. destruct (send_message _ w) as [[] w']; [|done].
  apply IH; [done| |done]. intros e' He'. apply HR. by right.
Qed.

Lemma flow_process_task now t w :
  typed_work t -> (forall id e, (id, e) ∈ task_sends t -> id <> 0 -> R id e) -> ok w -> ok (process_task now t w).
Proof.
  intros Ht HR Hw. pose proof (fl_ranges _ _ _ _ _ _ Hw) as (Hterm & Hself & Hpi & Hpt & Hci).
  destruct t as [id t pt pi ci|id|id t lt li|id e ci|data|wb|id pt pi|ci]; cbn [process_task typed_work] in *.
  - destruct Ht as (? & ? & ? & ?). revert Hw. apply flow_same; try done.
  - revert Hw. by apply flow_same.
  - destruct Ht as (? & ? & ? & ?). apply flow_send; [|done]. apply says_built; [|done]. by split; [split_and!|].
  - destruct Ht as (? & ? & ?). apply flow_append; try done. apply HR. by left.
  - unfold send_backfill_entries. case_decide; [done|]. apply (flow_same (send_backfill_loop data w)); try done.
    + apply (flow_backfill_loop data w); [done| |done]. intros e He. apply HR. by apply (list_elem_of_fmap_2 (fun e => (message_id e, e))).
    + apply flow_backfill_loop; [done| |done]. intros e He. apply HR. by apply (list_elem_of_fmap_2 (fun e => (message_id e, e))).
  - unfold send_write_batch. apply flow_send; [|by revert Hw; apply flow_same].
    unfold build_put_batch_request_message, batch_with_message.
    destruct (read_message_from_flat_slice (batch_bytes _)) as [[reader rest]|]; [|by apply says_built].
    destruct (write_batch_root reader) as [b|] eqn:Hb; [|by apply says_built]. apply says_built; [|done].
    apply write_batch_root_ranges in Hb. split; simpl; [|split; [by eexists|]; eexists; split; [done|]].
    + apply Forall_fmap. destruct b as [i [rs|]]; simpl; [|constructor]. by apply (Hb rs).
    + apply Forall_fmap. apply Forall_true. intros r. split; by eexists.
  - destruct Ht as [? ?]. apply flow_send; [|done]. apply says_built; [|done]. by split; [split_and!|].
  - revert Hw. by apply flow_same.
Qed.

(** *** What is received *)

Lemma given_next next next' m : (next <= next')%nat -> given_ok R' next m -> given_ok R' next' m.
Proof. intros Hn [Hc Hm]. split; [lia|done]. Qed.

Lemma pending_more given given' pt : given ⊆ given' -> pending_ok given pt -> pending_ok given' pt.
Proof.
  intros Hg [Ht Hp]. split; [done|]. destruct (pq_task pt); try done. destruct Hp as (r & Hin & Hr).
  exists r. split; [by apply Hg|done].
Qed.

Lemma flow_ask payload task w :
  typed_pending task ->
  match payload with
  | RM_AppendEntries r => a_request_id r <> 0 -> exists e, R' (a_request_id r) e /\ e_data <$> a_entry r = Some (as_bytes e)
  | _ => True
  end ->
  match task with PQ_AppendEntries rid _ _ => exists r, payload = RM_AppendEntries r /\ a_request_id r = rid | _ => True end ->
  ok w -> ok (ask_state_machine payload task w).
Proof.
  intros Ht Hp Hm [Hr Hw Ho Hi Hg Hu Hpe Hq]. unfold ask_state_machine. split; simpl; try done; rewrite ?(assoc_L (++)).
  - apply Forall_app. split; [|apply Forall_singleton; split; simpl; [lia|by destruct payload]].
    eapply Forall_impl; [|exact Hg]. intros m. apply given_next. lia.
  - rewrite fmap_app. apply list_relations.list.NoDup_app. split; [done|]. split; [|apply NoDup_singleton].
    intros cb Hin Hnew. apply list_elem_of_singleton in Hnew. simpl in Hnew. subst cb.
    apply list_elem_of_fmap in Hin as (m & Hc & Hin). destruct (proj1 (list.Forall_forall _ _) Hg m Hin) as [Hlt _]. lia.
  - apply Forall_app. split.
    + eapply Forall_impl; [|exact Hpe]. intros pt. apply pending_more. set_solver.
    + apply Forall_singleton. split; [done|]. simpl. destruct task; try done. destruct Hm as (r & -> & Hid).
      exists r. split; [|done]. set_solver.
Qed.

Ltac same_flow := match goal with H : flow _ _ _ _ _ ?w |- _ => eapply (flow_same w); [..|exact H]; try done; apply H end.

Lemma flow_inbound msg w w' : says R' K' msg -> ok w -> handle_inbound_message msg w = Some w' -> ok w'.
Proof.
  intros Hs Hw. unfold handle_inbound_message. destruct (quorum_with_message msg _) as [p|] eqn:Hp; [|by intros [= <-]].
  destruct (says_read _ _ Hs Hp) as [Hr Ha]. destruct p as [n|b|r|r|r|a|r|r|r|r]; simpl in Hr, Ha; try by intros [= <-].
  - intros [= <-]. destruct Hr as (? & ? & ? & ? & ?). by apply flow_ask.
  - intros [= <-]. by apply flow_push.
  - intros [= <-]. unfold on_append_entries_request_capnp. destruct Hr as (? & ? & ? & ? & ? & ? & He).
    destruct (received_entry r) as [[i t] e] eqn:Hrec. unfold received_entry in Hrec. apply flow_ask; [| | |done].
    + split; [done|]. destruct (ae_entry r) as [[re|]|]; injection Hrec as <- <- _; [split; apply He|done..].
    + simpl. intros Hne. destruct (Ha Hne) as (e' & re & HR & Hre & Hd). rewrite Hre in Hrec. injection Hrec as _ _ <-.
      exists e'. split; [done|]. simpl. by rewrite Hd.
    + by eexists.
  - intros [= <-]. unfold on_append_entries_ack. destruct (ack_ok a) eqn:Hok; simpl.
    + case_decide; [|by same_flow]. apply flow_push; [by apply Ha|by same_flow].
    + destruct (qw_ongoing_backfill w); [by same_flow|]. apply flow_push; [done|by same_flow].
  - unfold on_put_batch_request_capnp. destruct (build_owned_write_batch _) as [b|]; [|done]. intros [= <-]. by apply flow_ask.
  - unfold on_put_batch_response_capnp. destruct (qw_pending_write_batches w !! _); [|by intros [= <-]].
    destruct (build_owned_write_batch_response _); [|done]. intros [= <-]. by same_flow.
  - intros [= <-]. destruct Hr as (? & ? & ? & ? & ?). unfold on_truncate_log_request. apply flow_send; [|by apply flow_push].
    by apply says_built.
  - intros [= <-]. unfold on_truncate_log_response. eapply flow_same; [..|apply (flow_push (QR_TruncateLogResponse (ts_request_id r) (ts_ok r))); [done|exact Hw]]; try done.
    apply Hw.
Qed.

(** *** Answers of the state machine *)

(** Answers are of their types, and an Ok to a request lets the worker acknowledge its id. *)
Definition answers (given : list LocalRaftMessage) (try_recv : Callback -> TryRecv) : Prop :=
  forall cb p, try_recv cb = TR_Received p -> typed_answer p /\
    (p = RP_AppendEntries AE_Ok ->
     forall r, mkLocalRaftMessage (RM_AppendEntries r) cb ∈ given -> a_request_id r <> 0 -> K (a_request_id r)).

Lemma put_batch_response_said response id : says R K (build_put_batch_response_message response id).
Proof.
  unfold build_put_batch_response_message, response_with_message.
  destruct (read_message_from_flat_slice (response_bytes _)) as [[reader rest]|]; [|by apply says_built].
  destruct (write_batch_response_root reader) as [b|] eqn:Hb; [|by apply says_built]. apply says_built; [|done].
  apply write_batch_response_root_ranges in Hb.
  split; simpl; [|split; [by eexists|]; eexists; split; [done|]].
  - apply Forall_fmap. destruct b as [[rs|] i]; simpl; [|constructor]. eapply Forall_impl; [|by apply (Hb rs)]. done.
  - apply Forall_fmap. apply Forall_true. intros r. split_and!; by eexists.
Qed.

Lemma flow_answer given try_recv pt w :
  answers given try_recv -> pending_ok given pt -> ok w -> ok (answer_pending try_recv w pt).
Proof.
  intros Ha [Ht Hp] Hw. unfold answer_pending. destruct (try_recv (pq_callback pt)) as [p| |] eqn:Hr; [|done..].
  destruct (Ha _ _ Hr) as [Hty Hk]. unfold handle_pending_task_response.
  destruct p as [|granted|ae|l|wr], (pq_task pt) as [rid t|rid i t|batch_id]; try done.
  - apply flow_send; [|done]. destruct Ht. by apply says_built.
  - destruct Ht as (? & ? & ?), Hp as (r & Hin & Hid). destruct ae as [| |lt li|ti ii]; cbn [append_answer typed_answer] in *.
    + apply flow_send; [|done]. apply says_built; [by split; [split_and!|]|]. intros _ Hne. simpl in *. subst rid. by apply Hk.
    + apply flow_send; [|done]. apply says_built; [by split; [split_and!|]|]. by intros ?.
    + apply flow_send; [|done]. destruct Hty. apply says_built; [by split; [split_and!|]|]. by intros ?.
    + destruct Hty. apply flow_send; [|by apply flow_push]. apply says_built; [by split; [split_and!|]|]. by intros ?.
  - apply flow_send; [apply put_batch_response_said|done].
Qed.

Lemma flow_pending given try_recv w w' :
  given = D ++ qw_task_queue w -> answers given try_recv -> ok w ->
  process_pending_task_responses try_recv w = Some w' -> ok w'.
Proof.
  intros Hg Ha Hw. rewrite process_pending_eq. intros [= <-]. pose proof (fl_pending _ _ _ _ _ _ Hw) as Hp. rewrite <- Hg in Hp.
  set (tasks := qw_pending_tasks w) in *. assert (Hf : ok (fold_left (answer_pending try_recv) tasks w)).
  { clear Hg. clearbody tasks. revert w Hw. induction Hp as [|pt tasks Hpt Hp IH]; intros w Hw; simpl; [done|]. by eapply IH, flow_answer. }
  assert (Hpe : qw_pending_tasks (fold_left (answer_pending try_recv) tasks w) = tasks) by by rewrite answer_pending_tasks.
  destruct Hf as [? ? ? ? ? ? Hpend ?]. split; try done. simpl. rewrite Hpe in Hpend.
  apply list.Forall_forall. intros pt [_ Hin]%list_elem_of_filter. by apply (proj1 (list.Forall_forall _ _) Hpend).
Qed.

(** *** One iteration *)

(** The state machine answers messages it has taken; an Ok lets the worker acknowledge. *)
Definition heard (try_recv : Callback -> TryRecv) : Prop :=
  forall cb p, try_recv cb = TR_Received p -> typed_answer p /\
    (p = RP_AppendEntries AE_Ok -> (forall id, K id) \/ exists payload, mkLocalRaftMessage payload cb ∈ D /\
       forall r, payload = RM_AppendEntries r -> a_request_id r <> 0 -> K (a_request_id r)).

Lemma same_callback (given : list LocalRaftMessage) m m' :
  NoDup (lrm_callback <$> given) -> m ∈ given -> m' ∈ given -> lrm_callback m = lrm_callback m' -> m = m'.
Proof.
  intros Hu [i Hi]%list_elem_of_lookup [j Hj]%list_elem_of_lookup Hc.
  assert (i = j) as ->; [|congruence]. apply (NoDup_lookup _ i j (lrm_callback m) Hu).
  - by rewrite list_lookup_fmap, Hi.
  - by rewrite list_lookup_fmap, Hj, Hc.
Qed.

Lemma heard_answers try_recv w : heard try_recv -> ok w -> answers (D ++ qw_task_queue w) try_recv.
Proof.
  intros Hh Hw cb p Hr. destruct (Hh _ _ Hr) as [Ht Hk]. split; [done|]. intros Hp r Hin Hne.
  destruct (Hk Hp) as [HK|(payload & HD & HK)]; [by apply HK|]. apply (HK r); [|done].
  assert (Hm : mkLocalRaftMessage payload cb = mkLocalRaftMessage (RM_AppendEntries r) cb); [|congruence].
  eapply same_callback; [apply Hw| |exact Hin|done]. set_solver.
Qed.

Lemma collect_split n rx msgs ms dis rx' :
  collect_messages n rx msgs = (ms, dis, rx') -> exists taken, ms = msgs ++ taken /\ rx_queue rx = taken ++ rx_queue rx'.
Proof.
  revert rx msgs. induction n as [|n IH]; intros rx msgs; simpl.
  { intros [= <- <- <-]. exists []. by rewrite app_nil_r. }
  destruct (rx_queue rx) as [|m q] eqn:Hq.
  - destruct (rx_connected rx); intros [= <- <- <-]; exists []; by rewrite app_nil_r, Hq.
  - intros (taken & -> & Hq')%IH. exists (m :: taken). simpl in *. by rewrite <- (assoc_L (++)), Hq'.
Qed.

Lemma flow_messages msgs w w' : Forall (says R' K') msgs -> ok w -> handle_messages msgs w = Some w' -> ok w'.
Proof.
  intros Hm. revert w. induction Hm as [|m msgs Hm Hms IH]; intros w Hw; simpl; [by intros [= <-]|].
  destruct (handle_inbound_message m w) as [w1|] eqn:Hw1; [|done]. simpl. by apply IH; eapply flow_inbound.
Qed.

Lemma flow_incoming w w' : ok w -> process_incoming_messages w = Some w' -> ok w'.
Proof.
  intros Hw. unfold process_incoming_messages. destruct (qw_inbound_rx w) as [rx|] eqn:Hrx; [|by intros [= <-]].
  destruct (collect_messages _ rx []) as [[ms dis] rx'] eqn:Hc. destruct (collect_split _ _ _ _ _ _ Hc) as (taken & -> & Hq).
  pose proof (fl_inbox _ _ _ _ _ _ Hw) as Hi. unfold inbox in Hi. rewrite Hrx, Hq in Hi. apply Forall_app in Hi as [Ht Hrest].
  apply flow_messages; [done|]. destruct Hw. split; try done. unfold inbox. simpl. by destruct dis.
Qed.

Lemma flow_work_loop now n w : ok w -> ok (work_loop now n w).
Proof.
  revert w. induction n as [|n IH]; intros w Hw; simpl; [done|]. destruct (qw_work_queue w) as [|t q] eqn:Hq; [done|].
  pose proof (fl_work _ _ _ _ _ _ Hw) as Hwork. rewrite Hq in Hwork. inversion Hwork as [|? ? [Ht HR] Hrest]; subst.
  apply IH. apply flow_process_task; [done..|]. by destruct Hw.
Qed.

Lemma flow_heartbeat now w : ok w -> ok (send_heartbeat_if_needed now w).
Proof.
  intros Hw. unfold send_heartbeat_if_needed. destruct (negb _); [done|]. case_decide; [done|].
  destruct (fl_ranges _ _ _ _ _ _ Hw) as (? & ? & ? & ? & ?). apply flow_send; [|by same_flow].
  apply says_built; [|by intros []]. split; [by split_and!|done].
Qed.

Lemma flow_connections has_outbound connect inbound w :
  Forall (says R K) (from_option chan_queue [] connect) -> Forall (says R' K') (from_option rx_queue [] inbound) -> ok w ->
  ok (ensure_connections has_outbound connect inbound w).2.
Proof.
  intros Hc Hin [Hr Hw Ho Hi Hg Hu Hp Hq]. unfold ensure_connections. unfold outbox, inbox in *.
  destruct (qw_outbound_tx w) as [tx|] eqn:Htx; [destruct has_outbound|]; simpl; rewrite ?Htx;
    destruct connect as [tx'|]; simpl in *; destruct (qw_inbound_rx w) as [rx|] eqn:Hrx; destruct inbound as [rx'|]; simpl in *;
    split; unfold outbox, inbox; simpl; rewrite ?Htx, ?Hrx; done.
Qed.

(** The invariant is kept by one iteration of [run], whatever the connection does. *)
Lemma flow_iteration has_outbound connect inbound try_recv now w w' :
  Forall (says R K) (from_option chan_queue [] connect) -> Forall (says R' K') (from_option rx_queue [] inbound) ->
  heard try_recv -> ok w -> run_iteration has_outbound connect inbound try_recv now w = Some w' -> ok w'.
Proof.
  intros Hc Hi Hh Hw. unfold run_iteration. pose proof (flow_connections has_outbound connect inbound w Hc Hi Hw) as Hw1.
  destruct (ensure_connections _ _ _ w) as [conn w1]. destruct conn; simpl in *; [|by intros [= <-]].
  destruct (process_incoming_messages w1) as [w2|] eqn:H2; [|done]. simpl. apply flow_incoming in H2; [|done].
  destruct (process_pending_task_responses _ w2) as [w3|] eqn:H3; [|done]. simpl. intros [= <-].
  eapply flow_pending in H3; [|done|by apply heard_answers|done]. by apply flow_work_loop, flow_heartbeat.
Qed.

End flow.

(** ** Around the iterations *)

Section around.
Context {CP : Capnp} {CL : CapnpLaws}.
Implicit Types w : QuorumWorker.

Lemma says_more (R R1 : Z -> OwnedLogEntry -> Prop) (K K1 : Z -> Prop) m :
  (forall id e, R id e -> R1 id e) -> (forall id, K id -> K1 id) -> says R K m -> says R1 K1 m.
Proof.
  intros HR HK (p & -> & Hb & Ha). exists p. split; [done|]. split; [done|]. destruct p; simpl in *; try done.
  - intros Hne. destruct (Ha Hne) as (e & re & ? & ?). exists e, re. split; [by apply HR|done].
  - intros Hok Hne. by apply HK, Ha.
Qed.

Lemma flow_more (R R1 R' R1' : Z -> OwnedLogEntry -> Prop) (K K1 K' K1' : Z -> Prop) D w :
  (forall id e, R id e -> R1 id e) -> (forall id, K id -> K1 id) ->
  (forall id e, R' id e -> R1' id e) -> (forall id, K' id -> K1' id) -> flow R K R' K' D w -> flow R1 K1 R1' K1' D w.
Proof.
  intros HR HK HR' HK' [Hr Hw Ho Hi Hg Hu Hp Hq]. split; try done.
  - eapply Forall_impl; [|exact Hw]. intros t [Ht Hs]. split; [done|]. intros. by apply HR, Hs.
  - eapply Forall_impl; [|exact Ho]. intros m. by apply says_more.
  - eapply Forall_impl; [|exact Hi]. intros m. by apply says_more.
  - eapply Forall_impl; [|exact Hg]. intros m [Hc Hm]. split; [done|]. destruct (lrm_payload m); try done.
    intros Hne. destruct (Hm Hne) as (e & ? & ?). exists e. split; [by apply HR'|done].
  - eapply Forall_impl; [|exact Hq]. intros r. destruct r; simpl; try done. apply HK'.
Qed.

Variables (R : Z -> OwnedLogEntry -> Prop) (K : Z -> Prop) (R' : Z -> OwnedLogEntry -> Prop) (K' : Z -> Prop).
Variable D : list LocalRaftMessage.

(** A task is queued. *)
Lemma flow_task t w :
  typed_work t -> (forall id e, (id, e) ∈ task_sends t -> id <> 0 -> R id e) -> flow R K R' K' D w ->
  flow R K R' K' D (w <| qw_work_queue ::= fun q => q ++ [t] |>).
Proof. intros Ht HR []. split; try done. simpl. apply Forall_app. split; [done|]. by apply Forall_singleton. Qed.

(** Responses are taken. *)
Lemma flow_responses q w :
  q ⊆ qw_response_queue w -> flow R K R' K' D w -> flow R K R' K' D (w <| qw_response_queue := q |>).
Proof.
  intros Hq [? ? ? ? ? ? ? Hr]. split; try done. simpl. apply list.Forall_forall. intros r Hin.
  by apply (proj1 (list.Forall_forall _ _) Hr), Hq.
Qed.

(** The state machine takes messages. *)
Lemma flow_deliver n w :
  flow R K R' K' D w -> flow R K R' K' (D ++ take n (qw_task_queue w)) (w <| qw_task_queue ::= drop n |>).
Proof. intros []. split; simpl; rewrite <- ?(assoc_L (++)), ?take_drop; done. Qed.

(** Messages leave the channel of the worker. *)
Lemma flow_leave q1 q2 b b' w :
  qw_outbound_tx w = Some (mkSender b (q1 ++ q2)) -> flow R K R' K' D w ->
  Forall (says R K) q1 /\ flow R K R' K' D (w <| qw_outbound_tx := Some (mkSender b' q2) |>).
Proof.
  intros Hq [? ? Ho ? ? ? ? ?]. unfold outbox in Ho. rewrite Hq in Ho. simpl in Ho. apply Forall_app in Ho as [H1 H2].
  split; [done|]. by split.
Qed.

(** Messages arrive. *)
Lemma flow_arrive rx ms c w :
  qw_inbound_rx w = Some rx -> Forall (says R' K') ms -> flow R K R' K' D w ->
  flow R K R' K' D (w <| qw_inbound_rx := Some (mkReceiver (rx_queue rx ++ ms) c) |>).
Proof.
  intros Hrx Hm [? ? ? Hi ? ? ? ?]. unfold inbox in Hi. rewrite Hrx in Hi. split; try done.
  unfold inbox. simpl. by apply Forall_app.
Qed.

End around.
