(* ===== verification/ClusterDurable.v ===== *)
(** * What an answered write stands on, on every disk

    A leader with its persistence worker, and for every other node the two quorum workers of
    their connection, the messages on the wire, and the other node with its persistence
    worker.  A network may lose, delay, repeat and reorder messages.  The acknowledgements the
    leader counts are those its quorum workers report, and these are followed back to the log
    files of the other nodes. *)
From stdpp Require Import strings.
From S2P Require Import Prelude Capnp CapnpInstance RaftTypes Bus Samples Persistence PersistenceSpec RaftSm LogModel.
From S2P Require Import QuorumMessage QuorumWorker QuorumWorkerSpec WorkerFlow.
From S2P Require Import Follower FollowerSpec Leader LeaderSpec Candidate Executor Safety NodeTypes NodeLog ClusterLog.
From S2P Require Import Startup StartupSpec NodeDurability NodeAcks LeaderCommit LeaderTasks LeaderDisk.

(** ** The system *)

Section system.
Context {CP : Capnp} {CSV : Csv} {B : Type} `{Bus B}.

(** The connection of the leader with one other node: the worker of the leader, the messages
    it has put on the wire, the worker of the other node, what that has put on the wire, the
    messages it has given to its state machine, and the node. *)
Record Link := mkLink {
  lk_leader : QuorumWorker;
  lk_there : list OwnedQuorumMessage;
  lk_worker : QuorumWorker;
  lk_back : list OwnedQuorumMessage;
  lk_given : list LocalRaftMessage;
  lk_node : History (B := B)
}.

(** The node knows the channels of this worker under other names. *)
Variable name : Callback -> Callback.

Definition called (m : LocalRaftMessage) : LocalRaftMessage :=
  mkLocalRaftMessage (lrm_payload m) (name (lrm_callback m)).

(** Messages leave a worker's channel and are on the wire from then on. *)
Inductive departs : QuorumWorker -> list OwnedQuorumMessage -> QuorumWorker -> list OwnedQuorumMessage -> Prop :=
| departs_some w q1 q2 b b' wire :
    qw_outbound_tx w = Some (mkSender b (q1 ++ q2)) ->
    departs w wire (w <| qw_outbound_tx := Some (mkSender b' q2) |>) (wire ++ q1).

(** Messages of the wire arrive, or the connection closes. *)
Inductive arrives (wire : list OwnedQuorumMessage) : QuorumWorker -> QuorumWorker -> Prop :=
| arrives_some w rx ms c :
    qw_inbound_rx w = Some rx -> ms ⊆ wire ->
    arrives wire w (w <| qw_inbound_rx := Some (mkReceiver (rx_queue rx ++ ms) c) |>).

(** An iteration of a worker: a new connection has nothing in its channel yet, a new inbound
    queue has messages of the wire. *)
Inductive iterates (wire : list OwnedQuorumMessage) (try_recv : Callback -> TryRecv) : QuorumWorker -> QuorumWorker -> Prop :=
| iterates_run has_outbound connect inbound now w w' :
    from_option chan_queue [] connect = [] -> from_option rx_queue [] inbound ⊆ wire ->
    QuorumWorker.run_iteration has_outbound connect inbound try_recv now w = Some w' -> iterates wire try_recv w w'.

Inductive link_step : Link -> Link -> Prop :=
| link_leader_departs wl wl' there there' wf back given h :
    departs wl there wl' there' -> link_step (mkLink wl there wf back given h) (mkLink wl' there' wf back given h)
| link_worker_departs wl there wf wf' back back' given h :
    departs wf back wf' back' -> link_step (mkLink wl there wf back given h) (mkLink wl there wf' back' given h)
| link_leader_arrives wl wl' there wf back given h :
    arrives back wl wl' -> link_step (mkLink wl there wf back given h) (mkLink wl' there wf back given h)
| link_worker_arrives wl there wf wf' back given h :
    arrives there wf wf' -> link_step (mkLink wl there wf back given h) (mkLink wl there wf' back given h)
| link_leader_iterates wl wl' there wf back given h try_recv :
    (forall cb p, try_recv cb = TR_Received p -> typed_answer p) -> iterates back try_recv wl wl' ->
    link_step (mkLink wl there wf back given h) (mkLink wl' there wf back given h)
| link_worker_iterates wl there wf wf' back given h try_recv :
    (forall cb p, try_recv cb = TR_Received p ->
       typed_answer p /\ (name cb, p) ∈ cb_sent (callbacks (shared_state (h_node h)))) ->
    iterates there try_recv wf wf' -> link_step (mkLink wl there wf back given h) (mkLink wl there wf' back given h)
| link_request wl there wf m q back given env x x' d asked files :
    qw_task_queue wf = m :: q -> typed_message (called m) -> built_message (called m) ->
    next_message_id (shared_state x) + 1 < 2 ^ 64 -> accept env (called m) x = Some x' ->
    link_step (mkLink wl there wf back given (mkHistory x d asked files))
      (mkLink wl there (wf <| qw_task_queue := q |>) back (given ++ [m])
         (mkHistory x' d (asked ++ asks x (called m)) files))
| link_node wl there wf back given h h' :
    history_step h h' ->
    (forall c data, (c, data) ∈ h_asked h' -> (c, data) ∈ h_asked h \/ forall cb, c <> name cb) ->
    link_step (mkLink wl there wf back given h) (mkLink wl there wf back given h')
| link_node_task wl there wf t back given h :
    typed_work t ->
    link_step (mkLink wl there wf back given h) (mkLink wl there (wf <| qw_work_queue ::= fun q => q ++ [t] |>) back given h)
| link_node_responses wl there wf n back given h :
    link_step (mkLink wl there wf back given h) (mkLink wl there (wf <| qw_response_queue ::= drop n |>) back given h)
| link_leader_requests wl there wf n back given h :
    link_step (mkLink wl there wf back given h) (mkLink (wl <| qw_task_queue ::= drop n |>) there wf back given h).

(** The leader with all its connections, and the responses it was given by its quorum
    workers, with the connection each came from. *)
Record Quorum := mkQuorum {
  q_leader : History (B := B);
  q_links : list Link;
  q_acks : list (nat * LocalQuorumTaskResponseType)
}.

Definition internal (evs : list event) : Prop :=
  Forall (fun ev => match ev with Ev_Quorum _ => False | _ => True end) evs.

Inductive quorum_step : list event -> Quorum -> Quorum -> Prop :=
| quorum_leads new h h' ls acks :
    reign_step new h h' -> internal new -> quorum_step new (mkQuorum h ls acks) (mkQuorum h' ls acks)
| quorum_links i l l' h ls acks :
    ls !! i = Some l -> link_step l l' -> quorum_step [] (mkQuorum h ls acks) (mkQuorum h (<[i := l']> ls) acks)
| quorum_takes i t q d s w asked files l ls acks :
    quorum_worker_tasks s !! i = Some (t :: q) -> typed_work t -> ls !! i = Some l ->
    quorum_step [] (mkQuorum (mkHistory (mkStateMachineExecutorImpl d s) w asked files) ls acks)
      (mkQuorum (mkHistory (mkStateMachineExecutorImpl d (s <| quorum_worker_tasks ::= alter (drop 1) i |>)) w asked files)
         (<[i := mkLink ((lk_leader l) <| qw_work_queue ::= fun q => q ++ [t] |>) (lk_there l) (lk_worker l) (lk_back l)
                   (lk_given l) (lk_node l)]> ls) acks)
| quorum_reports i r rs d s w asked files l ls acks :
    ls !! i = Some l -> qw_response_queue (lk_leader l) = r :: rs -> typed_quorum r ->
    quorum_step [Ev_Quorum r] (mkQuorum (mkHistory (mkStateMachineExecutorImpl d s) w asked files) ls acks)
      (mkQuorum (mkHistory (mkStateMachineExecutorImpl d (s <| quorum_response ::= fun q => q ++ [r] |>)) w asked files)
         (<[i := mkLink ((lk_leader l) <| qw_response_queue := rs |>) (lk_there l) (lk_worker l) (lk_back l)
                   (lk_given l) (lk_node l)]> ls) (acks ++ [(i, r)])).

Inductive quorum_run q0 : list event -> Quorum -> Prop :=
| quorum_run_start : quorum_run q0 [] q0
| quorum_run_step evs new q q' : quorum_run q0 evs q -> quorum_step new q q' -> quorum_run q0 (evs ++ new) q'.

End system.

(** ** One connection *)

Section link.
Context {CP : Capnp} {CL : CapnpLaws} {CSV : Csv} {CSVL : CsvLaws} {B : Type} `{Bus B}.
Implicit Types l : Link (B := B).
Implicit Types h : History (B := B).
Implicit Types T : gmap Z Data.

Lemma history_step_more h h' : history_step h h' -> h_asked h ⊆ h_asked h' /\ h_files h ⊆ h_files h'.
Proof. destruct 1; simpl; split; try done; set_solver. Qed.

Lemma asks_subject (x : StateMachineExecutorImpl B) m c data :
  (c, data) ∈ asks x m ->
  exists r, lrm_payload m = RM_AppendEntries r /\ c = lrm_callback m /\ (data = None \/ data = request_data r).
Proof.
  unfold asks. destruct (lrm_payload m) as [|r| |]; [by intros ?%elem_of_nil| |by intros ?%elem_of_nil..].
  intros [[= -> ->]|Hin]%elem_of_cons.
  - exists r. split_and!; [done..|]. destruct (state_delegate x); [by right|by left..].
  - case_decide; [|by apply elem_of_nil in Hin]. apply list_elem_of_singleton in Hin as [= -> ->]. exists r. split_and!; [done..|by left].
Qed.

(** A request with an entry is recorded as one that asks for nothing when the node it is given
    to is no follower; the code then acknowledges it all the same, see
    [stepping_down_acknowledges_unstored_entry]. *)
Lemma asks_nothing (x : StateMachineExecutorImpl B) r cb data :
  a_request_id r <> 0 -> request_data r = Some data ->
  (cb, None) ∈ asks x (mkLocalRaftMessage (RM_AppendEntries r) cb) ->
  match state_delegate x with D_Follower _ => False | _ => True end.
Proof.
  intros Hid Hr. unfold asks. simpl. rewrite Hr, decide_False by done. rewrite list_elem_of_singleton.
  by destruct (state_delegate x).
Qed.

Variable name : Callback -> Callback.
Context {Hname : Inj (=) (=) name}.

(** The first message id of the leadership. *)
Variable id0 : Z.

(** An id of the leadership is that of the entry [T] names. *)
Definition may_send T (id : Z) (e : OwnedLogEntry) : Prop := id0 <= id -> T !! id = Some (as_bytes e).

(** The node has had the entry in its log file, or was given the request with this entry under
    [id] when it was no follower, see [asks_nothing]. *)
Definition holds l (id : Z) (data : Data) : Prop :=
  written (h_files (lk_node l)) data \/
  exists cb r, mkLocalRaftMessage (RM_AppendEntries r) cb ∈ lk_given l /\ a_request_id r = id /\ id <> 0 /\
    request_data r = Some data /\ (name cb, None) ∈ h_asked (lk_node l).

Definition may_ack T l (id : Z) : Prop := id0 <= id -> exists data, T !! id = Some data /\ holds l id data.

Definition anything (id : Z) (e : OwnedLogEntry) : Prop := True.
Definition any_id (id : Z) : Prop := True.

Record link_inv T l : Prop := {
  li_leader : exists D, flow (may_send T) any_id anything (may_ack T l) D (lk_leader l);
  li_worker : flow anything (may_ack T l) (may_send T) any_id (lk_given l) (lk_worker l);
  li_there : Forall (says (may_send T) any_id) (lk_there l);
  li_back : Forall (says anything (may_ack T l)) (lk_back l);
  li_node : exists T', history_at T' (lk_node l);
  li_asked : forall cb data, (name cb, data) ∈ h_asked (lk_node l) ->
    exists r, mkLocalRaftMessage (RM_AppendEntries r) cb ∈ lk_given l /\ (data = None \/ data = request_data r)
}.

(** What a node has done, it has done. *)
Definition link_more l l' : Prop :=
  lk_given l ⊆ lk_given l' /\ h_asked (lk_node l) ⊆ h_asked (lk_node l') /\ h_files (lk_node l) ⊆ h_files (lk_node l').

Lemma may_send_more T T' id e : T ⊆ T' -> may_send T id e -> may_send T' id e.
Proof. intros HT Hs Hid. eapply lookup_weaken; [by apply Hs|done]. Qed.

Lemma may_ack_more T T' l l' id : T ⊆ T' -> link_more l l' -> may_ack T l id -> may_ack T' l' id.
Proof.
  intros HT (Hg & Ha & Hf) Hk Hid. destruct (Hk Hid) as (data & Hd & Hh). exists data. split; [by eapply lookup_weaken|].
  destruct Hh as [Hw|(cb & r & Hin & Hr & Hne & Hd' & Hn)]; [left; by eapply written_more|right]. exists cb, r.
  split_and!; [by apply Hg|done..|by apply Ha].
Qed.

Lemma link_more_refl l : link_more l l.
Proof. done. Qed.

(** The same connection with workers and wires changed, the node and its requests not. *)
Definition same_node l l' : Prop := lk_given l' = lk_given l /\ lk_node l' = lk_node l.

Lemma may_ack_same T l l' id : same_node l l' -> may_ack T l id <-> may_ack T l' id.
Proof. intros [Hg Hn]. unfold may_ack, holds. by rewrite Hg, Hn. Qed.

Lemma link_inv_more T T' l : T ⊆ T' -> link_inv T l -> link_inv T' l.
Proof.
  intros HT [(D & Hl) Hw Ht Hb Hn Ha]. split; [exists D| | | |done|done].
  - revert Hl. apply flow_more; intros; try done; [by eapply may_send_more|by eapply may_ack_more; [..|apply link_more_refl|]].
  - revert Hw. apply flow_more; intros; try done; [by eapply may_ack_more; [..|apply link_more_refl|]|by eapply may_send_more].
  - eapply Forall_impl; [|exact Ht]. intros m. apply says_more; intros; [by eapply may_send_more|done].
  - eapply Forall_impl; [|exact Hb]. intros m. apply says_more; intros; [done|by eapply may_ack_more; [..|apply link_more_refl|]].
Qed.

Lemma departs_flow R K R' K' D w wire w' wire' :
  departs w wire w' wire' -> Forall (says R K) wire -> flow R K R' K' D w ->
  Forall (says R K) wire' /\ flow R K R' K' D w'.
Proof.
  intros [w1 q1 q2 b b' wire1 Hq] Hwire Hw. destruct (flow_leave _ _ _ _ _ _ _ _ b' _ Hq Hw) as [Hq1 Hw'].
  split; [by apply Forall_app|done].
Qed.

Lemma Forall_subseteq {A} (P : A -> Prop) xs ys : xs ⊆ ys -> Forall P ys -> Forall P xs.
Proof. rewrite !list.Forall_forall. intros Hs Hl x Hx. by apply Hl, Hs. Qed.

Lemma arrives_flow R K R' K' D wire w w' :
  arrives wire w w' -> Forall (says R' K') wire -> flow R K R' K' D w -> flow R K R' K' D w'.
Proof. intros [w1 rx ms c Hrx Hms] Hwire. apply flow_arrive; [done|by eapply Forall_subseteq]. Qed.

Lemma iterates_flow R K R' K' D wire try_recv w w' :
  iterates wire try_recv w w' -> Forall (says R' K') wire -> heard K D try_recv -> flow R K R' K' D w -> flow R K R' K' D w'.
Proof.
  intros [ho connect inbound now w1 w2 Hc Hi Hr] Hwire Hh Hw. eapply flow_iteration; [| |exact Hh|exact Hw|exact Hr].
  - by rewrite Hc.
  - by eapply Forall_subseteq.
Qed.

(** An answer of Ok stands on the log file of the node. *)
Lemma node_heard T l try_recv :
  link_inv T l ->
  (forall cb p, try_recv cb = TR_Received p ->
     typed_answer p /\ (name cb, p) ∈ cb_sent (callbacks (shared_state (h_node (lk_node l))))) ->
  heard (may_ack T l) (lk_given l) try_recv.
Proof.
  intros [_ Hw _ _ (T' & Hh) Ha] Ht cb p Hr. destruct (Ht _ _ Hr) as [Hty Hin]. split; [done|]. intros ->. right.
  destruct (hi_ledger _ _ Hh) as (_ & _ & _ & _ & Hled).
  assert (Hask : exists data, (name cb, data) ∈ h_asked (lk_node l) /\
    (data = None \/ exists d, data = Some d /\ written (h_files (lk_node l)) d)).
  { destruct (led_sent _ _ _ _ Hled _ Hin) as [Hn|(d & Hd & Hwr)]; [by exists None; split; [|left]|].
    exists (Some d). split; [done|right]. by exists d. }
  destruct Hask as (data & Hask & Hdata). destruct (Ha _ _ Hask) as (r & Hg & Hreq).
  exists (RM_AppendEntries r). split; [done|]. intros r' [= <-] Hne Hid.
  pose proof (fl_given _ _ _ _ _ _ Hw) as Hgiven. apply Forall_app in Hgiven as [Hgiven _].
  destruct (proj1 (list.Forall_forall _ _) Hgiven _ Hg) as [_ Hok]. simpl in Hok.
  destruct (Hok Hne) as (e & HR & He). exists (as_bytes e). split; [by apply HR|].
  destruct Hdata as [->|(d & -> & Hwr)].
  - right. exists cb, r. unfold request_data. by rewrite He.
  - destruct Hreq as [|Hreq]; [done|]. left. unfold request_data in Hreq. rewrite He in Hreq. by injection Hreq as ->.
Qed.

Lemma link_step_inv T l l' : link_inv T l -> link_step name l l' -> link_inv T l'.
Proof.
  intros Hinv Hs. pose proof Hinv as [(D & Hl) Hw Ht Hb Hn Ha].
  destruct Hs as [wl wl' there there' wf back given h Hd|wl there wf wf' back back' given h Hd|wl wl' there wf back given h Hr
    |wl there wf wf' back given h Hr|wl wl' there wf back given h try_recv Hty Hi|wl there wf wf' back given h try_recv Hty Hi
    |wl there wf m q back given env x x' d asked files Hq Hm Hbm Hroom Hacc|wl there wf back given h h' Hst Hforeign
    |wl there wf t back given h Ht'|wl there wf n back given h|wl there wf n back given h]; cbn [lk_leader lk_there lk_worker lk_back lk_given lk_node] in *.
  - destruct (departs_flow _ _ _ _ _ _ _ _ _ Hd Ht Hl). split; try done. by exists D.
  - destruct (departs_flow _ _ _ _ _ _ _ _ _ Hd Hb Hw). split; try done. by exists D.
  - split; try done. exists D. by eapply arrives_flow.
  - split; try done; [by exists D|]. by eapply arrives_flow.
  - split; try done. exists D. eapply iterates_flow; [done..| |done]. intros cb p Hp. split; [by eapply Hty|]. by left.
  - split; try done; [by exists D|]. eapply iterates_flow; [done..| |done].
    by apply (node_heard _ (mkLink wl there wf back given h)).
  - assert (Hst : history_step (mkHistory x d asked files) (mkHistory x' d (asked ++ asks x (called name m)) files)).
    { by eapply History_accept. }
    assert (Hmore : link_more (mkLink wl there wf back given (mkHistory x d asked files))
      (mkLink wl there wf back (given ++ [m]) (mkHistory x' d (asked ++ asks x (called name m)) files))).
    { split_and!; simpl; set_solver. }
    split; try done; cbn [lk_leader lk_there lk_worker lk_back lk_given lk_node].
    + exists D. revert Hl. apply flow_more; intros; try done. by eapply may_ack_more.
    + pose proof (flow_deliver _ _ _ _ _ 1 _ Hw) as Hd.
      assert (Htk : take 1 (qw_task_queue wf) = [m]) by by rewrite Hq. rewrite Htk in Hd.
      assert (Hwf : wf <| qw_task_queue ::= drop 1 |> = wf <| qw_task_queue := q |>) by (destruct wf; simpl in *; by rewrite Hq).
      rewrite Hwf in Hd. revert Hd. apply flow_more; intros; try done. by eapply may_ack_more.
    + eapply Forall_impl; [|exact Hb]. intros m'. apply says_more; intros; [done|by eapply may_ack_more].
    + destruct Hn as (T' & Hh). destruct (history_step_at _ _ _ Hh Hst) as (_ & T2 & _ & Hh2). by exists T2.
    + intros cb data Hin. simpl in Hin. apply elem_of_app in Hin as [Hin|Hin].
      * destruct (Ha _ _ Hin) as (r & Hg & Hr). exists r. split; [set_solver|done].
      * destruct (asks_subject _ _ _ _ Hin) as (r & Hp & Hc & Hr). exists r. split; [|done].
        simpl in Hp, Hc. apply Hname in Hc as ->. destruct m as [p c]. simpl in *. subst p. set_solver.
  - destruct (history_step_more _ _ Hst) as [Ham Hfm].
    assert (Hmore : link_more (mkLink wl there wf back given h) (mkLink wl there wf back given h')) by done.
    split; try done; cbn [lk_leader lk_there lk_worker lk_back lk_given lk_node].
    + exists D. revert Hl. apply flow_more; intros; try done. by eapply may_ack_more.
    + revert Hw. apply flow_more; intros; try done. by eapply may_ack_more.
    + eapply Forall_impl; [|exact Hb]. intros m'. apply says_more; intros; [done|by eapply may_ack_more].
    + destruct Hn as (T' & Hh). destruct (history_step_at _ _ _ Hh Hst) as (_ & T2 & _ & Hh2). by exists T2.
    + intros cb data Hin. destruct (Hforeign _ _ Hin) as [Hold|Hnew]; [by apply Ha|]. by destruct (Hnew cb).
  - split; try done; [by exists D|]. by apply flow_task.
  - split; try done; [by exists D|]. cbn [lk_worker].
    assert (Hwf : wf <| qw_response_queue ::= drop n |> = wf <| qw_response_queue := drop n (qw_response_queue wf) |>) by by destruct wf.
    rewrite Hwf. apply flow_responses; [|done]. intros r Hr. rewrite <- (take_drop n (qw_response_queue wf)). set_solver.
  - split; try done. eexists. by apply flow_deliver.
Qed.

End link.

(** ** The whole *)

Section quorum.
Context {CP : Capnp} {CL : CapnpLaws} {CSV : Csv} {CSVL : CsvLaws} {B : Type} `{Bus B}.
Implicit Types x : StateMachineExecutorImpl B.
Implicit Types h : History (B := B).
Implicit Types q : Quorum (B := B).
Implicit Types T : gmap Z Data.

Abbreviation node_log x := (replication_log (volatile_server_state (shared_state x))).
Abbreviation tasks x := (quorum_worker_tasks (shared_state x)).
Abbreviation next x := (next_message_id (shared_state x)).
Abbreviation commit x := (commit_index (volatile_server_state (shared_state x))).
Abbreviation sent x := (cb_sent (callbacks (shared_state x))).

Variable name : Callback -> Callback.
Context {Hname : Inj (=) (=) name}.

(** What a leader finds at its election has ids below its counter. *)
Record settled x : Prop := {
  st_log : forall e, e ∈ node_log x -> message_id e < next x;
  st_offered : forall e, e ∈ offered (tasks x) -> message_id e < next x;
  st_tasks : forall ts t id e, ts ∈ tasks x -> t ∈ ts -> (id, e) ∈ task_sends t -> id < next x;
  st_acks : forall id ok, QR_AppendEntries id ok ∈ quorum_response (shared_state x) -> id < next x
}.

Variable id0 : Z.

(** Entries in the log and in the tasks that have ids of the leadership are those of [T], and
    they are sent under their ids. *)
Record owns T x : Prop := {
  ow_log : forall e, e ∈ node_log x -> id0 <= message_id e -> T !! message_id e = Some (as_bytes e);
  ow_offered : forall e, e ∈ offered (tasks x) -> id0 <= message_id e -> T !! message_id e = Some (as_bytes e);
  ow_tasks : forall ts t, ts ∈ tasks x -> t ∈ ts -> labelled t \/ forall id e, (id, e) ∈ task_sends t -> id < id0
}.

Lemma labelled_sends t id e : labelled t -> (id, e) ∈ task_sends t -> id = message_id e /\ e ∈ task_entries t.
Proof.
  destruct t as [| | |id' e' c|data| | |]; simpl; try by intros _ ?%elem_of_nil.
  - intros -> [= -> ->]%list_elem_of_singleton. split; [done|by left].
  - intros _ (e' & [= -> ->] & Hin)%list_elem_of_fmap. done.
Qed.

Lemma owns_sends T x ts t id e :
  owns T x -> ts ∈ tasks x -> t ∈ ts -> (id, e) ∈ task_sends t -> may_send id0 T id e.
Proof.
  intros [_ Ho Ht] Hts Hin Hs Hid. destruct (Ht _ _ Hts Hin) as [Hl|Hold]; [|specialize (Hold _ _ Hs); lia].
  destruct (labelled_sends _ _ _ Hl Hs) as [-> He]. apply Ho; [|done]. apply elem_of_offered. by exists ts, t.
Qed.

Lemma settled_owns T x : id0 = next x -> settled x -> owns T x.
Proof.
  intros H0 [Hl Ho Ht _]. split.
  - intros e He Hid. specialize (Hl e He). lia.
  - intros e He Hid. specialize (Ho e He). lia.
  - intros ts t Hts Hin. right. intros id e Hs. rewrite H0. by eapply Ht.
Qed.

Lemma grown_entries T T' h h' :
  history_at T' h' -> T ⊆ T' -> grown (shared_state (h_node h)) (shared_state (h_node h')) ->
  (forall e, e ∈ node_log (h_node h) -> id0 <= message_id e -> T !! message_id e = Some (as_bytes e)) ->
  forall e, e ∈ node_log (h_node h') -> id0 <= message_id e -> T' !! message_id e = Some (as_bytes e).
Proof.
  intros Hh HT Hg Hl e He Hid. destruct (hi_ledger _ _ Hh) as (_ & _ & _ & _ & Hled).
  destruct Hg as [Hs|(e' & rid & Hlog & _ & Hin)].
  - rewrite Hs in He. eapply lookup_weaken; [by apply Hl|done].
  - rewrite Hlog, elem_of_app, list_elem_of_singleton in He. destruct He as [He| ->].
    + eapply lookup_weaken; [by apply Hl|done].
    + by eapply led_queue.
Qed.

Lemma owns_step T T' h h' :
  history_at T' h' -> T ⊆ T' -> grown (shared_state (h_node h)) (shared_state (h_node h')) ->
  sends (shared_state (h_node h)) (shared_state (h_node h')) -> owns T (h_node h) -> owns T' (h_node h').
Proof.
  intros Hh HT Hg [Hlab Hoff] [Hl Ho Ht]. pose proof (grown_entries _ _ _ _ Hh HT Hg Hl) as Hl'. split; [done| |].
  - intros e [He|He]%Hoff Hid; [eapply lookup_weaken; [by apply Ho|done]|by apply Hl'].
  - intros ts t Hts Hin. destruct (Hlab _ _ Hts Hin) as [?|(ts0 & Hts0 & Hin0)]; [by left|by eapply Ht].
Qed.

(** The entries appended since the election have ids of the leadership. *)
Definition new_ids (l0 : Z) x : Prop :=
  id0 <= next x /\ forall i e, l0 <= i -> vget (node_log x) i = Some e -> id0 <= message_id e.

Lemma new_ids_step l0 T h h' :
  history_at T h -> next (h_node h) <= next (h_node h') -> grown (shared_state (h_node h)) (shared_state (h_node h')) ->
  (node_log (h_node h') = node_log (h_node h) \/ next (h_node h) + 1 < 2 ^ 64) ->
  new_ids l0 (h_node h) -> new_ids l0 (h_node h').
Proof.
  intros Hh Hn Hg Hr [H0 He]. split; [lia|]. intros i e Hi Hget.
  pose proof (ok_next_message_id _ (hi_words _ _ Hh)) as [Hpos _].
  destruct Hg as [Hs|(e' & rid & Hlog & Hid & _)]; [rewrite Hs in Hget; by eapply He|].
  destruct Hr as [Hs|Hr].
  { rewrite Hs in Hlog. apply (f_equal length) in Hlog. rewrite length_app in Hlog. simpl in Hlog. lia. }
  rewrite Hlog in Hget. apply vget_snoc_Some in Hget as [Hget|[-> ->]]; [by eapply He|].
  destruct Hid as [->| ->]; [done|]. rewrite u64_add_small by lia. lia.
Qed.

Definition ack_ok T (ls : list (Link (B := B))) (a : nat * LocalQuorumTaskResponseType) : Prop :=
  match a.2 with QR_AppendEntries id _ => exists l, ls !! a.1 = Some l /\ may_ack name id0 T l id | _ => True end.

Record quorum_inv T x0 evs q : Prop := {
  qi_backing : backing T x0 evs (q_leader q);
  qi_owns : owns T (h_node (q_leader q));
  qi_new : new_ids (vlen (node_log x0)) (h_node (q_leader q));
  qi_links : Forall (link_inv name id0 T) (q_links q);
  qi_acks : Forall (ack_ok T (q_links q)) (q_acks q);
  qi_told : acks_of evs = (q_acks q).*2
}.

Lemma link_step_more (l l' : Link (B := B)) : link_step name l l' -> link_more l l'.
Proof.
  destruct 1 as [| | | | | | |? ? ? ? ? h h' Hst _| | |]; try done; [split_and!; simpl; set_solver|].
  by destruct (history_step_more _ _ Hst).
Qed.

Lemma ack_ok_more T T' ls ls' a :
  T ⊆ T' -> (forall i l, ls !! i = Some l -> exists l', ls' !! i = Some l' /\ link_more l l') -> ack_ok T ls a -> ack_ok T' ls' a.
Proof.
  intros HT Hls. unfold ack_ok. destruct a.2; try done. intros (l & Hl & Ha). destruct (Hls _ _ Hl) as (l' & Hl' & Hm).
  exists l'. split; [done|by eapply may_ack_more].
Qed.

Lemma insert_more (ls : list (Link (B := B))) i l l' :
  ls !! i = Some l -> link_more l l' -> forall j k, ls !! j = Some k -> exists k', <[i := l']> ls !! j = Some k' /\ link_more k k'.
Proof.
  intros Hi Hm j k Hj. destruct (decide (i = j)) as [->|Hne].
  - exists l'. split; [apply list_lookup_insert_eq; by eapply lookup_lt_Some|]. rewrite Hi in Hj. by injection Hj as <-.
  - exists k. by rewrite list_lookup_insert_ne.
Qed.

Lemma links_insert T (ls : list (Link (B := B))) i l l' :
  Forall (link_inv name id0 T) ls -> ls !! i = Some l -> (link_inv name id0 T l -> link_inv name id0 T l') ->
  Forall (link_inv name id0 T) (<[i := l']> ls).
Proof. intros Hls Hi Hl. apply list.Forall_insert; [done|]. apply Hl. by eapply (proj1 (list.Forall_lookup _ _) Hls). Qed.

(** A step of the leader. *)
Lemma leader_step_inv T x0 evs new h h' ls acks :
  new_leader x0 -> quorum_inv T x0 evs (mkQuorum h ls acks) -> reign_step new h h' ->
  exists T', T ⊆ T' /\ backing T' x0 (evs ++ new) h' /\ owns T' (h_node h') /\ new_ids (vlen (node_log x0)) (h_node h') /\
    Forall (link_inv name id0 T') ls /\ Forall (ack_ok T' ls) acks.
Proof.
  intros Hn [Hb Ho Hi Hl Ha _] Hs. simpl in *.
  destruct (reign_step_facts _ _ _ _ _ _ Hn Hb Hs) as (Hlead & Hst & Hg & Hroom & Hsend & Hf & Hr).
  destruct (history_step_at _ _ _ (bk_history _ _ _ _ Hb) Hst) as (Hnext & _).
  destruct (backing_step _ _ _ _ _ _ _ eq_refl Hb Hlead Hst Hg Hf Hr) as (T' & HT & Hb').
  exists T'. split_and!; [done|done| | | |].
  - eapply owns_step; [apply Hb'|done..].
  - eapply new_ids_step; [apply Hb|done..].
  - eapply Forall_impl; [|exact Hl]. intros l. by apply link_inv_more.
  - eapply Forall_impl; [|exact Ha]. intros a. apply ack_ok_more; [done|]. intros i l Hi'. by exists l.
Qed.

Lemma acks_of_app evs evs' : acks_of (evs ++ evs') = acks_of evs ++ acks_of evs'.
Proof. apply omap_app. Qed.

Lemma acks_of_internal new : internal new -> acks_of new = [].
Proof. induction 1 as [|ev new Hev _ IH]; [done|]. destruct ev; by try apply IH. Qed.

Lemma quorum_step_inv T x0 evs new q q' :
  new_leader x0 -> quorum_inv T x0 evs q -> quorum_step name new q q' -> exists T', quorum_inv T' x0 (evs ++ new) q'.
Proof.
  intros Hn Hinv Hs.
  destruct Hs as [new h h' ls acks Hs Hint|i l l' h ls acks Hi Hs|i t q d s w asked files l ls acks Hq Ht Hi
    |i r rs d s w asked files l ls acks Hi Hr Hty].
  - destruct (leader_step_inv _ _ _ _ _ _ _ _ Hn Hinv Hs) as (T' & HT & ? & ? & ? & ? & ?). exists T'. split; try done.
    rewrite acks_of_app, (acks_of_internal _ Hint), app_nil_r. apply Hinv.
  - destruct Hinv as [Hb Ho Hnew Hl Ha Htold]. exists T. rewrite app_nil_r. split; try done; simpl in *.
    + eapply links_insert; [done..|]. intros Hli. by eapply link_step_inv.
    + eapply Forall_impl; [|exact Ha]. intros a. apply ack_ok_more; [done|]. apply (insert_more _ _ l); [done|by apply link_step_more].
  - assert (Hts : t :: q ∈ quorum_worker_tasks s) by by eapply list_elem_of_lookup_2.
    assert (Hmay : forall id e, (id, e) ∈ task_sends t -> may_send id0 T id e) by (intros id e; eapply (owns_sends T _ (t :: q)); [apply Hinv|exact Hts|by left]).
    destruct (leader_step_inv _ _ _ _ _ _ _ _ Hn Hinv (reign_quorum_tasks d s i 1 w asked files)) as (T' & HT & Hb & Ho & Hnew & Hl & Ha).
    exists T'. split; try done; simpl.
    + eapply links_insert; [done..|]. intros [(D & Hlead) Hw Hth Hbk Hno Has]. split; try done. exists D. simpl.
      apply flow_task; [done| |done]. intros id e Hin _. by eapply may_send_more, Hmay.
    + eapply Forall_impl; [|exact Ha]. intros a. apply ack_ok_more; [done|]. by apply (insert_more _ _ l).
    + rewrite app_nil_r. apply Hinv.
  - destruct (leader_step_inv _ _ _ _ _ _ _ _ Hn Hinv (reign_quorum r d s w asked files Hty)) as (T' & HT & Hb & Ho & Hnew & Hl & Ha).
    assert (Hli : link_inv name id0 T' l) by by eapply (proj1 (list.Forall_lookup _ _) Hl).
    pose proof Hli as [(D & Hlead) _ _ _ _ _]. pose proof (fl_responses _ _ _ _ _ _ Hlead) as Hres. rewrite Hr in Hres.
    inversion Hres as [|? ? Hr1 _]; subst.
    exists T'. split; try done; simpl.
    + eapply links_insert; [done..|]. intros [_ Hw Hth Hbk Hno Has]. split; try done. exists D. simpl.
      apply flow_responses; [|done]. rewrite Hr. set_solver.
    + apply Forall_app. split.
      * eapply Forall_impl; [|exact Ha]. intros a. apply ack_ok_more; [done|]. by apply (insert_more _ _ l).
      * apply Forall_singleton. unfold ack_ok. simpl. destruct r; try done. eexists. split.
        -- apply list_lookup_insert_eq. by eapply lookup_lt_Some.
        -- exact Hr1.
    + rewrite acks_of_app, fmap_app. f_equal. apply Hinv.
Qed.

(** ** From the election on *)

Definition leader_log q := node_log (h_node (q_leader q)).

(** Nothing is under way on a connection with an id of the leadership.  This holds for a new
    connection, and before the leadership as long as the leader's node uses smaller ids. *)
Definition idle_link (l : Link (B := B)) : Prop := link_inv name id0 ∅ l.

Lemma quorum_run_inv T0 q0 evs q :
  let x0 := h_node (q_leader q0) in
  new_leader x0 -> id0 = next x0 -> settled x0 -> history_at T0 (q_leader q0) -> q_acks q0 = [] ->
  Forall idle_link (q_links q0) -> quorum_run name q0 evs q -> exists T, quorum_inv T x0 evs q.
Proof.
  intros x0 Hn Hid Hst Hh Hacks Hl Hr. induction Hr as [|evs new q q' _ [T IH] Hs]; [|by eapply quorum_step_inv].
  destruct (reigns_backing _ _ _ _ Hn Hh (reigns_start _)) as (T & _ & Hb). exists T. split; [done|by apply settled_owns| | | |].
  - split; [rewrite Hid; done|]. intros i e Hi Hget%vget_lt. unfold x0 in *. lia.
  - eapply Forall_impl; [|exact Hl]. intros l. apply link_inv_more. apply map_empty_subseteq.
  - rewrite Hacks. constructor.
  - by rewrite Hacks.
Qed.

(** The acknowledgements of [id], with the connections they came from. *)
Definition acks_for (id : Z) q : list (nat * LocalQuorumTaskResponseType) :=
  filter (fun a => acknowledges id a.2) (q_acks q).

Lemma acks_for_count id q : vlen (acks_for id q) = ack_count id ((q_acks q).*2).
Proof.
  unfold acks_for, ack_count, vlen. f_equal. induction (q_acks q) as [|a acks IH]; [done|].
  rewrite fmap_cons, !filter_cons. case_decide; simpl; by rewrite IH.
Qed.

Lemma settled_acks x id : settled x -> next x <= id -> ack_count id (quorum_response (shared_state x)) = 0.
Proof.
  intros Hs Hid. unfold ack_count. assert (Hnil : filter (acknowledges id) (quorum_response (shared_state x)) = []); [|by rewrite Hnil].
  destruct (filter _ _) as [|r rs] eqn:Hf; [done|]. exfalso.
  assert (Hin : r ∈ r :: rs) by by left. rewrite <- Hf in Hin. apply list_elem_of_filter in Hin as [Hr Hin].
  destruct r as [|id' ok| | |]; simpl in Hr; try done. subst id'. pose proof (st_acks _ Hs _ _ Hin). lia.
Qed.

(** An entry that is backed is on the disk of the leader, and behind every acknowledgement
    stands the disk of the node that sent it. *)
Lemma backed_on_disks T q0 evs q i e :
  let x0 := h_node (q_leader q0) in let x := h_node (q_leader q) in
  id0 = next x0 -> settled x0 -> quorum_inv T x0 evs q ->
  vlen (node_log x0) <= i -> vget (node_log x) i = Some e ->
  backed (quorum_size (shared_state x)) (told_of x0 evs) (message_id e) ->
  written (h_files (q_leader q)) (as_bytes e) /\
  quorum_size (shared_state x) <= vlen (acks_for (message_id e) q) /\
  Forall (fun a => exists l, q_links q !! a.1 = Some l /\ holds name l (message_id e) (as_bytes e)) (acks_for (message_id e) q).
Proof.
  intros x0 x Hid Hst [Hb Ho [_ Hnew] Hl Ha Htold] Hi Hget [Hcount Hrep]. specialize (Hnew i e Hi Hget).
  assert (HT : T !! message_id e = Some (as_bytes e)) by by apply (bk_entries _ _ _ _ Hb i).
  split_and!.
  - destruct (bk_reports _ _ _ _ Hb _ Hrep) as (data & Hd & Hw). rewrite HT in Hd. by injection Hd as ->.
  - rewrite acks_for_count. unfold told_of in Hcount. simpl in Hcount. rewrite ack_count_app, Htold in Hcount.
    rewrite settled_acks in Hcount by (done || lia). lia.
  - apply list.Forall_forall. intros [j r] [Hr Hin]%list_elem_of_filter. simpl in Hr.
    pose proof (proj1 (list.Forall_forall _ _) Ha _ Hin) as Hok. unfold ack_ok in Hok. simpl in Hok.
    destruct r as [|id' ok| | |]; simpl in Hr; try done. subst id'. destruct Hok as (l & Hlk & Hk). exists l. split; [done|].
    destruct (Hk Hnew) as (data & Hd & Hh). rewrite HT in Hd. by injection Hd as ->.
Qed.

End quorum.

(** ** What a client is told *)

Section durable.
Context {CP : Capnp} {CL : CapnpLaws} {CSV : Csv} {CSVL : CsvLaws} {B : Type} `{Bus B}.
Implicit Types x : StateMachineExecutorImpl B.
Implicit Types q : Quorum (B := B).

Abbreviation node_log x := (replication_log (volatile_server_state (shared_state x))).
Abbreviation commit x := (commit_index (volatile_server_state (shared_state x))).
Abbreviation sent x := (cb_sent (callbacks (shared_state x))).

Variable name : Callback -> Callback.
Context {Hname : Inj (=) (=) name}.

(** A node that was started from its files, has just been elected, and has only smaller ids in
    its log and under way. *)
Record elected_after_start (q0 : Quorum (B := B)) : Prop := {
  es_started : exists ms rows nodes node_id max (bus : B) env s0 w0,
    Forall log_entry_built ms /\ Forall typed_row rows /\ u32 node_id /\
    start_node (mjoin (write_log_entry <$> ms)) (mjoin (csv_row <$> rows)) nodes node_id max bus = Some (s0, w0) /\
    rtc history_step (mkHistory (StateMachineExecutorImpl_new env s0) w0 [] []) (q_leader q0);
  es_leader : new_leader (h_node (q_leader q0));
  es_settled : settled (h_node (q_leader q0));
  es_acks : q_acks q0 = [];
  es_links : Forall (idle_link name (next_message_id (shared_state (h_node (q_leader q0))))) (q_links q0)
}.

Lemma elected_run_inv q0 evs q :
  elected_after_start q0 -> quorum_run name q0 evs q ->
  exists T, quorum_inv name (next_message_id (shared_state (h_node (q_leader q0)))) T (h_node (q_leader q0)) evs q.
Proof.
  intros [(ms & rows & nodes & node_id & max & bus & env & s0 & w0 & Hm & Hr & Hid & Hs & Hrun) Hn Hst Ha Hl] Hq.
  pose proof (started_history _ _ _ _ _ _ _ _ env Hm Hr Hid Hs) as H0.
  destruct (history_steps_at _ _ _ H0 Hrun) as (T & _ & HT). by eapply quorum_run_inv.
Qed.

(** What a leader commits has been in its own log file, and behind each of the at least
    [quorum_size] acknowledgements that committed it stands the node on the connection it
    came from: the entry has been in that node's log file, or the node was no follower when
    it was asked.  The leader, its persistence worker, the quorum workers of both sides of
    every connection, the other nodes and their persistence workers run in any interleaving,
    over a network that may lose, delay, repeat and reorder messages. *)
Theorem committed_entry_is_on_disks q0 evs q :
  elected_after_start q0 -> quorum_run name q0 evs q ->
  commit (h_node (q_leader q)) <> commit (h_node (q_leader q0)) ->
  exists e, vget (node_log (h_node (q_leader q))) (commit (h_node (q_leader q))) = Some e /\
    written (h_files (q_leader q)) (as_bytes e) /\
    quorum_size (shared_state (h_node (q_leader q))) <= vlen (acks_for (message_id e) q) /\
    Forall (fun a => exists l, q_links q !! a.1 = Some l /\ holds name l (message_id e) (as_bytes e)) (acks_for (message_id e) q).
Proof.
  intros Hel Hq Hc. destruct (elected_run_inv _ _ _ Hel Hq) as (T & Hinv).
  destruct (leads_tally _ _ _ (es_leader _ Hel) (bk_leads _ _ _ _ (qi_backing _ _ _ _ _ _ Hinv))) as [_ _ _ Hcm _].
  destruct Hcm as [|(id & e & (Hi & Hget & <- & _) & Hb)]; [done|]. exists e. split; [done|].
  eapply backed_on_disks; [done|apply Hel|done|exact Hi|done|done].
Qed.

(** C1: A client that is told of success has its commands on the leader's disk, and every
    acknowledgement counted for them is accounted for.  The leadership is one that begins
    after the node was started from its files, with the cursors at the end of its log, no
    write or no-op of an earlier leadership outstanding, only smaller message ids in log and
    queues, and nothing under way on the connections under its ids; no batch comes before its
    first time step.  During it, when the callback of a write batch is answered with success,
    the commands of the batch are, in order, those of an entry of the leader's log at or below
    its commit index; this entry has been in the leader's own log file, and for each of the at
    least [quorum_size] acknowledgements the node on the connection it came from either has
    had the entry in its log file, or was given the request with the entry when it was no
    follower: such a node acknowledges without storing
    ([stepping_down_acknowledges_unstored_entry]).  All workers, nodes and disks run in any
    interleaving, over a network that may lose, delay, repeat and reorder messages. *)
Theorem answered_write_is_on_disks q0 evs q cb r :
  elected_after_start q0 -> quorum_run name q0 evs q ->
  (cb, RP_WriteBatch r) ∈ sent (h_node (q_leader q)) -> wbr_err r = None ->
  (cb, RP_WriteBatch r) ∉ sent (h_node (q_leader q0)) ->
  exists b i e, (b, cb) ∈ batches_of evs /\ i <= commit (h_node (q_leader q)) /\
    vget (node_log (h_node (q_leader q))) i = Some e /\
    with_message e le_commands = Some (Some (map copy_command (batch_requests b))) /\
    written (h_files (q_leader q)) (as_bytes e) /\
    quorum_size (shared_state (h_node (q_leader q))) <= vlen (acks_for (message_id e) q) /\
    Forall (fun a => exists l, q_links q !! a.1 = Some l /\ holds name l (message_id e) (as_bytes e)) (acks_for (message_id e) q).
Proof.
  intros Hel Hq Hin Hr Hnew. destruct (elected_run_inv _ _ _ Hel Hq) as (T & Hinv).
  destruct (leads_tally _ _ _ (es_leader _ Hel) (bk_leads _ _ _ _ (qi_backing _ _ _ _ _ _ Hinv))) as [_ _ _ _ Ha].
  destruct (Ha _ _ Hin Hr) as [|(b & id & i & Hb & (e & (Hi & Hget & <- & _) & Hc) & Hbk & Hle)]; [done|].
  exists b, i, e. do 4 (split; [done|]). eapply backed_on_disks; [done|apply Hel|done|exact Hi|done|done].
Qed.

End durable.
