(* ===== verification/ClusterDurableRun.v ===== *)
(** * A write on the disks of two nodes

    Executable scripts for the system of [ClusterDurable.v], and a run of two nodes: node 1 is
    started and elected, takes a write batch, sends its two entries to node 2, both nodes
    write them, and the client is answered. *)
From stdpp Require Import strings.
From S2P Require Import Prelude Capnp CapnpInstance RaftTypes Bus Samples Persistence PersistenceSpec RaftSm LogModel.
From S2P Require Import QuorumMessage QuorumWorker QuorumWorkerSpec WorkerFlow.
From S2P Require Import Follower FollowerSpec Leader LeaderSpec Candidate Executor Safety NodeTypes NodeLog ClusterLog.
From S2P Require Import Startup StartupSpec NodeDurability NodeAcks LeaderCommit LeaderTasks LeaderDisk ClusterDurable.

(** ** Scripts *)

#[export] Instance put_request_built_dec r : Decision (put_request_built r).
Proof. unfold put_request_built, is_Some. apply _. Defined.

#[export] Instance commands_built_dec (c : option (list InternalPutRequest)) :
  Decision (exists cs, c = Some cs /\ Forall put_request_built cs).
Proof.
  destruct c as [cs|]; [|right; by intros (? & ? & _)].
  destruct (decide (Forall put_request_built cs)) as [Hc|Hc]; [left; by exists cs|right]. intros (cs' & [= ->] & ?). done.
Defined.

#[export] Instance log_entry_built_dec e : Decision (log_entry_built e).
Proof. unfold log_entry_built. apply _. Defined.

#[export] Instance typed_answer_dec p : Decision (typed_answer p).
Proof. destruct p as [| |[]| |]; simpl; apply _. Defined.

#[export] Instance typed_quorum_dec r : Decision (typed_quorum r).
Proof. unfold typed_quorum, u64. destruct r; apply _. Defined.

#[export] Instance parses_dec {CP : Capnp} e : Decision (parses e).
Proof. unfold parses, is_Some. destruct (with_message e _); [left; by eexists|right; by intros [? ?]]. Defined.

#[export] Instance typed_work_dec {CP : Capnp} t : Decision (typed_work t).
Proof. unfold typed_work, u64. destruct t; apply _. Defined.

Section scripts.
Context {CP : Capnp} {CSV : Csv} {B : Type} `{Bus B}.
Implicit Types x : StateMachineExecutorImpl B.
Implicit Types h : History (B := B).

(** The bytes of an entry that was built. *)
Definition built_check (data : Data) : bool :=
  match read_message_from_flat_slice data with
  | Some (r, _) =>
    match log_entry_root r with
    | Some m => bool_decide (log_entry_built m /\ data = write_log_entry m)
    | None => false
    end
  | None => false
  end.

Lemma built_check_ok data : built_check data = true -> built_data data.
Proof.
  unfold built_check. destruct (read_message_from_flat_slice data) as [[r rest]|]; [|done].
  destruct (log_entry_root r) as [m|]; [|done]. intros Hm%bool_decide_eq_true. by exists m.
Qed.

Definition message_check (m : LocalRaftMessage) : bool :=
  bool_decide (typed_message m) &&
  match lrm_payload m with
  | RM_AppendEntries r => match a_entry r with Some e => built_check (e_data e) | None => true end
  | _ => true
  end.

Lemma message_check_ok m : message_check m = true -> typed_message m /\ built_message m.
Proof.
  unfold message_check. intros [Ht%bool_decide_eq_true Hb]%andb_true_iff. split; [done|]. unfold built_message.
  destruct (lrm_payload m) as [|r| |]; try done. unfold built_request. intros e He. rewrite He in Hb. by apply built_check_ok.
Qed.

(** *** The leader *)

Inductive action :=
| Act_time (env : Env)
| Act_accept (env : Env) (m : LocalRaftMessage)
| Act_answer (r : LocalQuorumTaskResponseType)
| Act_task
| Act_flush.

(** The node after an action, and what it has received in it. *)
Definition act (a : action) h : option (list event * History (B := B)) :=
  let '(mkHistory x w asked files) := h in
  let '(mkStateMachineExecutorImpl d s) := x in
  match a with
  | Act_time env =>
    if decide (vlen (replication_log (volatile_server_state s)) < 2 ^ 64 /\ next_message_id s + tick_ids x < 2 ^ 64) then
      let* (_, x') := Executor.time_step env x in Some ([Ev_Tick env], mkHistory x' w asked files)
    else None
  | Act_accept env m =>
    if message_check m then
      if decide (next_message_id s + 1 < 2 ^ 64) then
        let* x' := accept env m x in Some ([Ev_Message env m], mkHistory x' w (asked ++ asks x m) files)
      else None
    else None
  | Act_answer r =>
    if decide (typed_quorum r /\ Forall typed_quorum (quorum_response s)) then
      Some ([Ev_Quorum r],
        mkHistory (mkStateMachineExecutorImpl d (s <| quorum_response ::= fun q => q ++ [r] |>)) w asked files)
    else None
  | Act_task =>
    match persistence_work s with
    | mkSender true (t :: q) =>
      if decide (file_size w + task_bytes t < 2 ^ 64) then
        let* w' := Persistence.process_task t BATCH_SIZE w in
        let n := deliver_responses d (s <| persistence_work := mkSender true q |>) w' in
        Some (Ev_Persisted <$> response_queue w', mkHistory n.1 n.2 asked (files ++ task_files t w w'))
      else None
    | _ => None
    end
  | Act_flush =>
    let n := deliver_responses d s (flush_pending_logs w) in
    Some (Ev_Persisted <$> response_queue (flush_pending_logs w), mkHistory n.1 n.2 asked (files ++ [file_of n.2]))
  end.

Lemma act_history a h evs h' : act a h = Some (evs, h') -> history_step h h'.
Proof.
  destruct h as [[d s] w asked files]. destruct a as [env|env m|r| |]; simpl.
  - case_decide as Hd; [|done]. destruct (Executor.time_step _ _) as [[n x']|] eqn:Ht; [|done]. simpl. intros [= <- <-].
    destruct Hd. by eapply History_time.
  - destruct (message_check m) eqn:Hm; [|done]. apply message_check_ok in Hm as [? ?]. case_decide; [|done].
    destruct (accept _ _ _) as [x'|] eqn:Ha; [|done]. simpl. intros [= <- <-]. by eapply History_accept.
  - case_decide as Hd; [|done]. intros [= <- <-]. destruct Hd as [? ?]. apply history_other_eq.
    + by destruct s as [], callbacks.
    + apply Forall_app. split; [done|by apply Forall_singleton].
  - destruct (persistence_work s) as [[] [|t q]] eqn:Hq; try done. case_decide; [|done].
    destruct (Persistence.process_task _ _ _) as [w'|] eqn:Hw; [|done]. simpl. intros [= <- <-]. by eapply History_task.
  - intros [= <- <-]. apply History_flush.
Qed.

(** ... of a leader that stays one. *)
Definition lead_act (a : action) h : option (list event * History (B := B)) :=
  let* (evs, h') := act a h in
  if decide (is_leader (h_node h') = true /\ vlen (replication_log (volatile_server_state (shared_state (h_node h')))) < 2 ^ 64 - 1)
  then match a with
       | Act_accept _ m => if ready m (h_node h) then Some (evs, h') else None
       | _ => Some (evs, h')
       end
  else None.

Lemma lead_act_step a h evs h' : lead_act a h = Some (evs, h') -> reign_step evs h h'.
Proof.
  unfold lead_act. destruct (act a h) as [[evs1 h1]|] eqn:Ha; [|done]. simpl. case_decide as Hd; [|done]. destruct Hd as [Hl Hlen].
  destruct h as [[d s] w asked files]. destruct a as [env|env m|r| |]; simpl in Ha.
  - case_decide as Hd; [|done]. destruct (Executor.time_step _ _) as [[n x']|] eqn:Ht; [|done]. simpl in Ha. simplify_eq.
    intros [= <- <-]. destruct Hd. by eapply reign_time.
  - destruct (message_check m) eqn:Hm; [|done]. apply message_check_ok in Hm as [? ?]. case_decide; [|done].
    destruct (accept _ _ _) as [x'|] eqn:Hx; [|done]. simpl in Ha. simplify_eq. simpl. destruct (ready m _) eqn:Hr; [|done].
    intros [= <- <-]. by eapply reign_message.
  - case_decide as Hd; [|done]. simplify_eq. intros [= <- <-]. destruct Hd as [? ?]. by apply reign_quorum.
  - destruct (persistence_work s) as [[] [|t q]] eqn:Hq; try done. case_decide; [|done].
    destruct (Persistence.process_task _ _ _) as [w'|] eqn:Hw; [|done]. simpl in Ha. simplify_eq. intros [= <- <-]. by eapply reign_task.
  - simplify_eq. intros [= <- <-]. apply reign_flush.
Qed.

Fixpoint acts (script : list action) h : option (History (B := B)) :=
  match script with
  | [] => Some h
  | a :: script => let* (_, h') := act a h in acts script h'
  end.

Lemma acts_steps script h h' : acts script h = Some h' -> rtc history_step h h'.
Proof.
  revert h. induction script as [|a script IH]; intros h; simpl; [by intros [= <-]|].
  destruct (act a h) as [[evs h1]|] eqn:Ha; [|done]. simpl. intros Hs. eapply rtc_l; [by eapply act_history|by apply IH].
Qed.

End scripts.

(** *** Connections *)

Section quorum_scripts.
Context {CP : Capnp} {CSV : Csv} {B : Type} `{Bus B}.
Implicit Types l : Link (B := B).
Implicit Types q : Quorum (B := B).

Variable name : Callback -> Callback.

Inductive link_action :=
| La_leader_departs
| La_worker_departs
| La_leader_arrives (from : nat)
| La_worker_arrives (from : nat)
| La_leader_iterates (now : Z)
| La_worker_iterates (now : Z)
| La_request (env : Env)
| La_node (a : action).

(** Everything in the channel of the worker leaves. *)
Definition depart (w : QuorumWorker) (wire : list OwnedQuorumMessage) : option (QuorumWorker * list OwnedQuorumMessage) :=
  match qw_outbound_tx w with
  | Some (mkSender b ms) => Some (w <| qw_outbound_tx := Some (mkSender b []) |>, wire ++ ms)
  | None => None
  end.

(** The messages of the wire from a position on arrive. *)
Definition arrive (from : nat) (wire : list OwnedQuorumMessage) (w : QuorumWorker) : option QuorumWorker :=
  match qw_inbound_rx w with
  | Some rx => Some (w <| qw_inbound_rx := Some (mkReceiver (rx_queue rx ++ drop from wire) true) |>)
  | None => None
  end.

Definition iterate (now : Z) (try_recv : Callback -> TryRecv) (w : QuorumWorker) : option QuorumWorker :=
  QuorumWorker.run_iteration true None None try_recv (fun _ => now) w.

(** What the node has answered on a channel. *)
Definition answer_of l (cb : Callback) : TryRecv :=
  match list_find (fun p => p.1 = name cb) (cb_sent (callbacks (shared_state (h_node (lk_node l))))) with
  | Some (_, (_, p)) => if decide (typed_answer p) then TR_Received p else TR_Empty
  | None => TR_Empty
  end.

(** The callback of a message is none of the worker's channels. *)
Definition foreign (a : action) : bool :=
  match a with Act_accept _ _ => false | _ => true end.

Definition link_act (a : link_action) l : option Link :=
  let '(mkLink wl there wf back given h) := l in
  match a with
  | La_leader_departs => let* (wl', there') := depart wl there in Some (mkLink wl' there' wf back given h)
  | La_worker_departs => let* (wf', back') := depart wf back in Some (mkLink wl there wf' back' given h)
  | La_leader_arrives from => let* wl' := arrive from back wl in Some (mkLink wl' there wf back given h)
  | La_worker_arrives from => let* wf' := arrive from there wf in Some (mkLink wl there wf' back given h)
  | La_leader_iterates now => let* wl' := iterate now (fun _ => TR_Empty) wl in Some (mkLink wl' there wf back given h)
  | La_worker_iterates now => let* wf' := iterate now (answer_of l) wf in Some (mkLink wl there wf' back given h)
  | La_request env =>
    match qw_task_queue wf with
    | m :: q =>
      let '(mkHistory x d asked files) := h in
      if message_check (called name m) then
        if decide (next_message_id (shared_state x) + 1 < 2 ^ 64) then
          let* x' := accept env (called name m) x in
          Some (mkLink wl there (wf <| qw_task_queue := q |>) back (given ++ [m])
                  (mkHistory x' d (asked ++ asks x (called name m)) files))
        else None
      else None
    | [] => None
    end
  | La_node a => if foreign a then let* (_, h') := act a h in Some (mkLink wl there wf back given h') else None
  end.

Lemma depart_departs w wire w' wire' : depart w wire = Some (w', wire') -> departs w wire w' wire'.
Proof.
  unfold depart. destruct (qw_outbound_tx w) as [[b ms]|] eqn:Hq; [|done]. intros [= <- <-].
  apply (departs_some w ms [] b b). by rewrite app_nil_r.
Qed.

Lemma arrive_arrives from wire w w' : arrive from wire w = Some w' -> arrives wire w w'.
Proof.
  unfold arrive. destruct (qw_inbound_rx w) as [rx|] eqn:Hq; [|done]. intros [= <-]. apply arrives_some; [done|].
  intros m Hm. rewrite <- (take_drop from wire). set_solver.
Qed.

Lemma iterate_iterates now try_recv wire w w' : iterate now try_recv w = Some w' -> iterates wire try_recv w w'.
Proof. apply (iterates_run wire try_recv true None None (fun _ => now)); [done|]. apply list_subseteq_nil. Qed.

Lemma answer_of_sent l cb p :
  answer_of l cb = TR_Received p ->
  typed_answer p /\ (name cb, p) ∈ cb_sent (callbacks (shared_state (h_node (lk_node l)))).
Proof.
  unfold answer_of. destruct (list_find _ _) as [[i [c p']]|] eqn:Hf; [|done]. case_decide; [|done]. intros [= ->].
  apply list_find_Some in Hf as (Hi & Hc & _). simpl in Hc. subst c. split; [done|]. by eapply list_elem_of_lookup_2.
Qed.

Lemma foreign_asked a h evs h' : foreign a = true -> act a h = Some (evs, h') -> h_asked h' = h_asked h.
Proof.
  destruct h as [[d s] w asked files]. destruct a as [env|env m|r| |]; simpl; try done; intros _.
  - case_decide; [|done]. destruct (Executor.time_step _ _) as [[n x']|]; [|done]. simpl. by intros [= <- <-].
  - case_decide; [|done]. by intros [= <- <-].
  - destruct (persistence_work s) as [[] [|t q]]; try done. case_decide; [|done].
    destruct (Persistence.process_task _ _ _) as [w'|]; [|done]. simpl. by intros [= <- <-].
  - by intros [= <- <-].
Qed.

Lemma link_act_step a l l' : link_act a l = Some l' -> link_step name l l'.
Proof.
  destruct l as [wl there wf back given h]. destruct a as [| |from|from|now|now|env|a]; cbn [link_act].
  - destruct (depart wl there) as [[wl' there']|] eqn:Hd; [|done]. simpl. intros [= <-]. by apply link_leader_departs, depart_departs.
  - destruct (depart wf back) as [[wf' back']|] eqn:Hd; [|done]. simpl. intros [= <-]. by apply link_worker_departs, depart_departs.
  - destruct (arrive from back wl) as [wl'|] eqn:Hd; [|done]. simpl. intros [= <-]. by eapply link_leader_arrives, arrive_arrives.
  - destruct (arrive from there wf) as [wf'|] eqn:Hd; [|done]. simpl. intros [= <-]. by eapply link_worker_arrives, arrive_arrives.
  - destruct (iterate now _ wl) as [wl'|] eqn:Hd; [|done]. simpl. intros [= <-].
    eapply link_leader_iterates; [|by eapply iterate_iterates]. done.
  - destruct (iterate now _ wf) as [wf'|] eqn:Hd; [|done]. simpl. intros [= <-].
    eapply link_worker_iterates; [|by eapply iterate_iterates].
    intros cb p Hp. exact (answer_of_sent (mkLink wl there wf back given h) cb p Hp).
  - destruct (qw_task_queue wf) as [|m q] eqn:Hq; [done|]. destruct h as [x d asked files].
    destruct (message_check _) eqn:Hm; [|done]. apply message_check_ok in Hm as [? ?]. case_decide; [|done].
    destruct (accept _ _ _) as [x'|] eqn:Ha; [|done]. simpl. intros [= <-]. by eapply link_request.
  - destruct (foreign a) eqn:Hf; [|done]. destruct (act a h) as [[evs h']|] eqn:Ha; [|done]. simpl. intros [= <-].
    apply link_node; [by eapply act_history|]. intros c data. rewrite (foreign_asked _ _ _ _ Hf Ha). by left.
Qed.

(** *** The whole *)

Inductive quorum_action :=
| Qa_leader (a : action)
| Qa_link (i : nat) (a : link_action)
| Qa_takes (i : nat)
| Qa_reports (i : nat).

Definition quorum_act (a : quorum_action) q : option (list event * Quorum) :=
  let '(mkQuorum h ls acks) := q in
  match a with
  | Qa_leader (Act_answer _) => None
  | Qa_leader a =>
    let* (evs, h') := lead_act a h in
    Some (evs, mkQuorum h' ls acks)
  | Qa_link i a => let* l := ls !! i in let* l' := link_act a l in Some ([], mkQuorum h (<[i := l']> ls) acks)
  | Qa_takes i =>
    let '(mkHistory (mkStateMachineExecutorImpl d s) w asked files) := h in
    let* ts := quorum_worker_tasks s !! i in
    let* l := ls !! i in
    match ts with
    | t :: _ =>
      if decide (typed_work t) then
        Some ([], mkQuorum (mkHistory (mkStateMachineExecutorImpl d (s <| quorum_worker_tasks ::= alter (drop 1) i |>)) w asked files)
          (<[i := mkLink ((lk_leader l) <| qw_work_queue ::= fun ts => ts ++ [t] |>) (lk_there l) (lk_worker l) (lk_back l)
                   (lk_given l) (lk_node l)]> ls) acks)
      else None
    | [] => None
    end
  | Qa_reports i =>
    let '(mkHistory (mkStateMachineExecutorImpl d s) w asked files) := h in
    let* l := ls !! i in
    match qw_response_queue (lk_leader l) with
    | r :: rs =>
      if decide (typed_quorum r) then
        Some ([Ev_Quorum r],
          mkQuorum (mkHistory (mkStateMachineExecutorImpl d (s <| quorum_response ::= fun rs => rs ++ [r] |>)) w asked files)
            (<[i := mkLink ((lk_leader l) <| qw_response_queue := rs |>) (lk_there l) (lk_worker l) (lk_back l)
                      (lk_given l) (lk_node l)]> ls) (acks ++ [(i, r)]))
      else None
    | [] => None
    end
  end.

Lemma persisted_internal rs : internal (Ev_Persisted <$> rs).
Proof. apply Forall_fmap, Forall_true. done. Qed.

Lemma act_internal a h evs h' : (forall r, a <> Act_answer r) -> act a h = Some (evs, h') -> internal evs.
Proof.
  intros Hne. destruct h as [[d s] w asked files]. destruct a as [env|env m|r| |]; simpl.
  - case_decide; [|done]. destruct (Executor.time_step _ _) as [[n x']|]; [|done]. simpl. intros [= <- <-]. by apply Forall_singleton.
  - destruct (message_check m); [|done]. case_decide; [|done]. destruct (accept _ _ _); [|done]. simpl. intros [= <- <-]. by apply Forall_singleton.
  - by destruct (Hne r).
  - destruct (persistence_work s) as [[] [|t q]]; try done. case_decide; [|done].
    destruct (Persistence.process_task _ _ _) as [w'|]; [|done]. simpl. intros [= <- <-]. apply persisted_internal.
  - intros [= <- <-]. apply persisted_internal.
Qed.

Lemma lead_act_internal a h evs h' : (forall r, a <> Act_answer r) -> lead_act a h = Some (evs, h') -> internal evs.
Proof.
  intros Hne. unfold lead_act. destruct (act a h) as [[evs1 h1]|] eqn:Ha; [|done]. apply act_internal in Ha; [|done]. simpl.
  case_decide; [|done]. destruct a as [env|env m|r| |]; try (by intros [= <- <-]). destruct (ready m _); [by intros [= <- <-]|done].
Qed.

Lemma quorum_act_step a q evs q' : quorum_act a q = Some (evs, q') -> quorum_step name evs q q'.
Proof.
  destruct q as [h ls acks]. destruct a as [a|i a|i|i]; cbn [quorum_act].
  - assert (Hl : forall a0, (forall r, a0 <> Act_answer r) ->
      (let* (evs, h') := lead_act a0 h in Some (evs, mkQuorum h' ls acks)) = Some (evs, q') ->
      quorum_step name evs (mkQuorum h ls acks) q').
    { intros a0 Hne. destruct (lead_act a0 h) as [[evs1 h1]|] eqn:Ha; [|done]. simpl. intros [= <- <-].
      apply quorum_leads; [by eapply lead_act_step|by eapply lead_act_internal]. }
    destruct a; [apply (Hl (Act_time env))|apply (Hl (Act_accept env m))|done|apply (Hl Act_task)|apply (Hl Act_flush)]; done.
  - destruct (ls !! i) as [l|] eqn:Hi; [|done]. cbn [mbind option_bind]. destruct (link_act a l) as [l'|] eqn:Ha; [|done].
    cbn [mbind option_bind]. intros [= <- <-]. by eapply quorum_links, link_act_step.
  - destruct h as [[d s] w asked files]. destruct (quorum_worker_tasks s !! i) as [[|t ts]|] eqn:Hq; [by destruct (ls !! i)| |done].
    cbn [mbind option_bind]. destruct (ls !! i) as [l|] eqn:Hi; [|done]. cbn [mbind option_bind]. case_decide; [|done].
    intros [= <- <-]. by eapply quorum_takes.
  - destruct h as [[d s] w asked files]. destruct (ls !! i) as [l|] eqn:Hi; [|done]. cbn [mbind option_bind].
    destruct (qw_response_queue (lk_leader l)) as [|r rs] eqn:Hq; [done|]. case_decide; [|done]. intros [= <- <-]. by eapply quorum_reports.
Qed.

Fixpoint quorum_acts (script : list quorum_action) q : option (list event * Quorum) :=
  match script with
  | [] => Some ([], q)
  | a :: script =>
    let* (evs, q1) := quorum_act a q in
    let* (evs', q') := quorum_acts script q1 in
    Some (evs ++ evs', q')
  end.

Lemma quorum_acts_run script q0 evs q evs' q' :
  quorum_run name q0 evs q -> quorum_acts script q = Some (evs', q') -> quorum_run name q0 (evs ++ evs') q'.
Proof.
  revert evs q evs'. induction script as [|a script IH]; intros evs q evs' Hr; simpl.
  - intros [= <- <-]. by rewrite app_nil_r.
  - destruct (quorum_act a q) as [[new q1]|] eqn:Ha; [|done]. simpl. destruct (quorum_acts script q1) as [[evs2 q2]|] eqn:Hs; [|done].
    simpl. intros [= <- <-]. rewrite (assoc_L (++)). eapply IH; [|done]. eapply quorum_run_step; [done|by eapply quorum_act_step].
Qed.

End quorum_scripts.

(** ** New connections *)

Section fresh.
Context {CP : Capnp} {CL : CapnpLaws} {CSV : Csv} {CSVL : CsvLaws} {B : Type} `{Bus B}.

(** A worker that has not done anything. *)
Definition fresh_worker (w : QuorumWorker) : Prop :=
  worker_ranges w /\ qw_work_queue w = [] /\ outbox w = [] /\ inbox w = [] /\ qw_task_queue w = [] /\
  qw_pending_tasks w = [] /\ qw_response_queue w = [].

Lemma fresh_flow R K R' K' w : fresh_worker w -> flow R K R' K' [] w.
Proof. intros (Hr & Hw & Ho & Hi & Ht & Hp & Hq). split; rewrite ?Hw, ?Ho, ?Hi, ?Ht, ?Hp, ?Hq; simpl; try done; constructor. Qed.

(** A connection of new workers is idle, whatever ids the leader uses. *)
Lemma fresh_link_idle name id0 wl wf (h : History (B := B)) T :
  fresh_worker wl -> fresh_worker wf -> history_at T h -> h_asked h = [] -> idle_link name id0 (mkLink wl [] wf [] [] h).
Proof.
  intros Hl Hf Hh Ha. split; simpl.
  - exists []. by apply fresh_flow.
  - by apply fresh_flow.
  - constructor.
  - constructor.
  - by exists T.
  - rewrite Ha. by intros cb data ?%elem_of_nil.
Qed.

End fresh.

(** ** Three nodes *)

Definition start_of (id : Z) : SharedState ScriptedBus * PersistenceWorker :=
  default (shared_state started_node, new_worker) (start_node [] [] [1; 2; 3] id 1048576 empty_bus).

Definition history_of (id : Z) : History (B := ScriptedBus) :=
  mkHistory (StateMachineExecutorImpl_new (late_env 0) (start_of id).1) (start_of id).2 [] [].

(** Node 1 is elected: its worker stores its vote, node 2 votes for it. *)
Definition election : list action :=
  [ Act_time (late_env 10000); Act_time (late_env 10001); Act_task; Act_time (late_env 10002);
    Act_answer (QR_RequestVoteResponse 0 1 true); Act_time (late_env 10003) ].

Definition elected_history : History (B := ScriptedBus) := default (history_of 1) (acts election (history_of 1)).

Definition connected_worker (self member : Z) : QuorumWorker :=
  (QuorumWorker_new self 0 member 1048576) <| qw_outbound_tx := Some (mkSender true []) |>
    <| qw_inbound_rx := Some (mkReceiver [] true) |>.

Definition link_to (id : Z) : Link (B := ScriptedBus) :=
  mkLink (connected_worker 1 id) [] (connected_worker id 1) [] [] (history_of id).

Definition just_elected_quorum : Quorum (B := ScriptedBus) := mkQuorum elected_history [link_to 2; link_to 3] [].

Definition write_request : LocalRaftMessage :=
  mkLocalRaftMessage (RM_WriteBatch (mkOwnedWriteBatch (write_write_batch sample_batch))) 5%nat.

(** Both entries go to node [i], which writes them and answers. *)
Definition replicate_to (i : nat) : list quorum_action :=
  [ Qa_takes i; Qa_takes i; Qa_takes i; Qa_takes i;
    Qa_link i (La_leader_iterates 10005); Qa_link i La_leader_departs;
    Qa_link i (La_worker_arrives 0); Qa_link i (La_worker_iterates 10006);
    Qa_link i (La_request (late_env 10007)); Qa_link i (La_request (late_env 10007)); Qa_link i (La_request (late_env 10007));
    Qa_link i (La_node Act_task); Qa_link i (La_node Act_task); Qa_link i (La_node Act_flush);
    Qa_link i (La_node (Act_time (late_env 10008)));
    Qa_link i (La_worker_iterates 10009); Qa_link i La_worker_departs;
    Qa_link i (La_leader_arrives 0); Qa_link i (La_leader_iterates 10010) ].

(** The leader takes the write, its own worker writes both entries, and it hears of the others. *)
Definition write_script : list quorum_action :=
  [ Qa_leader (Act_time (late_env 10004)); Qa_leader (Act_accept (late_env 10005) write_request) ] ++
  replicate_to 0 ++ replicate_to 1 ++
  [ Qa_reports 0; Qa_reports 0; Qa_reports 1; Qa_reports 1;
    Qa_leader Act_task; Qa_leader Act_task; Qa_leader Act_flush; Qa_leader (Act_time (late_env 10011)) ].

(** The channels of a worker are numbered from 0; the node counts them from 1. *)
Abbreviation write_run := (quorum_acts S write_script just_elected_quorum).

Abbreviation written_events := (from_option fst [] write_run).

Abbreviation written_quorum := (from_option snd just_elected_quorum write_run).

Lemma history_of_started id :
  u32 id -> match start_node [] [] [1; 2; 3] id 1048576 empty_bus with Some _ => true | None => false end = true ->
  start_node [] [] [1; 2; 3] id 1048576 empty_bus = Some (start_of id) /\ history_at ∅ (history_of id).
Proof.
  intros Hid Hs. unfold history_of, start_of. destruct (start_node _ _ _ _ _ _) as [[s w]|] eqn:Hst; [|done]. split; [done|].
  by apply (started_history [] [] [1; 2; 3] id 1048576 empty_bus s w (late_env 0)).
Qed.

Lemma elected_runs : rtc history_step (history_of 1) elected_history.
Proof.
  apply (acts_steps election). unfold elected_history. destruct (acts _ _) eqn:Ha; [done|]. exfalso. revert Ha. vm_compute. discriminate.
Qed.

(** Nothing in the log, in the tasks and in the queues has an id. *)
Lemma empty_settled (x : StateMachineExecutorImpl ScriptedBus) :
  replication_log (volatile_server_state (shared_state x)) = [] -> offered (quorum_worker_tasks (shared_state x)) = [] ->
  quorum_response (shared_state x) = [] -> settled x.
Proof.
  intros Hl Ho Hq. split.
  - rewrite Hl. by intros e ?%elem_of_nil.
  - rewrite Ho. by intros e ?%elem_of_nil.
  - intros ts t id e Hts Ht Hs. assert (He : e ∈ offered (quorum_worker_tasks (shared_state x))); [|rewrite Ho in He; by apply elem_of_nil in He].
    apply elem_of_offered. exists ts, t. split_and!; [done..|].
    destruct t as [| | |id' e' c|data| | |]; simpl in Hs; try by apply elem_of_nil in Hs.
    + apply list_elem_of_singleton in Hs as [= -> ->]. simpl. by left.
    + apply list_elem_of_fmap in Hs as (e' & [= -> ->] & Hin). done.
  - rewrite Hq. by intros id ok ?%elem_of_nil.
Qed.

Lemma connected_worker_fresh self member : u32 self -> fresh_worker (connected_worker self member).
Proof. intros Hs. split_and!; try done. Qed.

Lemma just_elected_ready : elected_after_start S just_elected_quorum.
Proof.
  destruct (history_of_started 1) as [Hs1 H1]; [done|by vm_compute|].
  destruct (history_of_started 2) as [_ H2]; [done|by vm_compute|]. destruct (history_of_started 3) as [_ H3]; [done|by vm_compute|].
  split.
  - exists [], [], [1; 2; 3], 1, 1048576, empty_bus, (late_env 0), (start_of 1).1, (start_of 1).2.
    split; [constructor|]. split; [constructor|]. split; [done|]. split; [|exact elected_runs].
    simpl. rewrite Hs1. by destruct (start_of 1).
  - destruct (history_steps_at _ _ _ H1 elected_runs) as (T & _ & HT). split.
    + eexists. vm_compute. split; reflexivity.
    + exact (hi_words _ _ HT).
    + vm_compute. split; reflexivity.
    + vm_compute. reflexivity.
    + vm_compute. reflexivity.
    + intros id m Hm. vm_compute in Hm. discriminate Hm.
  - apply empty_settled; vm_compute; reflexivity.
  - reflexivity.
  - constructor; [|constructor; [|constructor]]; (eapply fresh_link_idle; [by apply connected_worker_fresh..|eassumption|reflexivity]).
Qed.

(** What the leader has done at the end: the commit index, the quorum, the answer. *)
Definition summary (q : Quorum (B := ScriptedBus)) : Z * Z * option (Callback * LocalRaftResponsePayload) :=
  let s := shared_state (h_node (q_leader q)) in
  (commit_index (volatile_server_state s), quorum_size s, head (cb_sent (callbacks s))).

Definition success_answer : LocalRaftResponsePayload :=
  RP_WriteBatch (mkLocalRaftWriteBatchResponse (mkOwnedWriteBatchResponse (write_write_batch_response empty_response)) None).

Lemma write_run_summary : match write_run with Some (_, q) => Some (summary q) | None => None end = Some (1, 2, Some (5%nat, success_answer)).
Proof. vm_compute. reflexivity. Qed.

(** The state after a script that ends. *)
Lemma quorum_acts_end {CP : Capnp} {CSV : Csv} {B : Type} `{Bus B} {A} name script (q0 : Quorum (B := B)) (f : Quorum -> A) a :
  match quorum_acts name script q0 with Some (_, q) => Some (f q) | None => None end = Some a ->
  quorum_run name q0 (from_option fst [] (quorum_acts name script q0)) (from_option snd q0 (quorum_acts name script q0)) /\
  f (from_option snd q0 (quorum_acts name script q0)) = a.
Proof.
  destruct (quorum_acts name script q0) as [[evs q]|] eqn:Hr; [|done]. intros [= Ha]. split; [|done].
  exact (quorum_acts_run name script q0 [] q0 evs q (quorum_run_start name q0) Hr).
Qed.

Lemma written_runs :
  quorum_run S just_elected_quorum written_events written_quorum /\
  summary written_quorum = (1, 2, Some (5%nat, success_answer)).
Proof. simple refine (quorum_acts_end _ _ _ summary _ _). exact write_run_summary. Qed.

(** The summary, unfolded. *)
Lemma summary_fields q c n a :
  summary q = (c, n, Some a) ->
  commit_index (volatile_server_state (shared_state (h_node (q_leader q)))) = c /\
  quorum_size (shared_state (h_node (q_leader q))) = n /\ a ∈ cb_sent (callbacks (shared_state (h_node (q_leader q)))).
Proof.
  unfold summary. destruct (cb_sent _) as [|a' l]; [done|]. intros [= -> -> ->]. split_and!; [done..|by left].
Qed.

Lemma committed_entry_is_on_disks_witness :
  exists e, vget (replication_log (volatile_server_state (shared_state (h_node (q_leader written_quorum))))) 1 = Some e /\
    written (h_files (q_leader written_quorum)) (as_bytes e) /\
    2 <= vlen (acks_for (message_id e) written_quorum).
Proof.
  destruct written_runs as [Hrun Hsum]. destruct (summary_fields _ _ _ _ Hsum) as (Hc & Hn & _).
  destruct (committed_entry_is_on_disks S just_elected_quorum written_events written_quorum just_elected_ready Hrun)
    as (e & He & Hw & Hq & _).
  - rewrite Hc. vm_compute. discriminate.
  - rewrite Hc in He. rewrite Hn in Hq. exists e. split; [exact He|]. split; [exact Hw|exact Hq].
Defined.

Lemma answered_write_is_on_disks_witness :
  exists b i e, (b, 5%nat) ∈ batches_of written_events /\ i <= 1 /\
    vget (replication_log (volatile_server_state (shared_state (h_node (q_leader written_quorum))))) i = Some e /\
    written (h_files (q_leader written_quorum)) (as_bytes e) /\ 2 <= vlen (acks_for (message_id e) written_quorum).
Proof.
  destruct written_runs as [Hrun Hsum]. destruct (summary_fields _ _ _ _ Hsum) as (Hc & Hn & Hin).
  destruct (answered_write_is_on_disks S just_elected_quorum written_events written_quorum 5%nat
    (mkLocalRaftWriteBatchResponse (mkOwnedWriteBatchResponse (write_write_batch_response empty_response)) None)
    just_elected_ready Hrun Hin) as (b & i & e & Hb & Hi & He & _ & Hw & Hq & _).
  - reflexivity.
  - intros Hold. vm_compute in Hold. by apply not_elem_of_nil in Hold.
  - rewrite Hc in Hi. rewrite Hn in Hq. exists b, i, e. split; [exact Hb|]. split; [exact Hi|]. split; [exact He|]. split; [exact Hw|exact Hq].
Defined.
