(* ===== verification/WriteProxy.v ===== *)
(** * The write proxy

    [src/transport/write_proxy/]: client batches are combined, handed to the local state
    machine or to the leader's quorum worker, and the answer is given to every client of the
    combined batch.  The spawned tasks that await an answer are functions of the answer; the
    proxy keeps what they hold.  The maps of callbacks are iterated in an unspecified order. *)
From stdpp Require Import strings.
From S2P Require Import Prelude Capnp RaftTypes QuorumMessage.

Section proxy.
Context {CP : Capnp}.

(** ** mod.rs: responses and batches *)

(** [WriteResponse::error]; [None] is the panic of the builder. *)
Definition WriteResponse_error : option WriteResponse :=
  let* message := build_owned_write_batch_response empty_response in
  Some (mkWriteResponse message WS_InternalServerError).

(** [WriteBatch::size]. *)
Definition WriteBatch_size (b : WriteBatch) : Z := batch_size (write_message b).

(** [WriteBatch::request_count]. *)
Definition WriteBatch_request_count (b : WriteBatch) : Z :=
  default 0 (batch_with_message (write_message b) (fun r => default 0 (vlen <$> wb_requests r))).

(** ** [WriteQueue] *)

Record WriteQueue := mkWriteQueue {
  wq_work_queue : list WriteBatch;
  shelved_batch : option WriteBatch
}.

(** The loop of [next_write_batch]: the batches taken, whether the result is full, the batch
    shelved on the way out and the rest of the queue. *)
Fixpoint fill_batch (max_batch_size current_size : Z) (queue responses : list WriteBatch)
    : list WriteBatch * bool * WriteQueue :=
  match queue with
  | next :: rest =>
    if decide (current_size < max_batch_size) then
      let new_size := WriteBatch_size next +! current_size in
      if decide (new_size <= max_batch_size)
      then fill_batch max_batch_size new_size rest (responses ++ [next])
      else (responses, true, mkWriteQueue rest (Some next))
    else (responses, true, mkWriteQueue queue None)
  | [] =>
    if decide (current_size < max_batch_size)
    then (responses, false, mkWriteQueue [] None)
    else (responses, true, mkWriteQueue [] None)
  end.

(** [WriteQueue::next_write_batch]. *)
Definition next_write_batch (max_batch_size : Z) (q : WriteQueue) : list WriteBatch * bool * WriteQueue :=
  match shelved_batch q with
  | Some val => fill_batch max_batch_size (0 +! WriteBatch_size val) (wq_work_queue q) [val]
  | None => fill_batch max_batch_size 0 (wq_work_queue q) []
  end.

(** ** batch.rs *)

(** The requests a batch contributes. *)
Definition batch_requests (b : WriteBatch) : option (list InternalPutRequest) :=
  mjoin (batch_with_message (write_message b) wb_requests).

Definition u32_add (a b : Z) : Z := (a + b) `mod` 2 ^ 32.

(** The counting pass; a batch that does not parse is skipped. *)
Definition total_requests (batches : list WriteBatch) : Z :=
  fold_left (fun total b => u32_add total (default 0 (vlen <$> batch_requests b))) batches 0.

(** An element of a list a builder has just initialised. *)
Definition default_request : InternalPutRequest := mkInternalPutRequest (Some []) (Some []) 0.

(** [reqs.get(req_idx)] and its setters; [None] is the panic of an index out of range. *)
Definition set_request (i : nat) (r : InternalPutRequest) (reqs : list InternalPutRequest)
    : option (list InternalPutRequest) :=
  if decide (i < length reqs)%nat then
    Some (<[ i := mkInternalPutRequest (Some (default [] (put_id r))) (Some (default [] (put_payload r)))
                    (put_node_id r) ]> reqs)
  else None.

(** The inner copy loop. *)
Fixpoint copy_requests (source : list InternalPutRequest) (reqs : list InternalPutRequest) (req_idx : nat)
    : option (list InternalPutRequest * nat) :=
  match source with
  | [] => Some (reqs, req_idx)
  | r :: source =>
    let* reqs := set_request req_idx r reqs in
    copy_requests source reqs (S req_idx)
  end.

(** The outer copy loop over the batches. *)
Fixpoint copy_batches (batches : list WriteBatch) (reqs : list InternalPutRequest) (req_idx : nat)
    : option (list InternalPutRequest * nat) :=
  match batches with
  | [] => Some (reqs, req_idx)
  | b :: batches =>
    match batch_requests b with
    | Some source =>
      let* (reqs, req_idx) := copy_requests source reqs req_idx in
      copy_batches batches reqs req_idx
    | None => copy_batches batches reqs req_idx
    end
  end.

(** The callbacks by batch id: a second batch of the same id replaces the first one's. *)
Definition collect_callbacks (batches : list WriteBatch) : gmap Text Callback :=
  fold_left (fun m b => <[ write_batch_id b := write_callback b ]> m) batches ∅.

(** [prepare_batch_and_callbacks]. *)
Definition prepare_batch_and_callbacks (batch_id : Text) (batches : list WriteBatch)
    : option (OwnedWriteBatch * gmap Text Callback) :=
  let reqs := replicate (Z.to_nat (total_requests batches)) default_request in
  let* (reqs, _) := copy_batches batches reqs 0 in
  let* combined := build_owned_write_batch (mkInternalWriteBatch (Some batch_id) (Some reqs)) in
  Some (combined, collect_callbacks batches).

(** The response one client gets; a combined response that does not parse gives none. *)
Definition client_response (response : OwnedWriteBatchResponse) (batch_id : Text) : option WriteResponse :=
  let resps := default [] (mjoin (response_with_message response wr_responses)) in
  let* batch_response := build_owned_write_batch_response
    (mkInternalWriteBatchResponse (Some (copy_put_response <$> resps)) (Some batch_id)) in
  Some (WriteResponse_success batch_response).

Fixpoint respond_all (f : Text -> option WriteResponse) (callbacks : list (Text * Callback))
    : option (list (Callback * WriteResponse)) :=
  match callbacks with
  | [] => Some []
  | (batch_id, callback) :: callbacks =>
    let* r := f batch_id in
    let* rs := respond_all f callbacks in
    Some ((callback, r) :: rs)
  end.

(** [respond_to_batch_callbacks]: the responses sent; a dropped receiver is only logged. *)
Definition respond_to_batch_callbacks (response : OwnedWriteBatchResponse)
    (batch_callbacks : gmap Text Callback) : option (list (Callback * WriteResponse)) :=
  respond_all (client_response response) (map_to_list batch_callbacks).

(** Every callback gets [WriteResponse::error()]. *)
Definition respond_error (batch_callbacks : gmap Text Callback)
    : option (list (Callback * WriteResponse)) :=
  respond_all (fun _ => WriteResponse_error) (map_to_list batch_callbacks).

(** ** remote.rs *)

(** [handle_insert_completed]. *)
Definition handle_insert_completed (payload : LocalRaftResponsePayload)
    (batch_callbacks : gmap Text Callback) : option (list (Callback * WriteResponse)) :=
  match payload with
  | RP_WriteBatch response => respond_to_batch_callbacks (wbr_message response) batch_callbacks
  | _ => respond_error batch_callbacks
  end.

(** [handle_local_write_response]: [None] as the answer is a closed channel, which is only
    logged. *)
Definition handle_local_write_response (resp : option LocalRaftResponsePayload)
    (batch_callbacks : gmap Text Callback) : option (list (Callback * WriteResponse)) :=
  match resp with
  | Some payload => handle_insert_completed payload batch_callbacks
  | None => Some []
  end.

(** The second half of [send_quorum_put_batch_and_handle_response], after its await. *)
Definition handle_put_batch_response (resp : option WriteResponse)
    (batch_callbacks : gmap Text Callback) : option (list (Callback * WriteResponse)) :=
  match resp with
  | Some put_response => respond_to_batch_callbacks (response_message put_response) batch_callbacks
  | None => respond_error batch_callbacks
  end.

(** ** [WriteProxy] *)

(** A spawned task of the join set: the one-shot channel it awaits and the callbacks it will
    answer. *)
Inductive SpawnedWrite :=
| SW_Local (channel : Callback) (batch_callbacks : gmap Text Callback)
| SW_Remote (channel : Callback) (batch_callbacks : gmap Text Callback).

Record WriteProxy := mkWriteProxy {
  write_queue : WriteQueue;
  max_batch_size : Z;
  wp_task_queue : list LocalRaftMessage;
  wp_self_id : Z;
  min_batch_interval : Z;
  wp_quorum_worker_tasks : list (list LocalQuorumWorkerTaskType);
  current_leader_id : Z;
  join_set : list SpawnedWrite;
  wp_next_channel : nat
}.

Implicit Types p : WriteProxy.

(** [WriteProxy::new]. *)
Definition WriteProxy_new (work_queue : list WriteBatch) (max_batch_size : Z)
    (task_queue : list LocalRaftMessage) (self_id min_batch_interval : Z)
    (quorum_worker_tasks : list (list LocalQuorumWorkerTaskType)) : WriteProxy :=
  mkWriteProxy (mkWriteQueue work_queue None) max_batch_size task_queue self_id min_batch_interval
    quorum_worker_tasks 0 [] 0.

(** [get_current_leader] after its await: [None] as the answer is a closed channel. *)
Definition get_current_leader (resp : option LocalRaftResponsePayload) : option Z :=
  match resp with
  | Some (RP_RaftState leader_id) => if decide (leader_id = 0) then None else Some leader_id
  | _ => None
  end.

(** [process_local_batch]. *)
Definition process_local_batch (combined_batch : OwnedWriteBatch) (batch_callbacks : gmap Text Callback) p
    : WriteProxy :=
  let chan := wp_next_channel p in
  mkWriteProxy (write_queue p) (max_batch_size p)
    (wp_task_queue p ++ [mkLocalRaftMessage (RM_WriteBatch combined_batch) chan])
    (wp_self_id p) (min_batch_interval p) (wp_quorum_worker_tasks p) (current_leader_id p)
    (join_set p ++ [SW_Local chan batch_callbacks]) (S chan).

(** The index computed by [process_remote_batch]; the [u32] subtraction wraps. *)
Definition leader_quorum_worker_index (current_leader_id self_id : Z) : nat :=
  Z.to_nat ((current_leader_id - (if decide (current_leader_id < self_id) then 1 else 2)) `mod` 2 ^ 32).

(** [process_remote_batch] with the first half of
    [send_quorum_put_batch_and_handle_response]; [None] is the panic of the index. *)
Definition process_remote_batch (batch_id : Text) (combined_batch : OwnedWriteBatch)
    (batch_callbacks : gmap Text Callback) p : option WriteProxy :=
  let i := leader_quorum_worker_index (current_leader_id p) (wp_self_id p) in
  let chan := wp_next_channel p in
  let* _ := wp_quorum_worker_tasks p !! i in
  Some (mkWriteProxy (write_queue p) (max_batch_size p) (wp_task_queue p) (wp_self_id p)
    (min_batch_interval p)
    (alter (fun q => q ++ [QT_WriteBatch (mkWriteBatch batch_id combined_batch chan)]) i
       (wp_quorum_worker_tasks p))
    (current_leader_id p) (join_set p ++ [SW_Remote chan batch_callbacks]) (S chan)).

(** The leader known after the first part of an iteration of [run]: asked for again when it
    is unknown or [resync] says the last answer is older than a millisecond. *)
Definition refresh_leader (resync : bool) (resp : option LocalRaftResponsePayload) p : option Z :=
  if decide (current_leader_id p = 0 \/ resync = true) then get_current_leader resp
  else Some (current_leader_id p).

(** The rest of the iteration with the leader [leader] and the fresh [batch_id]. *)
Definition dispatch_next_batch (leader : Z) (batch_id : Text) p : option WriteProxy :=
  let '(batch, _, queue) := next_write_batch (max_batch_size p) (write_queue p) in
  let p := mkWriteProxy queue (max_batch_size p) (wp_task_queue p) (wp_self_id p)
             (min_batch_interval p) (wp_quorum_worker_tasks p) leader (join_set p)
             (wp_next_channel p) in
  if decide (batch = []) then Some p
  else
    let* (combined_batch, batch_callbacks) := prepare_batch_and_callbacks batch_id batch in
    if decide (wp_self_id p = leader) then Some (process_local_batch combined_batch batch_callbacks p)
    else process_remote_batch batch_id combined_batch batch_callbacks p.

(** One iteration of [run] up to its pauses. *)
Definition proxy_iteration (resync : bool) (resp : option LocalRaftResponsePayload)
    (batch_id : Text) p : option WriteProxy :=
  match refresh_leader resync resp p with
  | Some leader => dispatch_next_batch leader batch_id p
  | None => Some p
  end.

End proxy.
