(* ===== verification/WriteProxySpec.v ===== *)
(** * What the write proxy guarantees

    The queue, the combination of batches, the forwarding target and the answers, over the
    definitions of [WriteProxy.v]. *)
From stdpp Require Import strings.
From S2P Require Import Prelude Capnp CapnpInstance RaftTypes Bus QuorumMessage QuorumWorker.
From S2P Require Import Samples RaftSm LogModel Follower Leader LeaderSpec Candidate Executor Startup WriteProxy.

(** ** The queue *)

Section queue.
Context {CP : Capnp}.
Implicit Types q : WriteQueue.

(** The batches a queue holds, in the order they will be taken. *)
Definition queued q : list WriteBatch := option_list (shelved_batch q) ++ wq_work_queue q.

Definition total_size (bs : list WriteBatch) : Z := foldr (fun b n => WriteBatch_size b + n) 0 bs.

Lemma total_size_app bs1 bs2 : total_size (bs1 ++ bs2) = total_size bs1 + total_size bs2.
Proof. induction bs1 as [|b bs1 IH]; simpl; [done|]. rewrite IH. lia. Qed.

Lemma payload_sum_range reqs acc :
  u64 acc -> u64 (fold_left (fun acc r => acc +! default 0 (vlen <$> put_payload r)) reqs acc).
Proof. revert acc. induction reqs as [|r reqs IH]; intros acc Hacc; simpl; [done|]. apply IH. auto with kraft. Qed.

Lemma WriteBatch_size_range b : u64 (WriteBatch_size b).
Proof.
  unfold WriteBatch_size, batch_size, batch_with_message.
  destruct (read_message_from_flat_slice _) as [[r rest]|]; [|done].
  destruct (write_batch_root r) as [m|]; [|done]. simpl.
  destruct (wb_requests m); [|done]. simpl. by apply payload_sum_range.
Qed.

(** No sum of a batch and a partial batch leaves the [u64] range. *)
Definition sizes_fit (max : Z) (bs : list WriteBatch) : Prop :=
  Forall (fun b => WriteBatch_size b + max < 2 ^ 64) bs.

Lemma fill_batch_spec max cur queue out :
  sizes_fit max queue -> 0 <= cur -> cur = total_size out ->
  let '(res, full, q') := fill_batch max cur queue out in
  out ++ queue = res ++ queued q' /\
  (exists more, res = out ++ more) /\
  (total_size res <= max \/ res = out) /\
  (full = false -> queued q' = []) /\
  (cur < max -> forall b rest, queue = b :: rest ->
     (exists more, res = out ++ b :: more) \/ shelved_batch q' = Some b).
Proof.
  revert cur out. induction queue as [|b rest IH]; intros cur out Hfit Hcur Hsum; simpl.
  - case_decide; simpl; rewrite ?app_nil_r; (split_and!; [done|by exists []; rewrite app_nil_r|by right|done|done]).
  - case_decide; simpl.
    + pose proof (Forall_inv Hfit) as Hb. simpl in Hb. apply Forall_inv_tail in Hfit. pose proof (WriteBatch_size_range b).
      unfold u64 in *. rewrite u64_add_small by lia. case_decide as Hle.
      * assert (Hnew : 0 <= WriteBatch_size b + cur) by lia.
        assert (Htot : WriteBatch_size b + cur = total_size (out ++ [b]))
          by (rewrite total_size_app; simpl; lia).
        specialize (IH _ (out ++ [b]) Hfit Hnew Htot).
        destruct (fill_batch _ _ rest _) as [[res full] q']. destruct IH as (Heq & [more ->] & Hsz & Hf & Hp).
        rewrite <- !(assoc_L (++)) in *. simpl in *. split_and!; [done|by eexists| |done|].
        -- left. destruct Hsz as [?|Hsz]; [done|]. rewrite Hsz, total_size_app. simpl. lia.
        -- intros _ b' rest' ?. simplify_eq. left. by eexists.
      * simpl. split_and!; [done|by exists []; rewrite app_nil_r|by right|done|].
        intros _ b' rest' ?. simplify_eq. by right.
    + split_and!; [done|by exists []; rewrite app_nil_r|by right|done|done].
Qed.

(** C26: Taking the next batch neither loses, repeats nor reorders client batches: what is
    returned followed by what stays is what was there.  The returned batches fit the maximum
    size, unless it is one shelved batch that is larger on its own.  When the result is not
    full the queue has been emptied; otherwise the first waiting batch is returned or, if it
    does not fit, shelved, and a shelved batch is always the first one returned. *)
Theorem next_write_batch_fifo max q :
  0 < max -> sizes_fit max (queued q) ->
  let '(res, full, q') := next_write_batch max q in
  queued q = res ++ queued q' /\
  (total_size res <= max \/ exists b, shelved_batch q = Some b /\ res = [b]) /\
  (full = false -> queued q' = []) /\
  (forall b rest, queued q = b :: rest ->
     (exists more, res = b :: more) \/ (shelved_batch q = None /\ shelved_batch q' = Some b)).
Proof.
  intros Hmax Hfit. unfold next_write_batch, queued in *. destruct (shelved_batch q) as [v|]; simpl in *.
  - pose proof (Forall_inv Hfit) as Hv. apply Forall_inv_tail in Hfit. simpl in Hv. pose proof (WriteBatch_size_range v) as Hr. unfold u64 in Hr.
    rewrite u64_add_small by lia.
    assert (Hpos : 0 <= 0 + WriteBatch_size v) by lia.
    assert (Htot : 0 + WriteBatch_size v = total_size [v]) by (simpl; lia).
    pose proof (fill_batch_spec max _ (wq_work_queue q) [v] Hfit Hpos Htot) as Hs.
    destruct (fill_batch _ _ _ _) as [[res full] q']. destruct Hs as (Heq & [more ->] & Hsz & Hf & _).
    split_and!; [done| |done|].
    + destruct Hsz as [?|Hsz]; [by left|]. right. by exists v.
    + intros b rest ?. simplify_eq. left. by eexists.
  - pose proof (fill_batch_spec max 0 (wq_work_queue q) [] Hfit (Z.le_refl 0) eq_refl) as Hs.
    destruct (fill_batch _ _ _ _) as [[res full] q']. simpl in Hs. destruct Hs as (Heq & _ & Hsz & Hf & Hp).
    split_and!; [done| |done|].
    + left. destruct Hsz as [?| ->]; [done|]. simpl. lia.
    + intros b rest Hq. destruct (Hp Hmax b rest Hq) as [[more ->]|?]; [left; by eexists|by right].
Qed.

End queue.

(** ** Combining batches *)

Section combining.
Context `{CapnpLaws}.

(** The copy of one request. *)
Definition copied (r : InternalPutRequest) : InternalPutRequest :=
  mkInternalPutRequest (Some (default [] (put_id r))) (Some (default [] (put_payload r))) (put_node_id r).

(** The requests of all batches that parse, in order. *)
Definition all_requests (batches : list WriteBatch) : list InternalPutRequest :=
  mjoin ((fun b => default [] (batch_requests b)) <$> batches).

Lemma all_requests_cons b bs : all_requests (b :: bs) = default [] (batch_requests b) ++ all_requests bs.
Proof. done. Qed.

Lemma copy_requests_spec source done n m :
  (length source <= m)%nat -> n = length done ->
  copy_requests source (done ++ replicate m default_request) n =
  Some (done ++ (copied <$> source) ++ replicate (m - length source) default_request,
        (n + length source)%nat).
Proof.
  revert done n m. induction source as [|r source IH]; intros done n m Hm ->; simpl.
  { by rewrite Nat.sub_0_r, Nat.add_0_r. }
  simpl in Hm. destruct m as [|m]; [lia|].
  unfold set_request. rewrite decide_True by (rewrite length_app, length_replicate; lia).
  cbn [mbind option_bind]. rewrite (insert_app_r_alt done) by lia.
  rewrite Nat.sub_diag. simpl.
  pose proof (IH (done ++ [copied r]) (S (length done)) m ltac:(lia)) as IH'.
  rewrite length_app, Nat.add_1_r in IH'. specialize (IH' eq_refl).
  rewrite <- (assoc_L (++)) in IH'. simpl in IH'. unfold copied at 1 in IH'. rewrite IH'.
  rewrite <- !(assoc_L (++)). simpl. do 2 f_equal. lia.
Qed.

Lemma copy_batches_spec batches done n m :
  (length (all_requests batches) <= m)%nat -> n = length done ->
  exists n', copy_batches batches (done ++ replicate m default_request) n =
    Some (done ++ (copied <$> all_requests batches) ++
            replicate (m - length (all_requests batches)) default_request, n').
Proof.
  revert done n m. induction batches as [|b batches IH]; intros done n m Hm Hn; simpl.
  { rewrite Nat.sub_0_r. by eexists. }
  rewrite all_requests_cons in *. rewrite length_app in *.
  destruct (batch_requests b) as [source|]; simpl in *; [|by apply IH].
  rewrite copy_requests_spec by (done || lia). cbn [mbind option_bind].
  destruct (IH (done ++ (copied <$> source)) (n + length source)%nat (m - length source)%nat) as [n' Hc].
  - lia.
  - rewrite length_app, length_fmap. lia.
  - rewrite <- (assoc_L (++)) in Hc. rewrite Hc. exists n'. do 2 f_equal.
    rewrite fmap_app, <- !(assoc_L (++)). do 4 f_equal. lia.
Qed.

Lemma total_requests_spec batches :
  Z.of_nat (length (all_requests batches)) < 2 ^ 32 ->
  total_requests batches = Z.of_nat (length (all_requests batches)).
Proof.
  unfold total_requests. intros Hlt.
  assert (Hgen : forall bs acc, 0 <= acc -> acc + Z.of_nat (length (all_requests bs)) < 2 ^ 32 ->
    fold_left (fun total b => u32_add total (default 0 (vlen <$> batch_requests b))) bs acc =
    acc + Z.of_nat (length (all_requests bs))).
  { induction bs as [|b bs IH]; intros acc Hacc Hs; cbn [fold_left].
    - unfold all_requests. simpl. lia.
    - rewrite all_requests_cons, length_app in *.
      assert (default 0 (vlen <$> batch_requests b) = Z.of_nat (length (default [] (batch_requests b)))) as ->
        by by destruct (batch_requests b).
      unfold u32_add. rewrite Z.mod_small by lia. rewrite IH by lia. lia. }
  rewrite Hgen by lia. lia.
Qed.

Lemma batch_requests_ranges b rs : batch_requests b = Some rs -> Forall (fun r => u32 (put_node_id r)) rs.
Proof.
  unfold batch_requests, batch_with_message.
  destruct (read_message_from_flat_slice _) as [[rd rest]|]; [|done].
  destruct (write_batch_root rd) as [m|] eqn:Hm; [|done]. simpl.
  intros Hrs. exact (write_batch_root_ranges _ _ Hm _ Hrs).
Qed.

Lemma all_requests_built batches : Forall put_request_built (copied <$> all_requests batches).
Proof.
  apply Forall_fmap. induction batches as [|b batches IH]; [constructor|].
  rewrite all_requests_cons. apply Forall_app_2; [|done].
  destruct (batch_requests b) eqn:Hb; [|constructor]. apply batch_requests_ranges in Hb. simpl.
  revert Hb. apply Forall_impl. intros r Hr. split_and!; simpl; [by eexists..|done].
Qed.

Lemma collect_callbacks_lookup batches b :
  NoDup (write_batch_id <$> batches) -> b ∈ batches ->
  collect_callbacks batches !! write_batch_id b = Some (write_callback b).
Proof.
  unfold collect_callbacks. intros Hnd Hb.
  induction batches as [|c batches IH] using rev_ind; [by apply elem_of_nil in Hb|].
  rewrite fold_left_app. simpl. rewrite fmap_app in Hnd. apply list_relations.list.NoDup_app in Hnd as (Hnd & Hni & _).
  apply elem_of_app in Hb as [Hb|Hb].
  - rewrite lookup_insert_ne; [by apply IH|]. intros Heq. apply (Hni (write_batch_id b)).
    + by apply list_elem_of_fmap_2.
    + rewrite <- Heq. set_solver.
  - apply list_elem_of_singleton in Hb as ->. apply lookup_insert_eq.
Qed.

(** The batch with the requests of all batches that parse. *)
Definition combined_batch (batch_id : Text) (batches : list WriteBatch) : InternalWriteBatch :=
  mkInternalWriteBatch (Some batch_id) (Some (copied <$> all_requests batches)).

(** Combining builds the concatenation of the requests. *)
Lemma prepare_batch_eq batch_id batches :
  Z.of_nat (length (all_requests batches)) < 2 ^ 32 ->
  prepare_batch_and_callbacks batch_id batches =
    (fun combined => (combined, collect_callbacks batches)) <$>
      build_owned_write_batch (combined_batch batch_id batches).
Proof.
  intros Hlt. unfold prepare_batch_and_callbacks. rewrite total_requests_spec, Nat2Z.id by done.
  destruct (copy_batches_spec batches [] 0 (length (all_requests batches))) as [n Hn]; [lia|done|].
  simpl in Hn. rewrite Hn, Nat.sub_diag. simpl. rewrite app_nil_r.
  change (mkInternalWriteBatch _ _) with (combined_batch batch_id batches).
  by destruct (build_owned_write_batch _).
Qed.

Lemma combined_batch_ok batch_id batches :
  write_batch_words (combined_batch batch_id batches) <= traversal_limit_in_words ->
  build_owned_write_batch (combined_batch batch_id batches) =
    Some (mkOwnedWriteBatch (write_write_batch (combined_batch batch_id batches))).
Proof.
  intros Hw. apply build_owned_write_batch_ok, write_batch_small_built; [|done].
  split; [by eexists|]. eexists. split; [done|]. apply all_requests_built.
Qed.

(** C27: For fewer than 2^32 requests, counting, allocating and filling does the same as
    building one batch with the new id and the requests of all batches that parse, in order,
    with nothing left over in the list that was allocated for them.  It panics exactly when
    this batch is refused when it is read back, so not when the batch has at most the 8 Mi
    words a reader accepts.  When the ids of the batches differ every client keeps its own
    callback. *)
Theorem prepare_batch_combines batch_id batches :
  Z.of_nat (length (all_requests batches)) < 2 ^ 32 ->
  prepare_batch_and_callbacks batch_id batches =
    (fun combined => (combined, collect_callbacks batches)) <$>
      build_owned_write_batch (combined_batch batch_id batches) /\
  (write_batch_words (combined_batch batch_id batches) <= traversal_limit_in_words ->
     build_owned_write_batch (combined_batch batch_id batches) =
       Some (mkOwnedWriteBatch (write_write_batch (combined_batch batch_id batches)))) /\
  (NoDup (write_batch_id <$> batches) -> forall b, b ∈ batches ->
     collect_callbacks batches !! write_batch_id b = Some (write_callback b)).
Proof.
  intros Hlt. split_and!; [by apply prepare_batch_eq|by apply combined_batch_ok|].
  intros. by apply collect_callbacks_lookup.
Qed.

End combining.

(** ** Where a batch goes *)

Section dispatching.
Context `{CapnpLaws}.
Implicit Types p : WriteProxy.

Lemma leader_index_eq n self leader :
  1 <= self <= n -> 1 <= leader <= n -> leader <> self -> n < 2 ^ 32 ->
  leader_quorum_worker_index leader self = get_quorum_worker_index leader self.
Proof.
  intros. unfold leader_quorum_worker_index, get_quorum_worker_index, saturating_sub.
  rewrite (decide_False (P := leader = 0)) by lia.
  case_decide; case_decide; try lia; rewrite Z.mod_small by lia; lia.
Qed.

Lemma prepare_total batch_id batches :
  Z.of_nat (length (all_requests batches)) < 2 ^ 32 ->
  write_batch_words (combined_batch batch_id batches) <= traversal_limit_in_words ->
  exists combined, prepare_batch_and_callbacks batch_id batches = Some (combined, collect_callbacks batches).
Proof. intros Hlt Hw. eexists. rewrite prepare_batch_eq, combined_batch_ok by done. done. Qed.

(** C28: In a cluster whose configuration lists the nodes 1 to [n] in this order, with a known
    leader, and while the combined batch has at most the 8 Mi words a reader accepts, the
    proxy does not panic, and the batches it takes go, combined and once, to the state machine
    of its own node when that is the leader, and otherwise to the quorum worker of the leader
    and to no other; a task that holds the callbacks of all their clients then waits for the
    answer. *)
Theorem batches_go_to_leader n leader batch_id p batch full queue :
  1 <= wp_self_id p <= n -> 1 <= leader <= n -> n < 2 ^ 32 ->
  length (wp_quorum_worker_tasks p) = length (cluster_nodes_without_self (seqZ 1 n) (wp_self_id p)) ->
  next_write_batch (max_batch_size p) (write_queue p) = (batch, full, queue) -> batch <> [] ->
  Z.of_nat (length (all_requests batch)) < 2 ^ 32 ->
  write_batch_words (combined_batch batch_id batch) <= traversal_limit_in_words ->
  exists p' combined, dispatch_next_batch leader batch_id p = Some p' /\ write_queue p' = queue /\
    prepare_batch_and_callbacks batch_id batch = Some (combined, collect_callbacks batch) /\
    if decide (wp_self_id p = leader) then
      wp_task_queue p' = wp_task_queue p ++ [mkLocalRaftMessage (RM_WriteBatch combined) (wp_next_channel p)] /\
      wp_quorum_worker_tasks p' = wp_quorum_worker_tasks p /\
      join_set p' = join_set p ++ [SW_Local (wp_next_channel p) (collect_callbacks batch)]
    else
      wp_task_queue p' = wp_task_queue p /\
      join_set p' = join_set p ++ [SW_Remote (wp_next_channel p) (collect_callbacks batch)] /\
      exists i, cluster_nodes_without_self (seqZ 1 n) (wp_self_id p) !! i = Some leader /\
        wp_quorum_worker_tasks p' =
          alter (fun q => q ++ [QT_WriteBatch (mkWriteBatch batch_id combined (wp_next_channel p))]) i
            (wp_quorum_worker_tasks p).
Proof.
  intros Hself Hleader Hn Hlen Hnext Hne Hlt Hw. unfold dispatch_next_batch. rewrite Hnext.
  rewrite decide_False by done.
  destruct (prepare_total batch_id batch Hlt Hw) as [combined Hp]. rewrite Hp. cbn [mbind option_bind wp_self_id].
  case_decide as Heq.
  - eexists _, combined. split; [reflexivity|]. split_and!; done.
  - unfold process_remote_batch. cbn [current_leader_id wp_self_id wp_quorum_worker_tasks wp_next_channel].
    rewrite (leader_index_eq n) by (done || lia).
    pose proof (quorum_worker_index_correct n (wp_self_id p) leader Hself Hleader ltac:(done)) as Hi.
    destruct (lookup_lt_is_Some_2 (wp_quorum_worker_tasks p) (get_quorum_worker_index leader (wp_self_id p)))
      as [q Hq]; [rewrite Hlen; by eapply lookup_lt_Some|].
    rewrite Hq. cbn [mbind option_bind]. eexists _, combined. split; [reflexivity|]. split_and!; try done.
    by exists (get_quorum_worker_index leader (wp_self_id p)).
Qed.

End dispatching.

(** ** What the clients are told *)

Section answering.
Context `{CapnpLaws} {B : Type} `{Bus B}.

(** The answer of a client whose combined batch got the responses [rs]. *)
Definition client_answer (rs : list InternalPutResponse) (c : Text * Callback) : Callback * WriteResponse :=
  (c.2, mkWriteResponse (mkOwnedWriteBatchResponse (write_write_batch_response
          (mkInternalWriteBatchResponse (Some rs) (Some c.1)))) WS_Ok).

(** The answer is small enough to be read. *)
Definition answer_fits (rs : list InternalPutResponse) (id : Text) : Prop :=
  write_batch_response_words (mkInternalWriteBatchResponse (Some rs) (Some id)) <= traversal_limit_in_words.

Lemma client_response_ok r rs id :
  write_batch_response_built r -> wr_responses r = Some rs -> answer_fits rs id ->
  client_response (mkOwnedWriteBatchResponse (write_write_batch_response r)) id =
  Some (client_answer rs (id, 0%nat)).2.
Proof.
  intros Hr Hrs Hfit. destruct (Hr) as ((_ & rs' & ? & Hall) & _). simplify_eq.
  unfold client_response. rewrite response_with_message_written by done. simpl. rewrite Hrs. simpl.
  rewrite copy_put_responses_id by done.
  rewrite build_owned_write_batch_response_ok; [done|]. apply write_batch_response_small_built; [|done].
  split; [by eexists|]. by exists rs.
Qed.

Lemma respond_all_map f g l :
  Forall (fun c => f c.1 = Some (g c.1)) l ->
  respond_all f l = Some ((fun c => (c.2, g c.1)) <$> l).
Proof.
  induction 1 as [|[id cb] l Hf _ IH]; simpl in *; [done|]. by rewrite Hf, IH.
Qed.

Lemma respond_to_batch_callbacks_ok r rs m :
  write_batch_response_built r -> wr_responses r = Some rs -> map_Forall (fun id _ => answer_fits rs id) m ->
  respond_to_batch_callbacks (mkOwnedWriteBatchResponse (write_write_batch_response r)) m =
  Some (client_answer rs <$> map_to_list m).
Proof.
  intros Hr Hrs Hm. unfold respond_to_batch_callbacks.
  rewrite (respond_all_map _ (fun id => (client_answer rs (id, 0%nat)).2)); [done|].
  apply list.Forall_forall. intros [id cb] Hin%elem_of_map_to_list. apply client_response_ok; [done..|]. by eapply Hm.
Qed.

(** When the answer to a combined batch arrives, every registered client gets exactly one
    response, under its own batch id and with the responses of the whole combined batch, as
    long as these are small enough to be read. *)
Theorem every_client_answered_once r rs err m :
  write_batch_response_built r -> wr_responses r = Some rs -> map_Forall (fun id _ => answer_fits rs id) m ->
  exists out,
    handle_local_write_response (Some (RP_WriteBatch (mkLocalRaftWriteBatchResponse
      (mkOwnedWriteBatchResponse (write_write_batch_response r)) err))) m = Some out /\
    handle_put_batch_response (Some (mkWriteResponse
      (mkOwnedWriteBatchResponse (write_write_batch_response r)) WS_Ok)) m = Some out /\
    out.*1 = (map_to_list m).*2 /\
    (forall id cb, m !! id = Some cb -> client_answer rs (id, cb) ∈ out).
Proof.
  intros Hr Hrs Hm. exists (client_answer rs <$> map_to_list m). simpl.
  rewrite (respond_to_batch_callbacks_ok r rs) by done. split_and!; try done.
  - rewrite <- list_fmap_compose. by apply list_fmap_ext.
  - intros id cb Hid. apply list_elem_of_fmap_2. by apply elem_of_map_to_list.
Qed.

(** A write that was refused is reported to the clients as done.  The state machine of a
    node that is not the leader answers a batch with an error, but the proxy drops it: every
    client gets status [Ok] and the very same response as for a batch that was committed. *)
Theorem refused_write_reported_ok env b cb m (x : StateMachineExecutorImpl B) :
  (forall d, state_delegate x <> D_Leader d) -> cb ∉ cb_dropped (callbacks (shared_state x)) ->
  map_Forall (fun id _ => answer_fits [] id) m ->
  exists x' resp out,
    accept env (mkLocalRaftMessage (RM_WriteBatch b) cb) x = Some x' /\
    cb_sent (callbacks (shared_state x')) = cb_sent (callbacks (shared_state x)) ++ [(cb, resp)] /\
    resp = batch_answer (Some "Received write batch as non-leader"%string) /\
    handle_local_write_response (Some resp) m = Some out /\
    Forall (fun a => response_status a.2 = WS_Ok) out /\
    handle_local_write_response (Some (batch_answer None)) m = Some out.
Proof.
  intros Hd Hcb Hm.
  exists (mkStateMachineExecutorImpl (state_delegate x) (shared_state x) <| callbacks ::=
    respond cb (batch_answer (Some "Received write batch as non-leader"%string)) |>).
  eexists _, (client_answer [] <$> map_to_list m). split.
  { unfold accept, delegate_accept. simpl.
    destruct (state_delegate x) as [d|d|d]; [..|by destruct (Hd d)];
      rewrite write_batch_response_ok; cbn [mbind option_bind]; rewrite callback_send_ok_eq; reflexivity. }
  split; [simpl; unfold respond; by rewrite decide_False|]. split; [done|].
  unfold batch_answer. simpl.
  rewrite (respond_to_batch_callbacks_ok empty_response []) by (done || apply empty_response_built).
  split; [done|]. split; [|done]. apply Forall_fmap, Forall_forall. by intros [? ?] _.
Qed.

End answering.

(** ** Concrete runs *)

Definition client_batch (id : byte) (cb : Callback) : WriteBatch :=
  mkWriteBatch [id] (mkOwnedWriteBatch (write_write_batch sample_batch)) cb.

Definition client_batches : list WriteBatch := [client_batch Init.Byte.x61 4%nat; client_batch Init.Byte.x62 5%nat].

(** The proxy of node 1 of a cluster of three with two waiting batches of one byte each. *)
Definition sample_proxy : WriteProxy :=
  WriteProxy_new client_batches 1 [] 1 5 [[]; []].

Lemma next_write_batch_fifo_witness :
  let '(res, full, q') := next_write_batch 1 (mkWriteQueue client_batches None) in
  client_batches = res ++ queued q' /\ res = [client_batch Init.Byte.x61 4%nat].
Proof.
  pose proof (next_write_batch_fifo 1 (mkWriteQueue client_batches None) ltac:(lia)) as Hf.
  assert (Hfit : sizes_fit 1 (queued (mkWriteQueue client_batches None))).
  { repeat constructor; vm_compute; done. }
  specialize (Hf Hfit). vm_compute in Hf |- *. destruct Hf as [Hf _]. split; [exact Hf|done].
Defined.

Lemma prepare_batch_combines_witness :
  is_Some (prepare_batch_and_callbacks [Init.Byte.x7a] client_batches) /\
  collect_callbacks client_batches !! [Init.Byte.x62] = Some 5%nat.
Proof.
  destruct (prepare_batch_combines [Init.Byte.x7a] client_batches) as (Heq & Hb & Hc); [vm_compute; done|].
  rewrite Heq, Hb by by vm_compute. split; [by eexists|]. apply (Hc ltac:(vm_compute; repeat constructor; set_solver) (client_batch Init.Byte.x62 5%nat)).
  by apply list_elem_of_further, list_elem_of_here.
Defined.

Lemma batches_go_to_leader_witness :
  exists p', dispatch_next_batch 3 [Init.Byte.x7a] sample_proxy = Some p' /\ wp_task_queue p' = [].
Proof.
  destruct (batches_go_to_leader 3 3 [Init.Byte.x7a] sample_proxy [client_batch Init.Byte.x61 4%nat] true
    (mkWriteQueue [client_batch Init.Byte.x62 5%nat] None)) as (p' & c & Hp & _ & _ & Hq);
    [simpl; lia|lia|lia|reflexivity|vm_compute; reflexivity|done|vm_compute; done|by vm_compute|].
  exists p'. split; [exact Hp|]. rewrite decide_False in Hq by (simpl; lia). exact (proj1 Hq).
Defined.

Lemma client_answers_fit : map_Forall (fun id _ => answer_fits [] id) (collect_callbacks client_batches).
Proof.
  unfold collect_callbacks. simpl. apply map_Forall_insert_2; [by vm_compute|].
  apply map_Forall_insert_2; [by vm_compute|]. apply map_Forall_empty.
Qed.

Lemma every_client_answered_once_witness :
  exists out, handle_local_write_response (Some (batch_answer None)) (collect_callbacks client_batches) = Some out /\
    length out = 2%nat.
Proof.
  destruct (every_client_answered_once empty_response [] None (collect_callbacks client_batches)
    empty_response_built eq_refl client_answers_fit) as (out & Ho & _ & Hm & _).
  exists out. split; [exact Ho|]. rewrite <- (length_fmap fst), Hm. reflexivity.
Defined.

Lemma refused_write_reported_ok_witness :
  exists resp out, resp = batch_answer (Some "Received write batch as non-leader"%string) /\
    handle_local_write_response (Some resp) (collect_callbacks client_batches) = Some out /\
    Forall (fun a => response_status a.2 = WS_Ok) out.
Proof.
  destruct (refused_write_reported_ok (B := ScriptedBus) sample_env (mkOwnedWriteBatch []) 6%nat
    (collect_callbacks client_batches)
    (StateMachineExecutorImpl_new sample_env startup_node)) as (x' & resp & out & _ & _ & Hr & Ho & Hs & _).
  - done.
  - vm_compute. set_solver.
  - exact client_answers_fit.
  - exists resp, out. split_and!; [exact Hr|exact Ho|exact Hs].
Defined.
