(* ===== verification/Query.v ===== *)
(** * The query worker

    [src/query/worker.rs]: the thread that applies the committed entries it reads from the
    bus to a key-value map and answers reads from that map.  The reader of the bus holds the
    entries that were broadcast and not yet received; [version] and [commit] are what one
    iteration loads from the shared [CommitState]. *)
From S2P Require Import Prelude Capnp CapnpInstance RaftTypes Bus Samples LogModel.

Section query.
Context {CP : Capnp}.

(** ** Data *)

Record QueryRequest := mkQueryRequest {
  query_id : Text;
  query_index : Z;
  query_callback : Callback
}.

Definition QueryResponse := option Data.

(** [QueryWorker] with the local variables of its [run]; [query_answers] are the responses
    sent to the callbacks. *)
Record QueryWorker := mkQueryWorker {
  bus_reader : list OwnedLogEntry;
  query_structure : gmap Text Data;
  pending_queries : list QueryRequest;
  last_version : Z;
  parked : option OwnedLogEntry;
  parked_request : option QueryRequest;
  applied_index : Z;
  query_answers : list (Callback * QueryResponse)
}.

Implicit Types q : QueryWorker.

(** [QueryWorker::new] and the start of [run]. *)
Definition QueryWorker_new (bus : list OwnedLogEntry) (pending : list QueryRequest) : QueryWorker :=
  mkQueryWorker bus ∅ pending 0 None None 0 [].

(** ** Applying entries *)

(** The closure passed to [for_each_command]. *)
Definition apply_commands (e : OwnedLogEntry) (m : gmap Text Data) : gmap Text Data :=
  for_each_command e (fun id payload _ m => <[id := payload]> m) m.

Definition apply_entry (e : OwnedLogEntry) q : QueryWorker :=
  mkQueryWorker (bus_reader q) (apply_commands e (query_structure q)) (pending_queries q)
    (last_version q) (parked q) (parked_request q) (index e) (query_answers q).

Definition set_parked (p : option OwnedLogEntry) (bus : list OwnedLogEntry) q : QueryWorker :=
  mkQueryWorker bus (query_structure q) (pending_queries q) (last_version q) p (parked_request q)
    (applied_index q) (query_answers q).

(** The truncate signal: an entry of term [u64::MAX]. *)
Definition clear_structure q : QueryWorker :=
  mkQueryWorker (bus_reader q) ∅ (pending_queries q) (last_version q) (parked q)
    (parked_request q) 0 (query_answers q).

(** [match parked.take()]. *)
Definition take_parked (commit : Z) q : QueryWorker :=
  match parked q with
  | None => q
  | Some parked_value =>
    if decide (index parked_value <= commit)
    then apply_entry parked_value (set_parked None (bus_reader q) q)
    else q
  end.

(** The loop over [self.bus.try_recv()]. *)
Fixpoint drain_bus (bus : list OwnedLogEntry) (commit : Z) q : QueryWorker :=
  match bus with
  | [] => set_parked (parked q) [] q
  | val :: bus =>
    if decide (index val <= commit) then drain_bus bus commit (apply_entry val q)
    else if decide (term val = 2 ^ 64 - 1) then drain_bus bus commit (clear_structure q)
    else set_parked (Some val) bus q
  end.

(** The first half of an iteration. *)
Definition apply_new_entries (version commit : Z) q : QueryWorker :=
  if decide (version <> last_version q) then
    let q := mkQueryWorker (bus_reader q) (query_structure q) (pending_queries q) version (parked q)
               (parked_request q) (applied_index q) (query_answers q) in
    let q := take_parked commit q in
    drain_bus (bus_reader q) commit q
  else q.

(** ** Answering reads *)

(** [handle_query]; a dropped receiver is only logged. *)
Definition handle_query (r : QueryRequest) q : QueryWorker :=
  mkQueryWorker (bus_reader q) (query_structure q) (pending_queries q) (last_version q) (parked q)
    (parked_request q) (applied_index q)
    (query_answers q ++ [(query_callback r, query_structure q !! query_id r)]).

Definition set_queries (p : option QueryRequest) (pending : list QueryRequest) q : QueryWorker :=
  mkQueryWorker (bus_reader q) (query_structure q) pending (last_version q) (parked q) p
    (applied_index q) (query_answers q).

(** The loop over [self.pending_queries.pop()]. *)
Fixpoint drain_queries (pending : list QueryRequest) q : QueryWorker :=
  match pending with
  | [] => set_queries (parked_request q) [] q
  | query :: pending =>
    if decide (query_index query <= applied_index q)
    then drain_queries pending (handle_query query q)
    else set_queries (Some query) pending q
  end.

(** The second half of an iteration: a parked request that is still ahead starts the next
    iteration at once. *)
Definition process_queries q : QueryWorker :=
  match parked_request q with
  | Some query =>
    if decide (query_index query <= applied_index q)
    then let q := handle_query query (set_queries None (pending_queries q) q) in
         drain_queries (pending_queries q) q
    else q
  | None => drain_queries (pending_queries q) q
  end.

(** One iteration of [run] up to its backoff. *)
Definition query_iteration (version commit : Z) q : QueryWorker :=
  process_queries (apply_new_entries version commit q).

End query.

(** ** The map is the replay of a prefix of the log *)

Section replay.
Context {CP : Capnp}.
Implicit Types q : QueryWorker.
Implicit Types l : list OwnedLogEntry.

(** The abstract key-value store: the commands of the entries, in order. *)
Definition replay l : gmap Text Data := fold_left (fun m e => apply_commands e m) l ∅.

Lemma replay_snoc l e : replay (l ++ [e]) = apply_commands e (replay l).
Proof. unfold replay. by rewrite fold_left_app. Qed.

(** [l] is what has been broadcast so far: the worker has applied [done], holds at most one
    parked entry, and the rest waits on the bus. *)
Record query_inv (l done : list OwnedLogEntry) q : Prop := {
  inv_split : l = done ++ option_list (parked q) ++ bus_reader q;
  inv_map : query_structure q = replay done;
  inv_index : applied_index q = last_index_of done
}.

(** Broadcast entries are well formed and none is a truncate signal. *)
Definition broadcast_wf l : Prop := log_wf l /\ Forall (fun e => term e <> 2 ^ 64 - 1) l.

Lemma log_wf_at l1 e l2 : log_wf (l1 ++ e :: l2) -> index e = vlen l1.
Proof.
  intros Hwf. apply (log_wf_index (l1 ++ e :: l2)); [done|].
  unfold vlen. rewrite vget_nat. by rewrite list_lookup_middle.
Qed.

Lemma apply_entry_inv l done e rest q :
  broadcast_wf l -> l = done ++ e :: rest -> parked q = None ->
  query_structure q = replay done ->
  query_structure (apply_entry e q) = replay (done ++ [e]) /\
  applied_index (apply_entry e q) = last_index_of (done ++ [e]).
Proof.
  intros [Hwf _] -> Hp Hm. simpl. rewrite replay_snoc, Hm, last_index_of_snoc. split; [done|].
  by eapply log_wf_at.
Qed.

Lemma drain_bus_inv l done bus commit q :
  broadcast_wf l -> l = done ++ bus -> parked q = None ->
  query_structure q = replay done -> applied_index q = last_index_of done ->
  exists more,
    query_inv l (done ++ more) (drain_bus bus commit q) /\
    pending_queries (drain_bus bus commit q) = pending_queries q /\
    parked_request (drain_bus bus commit q) = parked_request q /\
    query_answers (drain_bus bus commit q) = query_answers q /\
    Forall (fun e => index e <= commit) more /\
    (forall e rest, l = (done ++ more) ++ e :: rest -> commit < index e).
Proof.
  revert done q. induction bus as [|e bus IH]; intros done q Hl Hs Hp Hm Hi; simpl.
  - exists []. rewrite app_nil_r in *. split_and!; try done.
    + split; simpl; try done. by rewrite Hp, Hs, app_nil_r.
    + intros e rest Heq. subst l. apply (f_equal length) in Heq. rewrite length_app in Heq. simpl in Heq. lia.
  - case_decide as He.
    + destruct (apply_entry_inv l done e bus q Hl Hs Hp Hm) as [Hm' Hi'].
      destruct (IH (done ++ [e]) (apply_entry e q) Hl) as (more & Hinv & H1 & H2 & H3 & Hle & H4);
        [by rewrite <- (assoc_L (++))|done|done|done|].
      rewrite <- (assoc_L (++)) in Hinv. exists (e :: more). split_and!; try done; [by constructor|].
      intros e' rest Heq. apply (H4 e' rest). by rewrite <- !(assoc_L (++)) in *.
    + rewrite decide_False; last first.
      { destruct Hl as [_ Hl]. rewrite Forall_forall in Hl. apply Hl. rewrite Hs.
        apply in_elt. }
      exists []. rewrite app_nil_r in *. split_and!; try done.
      intros e' rest Heq. rewrite Hs in Heq. apply app_inv_head in Heq. simplify_eq. lia.
Qed.

(** The commit index seen covers the parked entry; it does when it does not go back, because
    only committed entries are broadcast. *)
Definition covers_parked (version commit : Z) q : Prop :=
  version <> last_version q -> forall e, parked q = Some e -> index e <= commit.

Lemma apply_new_entries_inv l done version commit q :
  broadcast_wf l -> query_inv l done q -> covers_parked version commit q ->
  exists more,
    query_inv l (done ++ more) (apply_new_entries version commit q) /\
    pending_queries (apply_new_entries version commit q) = pending_queries q /\
    parked_request (apply_new_entries version commit q) = parked_request q /\
    query_answers (apply_new_entries version commit q) = query_answers q /\
    Forall (fun e => index e <= commit) more /\
    (version <> last_version q ->
     forall e rest, l = (done ++ more) ++ e :: rest -> commit < index e).
Proof.
  intros Hl [Hs Hm Hi] Hcov. unfold apply_new_entries. case_decide as Hv; last first.
  { exists []. rewrite app_nil_r. split_and!; done. }
  unfold take_parked. simpl. destruct (parked q) as [p|] eqn:Hp.
  - assert (Hpc : index p <= commit) by by apply Hcov. rewrite decide_True by done.
    match goal with |- context [drain_bus _ _ (apply_entry p ?x)] => set (q0 := x) end.
    simpl in Hs. destruct (apply_entry_inv l done p (bus_reader q) q0 Hl Hs eq_refl Hm) as [Hm' Hi'].
    destruct (drain_bus_inv l (done ++ [p]) (bus_reader q) commit (apply_entry p q0) Hl)
      as (more & Hinv & H1 & H2 & H3 & Hle & H4); [by rewrite <- (assoc_L (++))|done|done|done|].
    rewrite <- (assoc_L (++)) in Hinv. exists (p :: more). split_and!; try done; [by constructor|].
    intros _ e rest Heq. apply (H4 e rest). by rewrite <- !(assoc_L (++)) in *.
  - destruct (drain_bus_inv l done (bus_reader q) commit
      (mkQueryWorker (bus_reader q) (query_structure q) (pending_queries q) version (parked q)
               (parked_request q) (applied_index q) (query_answers q)) Hl)
      as (more & Hinv & H1 & H2 & H3 & Hle & H4); [done|done|done|done|].
    simpl in *. rewrite Hp in *. by exists more.
Qed.

(** ** Reads *)

(** The requests waiting, in the order they will be answered. *)
Definition waiting_queries q : list QueryRequest := option_list (parked_request q) ++ pending_queries q.

(** The answer of the abstract store after [done]. *)
Definition answer_from done (r : QueryRequest) : Callback * QueryResponse :=
  (query_callback r, replay done !! query_id r).

Lemma drain_queries_spec done pending q :
  query_structure q = replay done -> parked_request q = None ->
  exists ready,
    pending = ready ++ waiting_queries (drain_queries pending q) /\
    Forall (fun r => query_index r <= applied_index q) ready /\
    query_answers (drain_queries pending q) = query_answers q ++ (answer_from done <$> ready) /\
    (forall r rest, waiting_queries (drain_queries pending q) = r :: rest -> applied_index q < query_index r).
Proof.
  revert q. induction pending as [|r pending IH]; intros q Hm Hp; simpl.
  - exists []. unfold waiting_queries. simpl. rewrite Hp, !app_nil_r. split_and!; try done.
  - case_decide as Hr.
    + destruct (IH (handle_query r q) Hm Hp) as (ready & Heq & Hall & Ha & Hrest).
      exists (r :: ready). split_and!; [by rewrite Heq at 1|by constructor| |done].
      rewrite Ha. simpl. rewrite <- (assoc_L (++)). simpl. unfold answer_from at 2. by rewrite Hm.
    + exists []. unfold waiting_queries. simpl. rewrite !app_nil_r. split_and!; try done.
      intros r' rest ?. simplify_eq. lia.
Qed.

Lemma query_frame_inv l done pending q :
  query_inv l done q -> query_inv l done (drain_queries pending q).
Proof.
  revert q. induction pending as [|r pending IH]; intros q Hinv; simpl.
  - destruct Hinv. by split.
  - case_decide; [|destruct Hinv; by split]. apply IH. destruct Hinv. by split.
Qed.

Lemma process_queries_spec l done q :
  query_inv l done q ->
  query_inv l done (process_queries q) /\
  exists ready,
    waiting_queries q = ready ++ waiting_queries (process_queries q) /\
    Forall (fun r => query_index r <= applied_index q) ready /\
    query_answers (process_queries q) = query_answers q ++ (answer_from done <$> ready) /\
    (forall r rest, waiting_queries (process_queries q) = r :: rest -> applied_index q < query_index r).
Proof.
  intros Hinv. unfold process_queries. destruct (parked_request q) as [r|] eqn:Hp; [case_decide as Hr|].
  - split; [apply query_frame_inv; destruct Hinv; by split|].
    destruct (drain_queries_spec done (pending_queries q) (handle_query r (set_queries None (pending_queries q) q)))
      as (ready & Heq & Hall & Ha & Hrest); [apply Hinv|done|].
    exists (r :: ready). unfold waiting_queries at 1. rewrite Hp. simpl in *.
    split_and!; [by rewrite Heq at 1|by constructor| |done].
    rewrite Ha. simpl. rewrite <- (assoc_L (++)). simpl. unfold answer_from at 2.
    by rewrite (inv_map _ _ _ Hinv).
  - split; [done|]. exists []. unfold waiting_queries. rewrite Hp. simpl. rewrite !app_nil_r.
    split_and!; try done. intros r' rest ?. simplify_eq. lia.
  - split; [by apply query_frame_inv|].
    destruct (drain_queries_spec done (pending_queries q) q) as (ready & Heq & Hall & Ha & Hrest);
      [apply Hinv|done|].
    exists ready. unfold waiting_queries at 1. rewrite Hp. done.
Qed.

(** The query worker refines the abstract store.  Its map is always the replay of a
    prefix of the broadcast entries, an iteration that sees a new version has applied every
    broadcast entry up to the commit index and none beyond it, and a read is answered from a
    state whose last entry is at the index it names or later (index 0 also from the empty
    store), exactly once and in the order of the queue; the reads that stay are headed by one
    whose index is not applied yet. *)
Theorem query_iteration_refines l done version commit q :
  broadcast_wf l -> query_inv l done q -> covers_parked version commit q ->
  exists more ready,
    let q' := query_iteration version commit q in
    query_inv l (done ++ more) q' /\
    Forall (fun e => index e <= commit) more /\
    (version <> last_version q ->
     forall e rest, l = (done ++ more) ++ e :: rest -> commit < index e) /\
    waiting_queries q = ready ++ waiting_queries q' /\
    Forall (fun r => query_index r <= last_index_of (done ++ more)) ready /\
    query_answers q' = query_answers q ++ (answer_from (done ++ more) <$> ready) /\
    (forall r rest, waiting_queries q' = r :: rest -> last_index_of (done ++ more) < query_index r).
Proof.
  intros Hl Hinv Hcov.
  destruct (apply_new_entries_inv l done version commit q Hl Hinv Hcov) as (more & Hinv' & Hq & Hr & Ha & Hle & Hc).
  destruct (process_queries_spec l (done ++ more) _ Hinv') as (Hinv'' & ready & Heq & Hall & Hans & Hrest).
  exists more, ready. unfold query_iteration. rewrite (inv_index _ _ _ Hinv') in Hall, Hrest.
  split_and!; try done.
  - rewrite <- Heq. unfold waiting_queries. by rewrite Hq, Hr.
  - by rewrite Hans, Ha.
Qed.

(** When the commit index goes back behind a parked entry, the next entry of the bus replaces
    the parked one, whose commands are then never applied. *)
Theorem parked_entry_lost p e bus version commit q :
  parked q = Some p -> commit < index p -> bus_reader q = e :: bus -> commit < index e ->
  term e <> 2 ^ 64 - 1 -> version <> last_version q ->
  let q' := apply_new_entries version commit q in
  parked q' = Some e /\ bus_reader q' = bus /\ query_structure q' = query_structure q.
Proof.
  intros Hp Hlt Hb He Ht Hv. unfold apply_new_entries. rewrite decide_True by done.
  unfold take_parked. simpl. rewrite Hp. rewrite decide_False by lia. simpl. rewrite Hb. simpl.
  rewrite decide_False by lia. by rewrite decide_False by done.
Qed.

End replay.

(** ** Concrete runs *)

Definition sample_query : QueryWorker :=
  QueryWorker_new sample_log [mkQueryRequest [] 1 4%nat].

Lemma query_iteration_refines_witness :
  exists more, query_inv sample_log more (query_iteration 1 1 sample_query).
Proof.
  destruct (query_iteration_refines sample_log [] 1 1 sample_query) as (more & ready & Hinv & _).
  - split.
    + change sample_log with ([] ++ [sample_entry 0 1 0 0 1] ++ [sample_entry 1 1 0 1 2]).
      apply (log_wf_snoc [sample_entry 0 1 0 0 1] (sample_entry 1 1 0 1 2)); [|repeat split; vm_compute; reflexivity].
      apply (log_wf_snoc [] (sample_entry 0 1 0 0 1)); [constructor|repeat split; vm_compute; reflexivity].
    + repeat constructor; vm_compute; done.
  - by split.
  - intros _ e He. done.
  - exists more. exact Hinv.
Defined.

Lemma parked_entry_lost_witness :
  let q := set_parked (Some (sample_entry 0 1 0 0 1)) [sample_entry 1 1 0 1 2] sample_query in
  parked (apply_new_entries 1 (-1) q) = Some (sample_entry 1 1 0 1 2).
Proof.
  intros q. apply (parked_entry_lost (sample_entry 0 1 0 0 1) (sample_entry 1 1 0 1 2) [] 1 (-1) q);
    try reflexivity; vm_compute; done.
Defined.
