(* ===== verification/Codec.v ===== *)
(** * Framing

    The frames of the client protocol ([src/transport/datastore/codec.rs]) and the
    length-prefixed messages between nodes ([src/transport/capnp/message_sender.rs] and
    [message_receiver.rs]).  A reader is the bytes its peer has sent before closing; a writer
    appends to the bytes written. *)
From S2P Require Import Prelude Capnp CapnpInstance QuorumMessage.

(** ** Integers as bytes *)

Definition byte_of (z : Z) : byte := default Init.Byte.x00 (Byte.of_N (Z.to_N (z `mod` 256))).

Definition byte_value (b : byte) : Z := Z.of_N (Byte.to_N b).

(** [to_le_bytes] of an [n]-byte integer and its inverse. *)
Fixpoint le_bytes (n : nat) (z : Z) : list byte :=
  match n with
  | O => []
  | S n => byte_of z :: le_bytes n (z / 256)
  end.

Fixpoint le_value (bs : list byte) : Z :=
  match bs with
  | [] => 0
  | b :: bs => byte_value b + 256 * le_value bs
  end.

(** Big-endian, as [write_u32] and [read_u32] of tokio. *)
Definition be_bytes (n : nat) (z : Z) : list byte := rev (le_bytes n z).

Definition be_value (bs : list byte) : Z := le_value (rev bs).

(** ** Readers *)

Inductive ReadError := UnexpectedEof | InvalidData.

Definition ReadResult (A : Type) : Type := ReadError + (A * list byte).

(** [reader.read_exact] of [n] bytes. *)
Definition read_exact (n : nat) (bs : list byte) : ReadResult (list byte) :=
  if decide (n <= length bs)%nat then inr (take n bs, drop n bs) else inl UnexpectedEof.

Definition read_bind {A C} (r : ReadResult A) (k : A -> list byte -> ReadResult C) : ReadResult C :=
  match r with
  | inl e => inl e
  | inr (a, bs) => k a bs
  end.

(** ** datastore/codec.rs *)

Definition HEADER_SIZE : Z := 13.

Definition MAX_FRAME_SIZE : Z := 16 * 1024 * 1024.

(** [read_frame]. *)
Definition read_frame (bs : list byte) : ReadResult (Z * Z * list byte) :=
  read_bind (read_exact 4 bs) (fun len_buf bs =>
    let frame_len := le_value len_buf in
    if decide (frame_len < 9) then inl InvalidData
    else if decide (MAX_FRAME_SIZE < frame_len) then inl InvalidData
    else
      read_bind (read_exact 1 bs) (fun rpc_type bs =>
      read_bind (read_exact 8 bs) (fun request_id bs =>
      read_bind (read_exact (Z.to_nat (frame_len - 9)) bs) (fun payload bs =>
        inr (le_value rpc_type, le_value request_id, payload, bs))))).

(** [encode_frame]; [frame_len as u32] is what the four bytes keep of it. *)
Definition encode_frame (rpc_type request_id : Z) (payload : list byte) : list byte :=
  le_bytes 4 (9 + vlen payload) ++ le_bytes 1 rpc_type ++ le_bytes 8 request_id ++ payload.

(** [write_frame]: what is written, or [InvalidData]. *)
Definition write_frame (rpc_type request_id : Z) (payload written : list byte) : ReadError + list byte :=
  if decide (MAX_FRAME_SIZE < 9 + vlen payload) then inl InvalidData
  else inr (written ++ encode_frame rpc_type request_id payload).

(** The reader loop of [connection.rs]: the frames read until the first error, and the
    error.  Every frame takes at least four bytes, so the length of the stream is enough
    fuel. *)
Fixpoint read_frames (fuel : nat) (bs : list byte) : list (Z * Z * list byte) * ReadError :=
  match fuel with
  | O => ([], UnexpectedEof)
  | S fuel =>
    match read_frame bs with
    | inl e => ([], e)
    | inr (f, bs) => let '(fs, e) := read_frames fuel bs in (f :: fs, e)
    end
  end.

(** ** capnp/message_sender.rs and message_receiver.rs *)

Section messages.
Context {CP : Capnp}.

Definition MAX_MESSAGE_SIZE : Z := 64 * 1024 * 1024.

(** [write_message]; [bytes.len() as u32] is what the four bytes keep of it. *)
Definition write_message (msg : OwnedQuorumMessage) (written : list byte) : list byte :=
  written ++ be_bytes 4 (vlen (quorum_bytes msg)) ++ quorum_bytes msg.

(** [read_message]. *)
Definition read_message (bs : list byte) : ReadResult OwnedQuorumMessage :=
  read_bind (read_exact 4 bs) (fun len_buf bs =>
    let len := be_value len_buf in
    if decide (MAX_MESSAGE_SIZE < len) then inl InvalidData
    else
      read_bind (read_exact (Z.to_nat len) bs) (fun bytes bs =>
        match quorum_from_bytes bytes with
        | Some msg => inr (msg, bs)
        | None => inl InvalidData
        end)).

(** The reader loop of [handle_connection]. *)
Fixpoint read_messages (fuel : nat) (bs : list byte) : list OwnedQuorumMessage * ReadError :=
  match fuel with
  | O => ([], UnexpectedEof)
  | S fuel =>
    match read_message bs with
    | inl e => ([], e)
    | inr (m, bs) => let '(ms, e) := read_messages fuel bs in (m :: ms, e)
    end
  end.

(** [handle_connection] on everything the peer sends: the node the queue is registered for
    and the messages queued; [None] when the first message is not a connect request. *)
Definition handle_connection (bs : list byte) : option (Z * list OwnedQuorumMessage) :=
  match read_message bs with
  | inl _ => None
  | inr (connect_msg, bs) =>
    match quorum_with_message connect_msg (fun m => m) with
    | Some (ConnectRequest node_id) => Some (node_id, (read_messages (length bs) bs).1)
    | _ => None
    end
  end.

(** [MessageSender::run] after it has connected: the connect request, then the messages of
    its channel in order. *)
Definition sender_stream (node_id : Z) (msgs : list OwnedQuorumMessage) : list byte :=
  fold_left (fun written msg => write_message msg written)
    (build_owned_message (ConnectRequest node_id) :: msgs) [].

End messages.

(** ** Lemmas on bytes *)

Lemma byte_value_range b : 0 <= byte_value b < 256.
Proof. destruct b; vm_compute; done. Qed.

Lemma byte_value_byte_of z : byte_value (byte_of z) = z `mod` 256.
Proof.
  unfold byte_value, byte_of. pose proof (Z.mod_pos_bound z 256 ltac:(done)) as Hr.
  destruct (Byte.of_N (Z.to_N (z `mod` 256))) as [b|] eqn:Hb; simpl.
  - apply Byte.to_of_N in Hb. rewrite Hb. lia.
  - apply Byte.of_N_None_iff in Hb. lia.
Qed.

Lemma byte_of_byte_value b : byte_of (byte_value b) = b.
Proof.
  unfold byte_of. rewrite Z.mod_small by apply byte_value_range. unfold byte_value.
  by rewrite N2Z.id, Byte.of_to_N.
Qed.

Lemma length_le_bytes n z : length (le_bytes n z) = n.
Proof. revert z. induction n as [|n IH]; intros z; simpl; [done|]. by rewrite IH. Qed.

Lemma le_value_le_bytes n z : 0 <= z < 256 ^ Z.of_nat n -> le_value (le_bytes n z) = z.
Proof.
  revert z. induction n as [|n IH]; intros z Hz; cbn [le_bytes le_value].
  - change (256 ^ Z.of_nat 0) with 1 in Hz. lia.
  - rewrite Nat2Z.inj_succ, Z.pow_succ_r in Hz by lia.
    rewrite IH by (split; [apply Z.div_pos; lia|apply Z.div_lt_upper_bound; lia]).
    rewrite byte_value_byte_of. pose proof (Z.div_mod z 256). lia.
Qed.

Lemma le_value_range bs : 0 <= le_value bs < 256 ^ Z.of_nat (length bs).
Proof.
  induction bs as [|b bs IH]; simpl length; cbn [le_value]; [done|].
  rewrite Nat2Z.inj_succ, Z.pow_succ_r by lia. pose proof (byte_value_range b). lia.
Qed.

Lemma le_bytes_le_value bs : le_bytes (length bs) (le_value bs) = bs.
Proof.
  induction bs as [|b bs IH]; cbn [length le_bytes le_value]; [done|].
  pose proof (byte_value_range b).
  replace (byte_value b + 256 * le_value bs) with (byte_value b + le_value bs * 256) by lia.
  rewrite Z.div_add, Z.div_small, Z.add_0_l, IH by lia. f_equal.
  unfold byte_of. rewrite Z.mod_add by lia. apply byte_of_byte_value.
Qed.

Lemma le_bytes_of_length n bs : length bs = n -> le_bytes n (le_value bs) = bs.
Proof. intros <-. apply le_bytes_le_value. Qed.

Lemma read_exact_app n bs rest : length bs = n -> read_exact n (bs ++ rest) = inr (bs, rest).
Proof.
  intros <-. unfold read_exact. rewrite decide_True by (rewrite length_app; lia).
  by rewrite take_app_length, drop_app_length.
Qed.

Lemma read_exact_inr n bs x rest : read_exact n bs = inr (x, rest) -> length x = n /\ bs = x ++ rest.
Proof.
  unfold read_exact. case_decide; intros ?; simplify_eq. rewrite length_take, take_drop. split; [lia|done].
Qed.

(** ** Frames *)

Lemma read_frame_encoded t id p rest :
  0 <= t < 256 -> u64 id -> 9 + vlen p <= MAX_FRAME_SIZE ->
  read_frame (encode_frame t id p ++ rest) = inr (t, id, p, rest).
Proof.
  intros Ht Hid Hp. pose proof (vlen_nonneg p). unfold read_frame, encode_frame.
  rewrite <- (assoc_L (++)). rewrite read_exact_app by apply length_le_bytes. cbn [read_bind].
  rewrite le_value_le_bytes by (unfold MAX_FRAME_SIZE in Hp; lia).
  rewrite !decide_False by lia. rewrite <- (assoc_L (++)).
  rewrite read_exact_app by apply length_le_bytes. cbn [read_bind]. rewrite <- (assoc_L (++)).
  rewrite read_exact_app by apply length_le_bytes. cbn [read_bind].
  rewrite read_exact_app by (unfold vlen; lia). cbn [read_bind].
  by rewrite !le_value_le_bytes by (unfold u64 in Hid; simpl; lia).
Qed.

Lemma read_frame_inv bs t id p rest :
  read_frame bs = inr (t, id, p, rest) ->
  bs = encode_frame t id p ++ rest /\ 0 <= t < 256 /\ u64 id /\ 9 + vlen p <= MAX_FRAME_SIZE.
Proof.
  unfold read_frame. destruct (read_exact 4 bs) as [|[lb bs1]] eqn:H1; cbn [read_bind]; [done|].
  repeat case_decide; try done.
  destruct (read_exact 1 bs1) as [|[tb bs2]] eqn:H2; cbn [read_bind]; [done|].
  destruct (read_exact 8 bs2) as [|[ib bs3]] eqn:H3; cbn [read_bind]; [done|].
  destruct (read_exact _ bs3) as [|[pb bs4]] eqn:H4; cbn [read_bind]; [done|]. intros ?. simplify_eq.
  apply read_exact_inr in H1 as [L1 ->], H2 as [L2 ->], H3 as [L3 ->], H4 as [L4 ->].
  pose proof (le_value_range tb) as Rt. pose proof (le_value_range ib) as Ri. rewrite L2 in Rt. rewrite L3 in Ri.
  assert (9 + vlen p = le_value lb) as Hlen by (unfold vlen; lia).
  split_and!; try (simpl in *; unfold u64; lia).
  unfold encode_frame. rewrite Hlen, !le_bytes_of_length by done. by rewrite <- !(assoc_L (++)).
Qed.

(** The reader loop of a connection gets the frames of a client in the order it sent them. *)
Theorem read_frames_encoded fs rest fuel :
  Forall (fun f => 0 <= f.1.1 < 256 /\ u64 f.1.2 /\ 9 + vlen f.2 <= MAX_FRAME_SIZE) fs ->
  (length fs < fuel)%nat ->
  read_frames fuel (mjoin ((fun f => encode_frame f.1.1 f.1.2 f.2) <$> fs) ++ rest) =
  (fs ++ (read_frames (fuel - length fs) rest).1, (read_frames (fuel - length fs) rest).2).
Proof.
  intros Hall. revert fuel. induction Hall as [|[[t id] p] fs (Ht & Hid & Hp) Hall IH]; intros fuel Hf.
  - simpl. rewrite Nat.sub_0_r. by destruct (read_frames fuel rest).
  - destruct fuel as [|fuel]; simpl in Hf; [lia|]. rewrite fmap_cons.
    cbn [mjoin list_join fst snd read_frames]. rewrite <- (assoc_L (++)), read_frame_encoded by done.
    by rewrite IH by lia.
Qed.

Lemma length_encode_frame t id p : (4 <= length (encode_frame t id p))%nat.
Proof. unfold encode_frame. rewrite length_app, length_le_bytes. lia. Qed.

(** C31: The client framing is exact.  A frame reads back as what was written and leaves the
    bytes after it; whatever reads as a frame is the encoding of what was read; and a writer
    refuses exactly the payloads a reader would refuse. *)
Theorem frame_round_trip t id p written rest :
  0 <= t < 256 -> u64 id ->
  (9 + vlen p <= MAX_FRAME_SIZE ->
     write_frame t id p written = inr (written ++ encode_frame t id p) /\
     read_frame (encode_frame t id p ++ rest) = inr (t, id, p, rest)) /\
  (MAX_FRAME_SIZE < 9 + vlen p < 2 ^ 32 ->
     write_frame t id p written = inl InvalidData /\
     read_frame (encode_frame t id p ++ rest) = inl InvalidData) /\
  (forall bs t' id' p' rest', read_frame bs = inr (t', id', p', rest') ->
     bs = encode_frame t' id' p' ++ rest').
Proof.
  intros Ht Hid. split_and!.
  - intros Hp. split; [|by apply read_frame_encoded]. unfold write_frame. by rewrite decide_False by lia.
  - intros Hp. split; [unfold write_frame; by rewrite decide_True by lia|].
    unfold read_frame, encode_frame. rewrite <- (assoc_L (++)).
    rewrite read_exact_app by apply length_le_bytes. cbn [read_bind].
    rewrite le_value_le_bytes by (change (256 ^ Z.of_nat 4) with (2 ^ 32); pose proof (vlen_nonneg p); lia).
    unfold MAX_FRAME_SIZE in *. rewrite decide_False by lia. by rewrite decide_True by lia.
  - intros bs t' id' p' rest' Hr. by apply read_frame_inv in Hr as (? & _).
Qed.

(** ** Messages between nodes *)

Section connection.
Context `{CapnpLaws}.

(** A message that a node has built and that fits the limit of the reader. *)
Definition sendable (msg : OwnedQuorumMessage) : Prop :=
  quorum_from_bytes (quorum_bytes msg) = Some msg /\ vlen (quorum_bytes msg) <= MAX_MESSAGE_SIZE.

Lemma read_message_written msg rest :
  sendable msg -> read_message (write_message msg [] ++ rest) = inr (msg, rest).
Proof.
  intros [Hp Hs]. pose proof (vlen_nonneg (quorum_bytes msg)).
  unfold read_message, write_message. rewrite app_nil_l, <- (assoc_L (++)).
  rewrite read_exact_app by (unfold be_bytes; rewrite length_rev; apply length_le_bytes). cbn [read_bind].
  unfold be_value, be_bytes. rewrite rev_involutive.
  rewrite le_value_le_bytes by (unfold MAX_MESSAGE_SIZE in Hs; simpl; lia).
  rewrite decide_False by lia. rewrite read_exact_app by (unfold vlen; lia). cbn [read_bind]. by rewrite Hp.
Qed.

Definition stream_of (msgs : list OwnedQuorumMessage) : list byte :=
  mjoin ((fun m => write_message m []) <$> msgs).

Lemma write_messages msgs written :
  fold_left (fun w msg => write_message msg w) msgs written = written ++ stream_of msgs.
Proof.
  revert written. induction msgs as [|m msgs IH]; intros written; simpl; [by rewrite app_nil_r|].
  rewrite IH. unfold stream_of, write_message. simpl. by rewrite <- !(assoc_L (++)).
Qed.

Lemma length_write_message m : (4 <= length (write_message m []))%nat.
Proof.
  unfold write_message, be_bytes. rewrite !length_app, length_rev, length_le_bytes. lia.
Qed.

Lemma read_messages_written msgs rest fuel e :
  Forall sendable msgs -> read_message rest = inl e -> (length msgs <= fuel)%nat ->
  (read_messages fuel (stream_of msgs ++ rest)).1 = msgs.
Proof.
  intros Hall He. revert fuel. induction Hall as [|m msgs Hm Hall IH]; intros [|fuel] Hf.
  - done.
  - simpl. by rewrite He.
  - simpl in Hf. lia.
  - simpl in Hf. specialize (IH fuel ltac:(lia)).
    change (stream_of (m :: msgs)) with (write_message m [] ++ stream_of msgs).
    cbn [read_messages]. rewrite <- (assoc_L (++)), read_message_written by done.
    destruct (read_messages fuel _). simpl in *. by rewrite IH.
Qed.

(** More bytes behind a message do not change it. *)
Lemma read_message_mono bs m rest more :
  read_message bs = inr (m, rest) -> read_message (bs ++ more) = inr (m, rest ++ more).
Proof.
  unfold read_message. destruct (read_exact 4 bs) as [|[lb bs1]] eqn:H1; cbn [read_bind]; [done|].
  apply read_exact_inr in H1 as [L1 ->]. rewrite <- (assoc_L (++)), read_exact_app by done. cbn [read_bind].
  case_decide; [done|]. destruct (read_exact _ bs1) as [|[mb bs2]] eqn:H2; cbn [read_bind]; [done|].
  apply read_exact_inr in H2 as [L2 ->]. rewrite <- (assoc_L (++)), read_exact_app by done. cbn [read_bind].
  destruct (quorum_from_bytes mb); intros; by simplify_eq.
Qed.

Lemma length_stream_of msgs : (4 * length msgs <= length (stream_of msgs))%nat.
Proof.
  induction msgs as [|m msgs IH]; [simpl; lia|].
  change (stream_of (m :: msgs)) with (write_message m [] ++ stream_of msgs).
  rewrite length_app. cbn [length]. pose proof (length_write_message m). lia.
Qed.

(** A message over the limit of the reader is written all the same and ends the connection. *)
Theorem oversized_message_refused msg rest :
  MAX_MESSAGE_SIZE < vlen (quorum_bytes msg) < 2 ^ 32 ->
  read_message (write_message msg [] ++ rest) = inl InvalidData.
Proof.
  intros Hs. unfold read_message, write_message. rewrite app_nil_l, <- (assoc_L (++)).
  rewrite read_exact_app by (unfold be_bytes; rewrite length_rev; apply length_le_bytes). cbn [read_bind].
  unfold be_value, be_bytes. rewrite rev_involutive.
  rewrite le_value_le_bytes by (change (256 ^ Z.of_nat 4) with (2 ^ 32);
    pose proof (vlen_nonneg (quorum_bytes msg)); lia).
  by rewrite decide_True by lia.
Qed.

(** C30: A connection delivers.  The receiving side registers the queue under the node id the
    sender identifies itself with and queues exactly the messages that were sent completely,
    in order; a message cut off by the end of the connection is dropped. *)
Theorem connection_delivers node_id msgs torn msg :
  u32 node_id -> vlen (write_quorum_message (ConnectRequest node_id)) <= MAX_MESSAGE_SIZE ->
  Forall sendable msgs -> sendable msg ->
  torn `prefix_of` write_message msg [] -> torn <> write_message msg [] ->
  handle_connection (sender_stream node_id msgs ++ torn) = Some (node_id, msgs).
Proof.
  intros Hn Hlen Hall Hm [suf Hpre] Hne.
  set (c := build_owned_message (ConnectRequest node_id)).
  assert (Hc : sendable c).
  { split; [|done]. unfold quorum_from_bytes.
    destruct (quorum_message_small_built (ConnectRequest node_id) (conj Hn I) ltac:(done)) as [_ [[r rest] Hr]].
    simpl. by rewrite Hr. }
  unfold sender_stream. rewrite write_messages, app_nil_l. fold c.
  change (stream_of (c :: msgs)) with (write_message c [] ++ stream_of msgs).
  unfold handle_connection. rewrite <- (assoc_L (++)), read_message_written by done.
  unfold c. rewrite quorum_with_message_small by done. do 2 f_equal.
  assert (Htorn : exists e, read_message torn = inl e).
  { pose proof (read_message_written msg [] Hm) as Hw. rewrite app_nil_r, Hpre in Hw.
    destruct (read_message torn) as [e|[m rest]] eqn:Ht; [by exists e|].
    apply (read_message_mono _ _ _ suf) in Ht. rewrite Ht in Hw.
    assert (Hnil : rest ++ suf = []) by congruence. apply app_eq_nil in Hnil as [_ Hsuf].
    rewrite Hsuf, app_nil_r in Hpre. by destruct Hne. }
  destruct Htorn as [e He]. apply (read_messages_written msgs torn _ e); try done.
  rewrite length_app. pose proof (length_stream_of msgs). lia.
Qed.

End connection.

(** ** Concrete runs *)

Lemma frame_round_trip_witness :
  read_frame (encode_frame 1 7 [Init.Byte.x41] ++ [Init.Byte.x42]) = inr (1, 7, [Init.Byte.x41], [Init.Byte.x42]).
Proof.
  destruct (frame_round_trip 1 7 [Init.Byte.x41] [] [Init.Byte.x42]) as (Hok & _); [lia|unfold u64; lia|].
  apply Hok. vm_compute. done.
Defined.

Definition sample_vote : OwnedQuorumMessage := build_vote_request_message 3 2 0 0 9.

Lemma connection_delivers_witness :
  handle_connection (sender_stream 2 [sample_vote] ++ [Init.Byte.x00]) = Some (2, [sample_vote]).
Proof.
  apply (connection_delivers 2 [sample_vote] [Init.Byte.x00] sample_vote).
  - unfold u32. lia.
  - vm_compute. done.
  - repeat constructor; vm_compute; done.
  - split; vm_compute; done.
  - by eexists.
  - vm_compute. done.
Defined.
