(* ===== verification/NetAddr.v ===== *)
(** * Socket addresses

    [str::parse::<std::net::SocketAddr>] of the standard library, the parser the configuration
    and the listeners rely on, and the decimal notation [format!] writes a port in.  A parser
    takes the rest of the input and returns a value and what is left; one that fails leaves
    the input as it was. *)
From S2P Require Import Prelude.
From Stdlib Require Import Ascii String.
From stdpp Require Import strings pretty.

#[local] Open Scope string_scope.
#[local] Open Scope Z_scope.
#[local] Open Scope kraft_scope.

(** ** Addresses *)

Inductive SocketAddr :=
| V4 (octets : list Z) (port : Z)
| V6 (groups : list Z) (scope_id port : Z).

Definition port (a : SocketAddr) : Z :=
  match a with V4 _ p => p | V6 _ _ p => p end.

(** ** The parser *)

Definition parser (A : Type) : Type := string -> option (A * string).

(** [char::to_digit]. *)
Definition to_digit (radix : Z) (c : ascii) : option Z :=
  let n := Z.of_N (N_of_ascii c) in
  let d := if decide (48 <= n <= 57) then n - 48
           else if decide (97 <= n <= 102) then n - 87
           else if decide (65 <= n <= 70) then n - 55
           else radix in
  if decide (d < radix) then Some d else None.

Definition read_given_char (target : ascii) : parser unit := fun s =>
  match s with
  | String c s => if decide (c = target) then Some (tt, s) else None
  | EmptyString => None
  end.

(** The digits of a number of at most [max_digits] digits: value and count. *)
Fixpoint read_digits_max (radix : Z) (max_digits count : nat) (result : Z) (s : string)
    : option (Z * nat * string) :=
  match s with
  | String c rest =>
    match to_digit radix c with
    | Some d =>
      if decide (max_digits < S count)%nat then None
      else read_digits_max radix max_digits (S count) (result * radix + d) rest
    | None => Some (result, count, s)
    end
  | EmptyString => Some (result, count, s)
  end.

(** The digits of a number that must stay below [bound], as [checked_mul] and
    [checked_add] see it. *)
Fixpoint read_digits_checked (radix bound : Z) (count : nat) (result : Z) (s : string)
    : option (Z * nat * string) :=
  match s with
  | String c rest =>
    match to_digit radix c with
    | Some d =>
      if decide (result * radix + d < bound)
      then read_digits_checked radix bound (S count) (result * radix + d) rest
      else None
    | None => Some (result, count, s)
    end
  | EmptyString => Some (result, count, s)
  end.

Definition has_leading_zero (s : string) : bool :=
  match s with String c _ => bool_decide (c = "0"%char) | EmptyString => false end.

(** [read_number] for an integer type with the values below [bound]. *)
Definition read_number (radix bound : Z) (max_digits : option nat) (allow_zero_prefix : bool)
    : parser Z := fun s =>
  let* (result, count, rest) :=
    match max_digits with
    | Some m => read_digits_max radix m 0 0 s
    | None => read_digits_checked radix bound 0 0 s
    end in
  if decide (count = 0%nat) then None
  else if negb allow_zero_prefix && has_leading_zero s && bool_decide (1 < count)%nat then None
  else if decide (result < bound) then Some (result, rest)
  else None.

Definition read_separator {A} (sep : ascii) (index : nat) (inner : parser A) : parser A := fun s =>
  match index with
  | O => inner s
  | S _ => let* (_, s) := read_given_char sep s in inner s
  end.

(** [n] more octets of an IPv4 address, from position [i]. *)
Fixpoint read_octets (n i : nat) : parser (list Z) := fun s =>
  match n with
  | O => Some ([], s)
  | S n =>
    let* (o, s) := read_separator "." i (read_number 10 256 (Some 3%nat) false) s in
    let* (os, s) := read_octets n (S i) s in
    Some (o :: os, s)
  end.

Definition read_ipv4_addr : parser (list Z) := read_octets 4 0.

(** [read_groups] for [n] more groups of [limit], from position [i]: the groups read, and
    whether they end in an IPv4 address. *)
Fixpoint read_groups (n i : nat) (s : string) : list Z * bool * string :=
  match n with
  | O => ([], false, s)
  | S n =>
    match (if decide (0 < n)%nat then read_separator ":" i read_ipv4_addr s else None) with
    | Some ([a; b; c; d], s) => ([a * 256 + b; c * 256 + d], true, s)
    | _ =>
      match read_separator ":" i (read_number 16 65536 (Some 4%nat) true) s with
      | Some (g, s) => let '(gs, v4, s) := read_groups n (S i) s in (g :: gs, v4, s)
      | None => ([], false, s)
      end
    end
  end.

Definition read_ipv6_addr : parser (list Z) := fun s =>
  let '(head, head_ipv4, s) := read_groups 8 0 s in
  if decide (length head = 8)%nat then Some (head, s)
  else if head_ipv4 then None
  else
    let* (_, s) := read_given_char ":" s in
    let* (_, s) := read_given_char ":" s in
    let limit := (8 - (length head + 1))%nat in
    let '(tail, _, s) := read_groups limit 0 s in
    Some (head ++ replicate (8 - length head - length tail) 0 ++ tail, s)%list.

Definition read_port : parser Z := fun s =>
  let* (_, s) := read_given_char ":" s in
  read_number 10 (2 ^ 16) None true s.

Definition read_scope_id : parser Z := fun s =>
  let* (_, s) := read_given_char "%" s in
  read_number 10 (2 ^ 32) None true s.

Definition read_socket_addr_v4 : parser SocketAddr := fun s =>
  let* (ip, s) := read_ipv4_addr s in
  let* (p, s) := read_port s in
  Some (V4 ip p, s).

Definition read_socket_addr_v6 : parser SocketAddr := fun s =>
  let* (_, s) := read_given_char "[" s in
  let* (ip, s) := read_ipv6_addr s in
  let '(scope_id, s) := default (0, s) (read_scope_id s) in
  let* (_, s) := read_given_char "]" s in
  let* (p, s) := read_port s in
  Some (V6 ip scope_id p, s).

Definition read_socket_addr : parser SocketAddr := fun s =>
  match read_socket_addr_v4 s with
  | Some r => Some r
  | None => read_socket_addr_v6 s
  end.

(** [parse::<SocketAddr>()]: the whole string is an address. *)
Definition parse_socket_addr (s : string) : option SocketAddr :=
  match read_socket_addr s with
  | Some (a, EmptyString) => Some a
  | _ => None
  end.

(** ** Ports read back *)

Lemma to_digit_pretty x : (x < 10)%N -> to_digit 10 (pretty_N_char x) = Some (Z.of_N x).
Proof.
  intros Hx. assert (x = 0 \/ x = 1 \/ x = 2 \/ x = 3 \/ x = 4 \/ x = 5 \/ x = 6 \/ x = 7 \/ x = 8 \/ x = 9)%N
    as Hc by lia.
  by repeat destruct Hc as [->|Hc]; [vm_compute..|subst].
Qed.

(** Reading what [pretty_N_go] has put in front of [s] leaves the value read so far. *)
Lemma read_digits_pretty_go x bound s :
  Z.of_N x < bound ->
  exists n, forall count,
    read_digits_checked 10 bound count 0 (pretty_N_go x s) =
    read_digits_checked 10 bound (n + count) (Z.of_N x) s /\ ((0 < x)%N -> (0 < n)%nat).
Proof.
  revert s. induction (N.lt_wf_0 x) as [x _ IH]; intros s Hx.
  destruct (decide (x = 0)%N) as [->|Hne].
  { exists 0%nat. rewrite pretty_N_go_0. intros count. split; [done|lia]. }
  assert (Hdiv : (x / 10 < x)%N) by (apply N.div_lt; lia).
  pose proof (N.div_mod x 10 ltac:(lia)) as Hdm. pose proof (N.mod_lt x 10 ltac:(lia)) as Hm.
  destruct (IH _ Hdiv (String (pretty_N_char (x mod 10)) s)) as [n Hn]; [lia|].
  exists (S n). intros count. destruct (Hn count) as [Hr _]. rewrite pretty_N_go_step by lia. rewrite Hr.
  cbn [read_digits_checked]. rewrite to_digit_pretty by done.
  replace (Z.of_N (x / 10) * 10 + Z.of_N (x mod 10)) with (Z.of_N x) by lia.
  rewrite decide_True by done. split; [done|lia].
Qed.

Lemma read_number_pretty x bound :
  Z.of_N x < bound -> read_number 10 bound None true (pretty x) = Some (Z.of_N x, "").
Proof.
  intros Hx. unfold read_number, pretty, pretty_N. case_decide as Hz.
  - subst. cbn [read_digits_checked]. change (to_digit 10 "0") with (Some 0).
    cbv beta iota. change (0 * 10 + 0) with 0. rewrite decide_True by done. cbn [mbind option_bind].
    rewrite decide_False by done. by rewrite decide_True.
  - destruct (read_digits_pretty_go x bound "" Hx) as [n Hn]. destruct (Hn 0%nat) as [Hr Hpos].
    rewrite Hr. cbn [read_digits_checked mbind option_bind negb andb].
    rewrite decide_False by lia. by rewrite decide_True.
Qed.

Lemma pretty_Z_nonneg z : 0 <= z -> pretty z = pretty (Z.to_N z).
Proof. by destruct z. Qed.

Lemma read_port_pretty z : 0 <= z < 2 ^ 16 -> read_port (":" +:+ pretty z) = Some (z, "").
Proof.
  intros Hz. unfold read_port. change (read_given_char ":" (":" +:+ pretty z)) with (Some (tt, pretty z)).
  cbn [mbind option_bind]. rewrite pretty_Z_nonneg by lia. rewrite read_number_pretty by lia.
  by rewrite Z2N.id by lia.
Qed.

(** [format!("[::1]:{}", port)] reads back as that port of the loopback address. *)
Lemma parse_loopback z :
  0 <= z < 2 ^ 16 -> parse_socket_addr ("[::1]:" +:+ pretty z) = Some (V6 [0; 0; 0; 0; 0; 0; 0; 1] 0 z).
Proof.
  intros Hz. unfold parse_socket_addr, read_socket_addr, read_socket_addr_v6.
  change (read_socket_addr_v4 ("[::1]:" +:+ pretty z)) with (@None (SocketAddr * string)).
  change (read_given_char "[" ("[::1]:" +:+ pretty z)) with (Some (tt, "::1]:" +:+ pretty z)).
  cbn [mbind option_bind].
  change (read_ipv6_addr ("::1]:" +:+ pretty z)) with (Some ([0; 0; 0; 0; 0; 0; 0; 1], "]:" +:+ pretty z)).
  cbn [mbind option_bind].
  change (read_scope_id ("]:" +:+ pretty z)) with (@None (Z * string)). cbn [default].
  change (read_given_char "]" ("]:" +:+ pretty z)) with (Some (tt, ":" +:+ pretty z)).
  cbn [mbind option_bind]. by rewrite read_port_pretty.
Qed.

Example parse_v4 : parse_socket_addr "127.0.0.1:50051" = Some (V4 [127; 0; 0; 1] 50051).
Proof. vm_compute. done. Qed.

Example parse_v6_scope : parse_socket_addr "[fe80::1%3]:80" = Some (V6 [65152; 0; 0; 0; 0; 0; 0; 1] 3 80).
Proof. vm_compute. done. Qed.

Example parse_mapped : parse_socket_addr "[::ffff:1.2.3.4]:5" = Some (V6 [0; 0; 0; 0; 0; 65535; 258; 772] 0 5).
Proof. vm_compute. done. Qed.

Example parse_octal : parse_socket_addr "127.0.0.01:80" = None.
Proof. vm_compute. done. Qed.

Example parse_port_overflow : parse_socket_addr "127.0.0.1:65536" = None.
Proof. vm_compute. done. Qed.

(** The parser takes addresses only, not host names. *)
Example parse_host_name : parse_socket_addr "localhost:51151" = None.
Proof. vm_compute. done. Qed.
