(* ===== verification/Config.v ===== *)
(** * Configuration

    [src/config/config.rs]: the configuration of a node, its validation and where it is read
    from, and what [main.rs] and [startup/workers.rs] derive from it: the addresses the
    listeners bind to and the nodes a quorum worker is created for.  Finding files, the
    [config] crate and its deserialization are arguments. *)
From S2P Require Import Prelude NetAddr Capnp CapnpInstance RaftTypes QuorumMessage Startup QuorumWorker WriteProxy.
From Stdlib Require Import Ascii String.
From stdpp Require Import strings pretty.

#[local] Open Scope string_scope.
#[local] Open Scope Z_scope.
#[local] Open Scope kraft_scope.

(** ** Data *)

Record ConfigValidationError := mkConfigValidationError {
  field : string;
  message : string
}.

(** [Display] of an error. *)
Definition display_error (e : ConfigValidationError) : string :=
  "Config validation error in '" +:+ field e +:+ "': " +:+ message e.

Record ClusterNode := mkClusterNode {
  endpoint : string;
  cn_node_id : Z
}.

Record AppConfig := mkAppConfig {
  persistence_dir : string;
  metrics_port : Z;
  cfg_node_id : Z;
  cluster_nodes : list ClusterNode;
  max_message_size_bytes : Z;
  min_batch_interval_ms : Z;
  cfg_max_batch_size : Z;
  enable_otel_tracing : bool;
  cluster_port : Z;
  tcp_datastore_port : Z
}.

Implicit Types c : AppConfig.

(** The ranges of the fields' types. *)
Definition config_typed c : Prop :=
  u32 (metrics_port c) /\ u32 (cfg_node_id c) /\ u32 (cluster_port c) /\ u32 (tcp_datastore_port c) /\
  u64 (max_message_size_bytes c) /\ u64 (min_batch_interval_ms c) /\ u64 (cfg_max_batch_size c) /\
  Forall (fun n => u32 (cn_node_id n)) (cluster_nodes c).

(** ** Validation *)

Definition MIN_MESSAGE_SIZE : Z := 1024.
Definition MAX_CONFIG_MESSAGE_SIZE : Z := 64 * 1024 * 1024.
Definition MAX_BATCH_SIZE_LIMIT : Z := 10000.
Definition MAX_BATCH_INTERVAL : Z := 60000.

(** [errors.push] behind a guard. *)
Definition push_when (guard : bool) (f m : string) (errors : list ConfigValidationError)
    : list ConfigValidationError :=
  if guard then (errors ++ [mkConfigValidationError f m])%list else errors.

(** The loop over [seen_ids]. *)
Fixpoint check_duplicates (nodes : list ClusterNode) (seen_ids : gset Z)
    (errors : list ConfigValidationError) : list ConfigValidationError :=
  match nodes with
  | [] => errors
  | node :: nodes =>
    let errors := push_when (bool_decide (cn_node_id node ∈ seen_ids)) "cluster_nodes"
                    ("Duplicate node_id: " +:+ pretty (cn_node_id node)) errors in
    check_duplicates nodes ({[cn_node_id node]} ∪ seen_ids) errors
  end.

(** The loop over the endpoints. *)
Fixpoint check_endpoints (nodes : list ClusterNode) (errors : list ConfigValidationError)
    : list ConfigValidationError :=
  match nodes with
  | [] => errors
  | node :: nodes =>
    let errors :=
      if decide (endpoint node = "") then
        push_when true "cluster_nodes"
          ("Node " +:+ pretty (cn_node_id node) +:+ " has empty endpoint") errors
      else
        push_when (bool_decide (parse_socket_addr (endpoint node) = None)) "cluster_nodes"
          ("Node " +:+ pretty (cn_node_id node) +:+ " has invalid endpoint '" +:+ endpoint node
           +:+ "': expected format 'host:port'") errors in
    check_endpoints nodes errors
  end.

(** [validate_cluster_topology]; its warnings are only logged. *)
Definition validate_cluster_topology c (errors : list ConfigValidationError)
    : list ConfigValidationError :=
  check_endpoints (cluster_nodes c) (check_duplicates (cluster_nodes c) ∅ errors).

Definition validate c : list ConfigValidationError + unit :=
  let errors := [] in
  let errors := push_when (max_message_size_bytes c <? MIN_MESSAGE_SIZE) "max_message_size_bytes"
    ("Must be at least " +:+ pretty MIN_MESSAGE_SIZE +:+ " bytes, got "
     +:+ pretty (max_message_size_bytes c)) errors in
  let errors := push_when (MAX_CONFIG_MESSAGE_SIZE <? max_message_size_bytes c) "max_message_size_bytes"
    ("Must be at most " +:+ pretty MAX_CONFIG_MESSAGE_SIZE +:+ " bytes, got "
     +:+ pretty (max_message_size_bytes c)) errors in
  let errors := push_when (cfg_max_batch_size c =? 0) "max_batch_size"
    "Must be greater than 0" errors in
  let errors := push_when (MAX_BATCH_SIZE_LIMIT <? cfg_max_batch_size c) "max_batch_size"
    ("Must be at most " +:+ pretty MAX_BATCH_SIZE_LIMIT +:+ ", got "
     +:+ pretty (cfg_max_batch_size c)) errors in
  let errors := push_when (MAX_BATCH_INTERVAL <? min_batch_interval_ms c) "min_batch_interval_ms"
    ("Must be at most " +:+ pretty MAX_BATCH_INTERVAL +:+ "ms, got "
     +:+ pretty (min_batch_interval_ms c)) errors in
  let errors := push_when (65535 <? metrics_port c) "metrics_port"
    ("Invalid port number: " +:+ pretty (metrics_port c)) errors in
  let errors := push_when (65535 <? cluster_port c) "cluster_port"
    ("Invalid port number: " +:+ pretty (cluster_port c)) errors in
  let errors := push_when (65535 <? tcp_datastore_port c) "tcp_datastore_port"
    ("Invalid port number: " +:+ pretty (tcp_datastore_port c)) errors in
  let errors := validate_cluster_topology c errors in
  match errors with [] => inr tt | _ => inl errors end.

Definition display_bool (b : bool) : string := if b then "true" else "false".

Definition safe_display c : string :=
  "AppConfig { node_id: " +:+ pretty (cfg_node_id c) +:+ ", cluster_port: " +:+ pretty (cluster_port c)
  +:+ ", metrics_port: " +:+ pretty (metrics_port c)
  +:+ ", tcp_datastore_port: " +:+ pretty (tcp_datastore_port c)
  +:+ ", cluster_nodes: " +:+ pretty (vlen (cluster_nodes c))
  +:+ " nodes, max_message_size_bytes: " +:+ pretty (max_message_size_bytes c)
  +:+ ", max_batch_size: " +:+ pretty (cfg_max_batch_size c)
  +:+ ", enable_otel_tracing: " +:+ display_bool (enable_otel_tracing c) +:+ " }".

(** ** Reading *)

Inductive ConfigSource :=
| FileSource (name : string)
| EnvironmentSource (prefix : string).

(** The search locations, given the environment variable [RESOURCE_DIR]. *)
Definition search_locations (resource_dir : option string) : list string :=
  [default "resources" resource_dir; "src/resources"; "."].

(** The loop over the locations for one file name. *)
Definition existing_files (exists_file : string -> bool) (file : string) (locations : list string)
    : list ConfigSource :=
  FileSource <$> filter (fun name => exists_file name = true)
                   ((fun location => location +:+ file) <$> locations).

(** The sources in the order they are added; a later one overrides an earlier one. *)
Definition config_sources (exists_file : string -> bool) (resource_dir : option string)
    : list ConfigSource :=
  (existing_files exists_file "/application.toml" (search_locations resource_dir) ++
   existing_files exists_file "/local.toml" (search_locations resource_dir) ++
   [EnvironmentSource "APP"])%list.

(** [error_messages.join("\n  - ")] behind its heading. *)
Fixpoint join (sep : string) (l : list string) : string :=
  match l with
  | [] => ""
  | [s] => s
  | s :: l => s +:+ sep +:+ join sep l
  end.

Definition newline_item : string := String "010" "  - ".

Definition validation_failed (errors : list ConfigValidationError) : string :=
  "Configuration validation failed:" +:+ newline_item +:+ join newline_item (display_error <$> errors).

(** [read_config]; [load] builds and deserializes the sources. *)
Definition read_config (exists_file : string -> bool) (resource_dir : option string)
    (load : list ConfigSource -> string + AppConfig) : string + AppConfig :=
  match load (config_sources exists_file resource_dir) with
  | inl e => inl e
  | inr c =>
    match validate c with
    | inl errors => inl (validation_failed errors)
    | inr _ => inr c
    end
  end.

(** ** What the node starts with *)

Record Listeners := mkListeners {
  cluster_listener : SocketAddr;
  metrics_listener : Z;
  datastore_listener : option SocketAddr
}.

(** [format!("[::1]:{}", port).parse()]. *)
Definition listen_addr (port : Z) : option SocketAddr := parse_socket_addr ("[::1]:" +:+ pretty port).

(** The listeners of [main]: of the stream manager, of the metrics server
    ([metrics_port as u16]) and, unless its port is zero, of the client protocol; [None] is the
    panic of [expect]. *)
Definition start_listeners c : option Listeners :=
  let* cluster := listen_addr (cluster_port c) in
  let* datastore :=
    if decide (0 < tcp_datastore_port c) then Some <$> listen_addr (tcp_datastore_port c)
    else Some None in
  Some (mkListeners cluster (metrics_port c `mod` 2 ^ 16) datastore).

(** [create_quorum_workers] for the nodes other than the own one: a worker per node, each
    with an empty task queue. *)
Definition create_quorum_workers {CP : Capnp} c : list QuorumWorker :=
  (fun node_id => QuorumWorker_new (cfg_node_id c) 0 node_id (max_message_size_bytes c)) <$>
    cluster_nodes_without_self (cn_node_id <$> cluster_nodes c) (cfg_node_id c).

(** ** What validation guarantees *)

Lemma push_when_nil guard f m errors : push_when guard f m errors = [] <-> guard = false /\ errors = [].
Proof.
  unfold push_when. destruct guard; [|naive_solver]. split; [|naive_solver].
  intros H%(f_equal List.length). rewrite length_app in H. simpl in H. lia.
Qed.

Lemma check_duplicates_nil nodes seen errors :
  check_duplicates nodes seen errors = [] <->
  errors = [] /\ NoDup (cn_node_id <$> nodes) /\ Forall (fun n => cn_node_id n ∉ seen) nodes.
Proof.
  revert seen errors. induction nodes as [|n nodes IH]; intros seen errors; simpl.
  { split; [intros ->; split_and!; constructor|naive_solver]. }
  rewrite IH, push_when_nil, bool_decide_eq_false, NoDup_cons, Forall_cons, !Forall_forall, list_elem_of_fmap.
  split.
  - intros ((Hn & ->) & Hd & Hall). split_and!; try done.
    + intros (x & Heq & Hx). specialize (Hall x Hx). set_solver.
    + intros x Hx. specialize (Hall x Hx). set_solver.
  - intros (-> & (Hn & Hd) & Hs & Hall). split_and!; try done. intros x Hx.
    specialize (Hall x Hx). assert (cn_node_id n <> cn_node_id x) by naive_solver. set_solver.
Qed.

Lemma check_endpoints_nil nodes errors :
  check_endpoints nodes errors = [] <->
  errors = [] /\ Forall (fun n => is_Some (parse_socket_addr (endpoint n))) nodes.
Proof.
  revert errors. induction nodes as [|n nodes IH]; intros errors; cbn [check_endpoints].
  { split; [by intros ->|naive_solver]. }
  rewrite IH, Forall_cons. case_decide as He.
  - rewrite push_when_nil, He. change (parse_socket_addr "") with (@None SocketAddr).
    split; [by intros [[? _] _]|]. by intros (_ & [[? ?] _]).
  - rewrite push_when_nil, bool_decide_eq_false.
    destruct (parse_socket_addr (endpoint n)); naive_solver.
Qed.

(** Everything a valid configuration satisfies. *)
Definition config_valid c : Prop :=
  1024 <= max_message_size_bytes c <= 64 * 1024 * 1024 /\
  cfg_max_batch_size c <> 0 /\ cfg_max_batch_size c <= 10000 /\
  min_batch_interval_ms c <= 60000 /\
  metrics_port c <= 65535 /\ cluster_port c <= 65535 /\ tcp_datastore_port c <= 65535 /\
  NoDup (cn_node_id <$> cluster_nodes c) /\
  Forall (fun n => is_Some (parse_socket_addr (endpoint n))) (cluster_nodes c).

Lemma errors_nil (errors : list ConfigValidationError) :
  match errors with [] => inr tt | _ => inl errors end = inr tt <-> errors = [].
Proof. by destruct errors. Qed.

Lemma Forall_not_in_empty nodes : Forall (fun n => cn_node_id n ∉ (∅ : gset Z)) nodes.
Proof. apply Forall_forall. set_solver. Qed.

Lemma validate_ok c : validate c = inr tt <-> config_valid c.
Proof.
  unfold validate, validate_cluster_topology. cbv zeta.
  rewrite errors_nil, check_endpoints_nil, check_duplicates_nil, !push_when_nil, !Z.ltb_ge, Z.eqb_neq.
  unfold config_valid, MIN_MESSAGE_SIZE, MAX_CONFIG_MESSAGE_SIZE, MAX_BATCH_SIZE_LIMIT, MAX_BATCH_INTERVAL.
  pose proof (Forall_not_in_empty (cluster_nodes c)). split; intuition lia.
Qed.

Lemma validate_errors_nonempty c errors : validate c = inl errors -> errors <> [].
Proof. unfold validate. cbv zeta. case_match; by intros; simplify_eq. Qed.

(** C33: The validation of a configuration decides exactly the documented bounds: a
    configuration is accepted if and only if the message size is between 1 KB and 64 MB, the
    batch size between 1 and 10000, the batch interval at most a minute, every port at most
    65535, no node id occurs twice and every endpoint is a socket address; a refused one is
    reported with at least one error. *)
Theorem validate_decides_bounds c :
  config_typed c ->
  (validate c = inr tt <->
     1024 <= max_message_size_bytes c <= 64 * 1024 * 1024 /\
     1 <= cfg_max_batch_size c <= 10000 /\ min_batch_interval_ms c <= 60000 /\
     Forall (fun p => 0 <= p < 2 ^ 16) [metrics_port c; cluster_port c; tcp_datastore_port c] /\
     NoDup (cn_node_id <$> cluster_nodes c) /\
     Forall (fun n => is_Some (parse_socket_addr (endpoint n))) (cluster_nodes c)) /\
  (validate c <> inr tt -> exists e errors, validate c = inl (e :: errors)).
Proof.
  intros (Hm & _ & Hc & Ht & _ & _ & Hb & _). split.
  - rewrite validate_ok. unfold config_valid. rewrite !Forall_cons. unfold u32, u64 in *.
    split; intuition (try lia). by apply Forall_nil.
  - intros Hne. destruct (validate c) as [[|e errors]|[]] eqn:Hv; [|by eauto|done].
    by apply validate_errors_nonempty in Hv.
Qed.

Lemma listen_addr_ok p : 0 <= p < 2 ^ 16 -> listen_addr p = Some (V6 [0; 0; 0; 0; 0; 0; 0; 1] 0 p).
Proof. apply parse_loopback. Qed.

(** C34: A configuration that [read_config] returns starts the node, wherever it was read
    from: no address of [main] fails to parse, the cluster and client listeners bind to the
    configured ports of the loopback address and the metrics server to its port without
    wrap-around, the client listener is left out exactly when its port is zero, and every
    node a worker is created for has an endpoint that can be connected to. *)
Theorem read_config_starts exists_file resource_dir load c `{Capnp} :
  read_config exists_file resource_dir load = inr c -> config_typed c ->
  start_listeners c = Some (mkListeners (V6 [0; 0; 0; 0; 0; 0; 0; 1] 0 (cluster_port c)) (metrics_port c)
    (if decide (tcp_datastore_port c = 0) then None
     else Some (V6 [0; 0; 0; 0; 0; 0; 0; 1] 0 (tcp_datastore_port c)))) /\
  Forall (fun w => exists n, n ∈ cluster_nodes c /\ cn_node_id n = qw_member_id w /\
                     cn_node_id n <> cfg_node_id c /\ is_Some (parse_socket_addr (endpoint n)))
    (create_quorum_workers c).
Proof.
  unfold read_config. destruct (load _) as [|c0]; [done|]. destruct (validate c0) as [|[]] eqn:Hv; [done|].
  intros [= ->] (Hm & _ & Hc & Ht & _). apply validate_ok in Hv as (_ & _ & _ & _ & ? & ? & ? & _ & Hall).
  unfold u32 in *. split.
  - unfold start_listeners. rewrite (listen_addr_ok (cluster_port c)) by lia. cbn [mbind option_bind].
    rewrite Z.mod_small by lia. destruct (decide (tcp_datastore_port c = 0)) as [Hz|].
    + by rewrite decide_False by lia.
    + rewrite decide_True by lia. by rewrite listen_addr_ok by lia.
  - unfold create_quorum_workers, cluster_nodes_without_self. apply Forall_fmap, Forall_forall.
    intros i [Hi (n & -> & Hn)%list_elem_of_fmap]%list_elem_of_filter. rewrite Forall_forall in Hall.
    exists n. split_and!; try done. by apply Hall.
Qed.

(** ** What it does not guarantee *)

(** Validation checks that node ids are distinct but not that they are the numbers from
    one to the size of the cluster, which the index of the worker of the leader relies on:
    with a leader whose id is too large the write proxy of an accepted configuration panics
    on the first batch. *)
Theorem large_node_id_panics `{Capnp} c leader batch_id (p : WriteProxy) :
  config_typed c -> validate c = inr tt ->
  leader ∈ (cn_node_id <$> cluster_nodes c) -> cfg_node_id c < leader ->
  Z.of_nat (length (create_quorum_workers c)) + 2 <= leader ->
  wp_self_id p = cfg_node_id c -> length (wp_quorum_worker_tasks p) = length (create_quorum_workers c) ->
  (next_write_batch (max_batch_size p) (write_queue p)).1.1 <> [] ->
  dispatch_next_batch leader batch_id p = None.
Proof.
  intros (_ & _ & _ & _ & _ & _ & _ & Hty) _ (n & -> & Hn)%list_elem_of_fmap Hlt Hlen Hself Hq Hne.
  rewrite Forall_forall in Hty. specialize (Hty n Hn). unfold u32 in Hty.
  unfold dispatch_next_batch. destruct (next_write_batch _ _) as [[batch full] queue]. simpl in Hne.
  rewrite decide_False by done.
  destruct (prepare_batch_and_callbacks batch_id batch) as [[combined cbs]|]; [|done].
  cbn [mbind option_bind wp_self_id]. rewrite decide_False by lia. unfold process_remote_batch.
  cbn [wp_self_id current_leader_id wp_quorum_worker_tasks]. unfold leader_quorum_worker_index.
  rewrite decide_False by lia. rewrite Z.mod_small by lia.
  rewrite (proj2 (lookup_ge_None _ _)); [done|]. lia.
Qed.

(** The example of [src/resources/application.toml]. *)
Definition example_config : AppConfig :=
  mkAppConfig "out/" 51051 1
    [mkClusterNode "[::1]:51151" 1; mkClusterNode "[::1]:51152" 2; mkClusterNode "[::1]:51153" 3]
    4096 2 512 false 51151 49011.

Lemma validate_decides_bounds_witness :
  validate example_config = inr tt.
Proof.
  apply (validate_decides_bounds example_config).
  - unfold config_typed, u32, u64. simpl. split_and!; try lia. repeat constructor; simpl; lia.
  - simpl. split_and!; try lia.
    + repeat constructor; lia.
    + apply (bool_decide_unpack _). vm_compute. exact I.
    + repeat constructor; vm_compute; eauto.
Defined.

Lemma read_config_starts_witness :
  start_listeners example_config =
  Some (mkListeners (V6 [0; 0; 0; 0; 0; 0; 0; 1] 0 51151) 51051 (Some (V6 [0; 0; 0; 0; 0; 0; 0; 1] 0 49011))).
Proof.
  destruct (read_config_starts (fun _ => true) None (fun _ => inr example_config) example_config)
    as [H _].
  - vm_compute. done.
  - unfold config_typed, u32, u64. simpl. split_and!; try lia. repeat constructor; simpl; lia.
  - exact H.
Defined.

(** Three nodes with the ids 1, 2 and 7: accepted, and the first write after node 7 became the
    leader is a panic. *)
Definition gap_config : AppConfig :=
  mkAppConfig "out/" 51051 1
    [mkClusterNode "[::1]:51151" 1; mkClusterNode "[::1]:51152" 2; mkClusterNode "[::1]:51153" 7]
    4096 2 512 false 51151 49011.

Lemma large_node_id_panics_witness :
  validate gap_config = inr tt /\
  dispatch_next_batch 7 [] (WriteProxy_new [mkWriteBatch [] (mkOwnedWriteBatch []) 0%nat] 512 [] 1 2 [[]; []]) = None.
Proof.
  assert (Hv : validate gap_config = inr tt) by (vm_compute; done).
  assert (Hin : 7 ∈ cn_node_id <$> cluster_nodes gap_config) by (apply (bool_decide_unpack _); vm_compute; exact I).
  assert (Hne : (next_write_batch 512 (mkWriteQueue [mkWriteBatch [] (mkOwnedWriteBatch []) 0%nat] None)).1.1 <> [])
    by (vm_compute; done).
  split; [exact Hv|].
  apply (large_node_id_panics gap_config 7); try done.
  unfold config_typed, u32, u64. simpl. split_and!; try lia. repeat constructor; simpl; lia.
Defined.
