(* ===== verification/Main.v ===== *)
(** * The node as a whole

    [main.rs] with [startup/queues.rs] and [startup/workers.rs]: reading the configuration,
    recovering the files and creating every worker with the queues it shares with the
    others, and which worker the indices of the state machine and of the write proxy lead to. *)
From S2P Require Import Prelude NetAddr Capnp CapnpInstance RaftTypes Bus Samples Persistence PersistenceSpec RaftSm.
From S2P Require Import Startup StartupSpec Follower Leader Executor Query QuorumMessage QuorumWorker WriteProxy Config.
From Stdlib Require Import Ascii String.
From stdpp Require Import strings pretty.

#[local] Open Scope Z_scope.

(** ** [startup/queues.rs] *)

(** The queues of [AppQueues]; the two ends of the persistence channel are the sender of the
    shared state and the tasks of the worker. *)
Record AppQueues := mkAppQueues {
  task_queue : list LocalRaftMessage;
  write_work_queue : list WriteBatch;
  query_queue : list QueryRequest;
  persistence_work_sender : Sender PersistenceTaskType;
  persistence_response_queue : list PersistenceResponseType;
  quorum_work_queue : list LocalQuorumWorkerTaskType;
  quorum_response_queue : list LocalQuorumTaskResponseType
}.

(** [AppQueues::new]. *)
Definition AppQueues_new : AppQueues := mkAppQueues [] [] [] (mkSender true []) [] [] [].

(** ** [main.rs] *)

Section main.
Context {CP : Capnp} {CSV : Csv} {B : Type} `{Bus B}.

(** Everything that runs after [main] has spawned its workers. *)
Record RunningNode := mkRunningNode {
  queues : AppQueues;
  state_machine : StateMachineExecutorImpl B;
  persistence_worker : PersistenceWorker;
  quorum_workers : list QuorumWorker;
  write_proxy : WriteProxy;
  query_worker : QueryWorker;
  listeners : Listeners
}.

(** [main] with the configuration [c] up to the spawns; [None] is an error or a panic of the
    startup. *)
Definition start_system (env : Env) (c : AppConfig) (log_file vote_file : list byte) (bus : B) : option RunningNode :=
  let queues := AppQueues_new in
  let node_ids := cn_node_id <$> cluster_nodes c in
  let* (shared_state, persistence_worker) :=
    start_node log_file vote_file node_ids (cfg_node_id c) (Config.max_message_size_bytes c) bus in
  let quorum_send_channels := map (fun _ => []) (cluster_nodes_without_self node_ids (cfg_node_id c)) in
  let write_proxy := WriteProxy_new (write_work_queue queues) (cfg_max_batch_size c) (task_queue queues)
                       (cfg_node_id c) (min_batch_interval_ms c) quorum_send_channels in
  let* listeners := start_listeners c in
  Some (mkRunningNode queues (StateMachineExecutorImpl_new env shared_state) persistence_worker
          (create_quorum_workers c) write_proxy (QueryWorker_new [] (query_queue queues)) listeners).

(** [main]; [inl] is the error it returns. *)
Definition main (env : Env) (exists_file : string -> bool) (resource_dir : option string)
    (load : list ConfigSource -> string + AppConfig) (log_file vote_file : list byte) (bus : B)
    : string + option RunningNode :=
  match read_config exists_file resource_dir load with
  | inl e => inl e
  | inr c => inr (start_system env c log_file vote_file bus)
  end.

End main.

(** ** What is started *)

Section started.
Context {CP : Capnp} {CL : CapnpLaws} {CSV : Csv} {B : Type} `{Bus B}.

Lemma start_node_state log_file votes ids id max (bus : B) :
  csv_rows votes <> None ->
  exists s w, start_node log_file votes ids id max bus = Some (s, w) /\
    identity s = id /\ quorum_size s = calculate_quorum_size (vlen ids) /\
    quorum_worker_tasks s = map (fun _ => []) (cluster_nodes_without_self ids id) /\
    server_state s = mkRaftServerState 0 0 /\ persistence_work s = mkSender true [] /\
    outstanding_messages s = ∅.
Proof.
  intros Hv. unfold start_node, read_votes, read_log. destruct (csv_rows votes) as [rows|]; [|done].
  cbn [mbind option_bind]. unfold recover_persisted_data.
  destruct (deserialize_returns log_file) as [[[[[l m] i] t] offs] ->]. cbn [mbind option_bind process_votes].
  do 2 eexists. split; [reflexivity|]. done.
Qed.

(** The nodes other than [id] of the cluster 1, ..., [n]. *)
Lemma others_seq n id :
  1 <= id <= n -> cluster_nodes_without_self (seqZ 1 n) id = seqZ 1 (id - 1) ++ seqZ (id + 1) (n - id).
Proof.
  intros Hid. unfold cluster_nodes_without_self. replace n with ((id - 1) + (1 + (n - id))) at 1 by lia.
  rewrite !seqZ_app by lia. rewrite !filter_app, (seqZ_cons (1 + (id - 1))) by lia.
  rewrite filter_all by (intros x Hx%elem_of_seqZ; lia).
  rewrite filter_cons_False by lia. rewrite (seqZ_nil (Z.succ _)) by lia.
  rewrite (filter_all _ (seqZ (1 + (id - 1) + 1) _)) by (intros x Hx%elem_of_seqZ; lia). simpl.
  do 2 f_equal; lia.
Qed.

Lemma others_lookup n id node :
  1 <= id <= n -> 1 <= node <= n -> node <> id ->
  cluster_nodes_without_self (seqZ 1 n) id !! get_quorum_worker_index node id = Some node.
Proof.
  intros Hid Hnode Hne. rewrite others_seq by lia. unfold get_quorum_worker_index, saturating_sub.
  rewrite decide_False by lia. case_decide.
  - rewrite lookup_app_r by (rewrite length_seqZ; lia). rewrite length_seqZ, lookup_seqZ. lia.
  - rewrite lookup_app_l by (rewrite length_seqZ; lia). rewrite lookup_seqZ. lia.
Qed.

Lemma ids_below c n : config_typed c -> cn_node_id <$> cluster_nodes c = seqZ 1 n -> 1 <= n -> n < 2 ^ 32.
Proof.
  intros (_ & _ & _ & _ & _ & _ & _ & Hall) Hids Hn. assert (Hin : n ∈ cn_node_id <$> cluster_nodes c).
  { rewrite Hids. apply elem_of_seqZ. lia. }
  apply list_elem_of_fmap in Hin as (x & -> & Hx). rewrite Forall_forall in Hall. by apply Hall.
Qed.

(** C22: A node with an accepted configuration whose nodes are numbered 1, 2, ... in order, and
    votes that can be read, starts whatever its log file holds: it is a follower of term 0
    with a worker, a task queue of the state machine and one of the write proxy per other
    node, and for every other node the index the leader computes (for a truncation or a
    backfill) and the index the write proxy computes (for a forwarded batch) are that of the
    worker that talks to this node. *)
Theorem main_wires_workers env exists_file resource_dir load c log_file vote_file (bus : B) n :
  read_config exists_file resource_dir load = inr c -> config_typed c -> csv_rows vote_file <> None ->
  cn_node_id <$> cluster_nodes c = seqZ 1 n -> 1 <= cfg_node_id c <= n ->
  exists app, main env exists_file resource_dir load log_file vote_file bus = inr (Some app) /\
    let s := shared_state (state_machine app) in
    state_delegate (state_machine app) = D_Follower (RaftFollowerStateDelegate_new env) /\
    current_term (server_state s) = 0 /\ quorum_size s = (n + 1) / 2 /\
    length (quorum_workers app) = Z.to_nat (n - 1) /\
    forall node, 1 <= node <= n -> node <> cfg_node_id c ->
      let i := get_quorum_worker_index node (identity s) in
      leader_quorum_worker_index node (wp_self_id (write_proxy app)) = i /\
      quorum_worker_tasks s !! i = Some [] /\ wp_quorum_worker_tasks (write_proxy app) !! i = Some [] /\
      exists w, quorum_workers app !! i = Some w /\ qw_member_id w = node /\ qw_self_id w = cfg_node_id c.
Proof.
  intros Hread Hty Hv Hids Hself. pose proof (ids_below c n Hty Hids ltac:(lia)) as Hn32.
  assert (Hl : exists l, start_listeners c = Some l).
  { unfold read_config in Hread. destruct (load _) as [|c0]; [done|]. destruct (validate c0) as [|[]] eqn:Hval; [done|].
    injection Hread as ->. apply validate_ok in Hval as (_ & _ & _ & _ & ? & ? & ? & _).
    destruct Hty as (? & _ & ? & ? & _). unfold u32 in *. unfold start_listeners. rewrite (listen_addr_ok (cluster_port c)) by lia.
    cbn [mbind option_bind]. case_decide; [rewrite listen_addr_ok by lia|]; eexists; reflexivity. }
  destruct Hl as [l Hl]. unfold main. rewrite Hread. unfold start_system. rewrite Hids.
  destruct (start_node_state log_file vote_file (seqZ 1 n) (cfg_node_id c) (Config.max_message_size_bytes c) bus Hv)
    as (s & w & -> & Hi & Hq & Ht & Hss & _). cbn [mbind option_bind]. rewrite Hl. cbn [mbind option_bind].
  eexists. split; [reflexivity|]. cbn [state_machine quorum_workers write_proxy shared_state StateMachineExecutorImpl_new].
  split_and!; [done|by rewrite Hss| | |].
  - rewrite Hq. unfold calculate_quorum_size, vlen. rewrite length_seqZ. by rewrite Z2Nat.id by lia.
  - unfold create_quorum_workers. rewrite Hids, length_fmap, others_seq, length_app, !length_seqZ by lia. lia.
  - intros node Hnode Hne. cbn [shared_state StateMachineExecutorImpl_new]. rewrite Hi.
    pose proof (others_lookup n (cfg_node_id c) node Hself Hnode Hne) as Hlook. split_and!.
    + unfold leader_quorum_worker_index, get_quorum_worker_index, saturating_sub. simpl.
      assert (n < 2 ^ 32) by exact Hn32.
      repeat case_decide; try lia; rewrite Z.mod_small by lia; lia.
    + rewrite Ht. change (map ?f ?q) with (f <$> q). by rewrite list_lookup_fmap, Hlook.
    + simpl. change (map ?f ?q) with (f <$> q). by rewrite list_lookup_fmap, Hlook.
    + unfold create_quorum_workers. rewrite Hids, list_lookup_fmap, Hlook. simpl. by eexists.
Qed.

End started.

(** ** Concrete nodes *)

Lemma main_wires_workers_witness :
  exists app, main sample_env (fun _ => true) None (fun _ => inr example_config) [] [] empty_bus = inr (Some app) /\
    current_term (server_state (shared_state (state_machine app))) = 0 /\ length (quorum_workers app) = 2%nat.
Proof.
  destruct (main_wires_workers sample_env (fun _ => true) None (fun _ => inr example_config) example_config [] [] empty_bus 3)
    as (app & Hm & _ & Ht & _ & Hlen & _).
  - vm_compute. reflexivity.
  - unfold config_typed, u32, u64. simpl. split_and!; try lia. repeat constructor; simpl; lia.
  - vm_compute. discriminate.
  - vm_compute. reflexivity.
  - simpl. lia.
  - exists app. split; [exact Hm|]. split; [exact Ht|exact Hlen].
Defined.

(** The same nodes, the second listed first; this is node 3. *)
Definition unordered_config : AppConfig :=
  mkAppConfig "out/" 51051 3
    [mkClusterNode "[::1]:51152" 2; mkClusterNode "[::1]:51151" 1; mkClusterNode "[::1]:51153" 3]
    4096 2 512 false 51153 49013.

(** Validation does not check that the nodes are listed in the order of their numbers, which
    both indices rely on: with another order the tasks for node 1 (its truncations and
    backfills, and the batches forwarded to it when it is the leader) go to the worker of
    node 2. *)
Theorem unordered_nodes_misroute :
  validate unordered_config = inr tt /\
  exists app w, start_system sample_env unordered_config [] [] empty_bus = Some app /\
    get_quorum_worker_index 1 (identity (shared_state (state_machine app))) = 0%nat /\
    leader_quorum_worker_index 1 (wp_self_id (write_proxy app)) = 0%nat /\
    quorum_workers app !! 0%nat = Some w /\ qw_member_id w = 2.
Proof.
  split; [vm_compute; reflexivity|].
  destruct (start_system sample_env unordered_config [] [] empty_bus) as [app|] eqn:Happ; [|vm_compute in Happ; discriminate].
  exists app, (QuorumWorker_new 3 0 2 4096). split; [done|]. vm_compute in Happ. injection Happ as <-.
  split_and!; vm_compute; reflexivity.
Qed.
