(* ===== verification/NodeReads.v ===== *)
(** * Reads of a node

    State machine, bus and query worker as one system: the state machine takes its steps
    while the query worker loads the version, loads the commit index and goes through an
    iteration, and clients ask for keys.  Every read is answered from the replay of a prefix
    of the log of the node. *)
From Stdlib Require Import String.
From stdpp Require Import strings sorting.
From S2P Require Import Prelude Capnp CapnpInstance RaftTypes Bus Samples RaftSm LogModel Persistence PersistenceSpec.
From S2P Require Import Follower Leader Candidate Executor NodeBroadcast Query Startup StartupSpec Config Main.

(** ** The system *)

(** Where the query worker is in its iteration. *)
Inductive Loading :=
| L_Idle
| L_Version (version : Z)
| L_Commit (version commit : Z).

Section reads.
Context {CP : Capnp} {B : Type} `{BusLog B} `{!Bus B}.

(** [asked] are all requests of clients so far. *)
Record ReadSystem := mkReadSystem {
  rs_node : StateMachineExecutorImpl B;
  rs_query : QueryWorker;
  rs_loading : Loading;
  rs_asked : list QueryRequest
}.

Implicit Types x : StateMachineExecutorImpl B.
Implicit Types q : QueryWorker.
Implicit Types y : ReadSystem.

Abbreviation log x := (replication_log (volatile_server_state (shared_state x))).
Abbreviation delivered x := (bus_log (log_entry_bus (shared_state x))).
Abbreviation commit x := (commit_index (volatile_server_state (shared_state x))).

(** The entries broadcast between [x] and [x'] are on the ring. *)
Definition feed x x' q : QueryWorker :=
  set_parked (parked q) (bus_reader q ++ drop (length (delivered x)) (delivered x')) q.

(** A client asks for a key. *)
Definition ask (r : QueryRequest) q : QueryWorker :=
  set_queries (parked_request q) (pending_queries q ++ [r]) q.

Inductive reads_step : ReadSystem -> ReadSystem -> Prop :=
| reads_tick env w x x' q l a :
    time_step env x = Some (w, x') -> sound_tick x x' -> room (shared_state x) -> room (shared_state x') ->
    reads_step (mkReadSystem x q l a) (mkReadSystem x' (feed x x' q) l a)
| reads_message env m x x' q l a :
    accept env m x = Some x' -> sound_message m x -> room (shared_state x) -> room (shared_state x') ->
    reads_step (mkReadSystem x q l a) (mkReadSystem x' (feed x x' q) l a)
| reads_queues x x' q l a :
    step x x' -> volatile_server_state (shared_state x') = volatile_server_state (shared_state x) ->
    log_entry_bus (shared_state x') = log_entry_bus (shared_state x) ->
    reads_step (mkReadSystem x q l a) (mkReadSystem x' q l a)
| reads_ask r x q l a : reads_step (mkReadSystem x q l a) (mkReadSystem x (ask r q) l (a ++ [r]))
| reads_version x q a :
    let version := cs_version (commit_state (volatile_server_state (shared_state x))) in
    reads_step (mkReadSystem x q L_Idle a) (mkReadSystem x q (L_Version version) a)
| reads_commit x q a version :
    let commit := cs_commit_index (commit_state (volatile_server_state (shared_state x))) in
    reads_step (mkReadSystem x q (L_Version version) a) (mkReadSystem x q (L_Commit version commit) a)
| reads_iterate x q a version commit :
    reads_step (mkReadSystem x q (L_Commit version commit) a)
      (mkReadSystem x (query_iteration version commit q) L_Idle a).

(** What runs after [main]. *)
Definition reads_start (app : RunningNode) : ReadSystem :=
  mkReadSystem (state_machine app) (query_worker app) L_Idle [].

(** ** The invariant *)

(** The answered reads, each with the number of entries its answer replays: all requests are
    answered once and in order or wait, and the prefixes only grow. *)
Record reads_of (l done : list OwnedLogEntry) (asked : list QueryRequest) (reads : list (QueryRequest * nat)) q : Prop := {
  reads_query : query_inv l done q;
  reads_asked : asked = reads.*1 ++ waiting_queries q;
  reads_answers : query_answers q = (fun rk => answer_from (take rk.2 l) rk.1) <$> reads;
  reads_recent : Forall (fun rk => query_index rk.1 <= last_index_of (take rk.2 l)) reads;
  reads_sorted : StronglySorted le (reads.*2 ++ [length done])
}.

Lemma query_inv_prefix l done q : query_inv l done q -> done `prefix_of` l.
Proof. intros [-> _ _]. by eexists. Qed.

Section steps_of_reads.
Context (l done : list OwnedLogEntry) (asked : list QueryRequest) (reads : list (QueryRequest * nat)) (q : QueryWorker).
Context (Hr : reads_of l done asked reads q).

Lemma reads_below rk : rk ∈ reads -> (rk.2 <= length done)%nat.
Proof.
  intros Hrk. eapply (StronglySorted_app_1_elem_of _ _ _ _ _ (reads_sorted _ _ _ _ _ Hr)); [|apply list_elem_of_here].
  by apply list_elem_of_fmap_2.
Qed.

Lemma reads_take new rk : rk ∈ reads -> take rk.2 (l ++ new) = take rk.2 l.
Proof.
  intros Hrk%reads_below. apply take_app_le. destruct (query_inv_prefix _ _ _ (reads_query _ _ _ _ _ Hr)) as [k ->].
  rewrite length_app. lia.
Qed.

Lemma reads_of_arrive new : reads_of (l ++ new) done asked reads (set_parked (parked q) (bus_reader q ++ new) q).
Proof.
  destruct Hr as [[Hs Hm Hi] Ha Hans Hrec Hsort]. split; [split; [|done..]|done| | |done].
  - simpl. rewrite Hs at 1. by rewrite <- !(assoc_L (++)).
  - simpl. rewrite Hans. apply list_fmap_ext. intros i rk Hrk%list_elem_of_lookup_2. by rewrite reads_take.
  - rewrite Forall_forall in Hrec |- *. intros rk Hrk. rewrite reads_take by by apply list_elem_of_In. by apply Hrec.
Qed.

Lemma reads_of_ask r : reads_of l done (asked ++ [r]) reads (ask r q).
Proof.
  destruct Hr as [[Hs Hm Hi] Ha Hans Hrec Hsort]. split; [by split| |done..].
  unfold waiting_queries in *. simpl. by rewrite Ha, <- !(assoc_L (++)).
Qed.

Lemma reads_of_iterate version commit :
  broadcast_wf l -> covers_parked version commit q ->
  exists more ready, reads_of l (done ++ more) asked (reads ++ ready) (query_iteration version commit q) /\
    (version <> last_version q -> forall e rest, l = (done ++ more) ++ e :: rest -> commit < index e) /\
    (forall r rest, waiting_queries (query_iteration version commit q) = r :: rest ->
       last_index_of (done ++ more) < query_index r).
Proof.
  intros Hwf Hcov. pose proof Hr as [Hq Ha Hans Hrec Hsort].
  destruct (query_iteration_refines l done version commit q Hwf Hq Hcov)
    as (more & ready & Hq' & _ & Hall & Hw & Hready & Hans' & Hrest).
  assert (Htake : take (length (done ++ more)) l = done ++ more).
  { destruct (query_inv_prefix _ _ _ Hq') as [k Hk]. by rewrite Hk, take_app_length. }
  exists more, ((fun r => (r, length (done ++ more))) <$> ready). split; [|done]. split; [done|..].
  - rewrite fmap_app, <- list_fmap_compose, Ha, Hw, (assoc_L (++)). unfold compose. simpl. by rewrite list_fmap_id.
  - rewrite fmap_app, Hans', Hans, <- list_fmap_compose. f_equal. apply list_fmap_ext. intros i r _.
    unfold compose. simpl. by rewrite Htake.
  - apply Forall_app. split; [done|]. apply Forall_fmap. unfold compose. simpl. by rewrite Htake.
  - apply StronglySorted_app in Hsort as (Hle & Hsort & _). rewrite fmap_app, <- (assoc_L (++)), <- list_fmap_compose.
    apply StronglySorted_app_2; [|done|].
    + intros k1 k2 Hk1 Hk2. transitivity (length done); [apply (Hle k1 _ Hk1), list_elem_of_here|].
      assert (k2 = length (done ++ more)) as ->; [|rewrite length_app; lia].
      apply elem_of_app in Hk2 as [(r & -> & _)%list_elem_of_fmap|Hk0%list_elem_of_singleton]; by subst.
    + clear. induction ready as [|r ready IH]; simpl; [by repeat constructor|].
      apply StronglySorted_cons. split; [|done]. apply Forall_forall. intros k Hk%list_elem_of_In.
      apply elem_of_app in Hk as [(r' & -> & _)%list_elem_of_fmap|Hk0%list_elem_of_singleton]; by subst.
Qed.

End steps_of_reads.

(** ** Every reachable state *)

Context `{!BusLaws B} {CL : CapnpLaws}.

(** The broadcast entries have index and term of log entries. *)
Lemma broadcast_wf_prefix l1 l2 : l1 `prefix_of` l2 -> broadcast_wf l2 -> broadcast_wf l1.
Proof. intros [k ->] [Hwf Ht]. apply Forall_app in Ht as [Ht _]. split; [by eapply log_wf_prefix|done]. Qed.

Lemma delivered_prefix x : reads_inv (shared_state x) -> delivered x `prefix_of` log x.
Proof. intros ((_ & _ & ->) & _). unfold vtruncate. apply prefix_take. Qed.

Lemma delivered_committed x e :
  reads_inv (shared_state x) -> log_wf (delivered x) -> e ∈ delivered x -> index e <= commit x.
Proof.
  intros ((Hc & _ & Hd) & Hcount & _) Hwf [i Hi]%list_elem_of_lookup. rewrite <- vget_nat in Hi.
  rewrite (log_wf_index _ _ _ Hwf Hi). apply vget_lt in Hi. rewrite Hd, vlen_truncate in Hi by lia. lia.
Qed.

Record reads_ok y : Prop := {
  ok_node : reads_inv (shared_state (rs_node y));
  ok_bus : patient (log_entry_bus (shared_state (rs_node y)));
  ok_reads : broadcast_wf (delivered (rs_node y)) ->
    exists done reads, reads_of (delivered (rs_node y)) done (rs_asked y) reads (rs_query y);
  ok_loading : broadcast_wf (delivered (rs_node y)) ->
    match rs_loading y with
    | L_Commit _ c => c <= commit (rs_node y) /\ forall e, parked (rs_query y) = Some e -> index e <= c
    | _ => True
    end
}.

(** A step of the node. *)
Lemma node_goes_on x x' q l a :
  goes_on (shared_state x) (shared_state x') -> reads_ok (mkReadSystem x q l a) ->
  reads_ok (mkReadSystem x' (feed x x' q) l a).
Proof.
  intros Hg [Hn Hp Hr Hl]. destruct (Hg Hp Hn) as [Hn' ([new Hnew] & Hci & Hoff)]. apply (patient_offers _ _ Hoff) in Hp. simpl in *.
  assert (Hwf : broadcast_wf (delivered x') -> broadcast_wf (delivered x)) by (apply broadcast_wf_prefix; by exists new).
  split; simpl; [done|done|intros H'%Hwf..].
  - destruct (Hr H') as (done & reads & Ho). exists done, reads. unfold feed. rewrite Hnew, drop_app_length.
    by apply reads_of_arrive.
  - specialize (Hl H'). destruct l as [| |v c]; [done..|]. destruct Hl. split; [lia|done].
Qed.

Lemma reads_step_ok y y' : reads_ok y -> reads_step y y' -> reads_ok y'.
Proof.
  intros Hok Hs. destruct Hs as [env w x x' q l a Ht Hsound Hr1 Hr2|env m x x' q l a Ha Hsound Hr1 Hr2|x x' q l a _ Hv Hb
    |r x q l a|x q a version|x q a v c|x q a v c].
  - by eapply node_goes_on; [eapply tick_goes_on|].
  - by eapply node_goes_on; [eapply accept_goes_on|].
  - destruct Hok as [Hn Hp Hr Hl]. simpl in *. split; simpl; rewrite ?Hv, ?Hb; [|done..].
    by apply (same_goes_on (shared_state x)).
  - destruct Hok as [Hn Hp Hr Hl]. split; simpl in *; [done|done| |done]. intros Hwf.
    destruct (Hr Hwf) as (done & reads & Ho). exists done, reads. by apply reads_of_ask.
  - destruct Hok as [Hn Hp Hr Hl]. by split.
  - destruct Hok as [Hn Hp Hr Hl]. split; simpl in *; [done..|]. intros Hwf. unfold c.
    rewrite (proj2 (proj2 Hn)). split; [done|]. intros e He. apply delivered_committed; [done|apply Hwf|].
    destruct (Hr Hwf) as (done & reads & [[-> _ _] _ _ _ _]). rewrite He. simpl. set_solver.
  - destruct Hok as [Hn Hbus Hr Hl]. simpl in *. split; simpl; [done|done| |done]. intros Hwf.
    destruct (Hr Hwf) as (done & reads & Ho), (Hl Hwf) as [_ Hp].
    destruct (reads_of_iterate _ _ _ _ _ Ho v c Hwf) as (more & ready & Ho' & _); [by intros _|]. by exists (done ++ more), (reads ++ ready).
Qed.

(** ** What clients see *)

Context {CSV : Csv}.

Lemma start_node_cursor log_file votes ids id max (bus : B) s w :
  start_node log_file votes ids id max bus = Some (s, w) -> cursor s = (bus, None, 0, 0).
Proof.
  unfold start_node. destruct (read_votes votes); [|done]. cbn [mbind option_bind].
  destruct (recover_persisted_data _ _); [|done]. by intros [= <- <-].
Qed.

Lemma reads_start_ok env c log_file vote_file (bus : B) app :
  start_system env c log_file vote_file bus = Some app -> bus_log bus = [] -> patient bus ->
  room (shared_state (state_machine app)) -> reads_ok (reads_start app).
Proof.
  unfold start_system. destruct (start_node _ _ _ _ _ _) as [[s w]|] eqn:Hs; [|done]. cbn [mbind option_bind].
  destruct (start_listeners c); [|done]. cbn [mbind option_bind]. intros [= <-] Hbus Hpatient Hroom.
  apply start_node_cursor in Hs. unfold cursor in Hs. injection Hs as Hb Hl Hci Hcs. unfold room in Hroom. simpl in *.
  split; simpl; [|by rewrite Hb|intros _|done].
  - unfold reads_inv, broadcast_inv, broadcast_count. rewrite Hl, Hci, Hcs, Hb, Hbus.
    pose proof (vlen_nonneg (replication_log (volatile_server_state s))). split_and!; [lia..|done|lia|done].
  - exists [], []. rewrite Hb, Hbus. split; [by split|done..|constructor|]. by repeat constructor.
Qed.

Lemma reads_reachable app y env c log_file vote_file (bus : B) :
  start_system env c log_file vote_file bus = Some app -> bus_log bus = [] -> patient bus ->
  room (shared_state (state_machine app)) -> rtc reads_step (reads_start app) y -> reads_ok y.
Proof.
  intros Hs Hb Hp Hroom. pose proof (reads_start_ok _ _ _ _ _ _ Hs Hb Hp Hroom) as Hok.
  induction 1 as [|y1 y2 y3 H12 _ IH]; [done|]. by eapply IH, reads_step_ok.
Qed.

(** C11: A node started by [main] answers reads from its log, in every interleaving of the
    state machine, the query worker and the clients in which the readers of the bus are
    patient (no entry is refused on all 100 attempts of a broadcast), a follower is given only
    requests of its term or a newer one and heartbeats with a commit index within its log, its
    truncations spare what was broadcast, a leader's commit index is within its log, the log
    has room below 2^64, and its entries are well formed.  The code ensures none of the first
    four; [persistent_refusal_skips_entry], [stale_heartbeat_lowers_commit] and
    [parked_entry_lost] are what happens otherwise.  Under them the map of the query worker is
    the replay of a prefix of the log whose entries are committed; every request is answered
    exactly once and in order or still waits, each from the replay of a prefix that reaches
    the index it names, and later answers never from a shorter prefix. *)
Theorem reads_see_log env c log_file vote_file (bus : B) app y :
  start_system env c log_file vote_file bus = Some app -> bus_log bus = [] -> patient bus ->
  room (shared_state (state_machine app)) -> rtc reads_step (reads_start app) y ->
  broadcast_wf (log (rs_node y)) ->
  exists k reads, let l := log (rs_node y) in let q := rs_query y in
    query_structure q = replay (take k l) /\
    Forall (fun e => index e <= commit (rs_node y)) (take k l) /\
    rs_asked y = reads.*1 ++ waiting_queries q /\
    query_answers q = (fun rk => answer_from (take rk.2 l) rk.1) <$> reads /\
    Forall (fun rk => query_index rk.1 <= last_index_of (take rk.2 l)) reads /\
    StronglySorted le (reads.*2 ++ [k]).
Proof.
  intros Hs Hb Hp Hroom Hr Hwf. destruct (reads_reachable _ _ _ _ _ _ _ Hs Hb Hp Hroom Hr) as [Hn _ Hreads _].
  pose proof (delivered_prefix _ Hn) as [rest Hrest]. assert (Hd : broadcast_wf (delivered (rs_node y))).
  { eapply broadcast_wf_prefix; [by exists rest|done]. }
  destruct (Hreads Hd) as (done & reads & Ho). exists (length done), reads.
  destruct (query_inv_prefix _ _ _ (reads_query _ _ _ _ _ Ho)) as [k Hk].
  assert (Htake : take (length done) (log (rs_node y)) = done) by (by rewrite Hrest, Hk, <- (assoc_L (++)), take_app_length).
  pose proof (reads_of_arrive _ _ _ _ _ Ho rest) as [[_ Hm _] Ha Hans Hrec Hsort]. rewrite <- Hrest in *.
  cbn zeta. rewrite Htake. split_and!; try done.
  apply Forall_forall. intros e He%list_elem_of_In. apply delivered_committed; [done|apply Hd|].
  rewrite Hk. by apply elem_of_app; left.
Qed.

(** C19: The query worker catches up, in the runs [reads_see_log] is about (patient readers,
    requests of the term or newer, heartbeats within the log, truncations that spare what was
    broadcast, a leader's commit index within its log, a well-formed log with room): from
    every state reached by such a run in which it is between two
    iterations and the version has changed, its next iteration applies everything that was
    broadcast, and afterwards no request waits whose index is reached, unless it is behind
    one that waits for a later index. *)
Theorem reads_catch_up env c log_file vote_file (bus : B) app y :
  start_system env c log_file vote_file bus = Some app -> bus_log bus = [] -> patient bus ->
  room (shared_state (state_machine app)) -> rtc reads_step (reads_start app) y ->
  broadcast_wf (log (rs_node y)) -> rs_loading y = L_Idle ->
  cs_version (commit_state (volatile_server_state (shared_state (rs_node y)))) <> last_version (rs_query y) ->
  exists y', rtc reads_step y y' /\ rs_node y' = rs_node y /\ rs_asked y' = rs_asked y /\ rs_loading y' = L_Idle /\
    query_structure (rs_query y') = replay (delivered (rs_node y)) /\
    forall r rest, waiting_queries (rs_query y') = r :: rest -> last_index_of (delivered (rs_node y)) < query_index r.
Proof.
  intros Hs Hb Hpat Hroom Hr Hwf Hidle Hver. pose proof (reads_reachable _ _ _ _ _ _ _ Hs Hb Hpat Hroom Hr) as Hok.
  destruct y as [x q l a]. simpl in *. subst l.
  pose proof (reads_step_ok _ _ Hok (reads_version x q a)) as Hok1.
  pose proof (reads_step_ok _ _ Hok1 (reads_commit x q a _)) as [Hn _ Hreads Hl]. simpl in *.
  assert (Hd : broadcast_wf (delivered x)) by (eapply broadcast_wf_prefix; [by apply delivered_prefix|done]).
  destruct (Hreads Hd) as (done & reads & Ho), (Hl Hd) as [_ Hp].
  edestruct (reads_of_iterate _ _ _ _ _ Ho) as (more & ready & Ho' & Hall & Hwait); [exact Hd|intros _; exact Hp|].
  assert (Hdone : delivered x = done ++ more).
  { destruct (query_inv_prefix _ _ _ (reads_query _ _ _ _ _ Ho')) as [[|e rest] Hrest]; [by rewrite app_nil_r in Hrest|].
    specialize (Hall Hver e rest Hrest). rewrite (proj2 (proj2 Hn)) in Hall.
    assert (index e <= commit x); [|lia]. apply delivered_committed; [done|apply Hd|]. rewrite Hrest. set_solver. }
  eexists. split; [eapply rtc_l; [apply reads_version|]; eapply rtc_l; [apply reads_commit|]; apply rtc_once, reads_iterate|].
  rewrite Hdone. split_and!; [done..|apply (inv_map _ _ _ (reads_query _ _ _ _ _ Ho'))|done].
Qed.

End reads.

(** ** A concrete run *)

(** Two entries, the first with the command [k := v], are in the log file of node 1. *)
Definition read_messages : list InternalLogEntry :=
  [mkInternalLogEntry 0 1 0 0 1 0 (Some [sample_put]) (Some []); sample_message 1 1 0 1 2].

Definition read_file : list byte := mjoin (write_log_entry <$> read_messages).

(** Node 2 has become the leader of term 1; its second heartbeat says that both entries are
    committed. *)
Definition read_heartbeat (commit : Z) : LocalRaftMessage :=
  mkLocalRaftMessage (RM_AppendEntries (mkLocalAppendEntries 1 2 1 1 0 None commit)) 3%nat.

Definition after_heartbeat (commit : Z) (x : StateMachineExecutorImpl StutterBus) : StateMachineExecutorImpl StutterBus :=
  default x (accept sample_env (read_heartbeat commit) x).

Definition read_request : QueryRequest := mkQueryRequest [Init.Byte.x6b] 0 7%nat.

(** Both heartbeats, a request, then an iteration of the query worker. *)
Definition read_run (app : RunningNode) : ReadSystem :=
  let x := state_machine app in
  let x1 := after_heartbeat 0 x in
  let x2 := after_heartbeat 1 x1 in
  let q := ask read_request (feed x1 x2 (feed x x1 (query_worker app))) in
  let c := commit_state (volatile_server_state (shared_state x2)) in
  mkReadSystem x2 (query_iteration (cs_version c) (cs_commit_index c) q) L_Idle [read_request].

Definition read_app : option RunningNode :=
  start_system sample_env example_config read_file [] (mkStutterBus [] false).

(** What the run needs of the states it goes through. *)
Definition heartbeat_ok (commit : Z) (x : StateMachineExecutorImpl StutterBus) : bool :=
  let s := shared_state x in
  match accept sample_env (read_heartbeat commit) x, state_delegate x with
  | Some _, D_Follower _ =>
    (current_term (server_state s) <=? 1) && (commit <? vlen (replication_log (volatile_server_state s))) &&
    (vlen (replication_log (volatile_server_state s)) <? 100) &&
    (vlen (replication_log (volatile_server_state (shared_state (after_heartbeat commit x)))) <? 100)
  | _, _ => false
  end.

Lemma heartbeat_step commit x q l a :
  heartbeat_ok commit x = true ->
  reads_step (mkReadSystem x q l a) (mkReadSystem (after_heartbeat commit x) (feed x (after_heartbeat commit x) q) l a).
Proof.
  unfold heartbeat_ok. destruct (accept _ _ _) as [x'|] eqn:Hx; [|done]. unfold after_heartbeat. rewrite Hx. simpl.
  destruct (state_delegate x) eqn:Hd; [|done..]. rewrite !andb_true_iff, Z.leb_le, !Z.ltb_lt. intros (((? & ?) & ?) & ?).
  apply (reads_message sample_env (read_heartbeat commit)); unfold room; [done| |lia..].
  unfold sound_message. rewrite Hd. by split.
Qed.

Lemma read_run_reachable app : read_app = Some app -> rtc reads_step (reads_start app) (read_run app).
Proof.
  intros Happ.
  assert (heartbeat_ok 0 (state_machine app) = true /\
    heartbeat_ok 1 (after_heartbeat 0 (state_machine app)) = true) as [H0 H1].
  { vm_compute in Happ. injection Happ as <-. split; vm_compute; reflexivity. }
  eapply rtc_l; [by apply heartbeat_step|]. eapply rtc_l; [by apply heartbeat_step|].
  eapply rtc_l; [apply (reads_ask read_request)|]. eapply rtc_l; [apply reads_version|].
  eapply rtc_l; [apply reads_commit|]. apply rtc_once, reads_iterate.
Qed.

Lemma read_run_wf app :
  read_app = Some app -> broadcast_wf (replication_log (volatile_server_state (shared_state (rs_node (read_run app))))).
Proof.
  intros Happ. set (e0 := mkOwnedLogEntry (write_log_entry (mkInternalLogEntry 0 1 0 0 1 0 (Some [sample_put]) (Some [])))).
  assert (replication_log (volatile_server_state (shared_state (rs_node (read_run app)))) = [e0; sample_entry 1 1 0 1 2]) as ->.
  { vm_compute in Happ. injection Happ as <-. vm_compute. reflexivity. }
  split; [|by repeat constructor; vm_compute].
  apply (log_wf_snoc [e0] (sample_entry 1 1 0 1 2)); [|repeat split; vm_compute; reflexivity].
  apply (log_wf_snoc [] e0); [constructor|repeat split; vm_compute; reflexivity].
Qed.

Lemma reads_see_log_witness :
  exists app k, read_app = Some app /\ rtc reads_step (reads_start app) (read_run app) /\
    query_structure (rs_query (read_run app)) =
      replay (take k (replication_log (volatile_server_state (shared_state (rs_node (read_run app)))))) /\
    query_answers (rs_query (read_run app)) = [(7%nat, Some [Init.Byte.x76])].
Proof.
  destruct read_app as [app|] eqn:Happ; [|vm_compute in Happ; discriminate].
  destruct (reads_see_log sample_env example_config read_file [] (mkStutterBus [] false) app (read_run app))
    as (k & reads & Hm & _).
  - exact Happ.
  - reflexivity.
  - apply stutter_bus_patient.
  - vm_compute in Happ. injection Happ as <-. vm_compute. reflexivity.
  - by apply read_run_reachable.
  - by apply read_run_wf.
  - exists app, k. split; [done|]. split; [by apply read_run_reachable|]. split; [exact Hm|].
    vm_compute in Happ. injection Happ as <-. vm_compute. reflexivity.
Defined.

Lemma reads_catch_up_witness :
  exists app y', read_app = Some app /\
    rtc reads_step (reads_start app) y' /\ rs_loading y' = L_Idle /\ rs_node y' = rs_node (mkReadSystem
      (after_heartbeat 1 (after_heartbeat 0 (state_machine app))) (query_worker app) L_Idle []).
Proof.
  destruct read_app as [app|] eqn:Happ; [|vm_compute in Happ; discriminate].
  set (x := state_machine app). set (x1 := after_heartbeat 0 x). set (x2 := after_heartbeat 1 x1).
  assert (heartbeat_ok 0 x = true /\ heartbeat_ok 1 x1 = true) as [H0 H1].
  { vm_compute in Happ. injection Happ as <-. split; vm_compute; reflexivity. }
  assert (rtc reads_step (reads_start app) (mkReadSystem x2 (feed x1 x2 (feed x x1 (query_worker app))) L_Idle [])) as Hr.
  { eapply rtc_l; [by apply heartbeat_step|]. apply rtc_once. by apply heartbeat_step. }
  destruct (reads_catch_up sample_env example_config read_file [] (mkStutterBus [] false) app
    (mkReadSystem x2 (feed x1 x2 (feed x x1 (query_worker app))) L_Idle [])) as (y' & Hr' & Hn & _ & Hi & _).
  - exact Happ.
  - reflexivity.
  - apply stutter_bus_patient.
  - vm_compute in Happ. injection Happ as <-. vm_compute. reflexivity.
  - exact Hr.
  - exact (read_run_wf app Happ).
  - reflexivity.
  - vm_compute in Happ. injection Happ as <-. vm_compute. discriminate.
  - exists app, y'. split; [done|]. split; [by etrans|]. split; [exact Hi|exact Hn].
Defined.
