(* ===== verification/ServiceError.v ===== *)
(** * Errors of the service

    [src/service_utils/errors.rs]: the error type, its messages and its own notion of
    equality, which compares the text of throttling errors and only the variant of the
    others. *)
From S2P Require Import Prelude Capnp.
From Stdlib Require Import String.
From stdpp Require Import strings pretty.

#[local] Open Scope string_scope.
#[local] Open Scope Z_scope.
#[local] Open Scope kraft_scope.

Inductive ServiceError :=
| ThrottlingError (msg : string)
| RaceConditionError
| ConnectionError (node_id : Z) (message : string)
| ConnectionLost (node_id : Z) (message : string)
| TimeoutError (operation : string) (timeout_ms : Z)
| MessageTooLarge (size max_size : Z)
| NotLeader (leader_id : option Z)
| QuorumNotReached (required achieved : Z)
| TermMismatch (expected actual : Z)
| LogEntryRejected (index : Z) (reason : string)
| PersistenceWriteError (message : string)
| PersistenceReadError (message : string)
| DataCorruption (message : string)
| ConfigError (field message : string)
| MissingConfig (field : string)
| SerializationError (message : string)
| DeserializationError (message : string)
| ChannelSendError (channel : string)
| ChannelRecvError (channel : string)
| ChannelFull (channel : string)
| InternalError (message : string)
| Cancelled (operation : string).

(** [Display]. *)
Definition display_service_error (e : ServiceError) : string :=
  match e with
  | ThrottlingError msg => "Throttling: " +:+ msg
  | RaceConditionError => "Race condition detected"
  | ConnectionError node_id message =>
    "Connection error to node " +:+ pretty node_id +:+ ": " +:+ message
  | ConnectionLost node_id message =>
    "Connection lost to node " +:+ pretty node_id +:+ ": " +:+ message
  | TimeoutError operation timeout_ms =>
    "Timeout after " +:+ pretty timeout_ms +:+ "ms during: " +:+ operation
  | MessageTooLarge size max_size =>
    "Message size " +:+ pretty size +:+ " exceeds maximum " +:+ pretty max_size
  | NotLeader (Some id) => "Not leader, current leader is node " +:+ pretty id
  | NotLeader None => "Not leader, leader unknown"
  | QuorumNotReached required achieved =>
    "Quorum not reached: need " +:+ pretty required +:+ ", got " +:+ pretty achieved
  | TermMismatch expected actual =>
    "Term mismatch: expected " +:+ pretty expected +:+ ", got " +:+ pretty actual
  | LogEntryRejected index reason =>
    "Log entry at index " +:+ pretty index +:+ " rejected: " +:+ reason
  | PersistenceWriteError message => "Persistence write error: " +:+ message
  | PersistenceReadError message => "Persistence read error: " +:+ message
  | DataCorruption message => "Data corruption: " +:+ message
  | ConfigError field message => "Config error in '" +:+ field +:+ "': " +:+ message
  | MissingConfig field => "Missing required config: " +:+ field
  | SerializationError message => "Serialization error: " +:+ message
  | DeserializationError message => "Deserialization error: " +:+ message
  | ChannelSendError channel => "Channel send error on '" +:+ channel +:+ "'"
  | ChannelRecvError channel => "Channel receive error on '" +:+ channel +:+ "'"
  | ChannelFull channel => "Channel '" +:+ channel +:+ "' is full"
  | InternalError message => "Internal error: " +:+ message
  | Cancelled operation => "Operation cancelled: " +:+ operation
  end.

(** [std::mem::discriminant]. *)
Definition discriminant (e : ServiceError) : nat :=
  match e with
  | ThrottlingError _ => 0 | RaceConditionError => 1 | ConnectionError _ _ => 2
  | ConnectionLost _ _ => 3 | TimeoutError _ _ => 4 | MessageTooLarge _ _ => 5
  | NotLeader _ => 6 | QuorumNotReached _ _ => 7 | TermMismatch _ _ => 8
  | LogEntryRejected _ _ => 9 | PersistenceWriteError _ => 10 | PersistenceReadError _ => 11
  | DataCorruption _ => 12 | ConfigError _ _ => 13 | MissingConfig _ => 14
  | SerializationError _ => 15 | DeserializationError _ => 16 | ChannelSendError _ => 17
  | ChannelRecvError _ => 18 | ChannelFull _ => 19 | InternalError _ => 20 | Cancelled _ => 21
  end%nat.

(** [PartialEq]. *)
Definition service_error_eq (e1 e2 : ServiceError) : bool :=
  match e1, e2 with
  | ThrottlingError a, ThrottlingError b => bool_decide (a = b)
  | RaceConditionError, RaceConditionError => true
  | _, _ => Nat.eqb (discriminant e1) (discriminant e2)
  end.

(** [map_channel_err]; the result of a send to a channel. *)
Definition map_channel_err {T} (r : unit + T) (channel_name : string) : ServiceError + T :=
  match r with
  | inl _ => inl (ChannelSendError channel_name)
  | inr x => inr x
  end.

(** ** The equality as a setoid *)

#[export] Instance service_error_equiv : Equiv ServiceError := fun e1 e2 => service_error_eq e1 e2 = true.

Lemma service_error_eq_spec e1 e2 :
  service_error_eq e1 e2 = true <->
  discriminant e1 = discriminant e2 /\ (forall a b, e1 = ThrottlingError a -> e2 = ThrottlingError b -> a = b).
Proof.
  destruct e1, e2; simpl; rewrite ?bool_decide_eq_true;
    (split; [intros He|intros [Hd Ht]]; first [done|by apply Ht|split; [done|by intros; simplify_eq]]).
Qed.

#[export] Instance service_error_equivalence : Equivalence (≡@{ServiceError}).
Proof.
  split.
  - intros e. apply service_error_eq_spec. split; [done|]. by intros a b -> [= ->].
  - intros e1 e2 [Hd Ht]%service_error_eq_spec. apply service_error_eq_spec.
    split; [done|]. intros a b ? ?. symmetry. by apply Ht.
  - intros e1 e2 e3 [Hd1 Ht1]%service_error_eq_spec [Hd2 Ht2]%service_error_eq_spec.
    apply service_error_eq_spec. split; [congruence|]. intros a b -> ->.
    destruct e2; try done. transitivity msg; [by apply Ht1|by apply Ht2].
Qed.

#[export] Instance discriminant_proper : Proper ((≡) ==> (=)) discriminant.
Proof. by intros e1 e2 [? _]%service_error_eq_spec. Qed.
