(* ===== verification/Metrics.v ===== *)
(** * Metrics

    [src/transport/metrics.rs] and the request handler of [src/transport/metrics_server.rs].
    The [prometheus] crate is the class [Prometheus]: histograms, counters, gauges and the
    registry, with the documented behaviour the code relies on in [PrometheusLaws].  A
    measured time is a number of microseconds; as an [f64] it is exact below [2 ^ 53]. *)
From S2P Require Import Prelude.
From Stdlib Require Import Ascii String.
From stdpp Require Import strings.

#[local] Open Scope string_scope.
#[local] Open Scope Z_scope.
#[local] Open Scope kraft_scope.

(** ** The [prometheus] crate *)

Class Prometheus := {
  Histogram : Type;
  histogram_with : list Z -> Histogram;
  observe : Z -> Histogram -> Histogram;
  get_sample_count : Histogram -> Z;
  Registry : Type;
  (** [None] is the error of a name that is registered already. *)
  register : string -> Registry -> option Registry;
  registered : Registry -> list string
}.

Class PrometheusLaws `{Prometheus} : Prop := {
  histogram_with_count buckets : get_sample_count (histogram_with buckets) = 0;
  observe_count v h : get_sample_count (observe v h) = get_sample_count h +! 1;
  register_fresh name r :
    name ∉ registered r -> exists r', register name r = Some r' /\ registered r' = (registered r ++ [name])%list;
  register_again name r : name ∈ registered r -> register name r = None
}.

(** ** The metrics *)

Section metrics.
Context `{Prometheus}.

Definition rpc_buckets : list Z :=
  [250; 500; 1000; 2000; 3000; 4000; 5000; 7500; 10000; 15000; 20000; 30000; 40000; 50000;
   75000; 100000; 150000; 200000].
Definition batch_size_buckets : list Z := [1; 2; 5; 10; 20; 50; 100; 200; 500; 1000].
Definition quorum_buckets : list Z :=
  [100; 500; 1000; 5000; 10000; 50000; 100000; 500000; 1000000; 5000000].

(** The statics of [lazy_static!]; a vector of metrics is a map from its label. *)
Record Metrics := mkMetrics {
  RPC_LATENCY : gmap string Histogram;
  RPC_REQUEST_TOTAL : gmap string Z;
  WRITE_BATCH_LATENCY : Histogram;
  WRITE_BATCH_TOTAL : Z;
  WRITE_BATCH_SIZE : Histogram;
  RAFT_COMMIT_INDEX : Z;
  RAFT_LEADER_ID : Z;
  RAFT_CURRENT_TERM : Z;
  RAFT_LOG_SIZE : Z;
  RAFT_APPEND_ENTRIES_TOTAL : Z;
  RAFT_VOTE_REQUESTS_TOTAL : Z;
  RAFT_TRUNCATE_OPERATIONS_TOTAL : Z;
  QUORUM_APPEND_ENTRIES_LATENCY : gmap string Histogram;
  QUORUM_PUT_BATCH_LATENCY : gmap string Histogram
}.
Implicit Types m : Metrics.

Definition new_metrics : Metrics :=
  mkMetrics ∅ ∅ (histogram_with rpc_buckets) 0 (histogram_with batch_size_buckets) 0 0 0 0 0 0 0 ∅ ∅.

(** The names, in the order of the calls of [register_metrics]. *)
Definition metric_names : list string :=
  ["kraft_rpc_latency_microseconds"; "kraft_rpc_requests_total"; "kraft_write_batch_latency_microseconds";
   "kraft_write_batches_total"; "kraft_write_batch_size"; "kraft_raft_commit_index"; "kraft_raft_leader_id";
   "kraft_raft_current_term"; "kraft_raft_log_size"; "kraft_raft_append_entries_total";
   "kraft_raft_vote_requests_total"; "kraft_raft_truncate_operations_total";
   "kraft_quorum_append_entries_latency_microseconds"; "kraft_quorum_put_batch_latency_microseconds"].

(** The calls of [register]; [None] is the panic of [expect]. *)
Fixpoint register_all (names : list string) (r : Registry) : option Registry :=
  match names with
  | [] => Some r
  | name :: names => let* r := register name r in register_all names r
  end.

Definition register_metrics (r : Registry) : option Registry := register_all metric_names r.

(** [as i64]. *)
Definition as_i64 (z : Z) : Z := if decide (z < 2 ^ 63) then z else z - 2 ^ 64.

(** [IntCounter::inc]. *)
Definition inc (counter : Z) : Z := counter +! 1.

(** The four gauges. *)
Definition set_gauges (commit_index leader_id current_term log_size : Z) m : Metrics :=
  mkMetrics (RPC_LATENCY m) (RPC_REQUEST_TOTAL m) (WRITE_BATCH_LATENCY m) (WRITE_BATCH_TOTAL m)
    (WRITE_BATCH_SIZE m) commit_index leader_id current_term log_size (RAFT_APPEND_ENTRIES_TOTAL m)
    (RAFT_VOTE_REQUESTS_TOTAL m) (RAFT_TRUNCATE_OPERATIONS_TOTAL m) (QUORUM_APPEND_ENTRIES_LATENCY m)
    (QUORUM_PUT_BATCH_LATENCY m).

Definition initialize_metrics m : Metrics := set_gauges 0 0 0 0 m.

Definition update_raft_state_metrics (commit_index leader_id current_term log_size : Z) m : Metrics :=
  set_gauges (as_i64 commit_index) (as_i64 leader_id) (as_i64 current_term) (as_i64 log_size) m.

(** ** Requests *)

(** [RPC_LATENCY.with_label_values(&[name]).observe(v)]: the histogram of a label is created
    when it is first asked for. *)
Definition rpc_histogram (name : string) m : Histogram :=
  default (histogram_with rpc_buckets) (RPC_LATENCY m !! name).

Definition rpc_total (name : string) m : Z := default 0 (RPC_REQUEST_TOTAL m !! name).

Definition set_rpc (latency : gmap string Histogram) (total : gmap string Z) m : Metrics :=
  mkMetrics latency total (WRITE_BATCH_LATENCY m) (WRITE_BATCH_TOTAL m) (WRITE_BATCH_SIZE m)
    (RAFT_COMMIT_INDEX m) (RAFT_LEADER_ID m) (RAFT_CURRENT_TERM m) (RAFT_LOG_SIZE m)
    (RAFT_APPEND_ENTRIES_TOTAL m) (RAFT_VOTE_REQUESTS_TOTAL m) (RAFT_TRUNCATE_OPERATIONS_TOTAL m)
    (QUORUM_APPEND_ENTRIES_LATENCY m) (QUORUM_PUT_BATCH_LATENCY m).

(** [RpcTimingGuard]: the clock at its start, and the label of its histogram. *)
Record RpcTimingGuard := mkRpcTimingGuard { start : Z; histogram : string }.

(** [Drop] of the guard; the clock is monotone. *)
Definition drop_guard (now : Z) (g : RpcTimingGuard) m : Metrics :=
  set_rpc (<[histogram g := observe (now - start g) (rpc_histogram (histogram g) m)]> (RPC_LATENCY m))
    (RPC_REQUEST_TOTAL m) m.

(** [observe_and_drop]: the observation of the body, and the drop of [self] at its end. *)
Definition observe_and_drop (now now' : Z) (g : RpcTimingGuard) m : Metrics :=
  drop_guard now' g (drop_guard now g m).

(** [record_rpc_request]. *)
Definition record_rpc_request (now : Z) (rpc_name : string) m : RpcTimingGuard * Metrics :=
  (mkRpcTimingGuard now rpc_name,
   set_rpc (<[rpc_name := rpc_histogram rpc_name m]> (RPC_LATENCY m))
     (<[rpc_name := inc (rpc_total rpc_name m)]> (RPC_REQUEST_TOTAL m)) m).

(** The fast paths: the cached metrics are those of the labels. *)
Definition record_put_record_fast (now : Z) m : RpcTimingGuard * Metrics :=
  record_rpc_request now "put_record" m.

Definition record_get_record_fast (now : Z) m : RpcTimingGuard * Metrics :=
  record_rpc_request now "get_record" m.

(** ** Write batches *)

Definition set_batches (latency : Histogram) (total : Z) (size : Histogram) m : Metrics :=
  mkMetrics (RPC_LATENCY m) (RPC_REQUEST_TOTAL m) latency total size (RAFT_COMMIT_INDEX m)
    (RAFT_LEADER_ID m) (RAFT_CURRENT_TERM m) (RAFT_LOG_SIZE m) (RAFT_APPEND_ENTRIES_TOTAL m)
    (RAFT_VOTE_REQUESTS_TOTAL m) (RAFT_TRUNCATE_OPERATIONS_TOTAL m) (QUORUM_APPEND_ENTRIES_LATENCY m)
    (QUORUM_PUT_BATCH_LATENCY m).

Definition record_write_batch_completion (duration_micros : Z) m : Metrics :=
  set_batches (observe duration_micros (WRITE_BATCH_LATENCY m)) (WRITE_BATCH_TOTAL m) (WRITE_BATCH_SIZE m) m.

(** [record_write_batch]; the guard is its start time. *)
Definition record_write_batch (now batch_size : Z) m : Z * Metrics :=
  (now, set_batches (WRITE_BATCH_LATENCY m) (inc (WRITE_BATCH_TOTAL m)) (observe batch_size (WRITE_BATCH_SIZE m)) m).

(** [WriteBatchTimingGuard::observe_and_drop]; this guard has no [Drop]. *)
Definition batch_observe_and_drop (now guard : Z) m : Metrics :=
  record_write_batch_completion (now - guard) m.

(** What [complete_write_batch] of the leader records. *)
Definition record_completed_batch (duration_micros batch_size : Z) m : Metrics :=
  let m := record_write_batch_completion duration_micros m in
  let m := set_batches (WRITE_BATCH_LATENCY m) (WRITE_BATCH_TOTAL m) (observe batch_size (WRITE_BATCH_SIZE m)) m in
  set_batches (WRITE_BATCH_LATENCY m) (inc (WRITE_BATCH_TOTAL m)) (WRITE_BATCH_SIZE m) m.

(** The three counters of Raft operations. *)
Definition set_operations (append_entries votes truncates : Z) m : Metrics :=
  mkMetrics (RPC_LATENCY m) (RPC_REQUEST_TOTAL m) (WRITE_BATCH_LATENCY m) (WRITE_BATCH_TOTAL m)
    (WRITE_BATCH_SIZE m) (RAFT_COMMIT_INDEX m) (RAFT_LEADER_ID m) (RAFT_CURRENT_TERM m) (RAFT_LOG_SIZE m)
    append_entries votes truncates (QUORUM_APPEND_ENTRIES_LATENCY m) (QUORUM_PUT_BATCH_LATENCY m).

Definition record_append_entries m : Metrics :=
  set_operations (inc (RAFT_APPEND_ENTRIES_TOTAL m)) (RAFT_VOTE_REQUESTS_TOTAL m) (RAFT_TRUNCATE_OPERATIONS_TOTAL m) m.

Definition record_vote_request m : Metrics :=
  set_operations (RAFT_APPEND_ENTRIES_TOTAL m) (inc (RAFT_VOTE_REQUESTS_TOTAL m)) (RAFT_TRUNCATE_OPERATIONS_TOTAL m) m.

Definition record_truncate_operation m : Metrics :=
  set_operations (RAFT_APPEND_ENTRIES_TOTAL m) (RAFT_VOTE_REQUESTS_TOTAL m) (inc (RAFT_TRUNCATE_OPERATIONS_TOTAL m)) m.

(** ** The server *)

(** The answer of [handle_request]: status, content type and body; [encode] is what the text
    encoder makes of the gathered metrics, and [format_type] its content type. *)
Definition handle_request (is_get : bool) (path : string) (encode : string + string) (format_type : string)
    : Z * option string * string :=
  if is_get && bool_decide (path = "/metrics") then
    match encode with
    | inr output => (200, Some format_type, output)
    | inl e => (500, None, "Failed to encode metrics: " +:+ e)
    end
  else if is_get && bool_decide (path = "/health") then (200, None, "OK")
  else (404, None, "Not Found").

(** ** Requests in flight

    Any number of tasks start requests and drop their guards. *)
Inductive request_step : list RpcTimingGuard * Metrics -> list RpcTimingGuard * Metrics -> Prop :=
| request_starts now name live m :
    let r := record_rpc_request now name m in request_step (live, m) (r.1 :: live, r.2)
| request_ends now g live1 live2 m :
    request_step (live1 ++ g :: live2, m)%list (live1 ++ live2, drop_guard now g m)%list.

(** The guards of a label. *)
Definition in_flight (name : string) (live : list RpcTimingGuard) : Z :=
  vlen (filter (fun g => histogram g = name) live).

End metrics.

Section laws.
Context `{PrometheusLaws}.
Implicit Types m : Metrics.

Lemma register_all_fresh names r :
  NoDup names -> (forall name, name ∈ names -> name ∉ registered r) ->
  exists r', register_all names r = Some r' /\ registered r' = (registered r ++ names)%list.
Proof.
  revert r. induction names as [|name names IH]; intros r Hnd Hfresh; simpl.
  { exists r. by rewrite app_nil_r. }
  apply NoDup_cons in Hnd as [Hname Hnd].
  destruct (register_fresh name r) as (r1 & -> & Hr1); [apply Hfresh; set_solver|]. cbn [mbind option_bind].
  destruct (IH r1 Hnd) as (r2 & -> & Hr2).
  { intros n Hn. rewrite Hr1. specialize (Hfresh n). set_solver. }
  exists r2. split; [done|]. by rewrite Hr2, Hr1, <- (assoc_L (++)%list).
Qed.

(** Registering the metrics of the node on a registry that has none of them never panics and
    exports each under its own name; doing it again would panic. *)
Theorem register_metrics_once r :
  (forall name, name ∈ metric_names -> name ∉ registered r) ->
  exists r', register_metrics r = Some r' /\ registered r' = (registered r ++ metric_names)%list /\
    register_metrics r' = None.
Proof.
  intros Hfresh. destruct (register_all_fresh metric_names r) as (r' & Hr & Hreg); [|done|].
  { apply (bool_decide_unpack _). vm_compute. exact I. }
  exists r'. split_and!; [done|done|]. unfold register_metrics, metric_names. simpl.
  rewrite register_again; [done|]. rewrite Hreg. apply elem_of_app. right. apply list_elem_of_here.
Qed.

Lemma in_flight_cons name g live :
  in_flight name (g :: live) = in_flight name live + (if decide (histogram g = name) then 1 else 0).
Proof.
  unfold in_flight, vlen. case_decide.
  - rewrite filter_cons_True by done. simpl. lia.
  - rewrite filter_cons_False by done. lia.
Qed.

Lemma in_flight_middle name live1 g live2 :
  in_flight name (live1 ++ g :: live2) = in_flight name (live1 ++ live2) + (if decide (histogram g = name) then 1 else 0).
Proof.
  pose proof (in_flight_cons name g live2) as Hc. unfold in_flight, vlen in *. rewrite !filter_app, !length_app. lia.
Qed.

(** Started and observed requests of every label differ by those in flight. *)
Definition accounted (x : list RpcTimingGuard * Metrics) : Prop :=
  forall name, rpc_total name x.2 = (get_sample_count (rpc_histogram name x.2) + in_flight name x.1) `mod` 2 ^ 64.

Lemma request_step_accounted x x' : accounted x -> request_step x x' -> accounted x'.
Proof.
  intros Hx Hs name. specialize (Hx name). destruct Hs as [now n live m|now g live1 live2 m]; simpl in *.
  - rewrite in_flight_cons. unfold rpc_total, rpc_histogram in *. simpl. destruct (decide (n = name)) as [->|Hne].
    + rewrite !lookup_insert_eq. simpl. unfold inc, u64_add. fold (rpc_total name m). unfold rpc_total. rewrite Hx.
      rewrite Zplus_mod_idemp_l. f_equal. lia.
    + rewrite !lookup_insert_ne by done. rewrite Hx. f_equal. lia.
  - rewrite in_flight_middle in Hx. unfold rpc_total, rpc_histogram, drop_guard in *. simpl.
    destruct (decide (histogram g = name)) as [<-|Hne].
    + rewrite lookup_insert_eq. simpl. rewrite observe_count. unfold rpc_histogram. rewrite Hx. unfold u64_add.
      rewrite Zplus_mod_idemp_l. f_equal. lia.
    + rewrite lookup_insert_ne by done. rewrite Hx. f_equal. lia.
Qed.

(** Whatever the interleaving of requests, the counter of an endpoint is the number of times
    measured for it plus the number of requests in flight, modulo the width of the counters. *)
Theorem requests_accounted live m name :
  rtc request_step ([], new_metrics) (live, m) ->
  rpc_total name m = (get_sample_count (rpc_histogram name m) + in_flight name live) `mod` 2 ^ 64.
Proof.
  intros Hr. assert (Ha : accounted (live, m)); [|apply Ha].
  assert (Hnew : accounted ([], new_metrics)).
  { intros n. unfold rpc_total, rpc_histogram. simpl. rewrite !lookup_empty. simpl. by rewrite histogram_with_count. }
  clear name. revert Hnew. induction Hr as [x|x y z Hxy _ IH]; [done|]. intros Hx. by apply IH, (request_step_accounted x).
Qed.

(** [observe_and_drop] measures a request twice: once in its body, and once more when [self]
    is dropped at its end. *)
Theorem observe_and_drop_counts_twice now now' g m :
  get_sample_count (rpc_histogram (histogram g) (observe_and_drop now now' g m)) =
  get_sample_count (rpc_histogram (histogram g) m) +! 1 +! 1.
Proof.
  unfold observe_and_drop, drop_guard, rpc_histogram. simpl. rewrite !lookup_insert_eq. simpl.
  by rewrite !observe_count.
Qed.

(** What the leader records for [n] completed batches agrees: total, latencies and sizes. *)
Theorem completed_batches_agree batches :
  let m := fold_left (fun m b => record_completed_batch b.1 b.2 m) batches new_metrics in
  WRITE_BATCH_TOTAL m = vlen batches `mod` 2 ^ 64 /\
  get_sample_count (WRITE_BATCH_LATENCY m) = WRITE_BATCH_TOTAL m /\
  get_sample_count (WRITE_BATCH_SIZE m) = WRITE_BATCH_TOTAL m.
Proof.
  induction batches as [|b batches IH] using rev_ind; intros m; [subst m; simpl; by rewrite !histogram_with_count|].
  unfold m. rewrite fold_left_app. simpl. destruct IH as (Ht & Hl & Hs). rewrite !observe_count, Hl, Hs.
  unfold inc. split_and!; [|done..]. rewrite Ht, vlen_app. unfold u64_add. rewrite Zplus_mod_idemp_l. done.
Qed.

(** A gauge shows a [u64] as it is below [2 ^ 63], and negative from there on. *)
Theorem gauge_reads_back z : u64 z -> as_i64 z `mod` 2 ^ 64 = z /\ (as_i64 z = z <-> z < 2 ^ 63) /\ (as_i64 z < 0 <-> 2 ^ 63 <= z).
Proof.
  unfold u64, as_i64. intros Hz. case_decide; split_and!; try lia.
  - by rewrite Z.mod_small.
  - rewrite <- (Z.mod_add _ 1) by lia. rewrite Z.mod_small; lia.
Qed.

End laws.
