(* ===== verification/TaskBuffer.v ===== *)
(** * The task buffer

    [src/runtime_core/task_buffer.rs]: a buffer whose write positions are claimed by several
    threads with a compare-and-exchange loop.  A claim is a small state machine per thread;
    threads interleave between the load and the exchange, and a weak exchange may fail without
    reason. *)
From S2P Require Import Prelude Capnp ServiceError.
From Stdlib Require Import String.
From stdpp Require Import strings.

#[local] Open Scope Z_scope.
#[local] Open Scope kraft_scope.

Section buffer.
Context {T : Type}.

Record TaskBufferImpl := mkTaskBufferImpl {
  read_index : Z;
  write_index : Z;
  tasks : list T
}.

Implicit Types b : TaskBufferImpl.

(** [TaskBufferImpl::new]. *)
Definition TaskBufferImpl_new : TaskBufferImpl := mkTaskBufferImpl 0 0 [].

Definition peek_size b : Z := u64_sub (write_index b) (read_index b).

(** ** Operations of the owner

    [None] is the panic of a remainder by zero. *)

(** [Vec::insert] at a position of the vector. *)
Definition vec_insert (i : nat) (x : T) (l : list T) : list T := take i l ++ x :: drop i l.

Definition put_task (task : T) (spot : Z) b : option TaskBufferImpl :=
  if decide (tasks b = []) then None
  else Some (mkTaskBufferImpl (read_index b) (write_index b)
               (vec_insert (Z.to_nat (spot `mod` vlen (tasks b))) task (tasks b))).

Definition get_task b : option (T * TaskBufferImpl) :=
  if decide (tasks b = []) then None
  else
    let* task := vget (tasks b) (read_index b `mod` vlen (tasks b)) in
    Some (task, mkTaskBufferImpl (read_index b +! 1) (write_index b) (tasks b)).

End buffer.

Arguments TaskBufferImpl : clear implicits.

#[export] Instance task_list_nil_dec {T} (l : list T) : Decision (l = []).
Proof. destruct l; [left|right]; done. Defined.

(** ** Claiming a spot *)

Definition MAX_RETRIES : nat := 100.

(** Where a thread is in [claim_spot]: about to load with [retries] iterations left, between
    the load of [idx] and the exchange, or returned. *)
Inductive Claim :=
| Loading (retries : nat)
| Exchanging (retries : nat) (idx next_idx : Z)
| Returned (result : ServiceError + Z).

Definition claim_start : Claim := Loading MAX_RETRIES.

(** One atomic step of a thread on the shared write index; [spurious] says that a weak
    exchange fails although the value is the expected one. *)
Definition claim_step (spurious : bool) (w : Z) (c : Claim) : Z * Claim :=
  match c with
  | Loading O => (w, Returned (inl RaceConditionError))
  | Loading (S retries) =>
    match checked_add w 1 with
    | Some next_idx => (w, Exchanging retries w next_idx)
    | None => (w, Returned (inl (ThrottlingError "Write index overflow")))
    end
  | Exchanging retries idx next_idx =>
    if negb spurious && bool_decide (w = idx) then (next_idx, Returned (inr idx))
    else (w, Loading retries)
  | Returned r => (w, Returned r)
  end.

(** A thread alone, without spurious failures. *)
Fixpoint claim_alone (fuel : nat) (w : Z) (c : Claim) : Z * Claim :=
  match fuel with
  | O => (w, c)
  | S fuel => let '(w, c) := claim_step false w c in claim_alone fuel w c
  end.

(** [claim_spot] called by a single thread. *)
Definition claim_spot (w : Z) : Z * Claim := claim_alone 2 w claim_start.

(** Any number of concurrent calls: the thread [i] takes a step. *)
Inductive claim_system_step : Z * list Claim -> Z * list Claim -> Prop :=
| Claim_system_step w w' cs i c c' spurious :
  cs !! i = Some c -> claim_step spurious w c = (w', c') ->
  claim_system_step (w, cs) (w', <[i := c']> cs).

(** ** Claims are exact *)

(** The spots handed out. *)
Definition claimed (cs : list Claim) : list Z :=
  omap (fun c => match c with Returned (inr spot) => Some spot | _ => None end) cs.

Definition claim_of (c : Claim) : list Z :=
  match c with Returned (inr spot) => [spot] | _ => [] end.

Lemma claimed_middle l1 c l2 : claimed (l1 ++ c :: l2) ≡ₚ claim_of c ++ claimed (l1 ++ l2).
Proof.
  unfold claimed. rewrite !omap_app. cbn [omap list_omap]. unfold claim_of.
  destruct c as [| |[|]]; try done. simpl. by rewrite <- Permutation_middle.
Qed.

Lemma claimed_insert cs i c c' :
  cs !! i = Some c -> claimed (<[i := c']> cs) ++ claim_of c ≡ₚ claimed cs ++ claim_of c'.
Proof.
  intros Hi. pose proof (lookup_lt_Some _ _ _ Hi).
  rewrite insert_take_drop by done. rewrite <- (take_drop_middle cs i c Hi) at 3.
  rewrite !claimed_middle. set (rest := claimed _). solve_Permutation.
Qed.

(** What every reachable state satisfies: the spots handed out since the write index was [w0]
    are exactly the indices from there on, and a thread that has loaded an index has loaded
    one that was valid. *)
Record claims_exact (w0 : Z) (st : Z * list Claim) : Prop := {
  ce_range : u64 st.1 /\ w0 <= st.1;
  ce_spots : claimed st.2 ≡ₚ seqZ w0 (st.1 - w0);
  ce_next : Forall (fun c => match c with
                             | Exchanging _ idx next_idx => next_idx = idx + 1 /\ u64 next_idx
                             | _ => True
                             end) st.2
}.

Lemma claim_system_step_exact w0 st st' :
  claim_system_step st st' -> claims_exact w0 st -> claims_exact w0 st'.
Proof.
  intros [w w' cs i c c' spurious Hi Hs] [[Hw Hle] Hc Hn]. simpl in *.
  pose proof (claimed_insert cs i c c' Hi) as Hp.
  pose proof (proj1 (Forall_lookup _ _) Hn i c Hi) as Hci. simpl in Hci.
  assert (Hkeep : w' = w -> claim_of c = claim_of c' ->
    match c' with Exchanging _ idx next_idx => next_idx = idx + 1 /\ u64 next_idx | _ => True end ->
    claims_exact w0 (w', <[i := c']> cs)).
  { intros -> Hof Hok. split; simpl; [done| |by apply Forall_insert].
    rewrite Hof in Hp. apply (inj (fun l => l ++ claim_of c')) in Hp. by rewrite Hp. }
  destruct c as [[|retries]|retries idx next_idx|r]; simpl in Hs.
  - simplify_eq. by apply Hkeep.
  - unfold checked_add in Hs. case_decide; simplify_eq; apply Hkeep; try done.
    split; [done|]. unfold u64 in *. lia.
  - destruct (negb spurious && bool_decide (w = idx)) eqn:Hx; simplify_eq; [|by apply Hkeep].
    apply andb_true_iff in Hx as [_ ->%bool_decide_eq_true]. destruct Hci as [-> Hu].
    split; simpl; [split; [done|lia]| |by apply Forall_insert].
    simpl in Hp. rewrite app_nil_r in Hp. rewrite Hp, Hc.
    replace (idx + 1 - w0) with ((idx - w0) + 1) by lia. rewrite seqZ_app by lia.
    replace (w0 + (idx - w0)) with idx by lia. done.
  - simplify_eq. by apply Hkeep.
Qed.

Lemma claim_system_exact w0 st st' :
  rtc claim_system_step st st' -> claims_exact w0 st -> claims_exact w0 st'.
Proof. induction 1 as [|st1 st2 st3 Hs _ IH]; [done|]. intros. eapply IH, claim_system_step_exact; eauto. Qed.

Lemma claimed_start n : claimed (replicate n claim_start) = [].
Proof. induction n; [done|done]. Qed.

Lemma claims_exact_start w0 n : u64 w0 -> claims_exact w0 (w0, replicate n claim_start).
Proof.
  intros Hw. split; simpl; [split; [done|lia]| |].
  - rewrite claimed_start, Z.sub_diag. done.
  - apply Forall_replicate. done.
Qed.

(** ** A thread returns *)

(** The steps a claim still takes at most. *)
Definition claim_measure (c : Claim) : nat :=
  match c with
  | Loading retries => 2 * retries + 1
  | Exchanging retries _ _ => 2 * retries + 2
  | Returned _ => 0
  end.

Lemma claim_step_measure spurious w c :
  (claim_measure c = 0)%nat \/ (claim_measure (claim_step spurious w c).2 < claim_measure c)%nat.
Proof.
  destruct c as [[|n]|n idx next|r]; simpl; [right; simpl; lia|right|right|by left].
  - destruct (checked_add w 1); simpl; lia.
  - destruct (negb spurious && bool_decide (w = idx)); simpl; lia.
Qed.

(** The steps of one thread while other threads change the index: before each step it sees an
    arbitrary index, and its exchange may fail. *)
Fixpoint claim_among (seen : list (bool * Z)) (c : Claim) : Claim :=
  match seen with
  | [] => c
  | (spurious, w) :: seen => claim_among seen (claim_step spurious w c).2
  end.

Lemma claim_among_returns seen c :
  (claim_measure c <= length seen)%nat -> exists r, claim_among seen c = Returned r.
Proof.
  revert c. induction seen as [|[spurious w] seen IH]; intros c Hle; simpl in *.
  - destruct c; simpl in Hle; [lia|lia|by eexists].
  - apply IH. destruct (claim_step_measure spurious w c) as [Hz|Hlt]; [|lia].
    destruct c; simpl in *; lia.
Qed.

(** However concurrent calls of [claim_spot] interleave, and however often a weak exchange
    fails without reason, the spots handed out are pairwise distinct and are exactly the
    indices from the initial write index up to the current one, and the index never wraps. *)
Theorem claimed_spots_exact w0 n w cs :
  u64 w0 -> rtc claim_system_step (w0, replicate n claim_start) (w, cs) ->
  claimed cs ≡ₚ seqZ w0 (w - w0) /\ NoDup (claimed cs) /\ w0 <= w < 2 ^ 64.
Proof.
  intros Hw Hr. destruct (claim_system_exact w0 _ _ Hr (claims_exact_start w0 n Hw)) as [[Hu Hle] Hc _].
  simpl in *. split_and!; [done| |unfold u64 in Hu; lia..]. rewrite Hc. apply NoDup_seqZ.
Qed.

(** A call of [claim_spot] returns after at most 201 of its own atomic steps, whatever the
    other threads do meanwhile; alone it takes the current index, or reports the overflow and
    leaves the index when there is no next one. *)
Theorem claim_spot_returns seen w :
  u64 w -> (201 <= length seen)%nat ->
  (exists r, claim_among seen claim_start = Returned r) /\
  claim_spot w = if decide (w = 2 ^ 64 - 1)
                 then (w, Returned (inl (ThrottlingError "Write index overflow")))
                 else (w + 1, Returned (inr w)).
Proof.
  intros Hw Hlen. split; [apply claim_among_returns; simpl; lia|].
  unfold claim_spot, claim_start, MAX_RETRIES. cbn [claim_alone claim_step]. unfold checked_add, u64 in *.
  destruct (decide (w = 2 ^ 64 - 1)) as [->|]; [done|].
  rewrite decide_True by lia. cbn [claim_step negb andb]. by rewrite bool_decide_eq_true_2.
Qed.

(** ** The buffer never holds a task *)

(** What the owner and the threads do to a buffer. *)
Inductive buffer_step {T} : TaskBufferImpl T -> TaskBufferImpl T -> Prop :=
| Buffer_claim b spot w' :
    claim_spot (write_index b) = (w', Returned (inr spot)) ->
    buffer_step b (mkTaskBufferImpl (read_index b) w' (tasks b))
| Buffer_put b task spot b' : put_task task spot b = Some b' -> buffer_step b b'
| Buffer_get b task b' : get_task b = Some (task, b') -> buffer_step b b'.

(** The buffer cannot be used: the vector of a new one is empty, only [put_task] would
    fill it, and both [put_task] and [get_task] divide by its length, so in every reachable
    state both panic. *)
Theorem task_buffer_always_panics {T} (b : TaskBufferImpl T) :
  rtc buffer_step TaskBufferImpl_new b ->
  tasks b = [] /\ get_task b = None /\ forall task spot, put_task task spot b = None.
Proof.
  intros Hr. assert (Hb : tasks b = []); last first.
  { unfold get_task, put_task. rewrite decide_True by done. split_and!; try done.
    intros task spot. by rewrite decide_True. }
  assert (Hinv : forall b1 b2 : TaskBufferImpl T, buffer_step b1 b2 -> tasks b1 = [] -> tasks b2 = []).
  { intros b1 b2 [b' spot w' _|b' task spot b'' Hp|b' task b'' Hg] Hnil; [done|..].
    - unfold put_task in Hp. by rewrite decide_True in Hp.
    - unfold get_task in Hg. by rewrite decide_True in Hg. }
  remember TaskBufferImpl_new as b0 eqn:H0. assert (Hb0 : tasks b0 = []) by by subst. clear H0.
  induction Hr; eauto.
Qed.

(** ** Concrete runs *)

(** Two threads load the same index; the second exchange fails and its thread retries. *)
Definition race : list Claim := [Returned (inr 0); Returned (inr 1)].

Lemma race_reachable : rtc claim_system_step (0, replicate 2 claim_start) (2, race).
Proof.
  eapply rtc_l; [by eapply (Claim_system_step _ _ _ 0 _ _ false)|].
  eapply rtc_l; [by eapply (Claim_system_step _ _ _ 1 _ _ false)|].
  eapply rtc_l; [by eapply (Claim_system_step _ _ _ 0 _ _ false)|].
  eapply rtc_l; [by eapply (Claim_system_step _ _ _ 1 _ _ false)|].
  eapply rtc_l; [by eapply (Claim_system_step _ _ _ 1 _ _ false)|].
  eapply rtc_l; [by eapply (Claim_system_step _ _ _ 1 _ _ false)|].
  apply rtc_refl.
Qed.

Lemma claimed_spots_exact_witness : NoDup (claimed race).
Proof. apply (claimed_spots_exact 0 2 2 race); [unfold u64; lia|apply race_reachable]. Defined.

Lemma claim_spot_returns_witness : claim_spot 41 = (42, Returned (inr 41)).
Proof.
  apply (claim_spot_returns (replicate 201 (true, 0)) 41); [unfold u64; lia|].
  rewrite length_replicate. lia.
Defined.

Lemma task_buffer_always_panics_witness : get_task (T := nat) TaskBufferImpl_new = None.
Proof. apply (task_buffer_always_panics (T := nat) TaskBufferImpl_new). apply rtc_refl. Defined.
