(* ===== verification/ClientMessage.v ===== *)
(** * Messages of the client protocol

    The structs [DatastoreGetRequest] and [DatastoreGetResponse] of
    [src/transport/capnp/raft.capnp] and the roots and writers the client protocol uses, as an
    extension of the interface [Capnp], and the codec of [CapnpInstance.v] extended to them. *)
From S2P Require Import Prelude Capnp CapnpInstance.

Record DatastoreGetRequest := mkDatastoreGetRequest { gq_id : option Text }.

Record DatastoreGetResponse := mkDatastoreGetResponse {
  gs_found : bool;
  gs_id : option Text;
  gs_payload : option Data
}.

Class ClientCapnp `{Capnp} := {
  put_request_root : Reader -> option InternalPutRequest;
  get_request_root : Reader -> option DatastoreGetRequest;
  get_response_root : Reader -> option DatastoreGetResponse;
  write_put_request : InternalPutRequest -> list byte;
  write_get_request : DatastoreGetRequest -> list byte;
  write_get_response : DatastoreGetResponse -> list byte
}.

(** A written message that is small enough for the reader reads back; the bounds are those of
    [Capnp.v]. *)
Class ClientCapnpLaws `{ClientCapnp} : Prop := {
  read_write_put_request p rest : put_request_built p -> 8 + put_request_words p <= traversal_limit_in_words ->
    exists r, read_message_from_flat_slice (write_put_request p ++ rest) = Some (r, rest) /\
              put_request_root r = Some p;
  read_write_get_request g rest : is_Some (gq_id g) -> 8 + blob_words (gq_id g) <= traversal_limit_in_words ->
    exists r, read_message_from_flat_slice (write_get_request g ++ rest) = Some (r, rest) /\
              get_request_root r = Some g;
  read_write_get_response g rest : is_Some (gs_id g) -> is_Some (gs_payload g) ->
    16 + blob_words (gs_id g) + blob_words (gs_payload g) <= traversal_limit_in_words ->
    exists r, read_message_from_flat_slice (write_get_response g ++ rest) = Some (r, rest) /\
              get_response_root r = Some g
}.

#[export] Instance DatastoreGetRequest_eq_dec : EqDecision DatastoreGetRequest.
Proof. solve_decision. Defined.
#[export] Instance DatastoreGetResponse_eq_dec : EqDecision DatastoreGetResponse.
Proof. solve_decision. Defined.

#[export] Program Instance DatastoreGetRequest_countable : Countable DatastoreGetRequest :=
  inj_countable' gq_id mkDatastoreGetRequest _.
Next Obligation. by intros []. Qed.

#[export] Program Instance DatastoreGetResponse_countable : Countable DatastoreGetResponse :=
  inj_countable' (fun g => (gs_found g, gs_id g, gs_payload g))
    (fun '(a, b, c) => mkDatastoreGetResponse a b c) _.
Next Obligation. by intros []. Qed.

#[export] Instance bit_client_capnp : ClientCapnp (H := bit_capnp) := {|
  put_request_root := fun r => decode (r : positive);
  get_request_root := fun r => decode (r : positive);
  get_response_root := fun r => decode (r : positive);
  write_put_request := fun p => frame (encode p);
  write_get_request := fun g => frame (encode g);
  write_get_response := fun g => frame (encode g)
|}.

#[export] Instance bit_client_capnp_laws : ClientCapnpLaws (H := bit_capnp).
Proof.
  split; intros; eexists; cbn; by rewrite unframe_frame, decode_encode.
Qed.
