(* ===== verification/Connection.v ===== *)
(** * Connections of clients

    [src/transport/datastore/connection.rs]: a connection reads requests, serves each in a task
    of its own, and writes the responses in the order in which they are ready.  A handler is
    cut at its [await]: what it does before it is one definition, what it makes of the answer
    another.  [src/transport/datastore/server.rs] hands every connection the same queues. *)
From S2P Require Import Prelude Capnp ClientMessage RaftTypes QuorumMessage WriteProxy Query Codec.
From Stdlib Require Import Strings.String.

#[local] Open Scope Z_scope.
#[local] Open Scope kraft_scope.

Definition RPC_PUT_RECORD : Z := 1.
Definition RPC_GET_RECORD : Z := 2.

(** The capacity of the response channel. *)
Definition RESPONSE_CAPACITY : nat := 1000.

(** A string literal as the bytes of its text. *)
Definition text_of (s : string) : Text := String.list_byte_of_string s.

Section connection.
Context `{CC : ClientCapnp}.

(** ** Data *)

Record Queues := mkQueues {
  q_task_queue : list WriteBatch;
  q_query_queue : list QueryRequest;
  q_commit_index : Z
}.

Record ResponseMessage := mkResponseMessage {
  response_id : Z;
  response_rpc : Z;
  response_payload : list byte
}.

(** A frame of the codec: type, request id and payload. *)
Definition Frame : Type := Z * Z * list byte.

(** ** Parsing and building *)

Definition parse_put_request (payload : list byte) : option (Text * Data) :=
  let* (reader, _) := read_message_from_flat_slice payload in
  let* msg := put_request_root reader in
  let* id := put_id msg in
  let* key := to_str id in
  let* value := put_payload msg in
  Some (key, value).

Definition parse_get_request (payload : list byte) : option Text :=
  let* (reader, _) := read_message_from_flat_slice payload in
  let* msg := get_request_root reader in
  let* id := gq_id msg in
  to_str id.

Definition build_put_response (resp : WriteResponse) : list byte := response_bytes (response_message resp).

(** [None] is the panic of the builder. *)
Definition build_error_put_response (message : string) : option (list byte) :=
  let* response := build_owned_write_batch_response
    (mkInternalWriteBatchResponse
       (Some [mkInternalPutResponse (Some []) (Some Invalid) (Some (text_of message)) 0 (Some [])])
       (Some [])) in
  Some (response_bytes response).

Definition build_get_response (found : bool) (id : Text) (payload : Data) : list byte :=
  write_get_response (mkDatastoreGetResponse found (Some id) (Some payload)).

(** ** Handlers *)

(** Where the task of a request is: not started, waiting for its callback, or about to send
    its response. *)
Inductive Progress :=
| Spawned
| AwaitPut (callback : Callback)
| AwaitGet (callback : Callback) (key : Text)
| Sending (response : list byte).

(** [handle_put_record] up to its [await], with the fresh [batch_id] and callback. *)
Definition handle_put_record (batch_id : Text) (callback : Callback) (payload : list byte) (q : Queues)
    : option (Progress * Queues) :=
  match parse_put_request payload with
  | None =>
    let* response := build_error_put_response "parse error" in
    Some (Sending response, q)
  | Some (key, value) =>
    let* message := build_owned_write_batch
      (mkInternalWriteBatch (Some batch_id) (Some [mkInternalPutRequest (Some key) (Some value) 0])) in
    Some (AwaitPut callback,
          mkQueues (q_task_queue q ++ [mkWriteBatch batch_id message callback]) (q_query_queue q)
            (q_commit_index q))
  end.

(** Its answer: [None] is a closed channel. *)
Definition put_answered (resp : option WriteResponse) : option (list byte) :=
  match resp with
  | Some resp => Some (build_put_response resp)
  | None => build_error_put_response "internal error"
  end.

(** [handle_get_record] up to its [await]. *)
Definition handle_get_record (callback : Callback) (payload : list byte) (q : Queues) : Progress * Queues :=
  match parse_get_request payload with
  | None => (Sending (build_get_response false [] []), q)
  | Some key =>
    (AwaitGet callback key,
     mkQueues (q_task_queue q) (q_query_queue q ++ [mkQueryRequest key (q_commit_index q) callback])
       (q_commit_index q))
  end.

Definition get_answered (key : Text) (resp : option QueryResponse) : list byte :=
  match resp with
  | Some (Some value) => build_get_response true key value
  | Some None => build_get_response false key []
  | None => build_get_response false key []
  end.

Definition dispatch_request (batch_id : Text) (callback : Callback) (rpc_type : Z) (payload : list byte)
    (q : Queues) : option (Progress * Queues) :=
  if decide (rpc_type = RPC_PUT_RECORD) then handle_put_record batch_id callback payload q
  else if decide (rpc_type = RPC_GET_RECORD) then Some (handle_get_record callback payload q)
  else Some (Sending [], q).

(** ** A connection *)

(** [unread] are the frames the reader loop will still get, [jobs] the spawned tasks with the
    request each has captured, [channel] the response channel, [sent] the responses the writer
    has taken and written to [written]; [writer_open] is false once a write has failed. *)
Record Connection := mkConnection {
  unread : list Frame;
  jobs : list (Frame * Progress);
  channel : list ResponseMessage;
  sent : list ResponseMessage;
  written : list byte;
  writer_open : bool;
  queues : Queues
}.

(** The response message of the task of a request. *)
Definition response_to (f : Frame) (response : list byte) : ResponseMessage :=
  mkResponseMessage f.1.2 f.1.1 response.

(** One iteration of [write_responses] on the message [m]. *)
Definition write_response (m : ResponseMessage) (out : list byte) : ReadError + list byte :=
  write_frame (response_rpc m) (response_id m) (response_payload m) out.

(** [handle] on the frames [fs] of its reader loop. *)
Definition connection_start (fs : list Frame) (q : Queues) : Connection :=
  mkConnection fs [] [] [] [] true q.

(** The interleavings of the reader loop, the tasks, the writer and the rest of the node,
    which changes the queues and answers the callbacks. *)
Inductive connection_step : Connection -> Connection -> Prop :=
| C_read f fs js ch s o w q :
    connection_step (mkConnection (f :: fs) js ch s o w q)
      (mkConnection fs (js ++ [(f, Spawned)]) ch s o w q)
| C_dispatch fs js1 f js2 ch s o w q batch_id callback p q' :
    dispatch_request batch_id callback f.1.1 f.2 q = Some (p, q') ->
    connection_step (mkConnection fs (js1 ++ (f, Spawned) :: js2) ch s o w q)
      (mkConnection fs (js1 ++ (f, p) :: js2) ch s o w q')
| C_put_answer fs js1 f callback js2 ch s o w q resp response :
    put_answered resp = Some response ->
    connection_step (mkConnection fs (js1 ++ (f, AwaitPut callback) :: js2) ch s o w q)
      (mkConnection fs (js1 ++ (f, Sending response) :: js2) ch s o w q)
| C_get_answer fs js1 f callback key js2 ch s o w q resp :
    connection_step (mkConnection fs (js1 ++ (f, AwaitGet callback key) :: js2) ch s o w q)
      (mkConnection fs (js1 ++ (f, Sending (get_answered key resp)) :: js2) ch s o w q)
| C_send fs js1 f response js2 ch s o q :
    (List.length ch < RESPONSE_CAPACITY)%nat ->
    connection_step (mkConnection fs (js1 ++ (f, Sending response) :: js2) ch s o true q)
      (mkConnection fs (js1 ++ js2) (ch ++ [response_to f response]) s o true q)
| C_send_closed fs js1 f response js2 ch s o q :
    connection_step (mkConnection fs (js1 ++ (f, Sending response) :: js2) ch s o false q)
      (mkConnection fs (js1 ++ js2) ch s o false q)
| C_write fs js m ch s o o' q :
    write_response m o = inr o' ->
    connection_step (mkConnection fs js (m :: ch) s o true q)
      (mkConnection fs js ch (s ++ [m]) o' true q)
| C_write_error fs js m ch s o e q :
    write_response m o = inl e ->
    connection_step (mkConnection fs js (m :: ch) s o true q)
      (mkConnection fs js [] s o false q)
| C_node fs js ch s o w q q' :
    connection_step (mkConnection fs js ch s o w q) (mkConnection fs js ch s o w q').

(** ** What a response says *)

(** The responses a request can get. *)
Definition valid_response (f : Frame) (response : list byte) : Prop :=
  if decide (f.1.1 = RPC_PUT_RECORD) then
    match parse_put_request f.2 with
    | None => build_error_put_response "parse error" = Some response
    | Some _ => exists resp, put_answered resp = Some response
    end
  else if decide (f.1.1 = RPC_GET_RECORD) then
    match parse_get_request f.2 with
    | None => response = build_get_response false [] []
    | Some key => exists resp, response = get_answered key resp
    end
  else response = [].

(** What the progress of a task says about its request. *)
Definition progress_ok (f : Frame) (p : Progress) : Prop :=
  match p with
  | Spawned => True
  | AwaitPut _ => f.1.1 = RPC_PUT_RECORD /\ is_Some (parse_put_request f.2)
  | AwaitGet _ key => f.1.1 = RPC_GET_RECORD /\ parse_get_request f.2 = Some key
  | Sending response => valid_response f response
  end.

(** [m] answers the request [f] and no other. *)
Definition answers (f : Frame) (m : ResponseMessage) : Prop :=
  exists response, m = response_to f response /\ valid_response f response.

(** Every frame that was read is in exactly one place: in a task, in the channel, written, or
    lost because the writer is gone. *)
Record connection_inv (fs : list Frame) (c : Connection) : Prop := {
  ci_jobs : Forall (fun j => progress_ok j.1 j.2) (jobs c);
  ci_answers : exists read in_channel in_sent lost,
    fs = read ++ unread c /\ Forall2 answers in_channel (channel c) /\ Forall2 answers in_sent (sent c) /\
    read ≡ₚ (jobs c).*1 ++ in_channel ++ in_sent ++ lost /\ (writer_open c = true -> lost = []);
  ci_written : written c = mjoin ((fun m => encode_frame (response_rpc m) (response_id m) (response_payload m)) <$> sent c);
  ci_fit : Forall (fun m => 9 + vlen (response_payload m) <= MAX_FRAME_SIZE) (sent c)
}.

Lemma dispatch_request_ok f batch_id callback q p q' :
  dispatch_request batch_id callback f.1.1 f.2 q = Some (p, q') -> progress_ok f p.
Proof.
  unfold dispatch_request. case_decide as Hput; [|case_decide as Hget].
  - unfold handle_put_record. destruct (parse_put_request f.2) as [[key value]|] eqn:Hp.
    + destruct (build_owned_write_batch _); [|done]. simpl. intros ?. simplify_eq. simpl. by rewrite Hp.
    + destruct (build_error_put_response _) eqn:He; [|done]. simpl. intros ?. simplify_eq. simpl.
      unfold valid_response. by rewrite decide_True, Hp.
  - intros ?. simplify_eq. unfold handle_get_record in *.
    destruct (parse_get_request f.2) eqn:Hp; simplify_eq; simpl; [done|].
    unfold valid_response. by rewrite decide_False, decide_True, Hp.
  - intros ?. simplify_eq. simpl. unfold valid_response. by rewrite !decide_False.
Qed.

Lemma put_answered_ok f callback resp response :
  progress_ok f (AwaitPut callback) -> put_answered resp = Some response -> valid_response f response.
Proof.
  intros [Hf [x Hp]] Ha. unfold valid_response. rewrite decide_True, Hp by done. by exists resp.
Qed.

Lemma get_answered_ok f callback key resp :
  progress_ok f (AwaitGet callback key) -> valid_response f (get_answered key resp).
Proof.
  intros [Hf Hp]. unfold valid_response. rewrite decide_False, decide_True, Hp by (done || by rewrite Hf).
  by exists resp.
Qed.

(** A step that changes the progress of one task only. *)
Lemma connection_inv_progress fs us js1 f p p' js2 ch s o w q q' :
  progress_ok f p' -> connection_inv fs (mkConnection us (js1 ++ (f, p) :: js2) ch s o w q) ->
  connection_inv fs (mkConnection us (js1 ++ (f, p') :: js2) ch s o w q').
Proof.
  intros Hp [Hj Ha Hw Hf]. split; try done.
  - simpl in *. apply Forall_app in Hj as [Hj1 Hj2]. apply Forall_inv_tail in Hj2. apply Forall_app. by repeat constructor.
  - destruct Ha as (read & inc & ins & lost & Ha). exists read, inc, ins, lost.
    simpl in *. rewrite fmap_app, fmap_cons in *. exact Ha.
Qed.

Lemma write_response_ok m o o' :
  write_response m o = inr o' ->
  o' = o ++ encode_frame (response_rpc m) (response_id m) (response_payload m) /\
  9 + vlen (response_payload m) <= MAX_FRAME_SIZE.
Proof. unfold write_response, write_frame. case_decide; intros; simplify_eq. split; [done|lia]. Qed.

Lemma jobs_ok_middle (js1 js2 : list (Frame * Progress)) f p :
  Forall (fun j => progress_ok j.1 j.2) (js1 ++ (f, p) :: js2) ->
  progress_ok f p /\ Forall (fun j => progress_ok j.1 j.2) (js1 ++ js2).
Proof.
  intros [Hj1 Hj2]%Forall_app. pose proof (Forall_inv Hj2) as Hf. apply Forall_inv_tail in Hj2.
  split; [done|]. by apply Forall_app.
Qed.

Lemma connection_step_inv fs c c' : connection_step c c' -> connection_inv fs c -> connection_inv fs c'.
Proof.
  intros Hs Hinv. destruct Hs as [f fs' js ch s o w q|fs' js1 f js2 ch s o w q bid cb p q' Hd
    |fs' js1 f cb js2 ch s o w q resp response Hr|fs' js1 f cb key js2 ch s o w q resp
    |fs' js1 f response js2 ch s o q Hc|fs' js1 f response js2 ch s o q|fs' js m ch s o o' q Hw
    |fs' js m ch s o e q Hw|fs' js ch s o w q q'].
  - destruct Hinv as [Hj (read & inc & ins & lost & Heq & Hch & Hse & Hp & Hl) Hw Hf]. split; simpl in *; try done.
    + apply Forall_app. by repeat constructor.
    + exists (read ++ [f]), inc, ins, lost. rewrite Heq, <- (assoc_L (++)). split_and!; try done.
      rewrite fmap_app. simpl. rewrite Hp. solve_Permutation.
  - eapply connection_inv_progress; [|done]. by eapply dispatch_request_ok.
  - eapply connection_inv_progress; [|done]. pose proof (ci_jobs _ _ Hinv) as Hj. simpl in Hj.
    apply jobs_ok_middle in Hj as [Hj _]. by eapply put_answered_ok.
  - eapply connection_inv_progress; [|done]. pose proof (ci_jobs _ _ Hinv) as Hj. simpl in Hj.
    apply jobs_ok_middle in Hj as [Hj _]. by eapply get_answered_ok.
  - destruct Hinv as [Hj (read & inc & ins & lost & Heq & Hch & Hse & Hp & Hl) Hw Hf]. simpl in *.
    apply jobs_ok_middle in Hj as [Hj Hjs]. split; simpl; try done.
    exists read, (inc ++ [f]), ins, lost. split_and!; try done.
    + apply Forall2_app; [done|]. repeat constructor. by exists response.
    + rewrite Hp, !fmap_app, fmap_cons. simpl. solve_Permutation.
  - destruct Hinv as [Hj (read & inc & ins & lost & Heq & Hch & Hse & Hp & Hl) Hw Hf]. simpl in *.
    apply jobs_ok_middle in Hj as [Hj Hjs]. split; simpl; try done.
    exists read, inc, ins, (f :: lost). split_and!; try done.
    rewrite Hp, !fmap_app, fmap_cons. simpl. solve_Permutation.
  - apply write_response_ok in Hw as [-> Hfit].
    destruct Hinv as [Hj (read & inc & ins & lost & Heq & Hch & Hse & Hp & Hl) Hw Hf]. simpl in *.
    apply Forall2_cons_inv_r in Hch as (f & inc' & Hfm & Hch & ->). split; simpl; try done.
    + exists read, inc', (ins ++ [f]), lost. split_and!; try done.
      * apply Forall2_app; [done|]. by repeat constructor.
      * rewrite Hp. solve_Permutation.
    + rewrite fmap_app, join_app. simpl. by rewrite Hw, app_nil_r.
    + apply Forall_app. by repeat constructor.
  - destruct Hinv as [Hj (read & inc & ins & lost & Heq & Hch & Hse & Hp & Hl) Hw' Hf]. simpl in *.
    split; simpl; try done. exists read, [], ins, (inc ++ lost). split_and!; try done.
    rewrite Hp. solve_Permutation.
  - destruct Hinv as [Hj Ha Hw Hf]. by split.
Qed.

Lemma connection_start_inv fs q : connection_inv fs (connection_start fs q).
Proof. split; simpl; try done. exists [], [], [], []. by split_and!; try constructor. Qed.

Lemma connection_reachable_inv fs q c :
  rtc connection_step (connection_start fs q) c -> connection_inv fs c.
Proof.
  intros Hr. pose proof (connection_start_inv fs q) as Hstart.
  remember (connection_start fs q) as c0 eqn:H0. clear H0.
  induction Hr as [|c1 c2 c3 Hs _ IH]; [done|]. eauto using connection_step_inv.
Qed.

End connection.
