(* ===== verification/TcpClient.v ===== *)
(** * The client

    [src/tcp_client.rs]: a pipelining client of the datastore protocol.  A request reserves an
    id and registers the sender of its response, then its frame is written under a lock; a
    reader task hands every response to the sender registered under its id.  Connected to the
    server of [Connection.v], the client is one half of a system whose steps interleave
    freely. *)
From S2P Require Import Prelude Capnp CapnpInstance ClientMessage RaftTypes QuorumMessage WriteProxy Query Codec Connection.

#[local] Open Scope Z_scope.
#[local] Open Scope kraft_scope.

(** ** A pipelined connection *)

Section client.
Context `{CC : ClientCapnp}.

(** [build_put_request] and [build_get_request]. *)
Definition build_put_request (key : Text) (value : Data) : list byte :=
  write_put_request (mkInternalPutRequest (Some key) (Some value) 0).

Definition build_get_request (key : Text) : list byte :=
  write_get_request (mkDatastoreGetRequest (Some key)).

(** A request of the client: where its response goes, and its frame. *)
Definition Request : Type := Callback * Frame.

Definition request_id (r : Request) : Z := r.2.1.2.

(** [TcpConnection]; [out] is what has been written to the socket, [waiting] are the requests
    that wait for the lock of the writer and [delivered] the responses sent to callbacks.
    [on_wire] and [failed] record the requests written and refused. *)
Record TcpConnection := mkTcpConnection {
  pending : gmap Z Callback;
  next_request_id : Z;
  out : list byte;
  waiting : list Request;
  on_wire : list Request;
  failed : list Request;
  delivered : list (Callback * list byte)
}.

(** [TcpConnection::connect]. *)
Definition TcpConnection_new : TcpConnection := mkTcpConnection ∅ 1 [] [] [] [] [].

Implicit Types c : TcpConnection.

(** [send_request] until it asks for the lock. *)
Definition send_request (rpc_type : Z) (payload : list byte) (tx : Callback) c : TcpConnection :=
  let id := next_request_id c in
  mkTcpConnection (<[id := tx]> (pending c)) (id +! 1) (out c)
    (waiting c ++ [(tx, (rpc_type, id, payload))]) (on_wire c) (failed c) (delivered c).

(** The rest of [send_request], for a request that has got the lock ([rest] still wait). *)
Definition send_locked (r : Request) (rest : list Request) c : TcpConnection :=
  let '(rpc_type, id, payload) := r.2 in
  match write_frame rpc_type id payload (out c) with
  | inr out => mkTcpConnection (pending c) (next_request_id c) out rest (on_wire c ++ [r]) (failed c) (delivered c)
  | inl _ => mkTcpConnection (delete id (pending c)) (next_request_id c) (out c) rest (on_wire c)
               (failed c ++ [r]) (delivered c)
  end.

(** One iteration of [reader_loop] on the frame of [m]. *)
Definition receive_response (m : ResponseMessage) c : TcpConnection :=
  match pending c !! response_id m with
  | Some tx =>
    mkTcpConnection (delete (response_id m) (pending c)) (next_request_id c) (out c) (waiting c) (on_wire c)
      (failed c) (delivered c ++ [(tx, response_payload m)])
  | None => c
  end.

(** ** Client and server *)

(** [received] is the number of responses of the server the client has read. *)
Record System := mkSystem {
  client : TcpConnection;
  server : Connection;
  received : nat
}.

Definition System_start (q : Queues) : System := mkSystem TcpConnection_new (connection_start [] q) 0.

(** The frames that reach the server. *)
Definition arrive (fs : list Frame) (s : Connection) : Connection :=
  mkConnection (unread s ++ fs) (jobs s) (channel s) (sent s) (written s) (writer_open s) (queues s).

Inductive system_step : System -> System -> Prop :=
| Sys_send rpc_type payload tx c s n :
    0 <= rpc_type < 256 ->
    system_step (mkSystem c s n) (mkSystem (send_request rpc_type payload tx c) s n)
| Sys_write r c s n w1 w2 c' :
    waiting c = w1 ++ r :: w2 -> c' = send_locked r (w1 ++ w2) c ->
    system_step (mkSystem c s n) (mkSystem c' (arrive (drop (length (on_wire c)) (on_wire c')).*2 s) n)
| Sys_server c s s' n :
    connection_step s s' -> system_step (mkSystem c s n) (mkSystem c s' n)
| Sys_receive c s n m :
    sent s !! n = Some m -> system_step (mkSystem c s n) (mkSystem (receive_response m c) s (S n)).

(** ** The invariant *)

(** The requests ever sent. *)
Definition requests c : list Request := on_wire c ++ waiting c ++ failed c.

(** The ids of the responses the client has read. *)
Definition received_ids (s : Connection) (n : nat) : list Z := response_id <$> take n (sent s).

(** A response reached the callback of a request it answers. *)
Definition delivered_to c (m : ResponseMessage) (d : Callback * list byte) : Prop :=
  exists f, (d.1, f) ∈ on_wire c /\ answers f m /\ d.2 = response_payload m.

Definition frame_bytes (f : Frame) : list byte := encode_frame f.1.1 f.1.2 f.2.

Record system_inv (y : System) : Prop := {
  si_next : next_request_id (client y) = 1 + Z.of_nat (length (requests (client y)));
  si_ids : request_id <$> requests (client y) ≡ₚ seqZ 1 (Z.of_nat (length (requests (client y))));
  si_server : connection_inv (on_wire (client y)).*2 (server y);
  si_received : (received y <= length (sent (server y)))%nat;
  si_pending : forall id tx, pending (client y) !! id = Some tx <->
    exists r, r ∈ on_wire (client y) ++ waiting (client y) /\ request_id r = id /\ r.1 = tx /\
              id ∉ received_ids (server y) (received y);
  si_delivered : Forall2 (delivered_to (client y)) (take (received y) (sent (server y))) (delivered (client y));
  si_out : out (client y) = mjoin (frame_bytes <$> (on_wire (client y)).*2) /\
           Forall (fun f => 0 <= f.1.1 < 256 /\ 9 + vlen f.2 <= MAX_FRAME_SIZE) (on_wire (client y)).*2 /\
           Forall (fun r => 0 <= r.2.1.1 < 256) (waiting (client y))
}.

Lemma requests_send_locked r rest c :
  waiting c ≡ₚ r :: rest -> requests (send_locked r rest c) ≡ₚ requests c.
Proof.
  intros Hw. unfold requests, send_locked. destruct r as [tx [[rpc id] payload]]. simpl.
  destruct (write_frame _ _ _ _); simpl; rewrite Hw; solve_Permutation.
Qed.

(** Requests are told apart by their ids. *)
Lemma request_id_unique c r1 r2 n :
  request_id <$> requests c ≡ₚ seqZ 1 n -> r1 ∈ requests c -> r2 ∈ requests c ->
  request_id r1 = request_id r2 -> r1 = r2.
Proof.
  intros Hids [i Hi]%list_elem_of_lookup [j Hj]%list_elem_of_lookup Heq.
  assert (Hnd : NoDup (request_id <$> requests c)) by (rewrite Hids; apply NoDup_seqZ).
  assert (i = j); [|naive_solver].
  eapply NoDup_lookup; [done|by rewrite list_lookup_fmap, Hi|by rewrite list_lookup_fmap, Hj, Heq].
Qed.

Lemma request_id_range c r n :
  request_id <$> requests c ≡ₚ seqZ 1 n -> r ∈ requests c -> 1 <= request_id r < 1 + n.
Proof.
  intros Hids Hr. apply (list_elem_of_fmap_2 request_id) in Hr. rewrite Hids in Hr.
  by apply elem_of_seqZ in Hr.
Qed.

Lemma answers_id f m : answers f m -> response_id m = f.1.2.
Proof. by intros (response & -> & _). Qed.

Lemma answers_ids fs ms : Forall2 answers fs ms -> response_id <$> ms = (fun f => f.1.2) <$> fs.
Proof.
  induction 1 as [|f m fs ms Hf _ IH]; [done|]. rewrite !fmap_cons, IH. f_equal. by apply answers_id.
Qed.

(** Every response the server has sent answers a frame of its own that reached it. *)
Lemma sent_answers fs s :
  connection_inv fs s ->
  exists in_sent rest, fs ≡ₚ in_sent ++ rest /\ Forall2 answers in_sent (sent s) /\
    response_id <$> sent s = (fun f => f.1.2) <$> in_sent /\
    (writer_open s = true -> length rest = length (unread s) + length (jobs s) + length (channel s))%nat.
Proof.
  intros [_ (read & inc & ins & lost & Heq & Hch & Hse & Hp & Hl) _ _].
  exists ins, (unread s ++ (jobs s).*1 ++ inc ++ lost). split_and!; [|done|by apply answers_ids|].
  - rewrite Heq, Hp. solve_Permutation.
  - intros Hw. rewrite !length_app, length_fmap, (Hl Hw). apply Forall2_length in Hch. simpl. lia.
Qed.

(** ** The steps keep the invariant *)

Lemma frames_on_wire_id c : (fun f : Frame => f.1.2) <$> (on_wire c).*2 = request_id <$> on_wire c.
Proof. by rewrite <- list_fmap_compose. Qed.

Lemma sent_ids_nodup c s n :
  request_id <$> requests c ≡ₚ seqZ 1 n -> connection_inv (on_wire c).*2 s ->
  NoDup (response_id <$> sent s) /\
  (forall m, m ∈ sent s -> exists r, r ∈ on_wire c /\ answers r.2 m).
Proof.
  intros Hids Hs. destruct (sent_answers _ _ Hs) as (ins & rest & Hp & Hf & Hi & _).
  assert (Hnd : NoDup (request_id <$> requests c)) by (rewrite Hids; apply NoDup_seqZ).
  unfold requests in Hnd. rewrite fmap_app in Hnd. apply list_relations.list.NoDup_app in Hnd as (Hnd & _ & _).
  rewrite <- frames_on_wire_id, Hp, fmap_app in Hnd. apply list_relations.list.NoDup_app in Hnd as (Hnd & _ & _).
  split; [by rewrite Hi|]. intros m Hm.
  apply list_elem_of_lookup in Hm as [i Hm]. destruct (Forall2_lookup_r _ _ _ _ _ Hf Hm) as (f & Hfi & Ha).
  assert (Hin : f ∈ (on_wire c).*2) by (rewrite Hp; apply elem_of_app; left; by eapply list_elem_of_lookup_2).
  apply list_elem_of_fmap in Hin as (r & -> & Hr). by exists r.
Qed.

(** More frames on their way to the server. *)
Lemma connection_inv_arrive fs more s : connection_inv fs s -> connection_inv (fs ++ more) (arrive more s).
Proof.
  intros [Hj (read & inc & ins & lost & -> & Ha) Hw Hf]. split; try done.
  exists read, inc, ins, lost. simpl. by rewrite (assoc_L (++)).
Qed.

Lemma connection_step_sent s s' :
  connection_step s s' -> exists more, sent s' = sent s ++ more.
Proof. intros []; simpl; first [by exists []; rewrite app_nil_r|by eexists]. Qed.

Lemma received_keep s s' n :
  (n <= length (sent s))%nat -> connection_step s s' ->
  take n (sent s') = take n (sent s) /\ (n <= length (sent s'))%nat.
Proof.
  intros Hn (more & ->)%connection_step_sent. rewrite length_app, take_app_le by done. split; [done|lia].
Qed.

Lemma send_request_inv rpc payload tx c s n :
  0 <= rpc < 256 -> system_inv (mkSystem c s n) ->
  Z.of_nat (length (requests (send_request rpc payload tx c))) < 2 ^ 64 - 1 ->
  system_inv (mkSystem (send_request rpc payload tx c) s n).
Proof.
  intros Hrpc [Hn Hi Hs Hr Hp Hd Ho] Hlt. simpl in *.
  set (r := (tx, (rpc, next_request_id c, payload)) : Request).
  assert (Hreq : requests (send_request rpc payload tx c) ≡ₚ requests c ++ [r]).
  { unfold requests. simpl. fold r. solve_Permutation. }
  assert (Hlen : length (requests (send_request rpc payload tx c)) = S (length (requests c))).
  { rewrite Hreq, length_app. simpl. lia. }
  assert (Hfresh : forall r', r' ∈ requests c -> request_id r' <> next_request_id c).
  { intros r' Hr'. pose proof (request_id_range c r' _ Hi Hr'). lia. }
  split; simpl; try done.
  - rewrite Hlen in *. rewrite Hn, u64_add_small by lia. lia.
  - rewrite Hlen, Hreq, fmap_app, Hi. replace (Z.of_nat (S (length (requests c)))) with (Z.of_nat (length (requests c)) + 1) by lia.
    rewrite seqZ_app by lia. simpl. unfold request_id. simpl. by rewrite Hn.
  - intros id tx'. destruct (decide (id = next_request_id c)) as [->|Hne].
    + rewrite lookup_insert_eq. split.
      * intros [= ->]. exists r. split_and!; [set_solver|done|done|]. intros Hin.
        apply list_elem_of_fmap in Hin as (m & Hid & Hm).
        destruct (sent_ids_nodup c s _ Hi Hs) as [_ Hall]. destruct (Hall m) as (r' & Hr' & Ha).
        { eapply subseteq_take; done. }
        apply (Hfresh r'); [by apply elem_of_app; left|]. by rewrite Hid, (answers_id _ _ Ha).
      * intros (r' & Hin & Hid & <- & _). rewrite (assoc_L (++)) in Hin.
        apply elem_of_app in Hin as [Hin|Hin]; [|by apply list_elem_of_singleton in Hin as ->].
        exfalso. apply (Hfresh r'); [|done]. unfold requests. set_solver.
    + rewrite lookup_insert_ne by done. rewrite Hp. split.
      * intros (r' & Hin & Hid & Htx & Hnot). exists r'. split_and!; try done. set_solver.
      * intros (r' & Hin & Hid & Htx & Hnot). exists r'. split_and!; try done.
        rewrite (assoc_L (++)) in Hin. apply elem_of_app in Hin as [Hin|Hin]; [done|].
        apply list_elem_of_singleton in Hin as ->. by destruct Hne.
  - destruct Ho as (Ho & Hf & Hw). split_and!; try done. apply Forall_app. split; [done|]. by constructor.
Qed.

Lemma receive_response_inv c s n m :
  sent s !! n = Some m -> system_inv (mkSystem c s n) -> system_inv (mkSystem (receive_response m c) s (S n)).
Proof.
  intros Hm [Hn Hi Hs Hr Hp Hd Ho]. simpl in *.
  destruct (sent_ids_nodup c s _ Hi Hs) as [Hnd Hall].
  destruct (Hall m) as (r & Hrw & Ha); [by eapply list_elem_of_lookup_2|].
  assert (Hnot : response_id m ∉ received_ids s n).
  { intros Hin. apply list_elem_of_fmap in Hin as (m' & Hid & Hm').
    apply list_elem_of_lookup in Hm' as [i Hm']. apply lookup_take_Some in Hm' as [Hm' Hlt].
    assert (i = n); [|lia]. eapply NoDup_lookup; [exact Hnd|by rewrite list_lookup_fmap, Hm'|].
    rewrite list_lookup_fmap, Hm. simpl. by rewrite Hid. }
  assert (Hpend : pending c !! response_id m = Some r.1).
  { apply Hp. exists r. split_and!; try done; [set_solver|]. by rewrite (answers_id _ _ Ha). }
  assert (Htake : take (S n) (sent s) = take n (sent s) ++ [m]) by by apply take_S_r.
  assert (Hids : forall id, id ∉ received_ids s (S n) <-> id ∉ received_ids s n /\ response_id m <> id).
  { intros id. unfold received_ids. rewrite Htake, fmap_app, not_elem_of_app. change (response_id <$> [m]) with [response_id m].
    rewrite list_elem_of_singleton. naive_solver. }
  unfold receive_response. rewrite Hpend. split; simpl; try done.
  - apply lookup_lt_Some in Hm. lia.
  - intros id tx. rewrite lookup_delete_Some, Hp. split.
    + intros (Hne & r' & Hin & Hid & Htx & Hr'). exists r'. split_and!; try done. apply Hids. by split.
    + intros (r' & Hin & Hid & Htx & [Hr' Hne]%Hids). split; [done|]. by exists r'.
  - rewrite Htake. apply Forall2_app; [done|]. repeat constructor. exists r.2. simpl. by destruct r.
Qed.

Lemma write_frame_ok t id p o o' :
  write_frame t id p o = inr o' -> o' = o ++ encode_frame t id p /\ 9 + vlen p <= MAX_FRAME_SIZE.
Proof. unfold write_frame. case_decide; intros; simplify_eq. split; [done|lia]. Qed.

Lemma send_locked_inv r c s n w1 w2 :
  waiting c = w1 ++ r :: w2 -> system_inv (mkSystem c s n) ->
  system_inv (mkSystem (send_locked r (w1 ++ w2) c)
    (arrive (drop (length (on_wire c)) (on_wire (send_locked r (w1 ++ w2) c))).*2 s) n).
Proof.
  intros Hw [Hn Hi Hs Hr Hp Hd (Ho & Hf & Hwt)]. simpl in *.
  assert (Hreq : requests (send_locked r (w1 ++ w2) c) ≡ₚ requests c).
  { apply requests_send_locked. rewrite Hw. solve_Permutation. }
  assert (Hperm : waiting c ≡ₚ r :: (w1 ++ w2)) by (rewrite Hw; solve_Permutation).
  assert (Hwr : Forall (fun r => 0 <= r.2.1.1 < 256) (r :: (w1 ++ w2))) by by rewrite <- Hperm.
  pose proof (Forall_inv Hwr) as Hrange. apply Forall_inv_tail in Hwr.
  assert (Hlen : length (requests (send_locked r (w1 ++ w2) c)) = length (requests c)) by by rewrite Hreq.
  assert (Hnext : next_request_id (send_locked r (w1 ++ w2) c) = next_request_id c).
  { unfold send_locked. destruct r as [tx [[rpc id] payload]]. simpl. by destruct (write_frame _ _ _ _). }
  assert (Hmem : forall x, x ∈ on_wire c ++ waiting c <-> x = r \/ x ∈ on_wire c ++ (w1 ++ w2)).
  { intros x. rewrite !elem_of_app, Hw, elem_of_app, elem_of_cons. naive_solver. }
  split; cbn [client server received]; try done; [by rewrite Hnext, Hlen|by rewrite Hlen, Hreq|..];
    unfold send_locked; destruct r as [tx [[rpc id] payload]]; simpl in *;
    destruct (write_frame rpc id payload (out c)) as [e|o'] eqn:Hwf; simpl; rewrite ?drop_all, ?drop_app_length.
  - pose proof (connection_inv_arrive _ [] _ Hs) as Hs'. by rewrite app_nil_r in Hs'.
  - rewrite fmap_app. by apply connection_inv_arrive.
  - intros id' tx'. rewrite lookup_delete_Some, Hp. split.
    + intros (Hne & r' & Hin & Hid & Htx & Hnot). exists r'. split_and!; try done.
      apply Hmem in Hin as [->|Hin]; [by destruct Hne|done].
    + intros (r' & Hin & Hid & Htx & Hnot). assert (Hin' : r' ∈ on_wire c ++ waiting c) by (apply Hmem; by right).
      split; [|by exists r']. intros ->.
      assert (Hdup : NoDup (request_id <$> requests c)) by (rewrite Hi; apply NoDup_seqZ).
      unfold requests in Hdup. rewrite Hperm, !fmap_app in Hdup. simpl in Hdup.
      rewrite <- Permutation_middle in Hdup. apply list_relations.list.NoDup_cons in Hdup as [Hdup _].
      apply Hdup. change (request_id (tx, (rpc, id', payload))) with id'. rewrite <- Hid, (assoc_L (++)).
      apply elem_of_app. left. apply (list_elem_of_fmap_2 request_id) in Hin. by rewrite fmap_app in Hin.
  - intros id' tx'. rewrite Hp.
    assert (Hsame : (on_wire c ++ [(tx, (rpc, id, payload))]) ++ w1 ++ w2 ≡ₚ on_wire c ++ waiting c)
      by (rewrite Hperm; solve_Permutation).
    by setoid_rewrite Hsame.
  - done.
  - eapply Forall2_impl; [|exact Hd]. intros m d (f & Hin & ?). exists f. simpl.
    split; [apply elem_of_app; by left|done].
  - done.
  - apply write_frame_ok in Hwf as [-> Hfit]. rewrite !fmap_app, join_app, Ho. simpl. rewrite app_nil_r.
    split_and!; [done| |done]. apply Forall_app. split; [done|]. by constructor.
Qed.

Lemma system_step_requests y y' :
  system_step y y' -> (length (requests (client y)) <= length (requests (client y')))%nat.
Proof.
  intros [rpc payload tx c s n _|r c s n w1 w2 c' Hw ->|c s s' n _|c s n m _]; simpl.
  - unfold requests. simpl. rewrite !length_app. lia.
  - rewrite requests_send_locked; [done|]. rewrite Hw. solve_Permutation.
  - done.
  - unfold receive_response. by destruct (pending c !! response_id m).
Qed.

Lemma system_step_inv y y' :
  system_step y y' -> Z.of_nat (length (requests (client y'))) < 2 ^ 64 - 1 ->
  system_inv y -> system_inv y'.
Proof.
  intros [rpc payload tx c s n Hrpc|r c s n w1 w2 c' Hw ->|c s s' n Hs|c s n m Hm] Hlt Hinv.
  - by apply send_request_inv.
  - by apply send_locked_inv.
  - destruct Hinv as [Hn Hi Hc Hr Hp Hd Ho]. simpl in *. destruct (received_keep s s' n Hr Hs) as [Ht Hr'].
    split; simpl; try done; unfold received_ids in *; rewrite ?Ht; try done. by eapply connection_step_inv.
  - by apply receive_response_inv.
Qed.

Lemma system_start_inv q : system_inv (System_start q).
Proof.
  split; simpl; try done; [apply connection_start_inv|].
  intros id tx. rewrite lookup_empty. split; [done|]. by intros (r & Hr%elem_of_nil & _).
Qed.

Lemma system_reachable_inv q y :
  rtc system_step (System_start q) y -> Z.of_nat (length (requests (client y))) < 2 ^ 64 - 1 ->
  system_inv y.
Proof.
  intros Hr. revert y Hr.
  apply (rtc_ind_r (fun y => Z.of_nat (length (requests (client y))) < 2 ^ 64 - 1 -> system_inv y));
    [intros; apply system_start_inv|].
  intros y1 y2 _ Hs IH Hlt. eapply system_step_inv; [done..|]. apply IH.
  pose proof (system_step_requests _ _ Hs). lia.
Qed.

(** ** What the client gets *)

Lemma on_wire_read_back (fs : list Frame) fuel :
  (length fs < fuel)%nat ->
  Forall (fun f => 0 <= f.1.1 < 256 /\ u64 f.1.2 /\ 9 + vlen f.2 <= MAX_FRAME_SIZE) fs ->
  (read_frames fuel (mjoin (frame_bytes <$> fs))).1 = fs.
Proof.
  intros Hlt Hall. rewrite <- (app_nil_r (mjoin _)). unfold frame_bytes.
  rewrite read_frames_encoded by done. cbn [fst].
  assert (Hnil : forall k, (read_frames k []).1 = []) by by intros [|k].
  by rewrite Hnil, app_nil_r.
Qed.

(** The requests whose responses have been handed out, in that order. *)
Lemma delivered_requests y :
  system_inv y ->
  exists answered,
    answered ⊆+ on_wire (client y) /\ (delivered (client y)).*1 = answered.*1 /\
    Forall2 (fun r d => valid_response r.2 d.2) answered (delivered (client y)) /\
    request_id <$> answered = received_ids (server y) (received y).
Proof.
  intros [Hn Hi Hs Hrec Hp Hd _].
  assert (Hans : exists answered, Forall2 (fun r d => r.1 = d.1 /\ valid_response r.2 d.2) answered (delivered (client y)) /\
    Forall (fun r => r ∈ on_wire (client y)) answered /\
    request_id <$> answered = received_ids (server y) (received y)).
  { clear Hrec. unfold received_ids. induction Hd as [|m d ms ds (f & Hin & (resp & -> & Hv) & Hdp) _ IH].
    - exists []. by split_and!; constructor.
    - destruct IH as (answered & H1 & H2 & H3). exists ((d.1, f) :: answered). split_and!.
      + constructor; [|done]. simpl in *. by rewrite Hdp.
      + by constructor.
      + rewrite !fmap_cons, H3. done. }
  destruct Hans as (answered & Hda & Hw & Hids). exists answered. split_and!.
  - apply NoDup_submseteq; [|intros x Hx; rewrite Forall_forall in Hw; by apply Hw, list_elem_of_In].
    apply (NoDup_fmap_1 request_id). rewrite Hids. unfold received_ids.
    destruct (sent_ids_nodup (client y) _ _ Hi Hs) as [Hnd _].
    rewrite <- (take_drop (received y) (sent _)), fmap_app in Hnd.
    by apply list_relations.list.NoDup_app in Hnd as (? & _ & _).
  - symmetry. clear -Hda. induction Hda as [|r d rs ds [Heq _] _ IH]; [done|].
    rewrite !fmap_cons, Heq. f_equal. apply IH.
  - eapply Forall2_impl; [|exact Hda]. by intros r d [_ ?].
  - done.
Qed.

(** C25: Responses find their requests.  However the client's calls, the tasks of the server and
    the two directions of the connection interleave, every response the client hands out goes
    to the callback of a request the client has sent and answers that request, no request is
    answered twice, and the bytes of the client read back as its requests. *)
Theorem responses_match_requests q y :
  rtc system_step (System_start q) y -> Z.of_nat (length (requests (client y))) < 2 ^ 64 - 1 ->
  exists answered,
    answered ⊆+ on_wire (client y) /\
    (delivered (client y)).*1 = answered.*1 /\
    Forall2 (fun r d => valid_response r.2 d.2) answered (delivered (client y)) /\
    forall fuel, (length (on_wire (client y)) < fuel)%nat ->
      (read_frames fuel (out (client y))).1 = (on_wire (client y)).*2.
Proof.
  intros Hr Hlt. pose proof (system_reachable_inv q y Hr Hlt) as Hinv.
  destruct (delivered_requests y Hinv) as (answered & H1 & H2 & H3 & _). exists answered. split_and!; try done.
  destruct Hinv as [_ Hi _ _ _ _ (Ho & Hf & _)].
  intros fuel Hfuel. rewrite Ho. apply on_wire_read_back; [by rewrite length_fmap|].
  apply Forall_forall. intros f Hin. rewrite Forall_forall in Hf. destruct (Hf f Hin) as [? ?].
  apply list_elem_of_In in Hin. split; [done|]. split; [|done]. apply list_elem_of_fmap in Hin as (r & -> & Hin).
  pose proof (request_id_range (client y) r _ Hi) as Hrange. unfold requests in Hrange.
  rewrite elem_of_app in Hrange. specialize (Hrange (or_introl Hin)). unfold request_id, requests in *.
  unfold u64. lia.
Qed.



End client.

(** ** A concrete run

    A request of an unknown type travels to the server and its empty response back. *)

Definition echo_frame : Frame := (9, 1, []).

Definition echo_client (c : TcpConnection) : TcpConnection :=
  send_locked (5%nat, echo_frame) [] (send_request 9 [] 5%nat c).

Definition echo_end : System :=
  mkSystem (receive_response (mkResponseMessage 1 9 []) (echo_client TcpConnection_new))
    (mkConnection [] [] [] [mkResponseMessage 1 9 []] (encode_frame 9 1 []) true (mkQueues [] [] 0)) 1.

Lemma echo_reachable : rtc system_step (System_start (mkQueues [] [] 0)) echo_end.
Proof.
  eapply rtc_l; [apply (Sys_send 9 [] 5%nat); lia|].
  eapply rtc_l; [by apply (Sys_write (5%nat, echo_frame) _ _ _ [] [])|].
  eapply rtc_l; [apply Sys_server, (C_read echo_frame [])|].
  eapply rtc_l; [by apply Sys_server, (C_dispatch [] [] echo_frame [] _ _ _ _ _ [] 0%nat (Sending []))|].
  eapply rtc_l; [apply Sys_server, (C_send [] [] echo_frame [] []); simpl; unfold RESPONSE_CAPACITY; lia|].
  eapply rtc_l; [by apply Sys_server, (C_write [] [] (mkResponseMessage 1 9 []) [])|].
  eapply rtc_l; [by apply (Sys_receive _ _ 0 (mkResponseMessage 1 9 []))|].
  apply rtc_refl.
Qed.

Lemma responses_match_requests_witness :
  exists answered, answered ⊆+ on_wire (client echo_end) /\ answered.*1 = [5%nat].
Proof.
  destruct (responses_match_requests _ echo_end echo_reachable) as (answered & Hs & Hcb & _); [vm_compute; done|].
  exists answered. split; [exact Hs|]. rewrite <- Hcb. reflexivity.
Defined.

