(* ===== verification/ClientSpec.v ===== *)
(** * Requests of clients, end to end

    What becomes of a put and of a get on their way from the bytes of the client through the
    connection, the write proxy and the leader to the query worker and back: the operations of
    [TcpClient.v], [Connection.v], [WriteProxy.v], [Leader.v] and [Query.v] composed. *)
From stdpp Require Import strings.
From S2P Require Import Prelude Capnp CapnpInstance ClientMessage RaftTypes Bus Samples RaftSm LogModel QuorumMessage Leader LeaderSpec WriteProxy WriteProxySpec Query Codec Connection TcpClient.

Section requests.
Context `{CL : CapnpLaws} {CC : ClientCapnp} {CCL : ClientCapnpLaws}.
Context {B : Type} `{Bus B}.
Implicit Types s : SharedState B.
Abbreviation log s := (replication_log (volatile_server_state s)).

(** The one request of the batch of a put. *)
Definition put_of (key : Text) (value : Data) : InternalPutRequest :=
  mkInternalPutRequest (Some key) (Some value) 0.

Lemma put_of_built key value : put_request_built (put_of key value).
Proof. split; [by eexists|]. split; [by eexists|]. unfold u32. simpl. lia. Qed.

(** The messages a put and its value appear in are small enough for the reader. *)
Definition put_fits (batch_id key : Text) (value : Data) : Prop :=
  32 + blob_words (Some batch_id) + blob_words (Some key) + blob_words (Some value) <= traversal_limit_in_words.

Lemma blob_words_pos b : 1 <= blob_words b.
Proof. unfold blob_words. pose proof (vlen_nonneg (default [] b)). pose proof (Z.div_pos (vlen (default [] b)) 8). lia. Qed.

(** ** Parsing what the client builds *)

Lemma parse_put_request_built key value :
  utf8_valid key = true -> 15 + blob_words (Some key) + blob_words (Some value) <= traversal_limit_in_words ->
  parse_put_request (build_put_request key value) = Some (key, value).
Proof.
  intros Hk Hfit. unfold parse_put_request, build_put_request.
  destruct (read_write_put_request (mkInternalPutRequest (Some key) (Some value) 0) []) as (r & Hr & Hroot).
  { apply put_of_built. }
  { unfold put_request_words. simpl. lia. }
  rewrite app_nil_r in Hr. rewrite Hr. cbn [mbind option_bind]. rewrite Hroot. simpl.
  unfold to_str. by rewrite Hk.
Qed.

Lemma parse_get_request_built key :
  utf8_valid key = true -> 8 + blob_words (Some key) <= traversal_limit_in_words ->
  parse_get_request (build_get_request key) = Some key.
Proof.
  intros Hk Hfit. unfold parse_get_request, build_get_request.
  destruct (read_write_get_request (mkDatastoreGetRequest (Some key)) []) as (r & Hr & Hroot); [by eexists|done|].
  rewrite app_nil_r in Hr. rewrite Hr. cbn [mbind option_bind]. rewrite Hroot. simpl.
  unfold to_str. by rewrite Hk.
Qed.

(** What the client reads out of a get response. *)
Definition read_get_response (bytes : list byte) : option DatastoreGetResponse :=
  let* (reader, _) := read_message_from_flat_slice bytes in
  get_response_root reader.

Lemma read_get_response_built found key value :
  16 + blob_words (Some key) + blob_words (Some value) <= traversal_limit_in_words ->
  read_get_response (build_get_response found key value) =
  Some (mkDatastoreGetResponse found (Some key) (Some value)).
Proof.
  intros Hfit. unfold read_get_response, build_get_response.
  destruct (read_write_get_response (mkDatastoreGetResponse found (Some key) (Some value)) [])
    as (r & Hr & Hroot); [by eexists|by eexists|done|].
  rewrite app_nil_r in Hr. rewrite Hr. cbn [mbind option_bind]. by rewrite Hroot.
Qed.

(** ** A put in the log *)

Definition put_message (batch_id key : Text) (value : Data) : InternalWriteBatch :=
  mkInternalWriteBatch (Some batch_id) (Some [put_of key value]).

Lemma put_message_built batch_id key value : put_fits batch_id key value -> write_batch_built (put_message batch_id key value).
Proof.
  intros Hfit. apply write_batch_small_built.
  2: { unfold put_fits in Hfit. unfold write_batch_words, put_request_words. simpl in *. lia. }
  split; [by eexists|]. exists [put_of key value]. split; [done|]. constructor; [apply put_of_built|by constructor].
Qed.

Definition put_batch (batch_id key : Text) (value : Data) (cb : Callback) : WriteBatch :=
  mkWriteBatch batch_id (mkOwnedWriteBatch (write_write_batch (put_message batch_id key value))) cb.

Lemma handle_put_record_ok batch_id cb key value q :
  utf8_valid key = true -> put_fits batch_id key value ->
  handle_put_record batch_id cb (build_put_request key value) q =
  Some (AwaitPut cb, mkQueues (q_task_queue q ++ [put_batch batch_id key value cb]) (q_query_queue q) (q_commit_index q)).
Proof.
  intros Hk Hfit. pose proof (blob_words_pos (Some batch_id)). unfold handle_put_record.
  rewrite parse_put_request_built by (done || unfold put_fits in Hfit; lia).
  change (mkInternalWriteBatch _ _) with (put_message batch_id key value).
  by rewrite (build_owned_write_batch_ok _ (put_message_built _ _ _ Hfit)).
Qed.

Lemma put_batch_size batch_id key value cb :
  u64 (vlen value) -> put_fits batch_id key value -> WriteBatch_size (put_batch batch_id key value cb) = vlen value.
Proof.
  intros Hv Hfit. unfold WriteBatch_size, batch_size, put_batch. simpl.
  rewrite batch_with_message_written by by apply put_message_built. simpl. unfold payload_sum. simpl.
  unfold u64_add, u64 in *. rewrite Z.add_0_l. by rewrite Z.mod_small.
Qed.

Lemma all_requests_put batch_id key value cb : put_fits batch_id key value -> all_requests [put_batch batch_id key value cb] = [put_of key value].
Proof.
  intros Hfit. unfold all_requests, batch_requests, put_batch. simpl.
  by rewrite batch_with_message_written by by apply put_message_built.
Qed.

(** Applying an entry of one put sets the key. *)
Lemma apply_put_entry e key value m :
  utf8_valid key = true -> with_message e le_commands = Some (Some [put_of key value]) ->
  apply_commands e m = <[key := value]> m.
Proof.
  intros Hk He. unfold apply_commands, for_each_command, with_message in *.
  destruct (read_message_from_flat_slice _) as [[r rest]|]; [|done].
  destruct (log_entry_root r); [|done]. injection He as ->. simpl.
  unfold command_args, to_str. simpl. by rewrite Hk.
Qed.

Lemma replay_put l e key value :
  utf8_valid key = true -> with_message e le_commands = Some (Some [put_of key value]) ->
  replay (l ++ [e]) = <[key := value]> (replay l).
Proof. intros. rewrite replay_snoc. by apply apply_put_entry. Qed.

(** C13: A client reads what it wrote.  The bytes of a put that name a key in UTF-8, and are
    small enough for the reader of the messages, become one
    batch in the queue of the write proxy; the proxy of the leader hands it, combined with no
    other, to its state machine, which appends one entry to the log; in the map of a query
    worker that has applied this log the key has the written value and every other key the
    value it had before; and the bytes of a get for the key become a query at the current
    commit index that is answered with exactly this value. *)
Theorem put_then_get env key value batch_id combined_id cb cb' p q s w :
  utf8_valid key = true -> u64 (vlen value) -> vlen value <= max_batch_size p -> 0 < max_batch_size p ->
  q_task_queue q = [] -> put_fits batch_id key value -> put_fits combined_id key value ->
  leader_log_wf s -> leader_ranges s -> chan_open (persistence_work s) = true ->
  let q' := mkQueues [put_batch batch_id key value cb] (q_query_queue q) (q_commit_index q) in
  dispatch_request batch_id cb RPC_PUT_RECORD (build_put_request key value) q = Some (AwaitPut cb, q') /\
  (write_queue p = mkWriteQueue (q_task_queue q') None ->
   exists p' combined e s',
     dispatch_next_batch (wp_self_id p) combined_id p = Some p' /\ write_queue p' = mkWriteQueue [] None /\
     wp_task_queue p' = wp_task_queue p ++ [mkLocalRaftMessage (RM_WriteBatch combined) (wp_next_channel p)] /\
     Leader.write_batch env combined (wp_next_channel p) s = Some s' /\ log s' = log s ++ [e] /\
     replay (log s') = <[key := value]> (replay (log s)) /\
     (query_structure w = replay (log s') ->
      exists request,
        dispatch_request batch_id cb' RPC_GET_RECORD (build_get_request key) q' =
          Some (AwaitGet cb' key, mkQueues (q_task_queue q') (q_query_queue q' ++ [request]) (q_commit_index q')) /\
        query_index request = q_commit_index q /\
        query_answers (handle_query request w) = query_answers w ++ [(cb', Some value)] /\
        read_get_response (get_answered key (Some (Some value))) =
          Some (mkDatastoreGetResponse true (Some key) (Some value)))).
Proof.
  intros Hk Hv Hmax Hpos Hq Hfit Hfit' Hs Hr Hopen q'. pose proof (blob_words_pos (Some batch_id)) as Hid. split.
  { unfold dispatch_request. rewrite decide_True by done. by rewrite handle_put_record_ok, Hq. }
  intros Hwq. set (b := put_batch batch_id key value cb) in *.
  assert (Hnext : next_write_batch (max_batch_size p) (write_queue p) = ([b], bool_decide (max_batch_size p <= vlen value), mkWriteQueue [] None)).
  { rewrite Hwq. unfold next_write_batch. simpl. rewrite decide_True by done. unfold b.
    rewrite put_batch_size, u64_add_0_r by done. rewrite decide_True by done. case_decide;
      [rewrite bool_decide_false by lia|rewrite bool_decide_true by lia]; done. }
  set (combined := mkOwnedWriteBatch (write_write_batch (put_message combined_id key value))).
  assert (Hprep : prepare_batch_and_callbacks combined_id [b] = Some (combined, collect_callbacks [b])).
  { assert (Heq : combined_batch combined_id [b] = put_message combined_id key value)
      by (unfold combined_batch, b; by rewrite all_requests_put).
    rewrite prepare_batch_eq by (unfold b; by rewrite all_requests_put). rewrite Heq.
    by rewrite (build_owned_write_batch_ok _ (put_message_built _ _ _ Hfit')). }
  assert (Hc : commands_fit [put_of key value]).
  { unfold commands_fit, commands_words, put_request_words, put_fits in *. simpl in *. lia. }
  destruct (write_batch_log env (put_message combined_id key value) [put_of key value] (wp_next_channel p) s Hs Hr Hopen
    (put_message_built _ _ _ Hfit') eq_refl) as (s' & Hw & Hlog); [done|done|].
  destruct (batch_entry_fields env (put_message combined_id key value) [put_of key value] s Hs Hr
    (put_message_built _ _ _ Hfit') eq_refl Hc) as (_ & _ & _ & Hcmd).
  assert (Hreplay : replay (log s') = <[key := value]> (replay (log s))) by (rewrite Hlog; by apply replay_put).
  unfold dispatch_next_batch. rewrite Hnext. rewrite decide_False by done. rewrite Hprep.
  cbn [mbind option_bind wp_self_id]. rewrite decide_True by done.
  eexists _, combined, _, s'. split; [reflexivity|]. split_and!; try done.
  intros Hstore. exists (mkQueryRequest key (q_commit_index q) cb'). split_and!; try done.
  - unfold dispatch_request. rewrite decide_False, decide_True by done. unfold handle_get_record.
    pose proof (blob_words_pos (Some value)). rewrite parse_get_request_built; [done..|unfold put_fits in Hfit; lia].
  - simpl. by rewrite Hstore, Hreplay, lookup_insert_eq.
  - apply read_get_response_built. unfold put_fits in Hfit. lia.
Qed.

(** C40: A request that is not understood changes nothing.  Bytes that are not a put with a
    UTF-8 key are answered with a response that carries one [Invalid] with the text
    "parse error", bytes that are not a get are answered as a key that was not found, and an
    unknown request type gets an empty response; the queues of the node stay as they are. *)
Theorem bad_request_answered batch_id cb rpc payload q :
  (rpc = RPC_PUT_RECORD -> parse_put_request payload = None ->
     exists response, dispatch_request batch_id cb rpc payload q = Some (Sending response, q) /\
       response_with_message (mkOwnedWriteBatchResponse response) wr_responses =
         Some (Some [mkInternalPutResponse (Some []) (Some Invalid) (Some (text_of "parse error"%string)) 0 (Some [])])) /\
  (rpc = RPC_GET_RECORD -> parse_get_request payload = None ->
     exists response, dispatch_request batch_id cb rpc payload q = Some (Sending response, q) /\
       read_get_response response = Some (mkDatastoreGetResponse false (Some []) (Some []))) /\
  (rpc <> RPC_PUT_RECORD -> rpc <> RPC_GET_RECORD ->
     dispatch_request batch_id cb rpc payload q = Some (Sending [], q)).
Proof.
  unfold dispatch_request. split_and!.
  - intros -> Hp. rewrite decide_True by done. unfold handle_put_record, build_error_put_response. rewrite Hp.
    match goal with |- context [build_owned_write_batch_response ?m] => set (msg := m) end.
    assert (Hb : write_batch_response_built msg).
    { apply write_batch_response_small_built; [|by vm_compute].
      split; [by eexists|]. eexists. split; [done|]. constructor; [|by constructor].
      unfold put_response_built, u32. simpl. split_and!; try (by eexists); lia. }
    rewrite build_owned_write_batch_response_ok by done. cbn [mbind option_bind].
    eexists. split; [done|]. simpl. by rewrite response_with_message_written.
  - intros -> Hp. rewrite decide_False, decide_True by done. unfold handle_get_record. rewrite Hp.
    eexists. split; [done|]. by apply read_get_response_built.
  - intros. by rewrite !decide_False.
Qed.

End requests.

(** ** Concrete runs *)

Definition sample_key : Text := [Init.Byte.x6b].
Definition sample_value : Data := [Init.Byte.x76].

Definition idle_queues : Queues := mkQueues [] [] 0.

(** The proxy of the leader, node 1, that finds the batch of the sample put. *)
Definition leader_proxy : WriteProxy :=
  WriteProxy_new [put_batch [Init.Byte.x62] sample_key sample_value 3%nat] 512 [] 1 5 [[]; []].

Lemma put_then_get_witness :
  exists p' combined e s',
    dispatch_next_batch 1 [Init.Byte.x63] leader_proxy = Some p' /\
    Leader.write_batch sample_env combined 0%nat fresh_node = Some s' /\
    replication_log (volatile_server_state s') = [e] /\
    replay (replication_log (volatile_server_state s')) = {[ sample_key := sample_value ]}.
Proof.
  destruct fresh_node_wf as [Hwf Hr].
  destruct (put_then_get sample_env sample_key sample_value [Init.Byte.x62] [Init.Byte.x63] 3%nat 4%nat
    leader_proxy idle_queues fresh_node (QueryWorker_new [] [])) as [_ Hput];
    [done|unfold u64; vm_compute; split; done|vm_compute; done|vm_compute; done|done|by vm_compute|by vm_compute|exact Hwf|exact Hr|done|].
  destruct (Hput eq_refl) as (p' & combined & e & s' & Hd & _ & _ & Hw & Hl & Hrep & _).
  exists p', combined, e, s'. split_and!; [exact Hd|exact Hw|exact Hl|]. rewrite Hrep. reflexivity.
Defined.

Lemma bad_request_answered_witness :
  dispatch_request [] 0%nat 9 [Init.Byte.x00] idle_queues = Some (Sending [], idle_queues).
Proof. apply (bad_request_answered [] 0%nat 9 [Init.Byte.x00] idle_queues); done. Defined.
