(* ===== verification/LoadTest.v ===== *)
(** * The load test

    The rest of [src/tcp_client.rs]: pools of connections used in turn, the collector of
    latencies with its percentiles, and the loop of a load test, which keeps at most
    [concurrency] requests open.  What the tasks of the loop send is in [LoadRequests.v]. *)
From Stdlib Require Import SpecFloat.
From S2P Require Import Prelude Float64 Capnp NetAddr TcpClient.
From stdpp Require Import sorting.

#[local] Open Scope Z_scope.
#[local] Open Scope kraft_scope.

(** ** Configuration *)

Record LoadTestConfig := mkLoadTestConfig {
  concurrency : nat;
  max_requests : Z;
  checkpoint_interval_secs : Z;
  endpoints : list SocketAddr;
  timeout_secs : Z;
  connections_per_endpoint : nat
}.

(** [Default]: three ports of the loopback address. *)
Definition LoadTestConfig_default : LoadTestConfig :=
  mkLoadTestConfig 1000 500000 5
    ((fun p => V6 [0; 0; 0; 0; 0; 0; 0; 1] 0 p) <$> [49011; 49012; 49013]) 5 4.

(** ** Metrics *)

Record MetricsCollector := mkMetricsCollector {
  latencies : list Z;
  completed : Z;
  errors : Z
}.

Definition MetricsCollector_new : MetricsCollector := mkMetricsCollector [] 0 0.

Implicit Types m : MetricsCollector.

Definition record_latency (latency_micros : Z) m : MetricsCollector :=
  mkMetricsCollector (latencies m ++ [latency_micros]) (completed m +! 1) (errors m).

Definition record_error m : MetricsCollector :=
  mkMetricsCollector (latencies m) (completed m) (errors m +! 1).

(** [((len as f64) * percentile / 100.0) as usize], for the whole percentiles of the code. *)
Definition percentile_index (len percentile : Z) : Z :=
  f64_to_usize (f64_div (f64_mul (f64_of_Z len) (f64_of_Z percentile)) (f64_of_Z 100)).

Definition calculate_percentile (sorted_data : list Z) (percentile : Z) : Z :=
  if decide (sorted_data = []) then 0
  else default 0 (vget sorted_data (Z.min (percentile_index (vlen sorted_data) percentile) (vlen sorted_data - 1))).

(** [std::time::Duration]. *)
Record Duration := mkDuration { secs : Z; nanos : Z }.

Definition as_secs_f64 (d : Duration) : spec_float :=
  f64_add (f64_of_Z (secs d)) (f64_div (f64_of_Z (nanos d)) (f64_of_Z 1000000000)).

Record MetricsSnapshot := mkMetricsSnapshot {
  ms_completed : Z;
  ms_errors : Z;
  elapsed : Duration;
  p50_micros : Z;
  p75_micros : Z;
  p95_micros : Z;
  p99_micros : Z;
  min_micros : Z;
  max_micros : Z;
  avg_micros : spec_float;
  throughput_rps : spec_float
}.

(** [sort_unstable] of integers. *)
Definition sort_latencies (l : list Z) : list Z := merge_sort Z.le l.

(** [iter().sum()] of [i64]s. *)
Definition sum_i64 (l : list Z) : Z := fold_left (fun acc x => (acc + x + 2 ^ 63) `mod` 2 ^ 64 - 2 ^ 63) l 0.

(** [snapshot], [elapsed] after the start; the latencies stay sorted. *)
Definition snapshot (elapsed : Duration) m : MetricsSnapshot * MetricsCollector :=
  let l := sort_latencies (latencies m) in
  let e := as_secs_f64 elapsed in
  (mkMetricsSnapshot (completed m) (errors m) elapsed
     (if decide (l = []) then 0 else calculate_percentile l 50)
     (if decide (l = []) then 0 else calculate_percentile l 75)
     (if decide (l = []) then 0 else calculate_percentile l 95)
     (if decide (l = []) then 0 else calculate_percentile l 99)
     (if decide (l = []) then 0 else default 0 (head l))
     (if decide (l = []) then 0 else default 0 (vlast l))
     (if decide (l = []) then f64_of_Z 0 else f64_div (f64_of_Z (sum_i64 l)) (f64_of_Z (vlen l)))
     (if f64_lt (f64_of_Z 0) e then f64_div (f64_of_Z (completed m)) e else f64_of_Z 0),
   mkMetricsCollector l (completed m) (errors m)).

(** ** Pools *)

(** A connection is a name. *)
Record EndpointPool := mkEndpointPool {
  connections : list nat;
  next_conn : Z
}.

(** [EndpointPool::get_connection]; [None] is the panic of a remainder by zero. *)
Definition endpoint_get_connection (p : EndpointPool) : option (nat * EndpointPool) :=
  if decide (connections p = []) then None
  else
    let* conn := vget (connections p) (next_conn p `mod` vlen (connections p)) in
    Some (conn, mkEndpointPool (connections p) (next_conn p +! 1)).

Record TcpConnectionPool := mkTcpConnectionPool {
  pools : list EndpointPool;
  next_pool : Z
}.

(** [TcpConnectionPool::get_connection]. *)
Definition get_connection (p : TcpConnectionPool) : option (nat * TcpConnectionPool) :=
  if decide (pools p = []) then None
  else
    let i := Z.to_nat (next_pool p `mod` vlen (pools p)) in
    let* pool := pools p !! i in
    let* (conn, pool) := endpoint_get_connection pool in
    Some (conn, mkTcpConnectionPool (<[i := pool]> (pools p)) (next_pool p +! 1)).

(** [EndpointPool::new]: [connect] says whether the attempt after [made] connections succeeds;
    a connection is named by its place among those made. *)
Fixpoint connect_pool (connect : list SocketAddr -> SocketAddr -> bool) (addr : SocketAddr) (pool_size : nat)
    (made : list SocketAddr) : option (list nat * list SocketAddr) :=
  match pool_size with
  | O => Some ([], made)
  | S pool_size =>
    if connect made addr then
      let* (conns, made') := connect_pool connect addr pool_size (made ++ [addr]) in
      Some (length made :: conns, made')
    else None
  end.

Definition EndpointPool_new (connect : list SocketAddr -> SocketAddr -> bool) (addr : SocketAddr) (pool_size : nat)
    (made : list SocketAddr) : option (EndpointPool * list SocketAddr) :=
  let* (connections, made) := connect_pool connect addr pool_size made in
  Some (mkEndpointPool connections 0, made).

(** [TcpConnectionPool::new]; [None] is the first error of [connect]. *)
Fixpoint connect_pools (connect : list SocketAddr -> SocketAddr -> bool) (endpoints : list SocketAddr)
    (connections_per_endpoint : nat) (made : list SocketAddr) : option (list EndpointPool * list SocketAddr) :=
  match endpoints with
  | [] => Some ([], made)
  | addr :: endpoints =>
    let* (pool, made) := EndpointPool_new connect addr connections_per_endpoint made in
    let* (pools, made) := connect_pools connect endpoints connections_per_endpoint made in
    Some (pool :: pools, made)
  end.

Definition TcpConnectionPool_new (connect : list SocketAddr -> SocketAddr -> bool) (endpoints : list SocketAddr)
    (connections_per_endpoint : nat) : option (TcpConnectionPool * list SocketAddr) :=
  let* (pools, made) := connect_pools connect endpoints connections_per_endpoint [] in
  Some (mkTcpConnectionPool pools 0, made).

Definition total_connections (p : TcpConnectionPool) : nat :=
  sum_list_with (fun pool => length (connections pool)) (pools p).

(** [TcpConnectionPool::close]: the connections whose writers are shut down, in this order. *)
Definition close (p : TcpConnectionPool) : list nat := mjoin (connections <$> pools p).

(** ** The loop of a load test *)

(** [next_request] is the shared counter, [permits] the semaphore, [running] the requests that
    hold a permit; [reporting] says that the task that logs checkpoints has not ended. *)
Record LoadTest := mkLoadTest {
  next_request : Z;
  permits : nat;
  running : list Z;
  metrics : MetricsCollector;
  reporting : bool
}.

Definition LoadTest_start (config : LoadTestConfig) : LoadTest :=
  mkLoadTest 0 (concurrency config) [] MetricsCollector_new true.

(** The task that logs checkpoints goes on until everything is completed. *)
Definition keeps_reporting (config : LoadTestConfig) m : bool := negb (max_requests config <=? completed m).

(** [result] is the latency of a request that was answered in time, or nothing. *)
Inductive load_test_step (config : LoadTestConfig) : LoadTest -> LoadTest -> Prop :=
| Load_spawn n p r m c :
    n < max_requests config ->
    load_test_step config (mkLoadTest n (S p) r m c) (mkLoadTest (n +! 1) p (r ++ [n]) m c)
| Load_finish n p r1 id r2 m c (result : option Z) :
    load_test_step config (mkLoadTest n p (r1 ++ id :: r2) m c)
      (mkLoadTest n (S p) (r1 ++ r2)
         (match result with Some latency => record_latency latency m | None => record_error m end) c)
| Load_checkpoint n p r m elapsed :
    load_test_step config (mkLoadTest n p r m true)
      (mkLoadTest n p r (snapshot elapsed m).2 (keeps_reporting config m)).

(** The loop has ended and every task was joined. *)
Definition finished (config : LoadTestConfig) (t : LoadTest) : Prop :=
  max_requests config <= next_request t /\ running t = [].

(** ** Percentiles *)

(** The rounding of [percentile_index] never reaches the next integer. *)
Lemma percentile_index_eq len p : 0 <= len < 2 ^ 39 -> 0 <= p <= 100 -> percentile_index len p = len * p / 100.
Proof.
  intros Hlen Hp. unfold percentile_index. destruct (Z.eq_dec len 0) as [->|Hl].
  { destruct (Z.eq_dec p 0) as [->|]; [done|]. by destruct (f64_of_Z_exact p) as (k & m & -> & _); [lia|]. }
  destruct (Z.eq_dec p 0) as [->|Hp0].
  { rewrite Z.mul_0_r. by destruct (f64_of_Z_exact len) as (k & m & -> & _); [lia|]. }
  rewrite f64_mul_exact, f64_quotient_trunc by nia. done.
Qed.

Lemma calculate_percentile_lookup l p :
  l <> [] -> vlen l < 2 ^ 39 -> 0 <= p <= 100 ->
  exists i, vget l i = Some (calculate_percentile l p) /\ i = Z.min (vlen l * p / 100) (vlen l - 1) /\ 0 <= i.
Proof.
  intros Hne Hlen Hp. unfold calculate_percentile. rewrite decide_False by done.
  assert (0 < vlen l) by (destruct l; [done|unfold vlen; simpl; lia]).
  rewrite percentile_index_eq by lia. assert (0 <= vlen l * p / 100) by (apply Z.div_pos; nia).
  set (i := Z.min _ _). destruct (vget_is_Some l i) as [x Hx]; [lia|].
  exists i. rewrite Hx. split; [done|]. split; [done|lia].
Qed.

Lemma sorted_lookup_le (l : list Z) i j x y :
  StronglySorted Z.le l -> l !! i = Some x -> l !! j = Some y -> (i <= j)%nat -> x <= y.
Proof.
  intros Hs. revert i j. induction Hs as [|a l Hs IH Ha]; intros i j Hi Hj Hle; [done|].
  destruct i as [|i], j as [|j]; simpl in *; simplify_eq; try lia.
  - rewrite Forall_forall in Ha. apply Ha. by eapply list_elem_of_lookup_2.
  - apply (IH i j); done || lia.
Qed.

Lemma sort_latencies_spec l : StronglySorted Z.le (sort_latencies l) /\ sort_latencies l ≡ₚ l.
Proof. split; [apply (StronglySorted_merge_sort Z.le)|apply merge_sort_Permutation]. Qed.

(** The elements up to a position of a sorted list are not larger than the one there. *)
Lemma sorted_count_le (l : list Z) i x :
  StronglySorted Z.le l -> l !! i = Some x -> (S i <= length (filter (fun y => y <= x)%Z l))%nat.
Proof.
  intros Hs Hi. pose proof (lookup_lt_Some _ _ _ Hi).
  rewrite <- (take_drop (S i) l), filter_app, length_app.
  rewrite (filter_all _ (take (S i) l)); [rewrite length_take; lia|].
  intros y [j Hj]%list_elem_of_lookup. apply lookup_take_Some in Hj as [Hj Hlt].
  apply (sorted_lookup_le l j i y x Hs Hj Hi). lia.
Qed.

Lemma calculate_percentile_mono l p p' :
  StronglySorted Z.le l -> l <> [] -> vlen l < 2 ^ 39 -> 0 <= p <= p' -> p' <= 100 ->
  calculate_percentile l p <= calculate_percentile l p'.
Proof.
  intros Hs Hne Hlen Hp Hp'.
  destruct (calculate_percentile_lookup l p) as (i & Hi & -> & Hi0); [done|lia|lia|].
  destruct (calculate_percentile_lookup l p') as (j & Hj & -> & Hj0); [done|lia|lia|].
  apply vget_Some in Hi as [_ Hi], Hj as [_ Hj]. eapply sorted_lookup_le; [done..|].
  pose proof (vlen_nonneg l). assert (vlen l * p / 100 <= vlen l * p' / 100) by (apply Z.div_le_mono; nia). lia.
Qed.

(** The reported percentiles are order statistics of the recorded latencies: a percentile
    is one of them, at least that percentage of them is not larger, the percentiles grow with
    the percentage, and the reported minimum and maximum bound every latency. *)
Theorem percentiles_are_order_statistics d m p p' :
  latencies m <> [] -> vlen (latencies m) < 2 ^ 39 -> 0 <= p <= p' -> p' <= 100 ->
  let sorted := latencies (snapshot d m).2 in
  sorted ≡ₚ latencies m /\
  calculate_percentile sorted p ∈ latencies m /\
  vlen sorted * p <= 100 * vlen (filter (fun x => x <= calculate_percentile sorted p) sorted) /\
  calculate_percentile sorted p <= calculate_percentile sorted p' /\
  Forall (fun x => min_micros (snapshot d m).1 <= x <= max_micros (snapshot d m).1) (latencies m).
Proof.
  intros Hne Hlen Hp Hp' sorted. destruct (sort_latencies_spec (latencies m)) as [Hs Hperm].
  change (sort_latencies (latencies m)) with sorted in Hs, Hperm.
  assert (Hsne : sorted <> []).
  { intros Hnil. rewrite Hnil in Hperm. apply Permutation_nil_l in Hperm. by symmetry in Hperm. }
  assert (Hslen : vlen sorted < 2 ^ 39) by (unfold vlen in *; by rewrite Hperm).
  destruct (calculate_percentile_lookup sorted p) as (i & Hi & Heq & Hi0); [done|done|lia|].
  apply vget_Some in Hi as [_ Hi]. split_and!; [done| | |by apply calculate_percentile_mono|].
  - rewrite <- Hperm. by eapply list_elem_of_lookup_2.
  - pose proof (sorted_count_le sorted _ _ Hs Hi) as Hc. unfold vlen in *.
    set (n := Z.of_nat (length sorted)) in *.
    pose proof (Z.div_mod (n * p) 100 ltac:(done)). pose proof (Z.mod_pos_bound (n * p) 100 ltac:(done)). nia.
  - simpl. change (sort_latencies (latencies m)) with sorted. rewrite !decide_False by done.
    apply Forall_lookup. intros k x Hk. assert (Hin : x ∈ sorted) by (rewrite Hperm; by eapply list_elem_of_lookup_2).
    apply list_elem_of_lookup in Hin as [j Hj]. pose proof (lookup_lt_Some _ _ _ Hj).
    destruct (lookup_lt_is_Some_2 sorted 0) as [lo Hlo]; [lia|].
    destruct (lookup_lt_is_Some_2 sorted (pred (length sorted))) as [hi Hhi]; [lia|].
    rewrite head_lookup, Hlo. unfold vlast. rewrite last_lookup, Hhi. simpl.
    split; eapply sorted_lookup_le; try done; lia.
Qed.

(** ** Pools are used in turn *)

(** [n] calls of [get_connection] on a pool. *)
Fixpoint take_connections (n : nat) (p : EndpointPool) : option (list nat * EndpointPool) :=
  match n with
  | O => Some ([], p)
  | S n =>
    let* (conn, p) := endpoint_get_connection p in
    let* (conns, p) := take_connections n p in
    Some (conn :: conns, p)
  end.

Lemma endpoint_get_connection_ok p :
  connections p <> [] ->
  exists conn, vget (connections p) (next_conn p `mod` vlen (connections p)) = Some conn /\
    endpoint_get_connection p = Some (conn, mkEndpointPool (connections p) (next_conn p +! 1)).
Proof.
  intros Hne. unfold endpoint_get_connection. rewrite decide_False by done.
  assert (0 < vlen (connections p)) by (destruct (connections p); [done|unfold vlen; simpl; lia]).
  destruct (vget_is_Some (connections p) (next_conn p `mod` vlen (connections p))) as [conn Hc];
    [by apply Z.mod_pos_bound|]. exists conn. by rewrite Hc.
Qed.

(** A pool hands out its connections in turn: the first round of calls after the start of
    a new pool returns every connection once, in the order of the pool, and starts over. *)
Theorem pool_is_round_robin conns :
  conns <> [] -> vlen conns < 2 ^ 64 ->
  take_connections (length conns) (mkEndpointPool conns 0) = Some (conns, mkEndpointPool conns (vlen conns)) /\
  endpoint_get_connection (mkEndpointPool conns (vlen conns)) =
    (fun conn => (conn, mkEndpointPool conns (vlen conns +! 1))) <$> head conns.
Proof.
  intros Hne Hlen.
  assert (Hgen : forall n k, (k + n = length conns)%nat ->
    take_connections n (mkEndpointPool conns (Z.of_nat k)) = Some (drop k conns, mkEndpointPool conns (vlen conns))).
  { induction n as [|n IH]; intros k Hk; simpl.
    - rewrite Nat.add_0_r in Hk. subst k. by rewrite drop_all.
    - destruct (endpoint_get_connection_ok (mkEndpointPool conns (Z.of_nat k)) Hne) as (conn & Hc & ->).
      simpl in Hc. rewrite Z.mod_small, vget_nat in Hc by (unfold vlen; lia).
      cbn [mbind option_bind connections next_conn]. rewrite u64_add_small by (unfold vlen in Hlen; lia).
      replace (Z.of_nat k + 1) with (Z.of_nat (S k)) by lia. rewrite IH by lia.
      cbn [mbind option_bind]. by rewrite (drop_S _ _ _ Hc). }
  split; [by apply (Hgen (length conns) 0%nat)|].
  destruct (endpoint_get_connection_ok (mkEndpointPool conns (vlen conns)) Hne) as (conn & Hc & ->).
  simpl in Hc. rewrite Z.mod_same in Hc by (destruct conns; [done|unfold vlen; simpl; lia]).
  destruct conns as [|c conns]; [done|]. simpl. by injection Hc as ->.
Qed.

(** ** The load test counts every request *)

Record load_inv (config : LoadTestConfig) (t : LoadTest) : Prop := {
  li_next : 0 <= next_request t <= max_requests config;
  li_permits : (permits t + length (running t) = concurrency config)%nat;
  li_count : completed (metrics t) + errors (metrics t) + vlen (running t) = next_request t;
  li_pos : 0 <= completed (metrics t) /\ 0 <= errors (metrics t);
  li_latencies : vlen (latencies (metrics t)) = completed (metrics t);
  li_running : NoDup (running t) /\ Forall (fun id => 0 <= id < next_request t) (running t)
}.

Lemma load_test_step_inv config t t' :
  max_requests config < 2 ^ 64 -> load_test_step config t t' -> load_inv config t -> load_inv config t'.
Proof.
  intros Hmax [n p r m c Hn|n p r1 id r2 m c result|n p r m elapsed] [Hnext Hperm Hcount Hpos Hlat [Hnd Hall]]; simpl in *.
  - assert (Hadd : n +! 1 = n + 1) by (apply u64_add_small; lia).
    split; simpl; rewrite ?Hadd, ?length_app, ?vlen_app; simpl; try done; try lia.
    + change (vlen [n]) with 1. lia.
    + split.
      * apply list_relations.list.NoDup_app. split; [done|]. split; [|apply NoDup_singleton].
        intros x Hx ->%list_elem_of_singleton. rewrite Forall_forall in Hall.
        specialize (Hall n Hx). lia.
      * apply Forall_app. split; [|constructor; [lia|by constructor]].
        eapply Forall_impl; [exact Hall|]. simpl. lia.
  - rewrite length_app in *. rewrite vlen_app in *. simpl in *.
    assert (Hv : vlen (id :: r2) = 1 + vlen r2) by (unfold vlen; simpl; lia).
    pose proof (vlen_nonneg r1). pose proof (vlen_nonneg r2).
    split; simpl; try done; rewrite ?length_app, ?vlen_app; try lia.
    + destruct result; simpl; rewrite u64_add_small by lia; lia.
    + destruct result; simpl; rewrite u64_add_small by lia; lia.
    + destruct result; simpl; [|done]. rewrite vlen_app, Hlat, u64_add_small by lia. done.
    + rewrite <- Permutation_middle in Hnd, Hall. split; [by apply NoDup_cons_1_2 in Hnd|].
      by apply Forall_inv_tail in Hall.
  - destruct (sort_latencies_spec (latencies m)) as [_ Hs]. split; simpl; try done. unfold vlen in *. by rewrite Hs.
Qed.

(** A load test counts every request once.  At any moment at most [concurrency] requests
    are open and the answered, the failed and the open ones are the requests started; when the
    test has finished, answered and failed requests together are [max_requests], with one
    latency per answered one. *)
Theorem load_test_counts config t :
  0 <= max_requests config < 2 ^ 64 -> rtc (load_test_step config) (LoadTest_start config) t ->
  (length (running t) <= concurrency config)%nat /\
  completed (metrics t) + errors (metrics t) + vlen (running t) = next_request t /\
  (finished config t ->
     completed (metrics t) + errors (metrics t) = max_requests config /\
     vlen (latencies (metrics t)) = completed (metrics t)).
Proof.
  intros Hmax Hr. assert (Hinv : load_inv config t).
  { revert t Hr. apply (rtc_ind_r (load_inv config)).
    - split; simpl; try done; try lia. split; constructor.
    - intros t1 t2 _ Hs Hinv. eapply load_test_step_inv; [|done..]. lia. }
  destruct Hinv as [Hnext Hperm Hcount Hpos Hlat _]. split_and!; [lia|done|].
  intros [Hge Hrun]. rewrite Hrun in Hcount. unfold vlen at 1 in Hcount. simpl in Hcount. split; [lia|done].
Qed.

(** ** Concrete runs *)

Definition sample_metrics : MetricsCollector :=
  record_latency 30 (record_latency 10 (record_latency 20 MetricsCollector_new)).

Lemma percentiles_are_order_statistics_witness :
  calculate_percentile (latencies (snapshot (mkDuration 1 0) sample_metrics).2) 50 ∈ [20; 10; 30].
Proof. by apply (percentiles_are_order_statistics (mkDuration 1 0) sample_metrics 50 99). Defined.

Lemma pool_is_round_robin_witness :
  take_connections 2 (mkEndpointPool [7; 8]%nat 0) = Some ([7; 8]%nat, mkEndpointPool [7; 8]%nat 2).
Proof. by apply (pool_is_round_robin [7; 8]%nat). Defined.

Definition tiny_config : LoadTestConfig := mkLoadTestConfig 1 1 5 [] 5 1.

Lemma load_test_counts_witness :
  completed (metrics (mkLoadTest 1 1 [] (record_latency 12 MetricsCollector_new) true)) = 1.
Proof.
  destruct (load_test_counts tiny_config (mkLoadTest 1 1 [] (record_latency 12 MetricsCollector_new) true))
    as (_ & Hc & _); [simpl; lia| |exact Hc].
  eapply rtc_l; [apply (Load_spawn tiny_config 0 0 [] _ _); simpl; lia|].
  eapply rtc_l; [apply (Load_finish tiny_config 1 0 [] 0 [] _ _ (Some 12))|apply rtc_refl].
Defined.
