(* ===== verification/LoadRequests.v ===== *)
(** * The requests of a load test

    What the tasks of [do_write_batch_async], [do_get_record_async] and
    [do_mixed_operations_async] in [src/tcp_client.rs] send and where: the hash that picks
    which requests write, the pools the connections come from, and the tests as one system with
    the connections and the servers behind them.  A write to a socket is one step: a timeout
    that falls into it is [cancelled_write_corrupts_stream]. *)
From Stdlib Require Import SpecFloat.
From stdpp Require Import strings pretty.
From S2P Require Import Prelude Float64 Capnp CapnpInstance ClientMessage RaftTypes QuorumMessage WriteProxy Query Codec Connection.
From S2P Require Import NetAddr TcpClient LoadTest.

#[local] Open Scope Z_scope.
#[local] Open Scope kraft_scope.

(** ** The hash

    [DefaultHasher] is SipHash with one round per block, three at the end, and zero keys. *)

Record SipState := mkSipState { sip_v0 : Z; sip_v1 : Z; sip_v2 : Z; sip_v3 : Z }.

Definition rotate_left (x n : Z) : Z := Z.lor (Z.shiftl x n `mod` 2 ^ 64) (Z.shiftr x (64 - n)).

Definition sip_round (s : SipState) : SipState :=
  let '(mkSipState v0 v1 v2 v3) := s in
  let v0 := v0 +! v1 in
  let v2 := v2 +! v3 in
  let v1 := Z.lxor (rotate_left v1 13) v0 in
  let v3 := Z.lxor (rotate_left v3 16) v2 in
  let v0 := rotate_left v0 32 in
  let v2 := v2 +! v1 in
  let v0 := v0 +! v3 in
  let v1 := Z.lxor (rotate_left v1 17) v2 in
  let v3 := Z.lxor (rotate_left v3 21) v0 in
  let v2 := rotate_left v2 32 in
  mkSipState v0 v1 v2 v3.

Definition sip_block (rounds : nat) (s : SipState) (m : Z) : SipState :=
  let s := mkSipState (sip_v0 s) (sip_v1 s) (sip_v2 s) (Z.lxor (sip_v3 s) m) in
  let s := Nat.iter rounds sip_round s in
  mkSipState (Z.lxor (sip_v0 s) m) (sip_v1 s) (sip_v2 s) (sip_v3 s).

(** The hash of whole blocks of eight bytes. *)
Definition sip_hash (c_rounds d_rounds : nat) (k0 k1 : Z) (blocks : list Z) : Z :=
  let s := mkSipState (Z.lxor k0 0x736f6d6570736575) (Z.lxor k1 0x646f72616e646f6d)
             (Z.lxor k0 0x6c7967656e657261) (Z.lxor k1 0x7465646279746573) in
  let s := fold_left (sip_block c_rounds) blocks s in
  let s := sip_block c_rounds s (Z.shiftl ((8 * vlen blocks) `mod` 256) 56) in
  let s := mkSipState (sip_v0 s) (sip_v1 s) (Z.lxor (sip_v2 s) 0xff) (sip_v3 s) in
  let s := Nat.iter d_rounds sip_round s in
  Z.lxor (Z.lxor (sip_v0 s) (sip_v1 s)) (Z.lxor (sip_v2 s) (sip_v3 s)).

(** The published test vectors of SipHash-2-4 for no bytes and for the bytes 0 to 7. *)
Example sip_hash_vectors :
  sip_hash 2 4 0x0706050403020100 0x0f0e0d0c0b0a0908 [] = 0x726fdb47dd0e0e31 /\
  sip_hash 2 4 0x0706050403020100 0x0f0e0d0c0b0a0908 [0x0706050403020100] = 0x93f5f5799a932462.
Proof. by vm_compute. Qed.

(** [request_id.hash(&mut hasher); hasher.finish()] of a new [DefaultHasher]. *)
Definition default_hash (request_id : Z) : Z := sip_hash 1 3 0 0 [request_id].

(** [should_write]. *)
Definition should_write (request_id : Z) (write_ratio : spec_float) : bool :=
  f64_lt (f64_div (f64_of_Z (default_hash request_id `mod` 10000)) (f64_of_Z 10000)) write_ratio.

(** ** The requests *)

Section requests.
Context `{CC : ClientCapnp}.

(** [request_id.to_string()]. *)
Definition request_key (request_id : Z) : Text := text_of (pretty request_id).

Definition write_request (request_id : Z) : Z * list byte :=
  (RPC_PUT_RECORD, build_put_request (request_key request_id) (text_of ("value-" +:+ pretty request_id))).

Definition read_request (request_id : Z) : Z * list byte :=
  (RPC_GET_RECORD, build_get_request (request_key request_id)).

Definition mixed_request (write_ratio : spec_float) (request_id : Z) : Z * list byte :=
  if should_write request_id write_ratio then write_request request_id else read_request request_id.

Lemma request_key_inj : Inj (=) (=) request_key.
Proof.
  intros i j Heq. apply (f_equal String.string_of_list_byte) in Heq. unfold request_key, text_of in Heq.
  rewrite !String.string_of_list_byte_of_string in Heq. by apply (inj pretty).
Qed.

(** The mixed test never reads a key it writes: an id that reads is an id that does not write,
    in this run and in every other with the same ratio. *)
Theorem mixed_reads_never_hit write_ratio i j :
  (mixed_request write_ratio i).1 = RPC_GET_RECORD -> (mixed_request write_ratio j).1 = RPC_PUT_RECORD ->
  mixed_request write_ratio i = read_request i /\ mixed_request write_ratio j = write_request j /\
  request_key i <> request_key j.
Proof.
  unfold mixed_request. destruct (should_write i write_ratio) eqn:Hi, (should_write j write_ratio) eqn:Hj; try done.
  intros _ _. split_and!; [done..|]. intros ->%request_key_inj. congruence.
Qed.

Lemma mixed_request_rpc write_ratio id : 0 <= (mixed_request write_ratio id).1 < 256.
Proof. unfold mixed_request. by destruct (should_write id write_ratio). Qed.

End requests.

(** The ratio [0.2] of [main]: the double nearest to one fifth. *)
Definition main_write_ratio : spec_float := f64_div (f64_of_Z 2) (f64_of_Z 10).

(** A ratio of [k] in 10000 makes exactly the requests write whose hash has a remainder below
    [k]: rounding loses or adds none. *)
Theorem write_ratio_is_exact request_id k :
  0 <= k < 2 ^ 50 ->
  should_write request_id (f64_div (f64_of_Z k) (f64_of_Z 10000)) = (default_hash request_id `mod` 10000 <? k).
Proof.
  intros Hk. pose proof (Z.mod_pos_bound (default_hash request_id) 10000 ltac:(done)). apply f64_quotient_lt; lia.
Qed.

Lemma main_write_ratio_eq : main_write_ratio = f64_div (f64_of_Z 2000) (f64_of_Z 10000).
Proof. vm_compute. reflexivity. Qed.

(** ** The connections *)

Section connections.
Variable connect : list SocketAddr -> SocketAddr -> bool.

Lemma connect_pool_spec addr n made conns made' :
  connect_pool connect addr n made = Some (conns, made') ->
  conns = seq (length made) n /\ made' = made ++ replicate n addr.
Proof.
  revert made conns made'. induction n as [|n IH]; intros made conns made'; simpl; [intros [= <- <-]; by rewrite app_nil_r|].
  destruct (connect made addr); [|done]. destruct (connect_pool _ _ n _) as [[conns1 made1]|] eqn:Hn; [|done]. simpl.
  intros [= <- <-]. apply IH in Hn as [-> ->]. rewrite length_app, Nat.add_1_r, <- (assoc_L (++)). done.
Qed.

Lemma connect_pools_spec endpoints per made pools made' :
  connect_pools connect endpoints per made = Some (pools, made') ->
  pools = imap (fun i _ => mkEndpointPool (seq (length made + i * per) per) 0) endpoints /\
  made' = made ++ mjoin (replicate per <$> endpoints).
Proof.
  revert made pools made'. induction endpoints as [|addr endpoints IH]; intros made pools made'; simpl.
  { intros [= <- <-]. by rewrite app_nil_r. }
  unfold EndpointPool_new. destruct (connect_pool _ _ _ _) as [[conns made1]|] eqn:Hp; [|done]. cbn [mbind option_bind].
  destruct (connect_pools _ _ _ _) as [[pools1 made2]|] eqn:Hps; [|done]. intros [= <- <-].
  apply connect_pool_spec in Hp as [-> ->]. apply IH in Hps as [-> ->]. split; [|by rewrite (assoc_L (++))].
  rewrite Nat.add_0_r. f_equal. apply imap_ext. intros i x _. simpl. do 2 f_equal.
  rewrite length_app, length_replicate. lia.
Qed.

End connections.

(** How often a pool was asked in [n] calls, when the pools are asked in turn. *)
Definition calls (pools i n : nat) : nat := ((n + (pools - 1 - i)) / pools)%nat.

Lemma div_add_small q r d e : (r < d)%nat -> (e <= d)%nat -> ((d * q + r + e) / d = q + if decide (d <= r + e) then 1 else 0)%nat.
Proof.
  intros Hr He. replace (d * q + r + e)%nat with ((r + e) + q * d)%nat by lia. rewrite Nat.div_add, Nat.add_comm by lia. f_equal.
  case_decide; symmetry; [apply (Nat.div_unique _ _ _ (r + e - d))|apply (Nat.div_unique _ _ _ (r + e))]; lia.
Qed.

Lemma calls_next pools i n :
  (i < pools)%nat -> calls pools i (S n) = (calls pools i n + if decide (i = n `mod` pools) then 1 else 0)%nat.
Proof.
  intros Hi. unfold calls. pose proof (Nat.div_mod_eq n pools) as Hn. pose proof (Nat.mod_upper_bound n pools ltac:(lia)).
  generalize dependent (n `mod` pools)%nat. generalize (n / pools)%nat. intros q r -> Hr.
  replace (S (pools * q + r) + (pools - 1 - i))%nat with (pools * q + r + (pools - i))%nat by lia.
  rewrite !div_add_small by lia. repeat case_decide; lia.
Qed.

Lemma calls_current pools n : (0 < pools)%nat -> calls pools (n `mod` pools) n = (n / pools)%nat.
Proof.
  intros Hp. unfold calls. pose proof (Nat.div_mod_eq n pools) as Hn. pose proof (Nat.mod_upper_bound n pools ltac:(lia)).
  generalize dependent (n `mod` pools)%nat. generalize (n / pools)%nat. intros q r -> Hr.
  rewrite div_add_small by lia. case_decide; lia.
Qed.

(** The pools after [n] calls, and the connection of the next one. *)
Definition pool_after (endpoints : list SocketAddr) (per n : nat) : TcpConnectionPool :=
  mkTcpConnectionPool (imap (fun i _ => mkEndpointPool (seq (i * per) per) (Z.of_nat (calls (length endpoints) i n))) endpoints)
    (Z.of_nat n).

Definition nth_connection (endpoints : list SocketAddr) (per n : nat) : nat :=
  ((n `mod` length endpoints) * per + (n / length endpoints) `mod` per)%nat.

Lemma get_connection_after endpoints per n :
  endpoints <> [] -> (0 < per)%nat -> Z.of_nat (S n) < 2 ^ 64 ->
  get_connection (pool_after endpoints per n) = Some (nth_connection endpoints per n, pool_after endpoints per (S n)).
Proof.
  intros He Hper Hn. set (e := length endpoints). assert (Hpos : (0 < e)%nat) by (destruct endpoints; [done|simpl; unfold e; simpl; lia]).
  set (i := (n `mod` e)%nat). assert (Hi : (i < e)%nat) by (apply Nat.mod_upper_bound; lia).
  assert (Hcalls : calls (length endpoints) i n = (n / e)%nat) by by apply calls_current.
  destruct (lookup_lt_is_Some_2 endpoints i Hi) as [addr Haddr].
  unfold get_connection. set (ps := pools (pool_after endpoints per n)).
  assert (Hlen : length ps = e) by apply length_imap. rewrite decide_False by (intros Hnil; rewrite Hnil in Hlen; simpl in Hlen; lia).
  assert (Hidx : Z.to_nat (next_pool (pool_after endpoints per n) `mod` vlen ps) = i).
  { unfold vlen. rewrite Hlen. simpl. rewrite <- Nat2Z.inj_mod. apply Nat2Z.id. }
  rewrite Hidx. assert (Hp : ps !! i = Some (mkEndpointPool (seq (i * per) per) (Z.of_nat (n / e)))).
  { unfold ps. simpl. rewrite list_lookup_imap, Haddr. simpl. by rewrite Hcalls. }
  rewrite Hp. cbn [mbind option_bind]. unfold endpoint_get_connection. cbn [connections next_conn].
  rewrite decide_False by (destruct per; [lia|done]).
  assert (Hget : vget (seq (i * per) per) (Z.of_nat (n / e) `mod` vlen (seq (i * per) per)) = Some (nth_connection endpoints per n)).
  { unfold vlen. rewrite length_seq, <- Nat2Z.inj_mod, vget_nat, lookup_seq_lt; [done|]. apply Nat.mod_upper_bound. lia. }
  rewrite Hget. cbn [mbind option_bind]. do 2 f_equal. unfold pool_after. f_equal.
  2: { simpl next_pool. rewrite u64_add_small; lia. }
  apply list_eq. intros j. destruct (decide (j = i)) as [->|Hne].
  - rewrite list_lookup_insert_eq by lia. rewrite list_lookup_imap, Haddr. simpl. do 2 f_equal.
    rewrite calls_next, decide_True, Hcalls by done. rewrite u64_add_small; [lia|].
    split; [lia|]. assert (n / e <= n)%nat by (apply Nat.Div0.div_le_upper_bound; nia). lia.
  - rewrite list_lookup_insert_ne by done. unfold ps. simpl. rewrite !list_lookup_imap.
    destruct (endpoints !! j) as [a|] eqn:Hj; [|done]. simpl. do 3 f_equal. apply lookup_lt_Some in Hj.
    rewrite calls_next, decide_False by done. lia.
Qed.

(** A pool over several endpoints connects to every endpoint as often as configured, or
    reports an error, and spreads the requests evenly: request [n] goes to endpoint [n] modulo
    the number of endpoints, and there the connections are used in turn; at the end every
    connection is closed once. *)
Theorem requests_are_spread connect endpoints per pool made n :
  TcpConnectionPool_new connect endpoints per = Some (pool, made) ->
  endpoints <> [] -> (0 < per)%nat -> Z.of_nat (S n) < 2 ^ 64 ->
  pool = pool_after endpoints per 0 /\ total_connections pool = length made /\
  length made = (length endpoints * per)%nat /\
  get_connection (pool_after endpoints per n) = Some (nth_connection endpoints per n, pool_after endpoints per (S n)) /\
  made !! nth_connection endpoints per n = endpoints !! (n `mod` length endpoints)%nat /\
  close (pool_after endpoints per n) = seq 0 (length made).
Proof.
  unfold TcpConnectionPool_new. destruct (connect_pools _ _ _ _) as [[ps made0]|] eqn:Hc; [|done]. intros [= <- <-] He Hper Hn.
  apply connect_pools_spec in Hc as [-> ->]. rewrite app_nil_l. set (e := length endpoints).
  assert (Hpos : (0 < e)%nat) by (destruct endpoints; [done|unfold e; simpl; lia]).
  assert (Hmade : forall l : list SocketAddr, length (mjoin (replicate per <$> l)) = (length l * per)%nat).
  { induction l as [|a l IH]; [done|]. rewrite fmap_cons. simpl mjoin. rewrite length_app, length_replicate, IH. simpl. lia. }
  split_and!.
  - unfold pool_after. f_equal. apply imap_ext. intros i a Hi. simpl. f_equal. apply lookup_lt_Some in Hi.
    unfold calls. rewrite Nat.div_small by lia. done.
  - rewrite Hmade. unfold total_connections. simpl. 
    assert (Hsum : forall (l : list SocketAddr) (f : nat -> SocketAddr -> EndpointPool), (forall i a, length (connections (f i a)) = per) ->
      sum_list_with (fun pool => length (connections pool)) (imap f l) = (length l * per)%nat).
    { induction l as [|a l IH]; intros f Hf; [done|]. simpl. rewrite Hf, IH by (intros; apply Hf). lia. }
    apply Hsum. intros. apply length_seq.
  - apply Hmade.
  - by apply get_connection_after.
  - assert (Hlk : forall (l : list SocketAddr) i k, (k < per)%nat -> mjoin (replicate per <$> l) !! (i * per + k)%nat = l !! i).
    { induction l as [|a l IH]; intros i k Hk; [done|]. rewrite fmap_cons. simpl mjoin. destruct i as [|i]; simpl Nat.mul; simpl Nat.add; simpl lookup.
      - rewrite lookup_app_l by (by rewrite length_replicate). by apply lookup_replicate_2.
      - rewrite lookup_app_r by (rewrite length_replicate; lia). rewrite length_replicate.
        replace (per + i * per + k - per)%nat with (i * per + k)%nat by lia. by apply IH. }
    apply Hlk, Nat.mod_upper_bound. lia.
  - rewrite Hmade. unfold close, pool_after. simpl pools.
    assert (Hseq : forall (l : list SocketAddr) (f : nat -> Z) k, mjoin (connections <$> imap (fun i _ => mkEndpointPool (seq ((k + i) * per) per) (f i)) l) =
      seq (k * per) (length l * per)).
    { induction l as [|a l IH]; intros f k; [done|]. simpl. rewrite Nat.add_0_r, seq_app. f_equal.
      replace (k * per + per)%nat with (S k * per)%nat by lia. rewrite <- (IH (fun i => f (S i)) (S k)).
      f_equal. f_equal. apply imap_ext. intros i x _. simpl. do 2 f_equal. lia. }
    apply (Hseq endpoints (fun i => Z.of_nat (calls e i n)) 0%nat).
Qed.

(** ** A load test and its connections

    The loop, its tasks, the task that logs checkpoints, the connections and the servers. *)

Section run.
Context `{CC : ClientCapnp}.

(** [run_conns] are the connections the requests were given, in the order of their ids,
    [unsent] the requests whose task has not called [send_request] yet, and [answered] those
    counted as completed, with their latency.  The callback of a request is its id. *)
Record LoadRun := mkLoadRun {
  run_test : LoadTest;
  run_pool : TcpConnectionPool;
  run_conns : list nat;
  unsent : list Z;
  systems : list System;
  answered : list (Z * Z)
}.

Definition send_on (rpc_type : Z) (payload : list byte) (id : Z) (y : System) : System :=
  mkSystem (send_request rpc_type payload (Z.to_nat id) (client y)) (server y) (received y).

(** A step of a connection or its server in which no request is sent. *)
Definition transfer_step (y y' : System) : Prop := system_step y y' /\ requests (client y') ≡ₚ requests (client y).

Variable config : LoadTestConfig.
Variable request : Z -> Z * list byte.

Inductive load_run_step : LoadRun -> LoadRun -> Prop :=
| Run_spawn n p r m c pool pool' conn conns un ys ans :
    n < max_requests config -> get_connection pool = Some (conn, pool') ->
    load_run_step (mkLoadRun (mkLoadTest n (S p) r m c) pool conns un ys ans)
      (mkLoadRun (mkLoadTest (n +! 1) p (r ++ [n]) m c) pool' (conns ++ [conn]) (un ++ [n]) ys ans)
| Run_send t pool conns u1 id u2 ys ans conn y :
    conns !! Z.to_nat id = Some conn -> ys !! conn = Some y ->
    load_run_step (mkLoadRun t pool conns (u1 ++ id :: u2) ys ans)
      (mkLoadRun t pool conns (u1 ++ u2) (<[conn := send_on (request id).1 (request id).2 id y]> ys) ans)
| Run_transfer t pool conns un ys ans conn y y' :
    ys !! conn = Some y -> transfer_step y y' ->
    load_run_step (mkLoadRun t pool conns un ys ans) (mkLoadRun t pool conns un (<[conn := y']> ys) ans)
| Run_answered n p r1 id r2 m c pool conns un ys ans conn y response latency :
    conns !! Z.to_nat id = Some conn -> ys !! conn = Some y -> (Z.to_nat id, response) ∈ delivered (client y) ->
    load_run_step (mkLoadRun (mkLoadTest n p (r1 ++ id :: r2) m c) pool conns un ys ans)
      (mkLoadRun (mkLoadTest n (S p) (r1 ++ r2) (record_latency latency m) c) pool conns un ys (ans ++ [(id, latency)]))
| Run_failed n p r1 id r2 m c pool conns un ys ans :
    load_run_step (mkLoadRun (mkLoadTest n p (r1 ++ id :: r2) m c) pool conns un ys ans)
      (mkLoadRun (mkLoadTest n (S p) (r1 ++ r2) (record_error m) c) pool conns (filter (fun i => i <> id) un) ys ans)
| Run_checkpoint n p r m pool conns un ys ans elapsed :
    load_run_step (mkLoadRun (mkLoadTest n p r m true) pool conns un ys ans)
      (mkLoadRun (mkLoadTest n p r (snapshot elapsed m).2 (keeps_reporting config m)) pool conns un ys ans).

(** After [TcpConnectionPool::new]: one connection to a server each. *)
Definition LoadRun_start (qs : list Queues) : LoadRun :=
  mkLoadRun (LoadTest_start config) (pool_after (endpoints config) (connections_per_endpoint config) 0) [] []
    (System_start <$> qs) [].

(** ** The invariant *)

Abbreviation nth n := (nth_connection (endpoints config) (connections_per_endpoint config) n).

(** Where a request came from. *)
Definition asked_by (conns : list nat) (conn : nat) (next : Z) (r : Request) : Prop :=
  exists id rid, 0 <= id < next /\ conns !! Z.to_nat id = Some conn /\
    r = (Z.to_nat id, ((request id).1, rid, (request id).2)).

Record run_inv (h : LoadRun) : Prop := {
  ri_load : load_inv config (run_test h);
  ri_pool : run_pool h = pool_after (endpoints config) (connections_per_endpoint config) (Z.to_nat (next_request (run_test h)));
  ri_conns : run_conns h = map (fun n => nth n) (seq 0 (Z.to_nat (next_request (run_test h))));
  ri_unsent : Forall (fun id => 0 <= id < next_request (run_test h)) (unsent h);
  ri_systems : forall conn y, systems h !! conn = Some y ->
    (exists q, rtc system_step (System_start q) y) /\ Forall (asked_by (run_conns h) conn (next_request (run_test h))) (requests (client y)) /\
    Z.of_nat (length (requests (client y)) + length (unsent h)) <= next_request (run_test h);
  ri_answered : Forall (fun a => exists conn y response, run_conns h !! Z.to_nat a.1 = Some conn /\
    systems h !! conn = Some y /\ (Z.to_nat a.1, response) ∈ delivered (client y)) (answered h);
  ri_count : vlen (answered h) = completed (metrics (run_test h));
  ri_ids : NoDup (running (run_test h) ++ (answered h).*1) /\ Forall (fun id => 0 <= id < next_request (run_test h)) (answered h).*1
}.

(** Each step of a run is one of the load test, or leaves it alone. *)
Lemma load_run_test h h' : load_run_step h h' -> run_test h' = run_test h \/ load_test_step config (run_test h) (run_test h').
Proof.
  intros [n p r m c pool pool' conn conns un ys ans Hn|t pool conns u1 id u2 ys ans conn y|t pool conns un ys ans conn y y'
    |n p r1 id r2 m c pool conns un ys ans conn y response latency|n p r1 id r2 m c pool conns un ys ans|n p r m pool conns un ys ans d]; simpl.
  - right. by apply Load_spawn.
  - by left.
  - by left.
  - right. apply (Load_finish config n p r1 id r2 m c (Some latency)).
  - right. apply (Load_finish config n p r1 id r2 m c None).
  - right. apply (Load_checkpoint config n p r m d).
Qed.

Lemma delivered_more y y' : system_step y y' -> delivered (client y) ⊆ delivered (client y').
Proof.
  intros [rpc payload tx c s n _|r c s n w1 w2 c' Hw ->|c s s' n _|c s n m _]; simpl.
  - done.
  - unfold send_locked. destruct r as [tx [[rpc id] payload]]. simpl. by destruct (write_frame _ _ _ _).
  - done.
  - unfold receive_response. destruct (pending c !! response_id m); simpl; set_solver.
Qed.

Lemma asked_by_more conns conns' conn next next' r :
  conns `prefix_of` conns' -> next <= next' -> asked_by conns conn next r -> asked_by conns' conn next' r.
Proof.
  intros Hc Hn (id & rid & Hid & Hconn & Hr). exists id, rid. split_and!; [lia|lia| |done]. by eapply prefix_lookup_Some.
Qed.

(** More requests in the counter change nothing for the connections. *)
Lemma systems_more (ys : list System) conns conns' next next' (un un' : list Z) :
  conns `prefix_of` conns' -> next <= next' -> Z.of_nat (length un') <= Z.of_nat (length un) + (next' - next) ->
  (forall conn y, ys !! conn = Some y -> (exists q, rtc system_step (System_start q) y) /\
     Forall (asked_by conns conn next) (requests (client y)) /\ Z.of_nat (length (requests (client y)) + length un) <= next) ->
  forall conn y, ys !! conn = Some y -> (exists q, rtc system_step (System_start q) y) /\
     Forall (asked_by conns' conn next') (requests (client y)) /\ Z.of_nat (length (requests (client y)) + length un') <= next'.
Proof.
  intros Hc Hn Hlen Hys conn y Hy. destruct (Hys conn y Hy) as (Hr & Hf & Hl). split; [done|]. split; [|lia].
  eapply Forall_impl; [|exact Hf]. intros r Hr'. by eapply asked_by_more.
Qed.

(** One connection changes. *)
Lemma answered_insert (ys : list System) conn y y' (conns : list nat) (ans : list (Z * Z)) :
  ys !! conn = Some y -> delivered (client y) ⊆ delivered (client y') ->
  Forall (fun a => exists conn y response, conns !! Z.to_nat a.1 = Some conn /\ ys !! conn = Some y /\
    (Z.to_nat a.1, response) ∈ delivered (client y)) ans ->
  Forall (fun a => exists conn0 y0 response, conns !! Z.to_nat a.1 = Some conn0 /\ <[conn := y']> ys !! conn0 = Some y0 /\
    (Z.to_nat a.1, response) ∈ delivered (client y0)) ans.
Proof.
  intros Hy Hd. apply Forall_impl. intros a (conn0 & y0 & response & Hc & Hy0 & Hin). exists conn0.
  destruct (decide (conn0 = conn)) as [->|Hne].
  - exists y', response. rewrite list_lookup_insert_eq by by eapply lookup_lt_Some. split_and!; [done|done|]. apply Hd. naive_solver.
  - exists y0, response. by rewrite list_lookup_insert_ne.
Qed.

Lemma run_inv_spawn n p r m c pool pool' conn conns un ys ans :
  0 <= max_requests config < 2 ^ 64 -> endpoints config <> [] -> (0 < connections_per_endpoint config)%nat ->
  n < max_requests config -> get_connection pool = Some (conn, pool') ->
  run_inv (mkLoadRun (mkLoadTest n (S p) r m c) pool conns un ys ans) ->
  run_inv (mkLoadRun (mkLoadTest (n +! 1) p (r ++ [n]) m c) pool' (conns ++ [conn]) (un ++ [n]) ys ans).
Proof.
  intros Hmax He Hper Hn Hget [Hl Hp Hcs Hu Hys Ha Hcount [Hnd Hid]]. simpl in *.
  pose proof (li_next _ _ Hl) as Hnext. pose proof (li_running _ _ Hl) as [_ Hrun]. simpl in *.
  apply (load_test_step_inv config _ _ ltac:(lia) (Load_spawn config n p r m c Hn)) in Hl. simpl in Hl.
  assert (Hadd : n +! 1 = n + 1) by (apply u64_add_small; lia). rewrite Hadd in *.
  assert (Hs : Z.to_nat (n + 1) = S (Z.to_nat n)) by lia.
  subst pool. rewrite get_connection_after in Hget by (done || lia). injection Hget as <- <-.
  split; simpl; rewrite ?Hs; try done.
  - rewrite seq_S, map_app, <- Hcs. done.
  - apply Forall_app. split; [eapply Forall_impl; [|exact Hu]; simpl; lia|]. apply Forall_singleton. lia.
  - eapply systems_more; [..|exact Hys]; [by eexists|lia|]. rewrite length_app. simpl. lia.
  - eapply Forall_impl; [|exact Ha]. intros a (conn0 & y & response & Hc & Hrest). exists conn0, y, response.
    split; [|done]. by apply lookup_app_l_Some.
  - split; [|eapply Forall_impl; [|exact Hid]; simpl; lia]. rewrite <- (assoc_L (++)). change ([n] ++ ans.*1) with (n :: ans.*1). rewrite <- Permutation_middle.
    apply list_relations.list.NoDup_cons. split; [|done]. intros [Hin|Hin]%elem_of_app.
    + rewrite Forall_forall in Hrun. specialize (Hrun n (proj1 (list_elem_of_In _ _) Hin)). lia.
    + rewrite Forall_forall in Hid. specialize (Hid n (proj1 (list_elem_of_In _ _) Hin)). lia.
Qed.

Lemma run_inv_system t pool conns un un' ys ans conn y y' :
  ys !! conn = Some y -> system_step y y' -> un' ⊆+ un ->
  Forall (asked_by conns conn (next_request t)) (requests (client y')) ->
  (length (requests (client y')) + length un' <= length (requests (client y)) + length un)%nat ->
  run_inv (mkLoadRun t pool conns un ys ans) -> run_inv (mkLoadRun t pool conns un' (<[conn := y']> ys) ans).
Proof.
  intros Hy Hstep Hun Hf Hlen [Hl Hp Hcs Hu Hys Ha Hcount Hid]. simpl in *. pose proof (submseteq_length _ _ Hun).
  split; simpl; try done.
  - apply Forall_forall. intros id Hin. rewrite Forall_forall in Hu. apply Hu.
    apply list_elem_of_In. eapply elem_of_submseteq; [by apply list_elem_of_In|done].
  - intros conn0 y0 Hy0. destruct (decide (conn0 = conn)) as [->|Hne].
    + rewrite list_lookup_insert_eq in Hy0 by by eapply lookup_lt_Some. injection Hy0 as <-.
      destruct (Hys conn y Hy) as ([q Hq] & _ & Hl'). split; [exists q; by eapply rtc_r|]. split; [done|lia].
    + rewrite list_lookup_insert_ne in Hy0 by done. destruct (Hys conn0 y0 Hy0) as (? & ? & ?). split_and!; [done..|lia].
  - eapply answered_insert; [exact Hy|by apply delivered_more|exact Ha].
Qed.

Lemma run_inv_answered n p r1 id r2 m c pool conns un ys ans conn y response latency :
  0 <= max_requests config < 2 ^ 64 ->
  conns !! Z.to_nat id = Some conn -> ys !! conn = Some y -> (Z.to_nat id, response) ∈ delivered (client y) ->
  run_inv (mkLoadRun (mkLoadTest n p (r1 ++ id :: r2) m c) pool conns un ys ans) ->
  run_inv (mkLoadRun (mkLoadTest n (S p) (r1 ++ r2) (record_latency latency m) c) pool conns un ys (ans ++ [(id, latency)])).
Proof.
  intros Hmax Hc Hy Hd [Hl Hp Hcs Hu Hys Ha Hcount [Hnd Hid]]. simpl in *. pose proof (li_running _ _ Hl) as [_ Hrun]. simpl in Hrun.
  pose proof (li_count _ _ Hl) as Hall. pose proof (li_pos _ _ Hl) as Hpos. pose proof (li_next _ _ Hl) as Hnext. simpl in Hall, Hpos, Hnext.
  rewrite vlen_app in Hall. pose proof (vlen_nonneg r1). assert (1 <= vlen (id :: r2)) by (unfold vlen; simpl; lia).
  apply (load_test_step_inv config _ _ ltac:(lia) (Load_finish config n p r1 id r2 m c (Some latency))) in Hl. simpl in Hl.
  split; simpl; try done; [| |split].
  - apply Forall_app. split; [done|]. apply Forall_singleton. simpl. by exists conn, y, response.
  - rewrite vlen_app, Hcount, u64_add_small by lia. reflexivity.
  - rewrite fmap_app. simpl. rewrite (assoc_L (++)), <- Permutation_cons_append. rewrite <- Permutation_middle in Hnd. exact Hnd.
  - rewrite fmap_app. apply Forall_app. split; [done|]. apply Forall_singleton. simpl. apply Forall_app in Hrun as [_ Hrun].
    by apply Forall_inv in Hrun.
Qed.

Lemma load_run_step_inv h h' :
  0 <= max_requests config < 2 ^ 64 -> endpoints config <> [] -> (0 < connections_per_endpoint config)%nat ->
  (forall id, 0 <= (request id).1 < 256) -> load_run_step h h' -> run_inv h -> run_inv h'.
Proof.
  intros Hmax He Hper Hreq Hs Hinv.
  destruct Hs as [n p r m c pool pool' conn conns un ys ans Hn Hg|t pool conns u1 id u2 ys ans conn y Hc Hy|t pool conns un ys ans conn y y' Hy [Hst Hrq]
    |n p r1 id r2 m c pool conns un ys ans conn y response latency Hc Hy Hd|n p r1 id r2 m c pool conns un ys ans|n p r m pool conns un ys ans d].
  - by eapply run_inv_spawn.
  - destruct (ri_systems _ Hinv conn y Hy) as (_ & Hf & _). pose proof (ri_unsent _ Hinv) as Hu. simpl in Hf, Hu.
    apply Forall_app in Hu as [_ Hid]. apply Forall_inv in Hid. destruct y as [cl sv k].
    eapply run_inv_system; [exact Hy| | | | |exact Hinv]; unfold send_on; simpl.
    + by apply Sys_send.
    + rewrite <- Permutation_middle. by apply submseteq_cons.
    + unfold requests in *. simpl in *. rewrite !Forall_app in *. destruct Hf as (? & ? & ?). split_and!; [done|done| |done].
      apply Forall_singleton. exists id, (next_request_id cl). split_and!; [lia|lia|done|done].
    + unfold requests. simpl. rewrite !length_app. simpl. lia.
  - destruct (ri_systems _ Hinv conn y Hy) as (_ & Hf & _). simpl in Hf.
    eapply run_inv_system; [exact Hy|exact Hst|done|by rewrite Hrq|by rewrite Hrq|exact Hinv].
  - by eapply run_inv_answered.
  - destruct Hinv as [Hl Hp Hcs Hu Hys Ha Hcount [Hnd Hid]]. simpl in *.
    apply (load_test_step_inv config _ _ ltac:(lia) (Load_finish config n p r1 id r2 m c None)) in Hl. simpl in Hl.
    split; simpl; try done.
    + apply Forall_forall. intros i Hi. apply list_elem_of_In, list_elem_of_filter in Hi as [_ Hi].
      rewrite Forall_forall in Hu. by apply Hu, list_elem_of_In.
    + eapply systems_more; [..|exact Hys]; [done|lia|]. pose proof (length_filter (fun i => i <> id) un). lia.
    + split; [|done]. rewrite <- Permutation_middle in Hnd. by apply NoDup_cons_1_2 in Hnd.
  - destruct Hinv as [Hl Hp Hcs Hu Hys Ha Hcount [Hnd Hid]]. simpl in *.
    apply (load_test_step_inv config _ _ ltac:(lia) (Load_checkpoint config n p r m d)) in Hl. by split.
Qed.

Lemma run_start_inv qs :
  0 <= max_requests config -> run_inv (LoadRun_start qs).
Proof.
  intros Hmax. split; simpl; try done.
  - split; simpl; try done; try lia. split; constructor.
  - intros conn y Hy. apply list_lookup_fmap_Some in Hy as (q & -> & Hq). split; [by exists q|]. split; [constructor|simpl; lia].
  - split; constructor.
Qed.

(** What a load test counts as completed was answered.  However the loop, the tasks, the
    connections and the servers interleave: every completed request is counted once, its
    frame, of the kind and with the payload of its id, was written to the connection that is
    its turn, and a response of the server to this very frame was delivered to it. *)
Theorem completed_requests_were_answered qs h :
  0 <= max_requests config < 2 ^ 64 - 1 -> endpoints config <> [] -> (0 < connections_per_endpoint config)%nat ->
  (forall id, 0 <= (request id).1 < 256) -> rtc load_run_step (LoadRun_start qs) h ->
  NoDup (answered h).*1 /\ vlen (answered h) = completed (metrics (run_test h)) /\
  forall id latency, (id, latency) ∈ answered h ->
    0 <= id < next_request (run_test h) /\
    exists y request_id response, systems h !! nth (Z.to_nat id) = Some y /\
      let frame := ((request id).1, request_id, (request id).2) in
      (Z.to_nat id, frame) ∈ on_wire (client y) /\ (Z.to_nat id, response) ∈ delivered (client y) /\ valid_response frame response.
Proof.
  intros Hmax He Hper Hreq Hrun. assert (Hinv : run_inv h).
  { revert h Hrun. apply (rtc_ind_r run_inv); [apply run_start_inv; lia|]. intros h1 h2 _ Hs Hinv.
    eapply load_run_step_inv; [lia|done..]. }
  destruct Hinv as [Hl Hp Hcs Hu Hys Ha Hcount [Hnd Hid]]. split_and!; [|done|].
  { by apply list_relations.list.NoDup_app in Hnd as (_ & _ & ?). }
  intros id latency Hin. rewrite Forall_forall in Hid, Ha.
  assert (Hr : 0 <= id < next_request (run_test h)).
  { apply (Hid id), list_elem_of_In. by apply (list_elem_of_fmap_2 fst) in Hin. }
  split; [done|]. destruct (Ha (id, latency)) as (conn & y & response & Hc & Hy & Hd); [by apply list_elem_of_In|]. simpl in Hc, Hd.
  assert (conn = nth (Z.to_nat id)) as ->.
  { rewrite Hcs in Hc. apply list_lookup_fmap_Some in Hc as (k & -> & Hk). apply lookup_seq in Hk as [-> _]. done. }
  destruct (Hys _ y Hy) as ([q Hq] & Hf & Hlen). pose proof (li_next _ _ Hl).
  destruct (delivered_requests y) as (asked & Hsub & Hcb & Hv & _); [apply (system_reachable_inv q y Hq); lia|].
  apply list_elem_of_lookup in Hd as [i Hi]. destruct (Forall2_lookup_r _ _ _ _ _ Hv Hi) as (r & Hri & Hvr).
  assert (Hrw : r ∈ on_wire (client y)) by (eapply elem_of_submseteq; [by eapply list_elem_of_lookup_2|done]).
  assert (Hr1 : r.1 = Z.to_nat id).
  { assert ((delivered (client y)).*1 !! i = Some (Z.to_nat id)) as Hd1 by (apply list_lookup_fmap_Some; by exists (Z.to_nat id, response)).
    rewrite Hcb in Hd1. apply list_lookup_fmap_Some in Hd1 as (r' & Heq & Hr'). rewrite Hri in Hr'. by injection Hr' as ->. }
  rewrite Forall_forall in Hf. destruct (Hf r) as (id' & rid & Hid' & _ & ->).
  { apply list_elem_of_In. unfold requests. set_solver. }
  simpl in Hr1. assert (id' = id) as -> by lia. exists y, rid, response. split; [done|]. simpl.
  split; [done|]. split; [|exact Hvr]. by eapply list_elem_of_lookup_2.
Qed.

End run.

(** [do_write_batch_async], [do_get_record_async] and [do_mixed_operations_async]. *)
Definition do_write_batch_async `{CC : ClientCapnp} (config : LoadTestConfig) : LoadRun -> LoadRun -> Prop :=
  load_run_step config write_request.

Definition do_get_record_async `{CC : ClientCapnp} (config : LoadTestConfig) : LoadRun -> LoadRun -> Prop :=
  load_run_step config read_request.

Definition do_mixed_operations_async `{CC : ClientCapnp} (config : LoadTestConfig) (write_ratio : spec_float) :
    LoadRun -> LoadRun -> Prop :=
  load_run_step config (mixed_request write_ratio).

(** [main]. *)
Definition main_config : LoadTestConfig :=
  mkLoadTestConfig 1000 3500000 5 (endpoints LoadTestConfig_default) (timeout_secs LoadTestConfig_default) 4.

Definition client_main `{CC : ClientCapnp} : LoadRun -> LoadRun -> Prop := do_mixed_operations_async main_config main_write_ratio.

(** ** Concrete runs *)

(** A timeout that drops [write_all] in the middle of a frame leaves the front of the frame on
    the stream; the reader takes the bytes of the next frame for its rest. *)
Example cancelled_write_corrupts_stream :
  let cancelled : Frame := (RPC_GET_RECORD, 1, repeat Init.Byte.x00 20) in
  let next : Frame := (RPC_GET_RECORD, 2, [Init.Byte.x61]) in
  (read_frames 10 (frame_bytes cancelled ++ frame_bytes next)).1 = [cancelled; next] /\
  (read_frames 10 (take 10 (frame_bytes cancelled) ++ frame_bytes next)).1 = [].
Proof. by vm_compute. Qed.

Lemma write_ratio_is_exact_witness :
  main_write_ratio = f64_div (f64_of_Z 2000) (f64_of_Z 10000) /\
  should_write 7 (f64_div (f64_of_Z 2000) (f64_of_Z 10000)) = (default_hash 7 `mod` 10000 <? 2000).
Proof. split; [exact main_write_ratio_eq|]. apply (write_ratio_is_exact 7 2000). lia. Defined.

Definition two_endpoints : list SocketAddr := [V4 [127; 0; 0; 1] 1; V4 [127; 0; 0; 1] 2].

Lemma requests_are_spread_witness :
  exists pool made, TcpConnectionPool_new (fun _ _ => true) two_endpoints 2 = Some (pool, made) /\
    made !! nth_connection two_endpoints 2 5 = two_endpoints !! 1%nat /\ nth_connection two_endpoints 2 5 = 2%nat.
Proof.
  eexists _, _. split; [reflexivity|].
  destruct (requests_are_spread (fun _ _ => true) two_endpoints 2 _ _ 5 eq_refl) as (_ & _ & _ & _ & Hm & _); [done|lia|vm_compute; done|].
  split; [exact Hm|reflexivity].
Defined.

(** One request of an unknown type over one connection. *)
Definition echo_config : LoadTestConfig := mkLoadTestConfig 1 1 5 [V4 [127; 0; 0; 1] 1] 5 1.

Definition echo_request (id : Z) : Z * list byte := (9, []).

Definition echo_frame_0 : Frame := (9, 1, []).

Definition echo_sent (c : TcpConnection) : TcpConnection := send_request 9 [] 0%nat c.

Definition echo_run_end : LoadRun :=
  mkLoadRun (mkLoadTest 1 1 [] (record_latency 12 MetricsCollector_new) true)
    (pool_after (endpoints echo_config) 1 1) [0%nat] []
    [mkSystem (receive_response (mkResponseMessage 1 9 []) (send_locked (0%nat, echo_frame_0) [] (echo_sent TcpConnection_new)))
       (mkConnection [] [] [] [mkResponseMessage 1 9 []] (encode_frame 9 1 []) true (mkQueues [] [] 0)) 1] [(0, 12)].

Lemma echo_run_reachable :
  rtc (load_run_step echo_config echo_request) (LoadRun_start echo_config [mkQueues [] [] 0]) echo_run_end.
Proof.
  eapply rtc_l; [by apply (Run_spawn echo_config echo_request 0 0 [] _ true _ (pool_after (endpoints echo_config) 1 1) 0%nat [])|].
  eapply rtc_l; [by apply (Run_send echo_config echo_request _ _ [0%nat] [] 0 [] _ [] 0%nat (System_start (mkQueues [] [] 0)))|].
  eapply rtc_l; [eapply (Run_transfer echo_config echo_request _ _ _ _ _ _ 0%nat); [reflexivity|split; [by apply (Sys_write (0%nat, echo_frame_0) _ _ _ [] [])|reflexivity]]|].
  eapply rtc_l; [eapply (Run_transfer echo_config echo_request _ _ _ _ _ _ 0%nat); [reflexivity|split; [apply Sys_server, (C_read echo_frame_0 [])|reflexivity]]|].
  eapply rtc_l; [eapply (Run_transfer echo_config echo_request _ _ _ _ _ _ 0%nat); [reflexivity|split; [by apply Sys_server, (C_dispatch [] [] echo_frame_0 [] _ _ _ _ _ [] 0%nat (Sending []))|reflexivity]]|].
  eapply rtc_l; [eapply (Run_transfer echo_config echo_request _ _ _ _ _ _ 0%nat); [reflexivity|split; [apply Sys_server, (C_send [] [] echo_frame_0 [] []); simpl; unfold RESPONSE_CAPACITY; lia|reflexivity]]|].
  eapply rtc_l; [eapply (Run_transfer echo_config echo_request _ _ _ _ _ _ 0%nat); [reflexivity|split; [by apply Sys_server, (C_write [] [] (mkResponseMessage 1 9 []) [])|reflexivity]]|].
  eapply rtc_l; [eapply (Run_transfer echo_config echo_request _ _ _ _ _ _ 0%nat); [reflexivity|split; [by apply (Sys_receive _ _ 0 (mkResponseMessage 1 9 []))|reflexivity]]|].
  eapply rtc_l; [|apply rtc_refl].
  eapply (Run_answered echo_config echo_request 1 0 [] 0 [] MetricsCollector_new true _ [0%nat] [] _ [] 0%nat _ [] 12); [reflexivity|reflexivity|].
  by left.
Qed.

Lemma completed_requests_were_answered_witness :
  exists response, valid_response echo_frame_0 response /\ vlen (answered echo_run_end) = 1.
Proof.
  destruct (completed_requests_were_answered echo_config echo_request [mkQueues [] [] 0] echo_run_end) as (_ & Hc & Ha);
    [simpl; lia|done|simpl; lia|intros id; simpl; lia|exact echo_run_reachable|].
  destruct (Ha 0 12) as (_ & y & rid & response & Hy & Hw & _ & Hv); [by left|].
  vm_compute in Hy. injection Hy as <-. apply list_elem_of_singleton in Hw. injection Hw as ->.
  exists response. split; [exact Hv|exact Hc].
Defined.
