(* ===== verification/ClusterStreams.v ===== *)
(** * Tables of connections

    [src/transport/cluster_stream_manager.rs] and the tables of
    [src/transport/capnp/message_receiver.rs]: which channel a quorum worker gets for a node.
    A task per outbound connection connects, sends, and removes its node from the table when it
    ends; the caller of [get_or_connect] registers the channel after it was told that the
    connection stands.  The steps of callers and tasks interleave.  What travels over a
    connection is in [Codec.v]. *)
From S2P Require Import Prelude NetAddr Capnp CapnpInstance RaftTypes QuorumMessage QuorumWorker Config.
From stdpp Require Import strings.

#[local] Open Scope Z_scope.
#[local] Open Scope kraft_scope.

(** ** Outbound *)

(** A channel to a [MessageSender], with the address the sender connects to. *)
Record Channel := mkChannel { chan_addr : SocketAddr; chan_no : nat }.

Inductive ClusterConnectError :=
| NoSuchNode (node_id : Z)
| InvalidEndpoint (endpoint : string)
| ConnectionFailed.

(** Where the task of a connection is: in [TcpStream::connect], in its send loop, or after it
    has dropped the receiver and before it cleans up. *)
Inductive SenderPhase := Connecting | Running | Stopped.

Record SenderTask := mkSenderTask {
  st_node : Z;
  st_channel : Channel;
  st_phase : SenderPhase
}.

(** A caller of [get_or_connect] that waits for the connect callback. *)
Record Caller := mkCaller {
  ca_node : Z;
  ca_channel : Channel;
  ca_answer : option bool
}.

Record ClusterStreamManager := mkClusterStreamManager {
  sm_self_id : Z;
  sm_cluster_nodes : list ClusterNode;
  outbound_senders : gmap Z Channel;
  sender_tasks : list SenderTask;
  callers : list Caller;
  next_channel : nat
}.

Implicit Types m : ClusterStreamManager.

(** [ClusterStreamManager::new]. *)
Definition ClusterStreamManager_new (self_id : Z) (cluster_nodes : list ClusterNode) : ClusterStreamManager :=
  mkClusterStreamManager self_id cluster_nodes ∅ [] [] 0.

(** What [main] gives the manager and the quorum workers: the configured nodes but itself. *)
Definition other_nodes (c : AppConfig) : list ClusterNode :=
  filter (fun n => cn_node_id n <> cfg_node_id c) (cluster_nodes c).

(** [self.cluster_nodes.iter().find(..)]. *)
Definition find_node (node_id : Z) (nodes : list ClusterNode) : option ClusterNode :=
  snd <$> list_find (fun n => cn_node_id n = node_id) nodes.

Inductive ConnectStart :=
| Existing (ch : Channel)
| Refused (e : ClusterConnectError)
| Opening (ch : Channel).

(** [get_or_connect] up to the await of the connect callback. *)
Definition get_or_connect_start (node_id : Z) m : ConnectStart * ClusterStreamManager :=
  match outbound_senders m !! node_id with
  | Some ch => (Existing ch, m)
  | None =>
    match find_node node_id (sm_cluster_nodes m) with
    | None => (Refused (NoSuchNode node_id), m)
    | Some node =>
      match parse_socket_addr (endpoint node) with
      | None => (Refused (InvalidEndpoint (endpoint node)), m)
      | Some addr =>
        let ch := mkChannel addr (next_channel m) in
        (Opening ch,
         mkClusterStreamManager (sm_self_id m) (sm_cluster_nodes m) (outbound_senders m)
           (sender_tasks m ++ [mkSenderTask node_id ch Connecting])
           (callers m ++ [mkCaller node_id ch None]) (S (next_channel m)))
      end
    end
  end.

Definition set_outbound (t : gmap Z Channel) m : ClusterStreamManager :=
  mkClusterStreamManager (sm_self_id m) (sm_cluster_nodes m) t (sender_tasks m) (callers m) (next_channel m).

(** The rest of [get_or_connect]; [None] as the answer is a dropped callback. *)
Definition get_or_connect_end (node_id : Z) (ch : Channel) (answer : option bool) m
    : (ClusterConnectError + Channel) * ClusterStreamManager :=
  match answer with
  | Some true => (inr ch, set_outbound (<[node_id := ch]> (outbound_senders m)) m)
  | Some false => (inl ConnectionFailed, m)
  | None => (inl ConnectionFailed, m)
  end.

(** What the spawned task does when [MessageSender::run] has returned. *)
Definition sender_cleanup (node_id : Z) m : ClusterStreamManager :=
  set_outbound (delete node_id (outbound_senders m)) m.

(** [reset_connection]; no worker calls it. *)
Definition reset_connection (node_id : Z) m : ClusterStreamManager :=
  set_outbound (delete node_id (outbound_senders m)) m.

Definition has_outbound_connection (node_id : Z) m : bool :=
  bool_decide (is_Some (outbound_senders m !! node_id)).

Definition set_tasks (ts : list SenderTask) (cs : list Caller) m : ClusterStreamManager :=
  mkClusterStreamManager (sm_self_id m) (sm_cluster_nodes m) (outbound_senders m) ts cs (next_channel m).

(** The steps of the workers that ask for connections and of the tasks that hold them.  The
    send loop of a task ends when a message cannot be written or every sender of its channel is
    dropped; the caller holds the only sender until it has returned, so the loop does not end
    before. *)
Inductive stream_step : ClusterStreamManager -> ClusterStreamManager -> Prop :=
| Stream_ask m node_id : stream_step m (get_or_connect_start node_id m).2
| Stream_connected m ts1 node_id ch ts2 cs1 cs2 :
    sender_tasks m = ts1 ++ mkSenderTask node_id ch Connecting :: ts2 ->
    callers m = cs1 ++ mkCaller node_id ch None :: cs2 ->
    stream_step m (set_tasks (ts1 ++ mkSenderTask node_id ch Running :: ts2)
                     (cs1 ++ mkCaller node_id ch (Some true) :: cs2) m)
| Stream_refused m ts1 node_id ch ts2 cs1 cs2 :
    sender_tasks m = ts1 ++ mkSenderTask node_id ch Connecting :: ts2 ->
    callers m = cs1 ++ mkCaller node_id ch None :: cs2 ->
    stream_step m (set_tasks (ts1 ++ mkSenderTask node_id ch Stopped :: ts2)
                     (cs1 ++ mkCaller node_id ch (Some false) :: cs2) m)
| Stream_return m cs1 c cs2 answer :
    callers m = cs1 ++ c :: cs2 -> ca_answer c = Some answer ->
    stream_step m (set_tasks (sender_tasks m) (cs1 ++ cs2)
                     (get_or_connect_end (ca_node c) (ca_channel c) (ca_answer c) m).2)
| Stream_stop m ts1 node_id ch ts2 :
    sender_tasks m = ts1 ++ mkSenderTask node_id ch Running :: ts2 ->
    Forall (fun c => ca_channel c <> ch) (callers m) ->
    stream_step m (set_tasks (ts1 ++ mkSenderTask node_id ch Stopped :: ts2) (callers m) m)
| Stream_cleanup m ts1 node_id ch ts2 :
    sender_tasks m = ts1 ++ mkSenderTask node_id ch Stopped :: ts2 ->
    stream_step m (sender_cleanup node_id (set_tasks (ts1 ++ ts2) (callers m) m)).

(** ** Messages go where the configuration says *)

(** The address configured for a node: of its first entry. *)
Definition node_addr (nodes : list ClusterNode) (node_id : Z) : option SocketAddr :=
  let* node := find_node node_id nodes in
  parse_socket_addr (endpoint node).

Record streams_inv (self_id : Z) (nodes : list ClusterNode) m : Prop := {
  sv_config : sm_self_id m = self_id /\ sm_cluster_nodes m = nodes;
  sv_table : forall node_id ch, outbound_senders m !! node_id = Some ch ->
    node_addr nodes node_id = Some (chan_addr ch) /\ (chan_no ch < next_channel m)%nat;
  sv_tasks : Forall (fun t => node_addr nodes (st_node t) = Some (chan_addr (st_channel t)) /\
                              (chan_no (st_channel t) < next_channel m)%nat) (sender_tasks m);
  sv_callers : Forall (fun c => node_addr nodes (ca_node c) = Some (chan_addr (ca_channel c)) /\
                                (chan_no (ca_channel c) < next_channel m)%nat) (callers m);
  sv_fresh : NoDup (chan_no <$> (st_channel <$> sender_tasks m));
  sv_live : forall node_id ch, outbound_senders m !! node_id = Some ch ->
    exists p, mkSenderTask node_id ch p ∈ sender_tasks m;
  sv_pending : Forall (fun c => ca_answer c = Some true ->
    mkSenderTask (ca_node c) (ca_channel c) Running ∈ sender_tasks m) (callers m)
}.

Lemma get_or_connect_start_opening node_id m ch m' :
  get_or_connect_start node_id m = (Opening ch, m') ->
  outbound_senders m !! node_id = None /\ node_addr (sm_cluster_nodes m) node_id = Some (chan_addr ch) /\
  chan_no ch = next_channel m.
Proof.
  unfold get_or_connect_start, node_addr. destruct (outbound_senders m !! node_id); [done|].
  destruct (find_node node_id (sm_cluster_nodes m)) as [node|]; [|done]. simpl.
  destruct (parse_socket_addr (endpoint node)) as [addr|]; [|done]. intros ?. by simplify_eq.
Qed.

Lemma get_or_connect_start_cases node_id m :
  (get_or_connect_start node_id m).2 = m \/
  exists ch, node_addr (sm_cluster_nodes m) node_id = Some (chan_addr ch) /\ chan_no ch = next_channel m /\
    outbound_senders m !! node_id = None /\
    (get_or_connect_start node_id m).2 =
      mkClusterStreamManager (sm_self_id m) (sm_cluster_nodes m) (outbound_senders m)
        (sender_tasks m ++ [mkSenderTask node_id ch Connecting])
        (callers m ++ [mkCaller node_id ch None]) (S (next_channel m)).
Proof.
  unfold get_or_connect_start, node_addr. destruct (outbound_senders m !! node_id); [by left|].
  destruct (find_node node_id (sm_cluster_nodes m)) as [node|]; [|by left]. simpl.
  destruct (parse_socket_addr (endpoint node)) as [addr|]; [|by left]. right.
  by exists (mkChannel addr (next_channel m)).
Qed.

Lemma Forall_middle {A} (P : A -> Prop) l1 x l2 : Forall P (l1 ++ x :: l2) <-> P x /\ Forall P (l1 ++ l2).
Proof. rewrite !Forall_app, Forall_cons. naive_solver. Qed.

(** The next phase of a task, and the answer of its caller. *)
Lemma streams_inv_progress self_id nodes m ts1 node_id ch p p' ts2 cs' :
  sender_tasks m = ts1 ++ mkSenderTask node_id ch p :: ts2 ->
  Forall (fun c => node_addr nodes (ca_node c) = Some (chan_addr (ca_channel c)) /\
                   (chan_no (ca_channel c) < next_channel m)%nat) cs' ->
  Forall (fun c => ca_answer c = Some true -> mkSenderTask (ca_node c) (ca_channel c) Running ∈
                     ts1 ++ mkSenderTask node_id ch p' :: ts2) cs' ->
  streams_inv self_id nodes m ->
  streams_inv self_id nodes (set_tasks (ts1 ++ mkSenderTask node_id ch p' :: ts2) cs' m).
Proof.
  intros Ht Hcs Hpend [Hc Htab Hts Hca Hf Hlive _]. rewrite Ht in Hts, Hf, Hlive. split; simpl; try done.
  - by rewrite Forall_middle in *.
  - by rewrite !fmap_app, !fmap_cons in *.
  - intros n ch' Hl. destruct (Hlive n ch' Hl) as [q Hin].
    rewrite elem_of_app, elem_of_cons in Hin. destruct Hin as [Hin|[Heq|Hin]].
    + exists q. rewrite elem_of_app. by left.
    + simplify_eq. exists p'. rewrite elem_of_app, elem_of_cons. by right; left.
    + exists q. rewrite elem_of_app, elem_of_cons. by right; right.
Qed.

(** A running task stays where another one changes. *)
Lemma running_stays ts1 t t' ts2 n ch :
  mkSenderTask n ch Running ∈ ts1 ++ t :: ts2 -> t <> mkSenderTask n ch Running ->
  mkSenderTask n ch Running ∈ ts1 ++ t' :: ts2.
Proof. rewrite !elem_of_app, !elem_of_cons. intros [?|[Heq|?]] Hne; [by left|by destruct Hne|by right; right]. Qed.

(** The callers after one of them was answered, while their task leaves [Connecting]. *)
Lemma callers_answered nodes m ts1 node_id ch p ts2 cs1 cs2 answer :
  sender_tasks m = ts1 ++ mkSenderTask node_id ch Connecting :: ts2 ->
  callers m = cs1 ++ mkCaller node_id ch None :: cs2 ->
  (answer = true -> p = Running) ->
  streams_inv (sm_self_id m) nodes m ->
  let cs' := cs1 ++ mkCaller node_id ch (Some answer) :: cs2 in
  Forall (fun c => node_addr nodes (ca_node c) = Some (chan_addr (ca_channel c)) /\
                   (chan_no (ca_channel c) < next_channel m)%nat) cs' /\
  Forall (fun c => ca_answer c = Some true -> mkSenderTask (ca_node c) (ca_channel c) Running ∈
                     ts1 ++ mkSenderTask node_id ch p :: ts2) cs'.
Proof.
  intros Ht Hcs Hp [_ _ _ Hca _ _ Hpend] cs'. rewrite Hcs in Hca, Hpend. unfold cs'.
  rewrite Forall_middle in Hca, Hpend. rewrite !Forall_middle. split; [done|]. split.
  - intros [= ->]. rewrite Hp by done. rewrite elem_of_app, elem_of_cons. by right; left.
  - eapply Forall_impl; [apply Hpend|]. intros c Hc Ha. specialize (Hc Ha). rewrite Ht in Hc.
    by eapply running_stays.
Qed.

Lemma ask_inv self_id nodes m node_id :
  streams_inv self_id nodes m -> streams_inv self_id nodes (get_or_connect_start node_id m).2.
Proof.
  intros Hinv. destruct (get_or_connect_start_cases node_id m) as [->|(ch & Haddr & Hno & Hnone & ->)]; [done|].
  destruct Hinv as [[Hself Hn] Htab Hts Hca Hf Hlive Hpend]. rewrite Hn in Haddr. split; simpl; try done.
  - intros n ch' Hl. destruct (Htab n ch' Hl). split; [done|lia].
  - apply Forall_app. split; [|constructor; [split; [done|simpl; lia]|by constructor]].
    eapply Forall_impl; [exact Hts|]. intros t [? ?]. split; [done|lia].
  - apply Forall_app. split; [|constructor; [split; [done|simpl; lia]|by constructor]].
    eapply Forall_impl; [exact Hca|]. intros t [? ?]. split; [done|lia].
  - rewrite !fmap_app. simpl. apply list_relations.list.NoDup_app. split; [done|]. split; [|apply NoDup_singleton].
    intros x Hx ->%list_elem_of_singleton. rewrite <- list_fmap_compose in Hx.
    apply list_elem_of_fmap in Hx as (t & Heq & Ht). rewrite Forall_forall in Hts.
    destruct (Hts t Ht) as [_ Hlt]. simpl in Heq. lia.
  - intros n ch' Hl. destruct (Hlive n ch' Hl) as [p Hin]. exists p. rewrite elem_of_app. by left.
  - apply Forall_app. split; [|by repeat constructor].
    eapply Forall_impl; [exact Hpend|]. intros c Hc Ha. rewrite elem_of_app. left. by apply Hc.
Qed.

Lemma stream_step_inv self_id nodes m m' :
  stream_step m m' -> streams_inv self_id nodes m -> streams_inv self_id nodes m'.
Proof.
  intros Hs Hinv. pose proof (sv_config _ _ _ Hinv) as [Hself Hn].
  destruct Hs as [m node_id|m ts1 node_id ch ts2 cs1 cs2 Ht Hcs|m ts1 node_id ch ts2 cs1 cs2 Ht Hcs
    |m cs1 c cs2 answer Hcs Ha|m ts1 node_id ch ts2 Ht Hno|m ts1 node_id ch ts2 Ht].
  - by apply ask_inv.
  - destruct (callers_answered nodes m ts1 node_id ch Running ts2 cs1 cs2 true Ht Hcs) as [H1 H2];
      [done|by rewrite Hself|]. by apply (streams_inv_progress _ _ m _ _ _ Connecting).
  - destruct (callers_answered nodes m ts1 node_id ch Stopped ts2 cs1 cs2 false Ht Hcs) as [H1 H2];
      [done|by rewrite Hself|]. by apply (streams_inv_progress _ _ m _ _ _ Connecting).
  - destruct Hinv as [Hc0 Htab Hts Hca Hf Hlive Hpend]. rewrite Hcs in Hca, Hpend.
    apply Forall_middle in Hca as [[Hc Hlt] Hca]. apply Forall_middle in Hpend as [Hp Hpend].
    rewrite Ha. destruct answer; split; simpl; try done.
    + intros n ch Hl. destruct (decide (n = ca_node c)) as [->|Hne].
      * rewrite lookup_insert_eq in Hl. by simplify_eq.
      * rewrite lookup_insert_ne in Hl by done. by apply Htab.
    + intros n ch Hl. destruct (decide (n = ca_node c)) as [->|Hne].
      * rewrite lookup_insert_eq in Hl. simplify_eq. exists Running. by apply Hp.
      * rewrite lookup_insert_ne in Hl by done. by apply Hlive.
  - apply (streams_inv_progress _ _ m _ _ _ Running); try done; [apply Hinv|].
    apply Forall_forall. intros c Hc Ha. pose proof (sv_pending _ _ _ Hinv) as Hpend.
    rewrite Forall_forall in Hpend, Hno. specialize (Hpend c Hc Ha). rewrite Ht in Hpend.
    eapply running_stays; [done|]. intros Heq. simplify_eq. by apply (Hno c).
  - destruct Hinv as [Hc Htab Hts Hca Hf Hlive Hpend]. rewrite Ht in Hts, Hf, Hlive, Hpend. split; simpl; try done.
    + intros n ch' [_ Hl]%lookup_delete_Some. by apply Htab.
    + by apply Forall_middle in Hts as [_ ?].
    + rewrite <- Permutation_middle in Hf. rewrite !fmap_cons in Hf. by apply NoDup_cons_1_2 in Hf.
    + intros n ch' [Hne Hl]%lookup_delete_Some. destruct (Hlive n ch' Hl) as [p Hin]. exists p.
      rewrite elem_of_app, elem_of_cons in Hin. rewrite elem_of_app.
      destruct Hin as [Hin|[Heq|Hin]]; [by left|by simplify_eq|by right].
    + eapply Forall_impl; [exact Hpend|]. intros c Hc' Ha. specialize (Hc' Ha).
      rewrite elem_of_app, elem_of_cons in Hc'. rewrite elem_of_app.
      destruct Hc' as [Hin|[Heq|Hin]]; [by left|by simplify_eq|by right].
Qed.

Lemma streams_start_inv self_id nodes : streams_inv self_id nodes (ClusterStreamManager_new self_id nodes).
Proof. split; simpl; try done. by constructor. Qed.

Lemma streams_reachable_inv self_id nodes m :
  rtc stream_step (ClusterStreamManager_new self_id nodes) m -> streams_inv self_id nodes m.
Proof.
  intros Hr. pose proof (streams_start_inv self_id nodes) as Hstart.
  induction Hr as [|m1 m2 m3 Hs _ IH]; eauto using stream_step_inv.
Qed.

Lemma find_node_None node_id nodes : find_node node_id nodes = None <-> node_id ∉ cn_node_id <$> nodes.
Proof.
  unfold find_node. rewrite fmap_None, list_find_None, list_elem_of_fmap, Forall_forall. naive_solver.
Qed.

Lemma find_other_node node_id c :
  node_id <> cfg_node_id c -> find_node node_id (other_nodes c) = find_node node_id (cluster_nodes c).
Proof.
  intros Hne. unfold find_node, other_nodes. induction (cluster_nodes c) as [|n nodes IH]; [done|].
  rewrite filter_cons. case_decide as Hn; simpl.
  - case_decide; simpl; [done|]. by destruct (list_find _ (filter _ nodes)) as [[]|], (list_find _ nodes) as [[]|].
  - rewrite decide_False by congruence. rewrite IH. by destruct (list_find _ nodes) as [[]|].
Qed.

Lemma other_node_addr c node_id addr :
  node_addr (other_nodes c) node_id = Some addr ->
  node_id <> cfg_node_id c /\ node_addr (cluster_nodes c) node_id = Some addr.
Proof.
  unfold node_addr. intros Ha. assert (Hne : node_id <> cfg_node_id c).
  { destruct (find_node node_id (other_nodes c)) as [n|] eqn:Hf; [|done]. intros ->. unfold find_node in Hf.
    apply fmap_Some in Hf as ([i n'] & (Hi & Hid & _)%list_find_Some & ->).
    apply list_elem_of_lookup_2, list_elem_of_filter in Hi as [Hi _]. done. }
  split; [done|]. by rewrite <- find_other_node.
Qed.

(** C35: Messages go where a valid configuration says.  In every reachable state of the
    manager [main] creates, each registered channel of a node leads to the endpoint configured
    for that node, which is another one than its own, and its connection has not been cleaned
    up yet, so a lost connection never stays registered; a worker that asks for a node gets
    such a channel, or an error exactly when the node is its own or not configured; and no two
    connections share a channel. *)
Theorem streams_reach_configured_endpoints c m node_id :
  validate c = inr tt -> rtc stream_step (ClusterStreamManager_new (cfg_node_id c) (other_nodes c)) m ->
  (forall n ch, outbound_senders m !! n = Some ch ->
     (n <> cfg_node_id c /\ node_addr (cluster_nodes c) n = Some (chan_addr ch)) /\
     exists p, mkSenderTask n ch p ∈ sender_tasks m) /\
  match (get_or_connect_start node_id m).1 with
  | Existing ch | Opening ch => node_id <> cfg_node_id c /\ node_addr (cluster_nodes c) node_id = Some (chan_addr ch)
  | Refused e => e = NoSuchNode node_id /\ (node_id = cfg_node_id c \/ node_id ∉ cn_node_id <$> cluster_nodes c)
  end /\
  NoDup (chan_no <$> (st_channel <$> sender_tasks m)).
Proof.
  intros Hv%validate_ok Hr. destruct Hv as (_ & _ & _ & _ & _ & _ & _ & _ & Hall).
  destruct (streams_reachable_inv _ _ _ Hr) as [[Hself Hn] Htab _ _ Hf Hlive _]. split_and!; [|simpl|done].
  { intros n ch Hl. split; [by apply other_node_addr, Htab|by apply Hlive]. }
  unfold get_or_connect_start. destruct (outbound_senders m !! node_id) as [ch|] eqn:Ho; [by apply other_node_addr, Htab|].
  rewrite Hn. destruct (find_node node_id (other_nodes c)) as [node|] eqn:Hfind; last first.
  { simpl. split; [done|]. destruct (decide (node_id = cfg_node_id c)) as [|Hne]; [by left|right].
    rewrite find_other_node in Hfind by done. by apply find_node_None. }
  assert (Haddr : is_Some (parse_socket_addr (endpoint node))).
  { rewrite Forall_forall in Hall. apply Hall. unfold find_node in Hfind.
    apply fmap_Some in Hfind as ([i x] & Hfind & ->). apply list_find_Some in Hfind as (Hi & _ & _).
    apply list_elem_of_lookup_2, list_elem_of_filter in Hi. apply Hi. }
  destruct Haddr as [addr Haddr]. rewrite Haddr. apply other_node_addr. unfold node_addr. by rewrite Hfind.
Qed.

(** A cleanup can come too late.  The task of a connection that was refused removes its node
    from the table after the caller has been told, so it can remove the connection that the
    caller has opened and registered since: that connection still runs, but is not registered
    any more, and the quorum worker gives its sender up at its next check. *)
Theorem late_cleanup_unregisters_connection self_id nodes node_id :
  is_Some (node_addr nodes node_id) ->
  exists m m' ch,
    rtc stream_step (ClusterStreamManager_new self_id nodes) m /\ stream_step m m' /\
    outbound_senders m !! node_id = Some ch /\ outbound_senders m' !! node_id = None /\
    sender_tasks m' = [mkSenderTask node_id ch Running] /\
    forall `{Capnp} inbound w,
      qw_outbound_tx (ensure_connections (has_outbound_connection node_id m') None inbound w).2 = None.
Proof.
  intros [addr Haddr]. set (m0 := ClusterStreamManager_new self_id nodes).
  assert (Hask : forall t cs n, (get_or_connect_start node_id (mkClusterStreamManager self_id nodes ∅ t cs n)).2 =
    mkClusterStreamManager self_id nodes ∅ (t ++ [mkSenderTask node_id (mkChannel addr n) Connecting])
      (cs ++ [mkCaller node_id (mkChannel addr n) None]) (S n)).
  { intros t cs n. unfold get_or_connect_start, node_addr in *. simpl.
    destruct (find_node node_id nodes) as [node|]; [|done]. simpl in Haddr. by rewrite Haddr. }
  set (ch0 := mkChannel addr 0). set (ch1 := mkChannel addr 1).
  eexists (mkClusterStreamManager self_id nodes {[ node_id := ch1 ]}
    [mkSenderTask node_id ch0 Stopped; mkSenderTask node_id ch1 Running] [] 2), _, ch1. split; [|split].
  - eapply rtc_l; [apply (Stream_ask m0 node_id)|]. unfold m0, ClusterStreamManager_new. rewrite Hask.
    eapply rtc_l; [by apply (Stream_refused _ [] node_id ch0 [] [] [])|].
    eapply rtc_l; [by apply (Stream_return _ [] (mkCaller node_id ch0 (Some false)) [] false)|].
    eapply rtc_l; [apply (Stream_ask _ node_id)|]. unfold set_tasks. simpl. rewrite Hask.
    eapply rtc_l; [by apply (Stream_connected _ [mkSenderTask node_id ch0 Stopped] node_id ch1 [] [] [])|].
    eapply rtc_l; [by apply (Stream_return _ [] (mkCaller node_id ch1 (Some true)) [] true)|].
    apply rtc_refl.
  - by apply (Stream_cleanup _ [] node_id ch0 [mkSenderTask node_id ch1 Running]).
  - unfold has_outbound_connection. simpl. rewrite lookup_singleton_eq, lookup_delete_eq. split_and!; try done.
    intros ? inbound w. unfold ensure_connections. destruct (qw_outbound_tx w) eqn:Hw; simpl; [done|].
    by rewrite Hw.
Qed.

(** ** Inbound *)

(** [MessageReceiver]: both tables, and the connections whose [handle_connection] has read its
    connect request, with the queue each has created. *)
Record MessageReceiver := mkMessageReceiver {
  inbound_queues : gmap Z nat;
  inbound_receivers : gmap Z nat;
  open_connections : list (Z * nat);
  next_queue : nat
}.

Implicit Types r : MessageReceiver.

Definition MessageReceiver_new : MessageReceiver := mkMessageReceiver ∅ ∅ [] 0.

(** [MessageReceiver::get_queue], and [get_inbound_queue] of the manager. *)
Definition get_queue (node_id : Z) r : option nat := inbound_receivers r !! node_id.

Definition has_inbound_connection (node_id : Z) r : bool := bool_decide (is_Some (get_queue node_id r)).

(** [handle_connection] once it knows the node. *)
Definition register_connection (node_id : Z) r : MessageReceiver :=
  mkMessageReceiver (<[node_id := next_queue r]> (inbound_queues r)) (<[node_id := next_queue r]> (inbound_receivers r))
    (open_connections r ++ [(node_id, next_queue r)]) (S (next_queue r)).

(** Its clean up after the connection [rest] has lost one of. *)
Definition unregister_connection (node_id : Z) (rest : list (Z * nat)) r : MessageReceiver :=
  mkMessageReceiver (delete node_id (inbound_queues r)) (delete node_id (inbound_receivers r)) rest (next_queue r).

(** [overlap] allows a node to open a connection while an older one of it is still open. *)
Inductive receiver_step (overlap : bool) : MessageReceiver -> MessageReceiver -> Prop :=
| Receiver_accept r node_id :
    overlap = true \/ node_id ∉ (open_connections r).*1 ->
    receiver_step overlap r (register_connection node_id r)
| Receiver_close r cs1 node_id q cs2 :
    open_connections r = cs1 ++ (node_id, q) :: cs2 ->
    receiver_step overlap r (unregister_connection node_id (cs1 ++ cs2) r).

Record receiver_inv (overlap : bool) r : Prop := {
  rv_same : inbound_queues r = inbound_receivers r;
  rv_open : forall node_id q, get_queue node_id r = Some q -> (node_id, q) ∈ open_connections r;
  rv_exact : overlap = false ->
    NoDup (open_connections r).*1 /\
    forall node_id q, (node_id, q) ∈ open_connections r -> get_queue node_id r = Some q
}.

Lemma receiver_step_inv overlap r r' : receiver_step overlap r r' -> receiver_inv overlap r -> receiver_inv overlap r'.
Proof.
  intros [r0 node_id Hov|r0 cs1 node_id q cs2 Hcs] [Hsame Hopen Hex]; unfold get_queue in *.
  - split; simpl; unfold get_queue; simpl; [by rewrite Hsame|..].
    + intros n q. rewrite elem_of_app. destruct (decide (n = node_id)) as [->|Hne].
      * rewrite lookup_insert_eq. intros [= <-]. right. set_solver.
      * rewrite lookup_insert_ne by done. intros Hq. left. by apply Hopen.
    + intros ->. destruct Hov as [|Hnot]; [done|]. destruct (Hex eq_refl) as [Hnd Hreg]. split.
      * rewrite fmap_app. apply list_relations.list.NoDup_app. split; [done|]. split; [|apply NoDup_singleton].
        by intros x Hx ->%list_elem_of_singleton.
      * intros n q [Hin|Hin%list_elem_of_singleton]%elem_of_app.
        -- rewrite lookup_insert_ne; [by apply Hreg|]. intros ->. apply Hnot. by apply (list_elem_of_fmap_2 fst) in Hin.
        -- simplify_eq. by rewrite lookup_insert_eq.
  - rewrite Hcs in Hopen, Hex. split; simpl; unfold get_queue; simpl; [by rewrite Hsame|..].
    + intros n q' [Hne Hq]%lookup_delete_Some. specialize (Hopen n q' Hq).
      rewrite elem_of_app, elem_of_cons in Hopen. rewrite elem_of_app.
      destruct Hopen as [Hin|[Heq|Hin]]; [by left|by simplify_eq|by right].
    + intros Hov. destruct (Hex Hov) as [Hnd Hreg]. rewrite fmap_app, fmap_cons in Hnd.
      rewrite <- Permutation_middle in Hnd. apply list_relations.list.NoDup_cons in Hnd as [Hn Hnd].
      rewrite <- fmap_app in Hnd, Hn. split; [done|]. intros n q' Hin.
      rewrite lookup_delete_ne; [apply Hreg; rewrite elem_of_app, elem_of_cons; set_solver|].
      intros <-. apply Hn. by apply (list_elem_of_fmap_2 fst) in Hin.
Qed.

Lemma receiver_reachable_inv overlap r : rtc (receiver_step overlap) MessageReceiver_new r -> receiver_inv overlap r.
Proof.
  intros Hr. assert (Hstart : receiver_inv overlap MessageReceiver_new).
  { split; simpl; [done|by intros ? ?|]. intros _. split; [constructor|]. by intros ? ? ?%elem_of_nil. }
  revert r Hr. apply (rtc_ind_r (receiver_inv overlap)); [done|]. eauto using receiver_step_inv.
Qed.

(** A worker receives from a connection that is open.  The queue registered for a node is
    always that of an open connection of this node; as long as no node has two connections
    open at a time, every open connection is the registered one of its node. *)
Theorem inbound_table_is_exact overlap r node_id q :
  rtc (receiver_step overlap) MessageReceiver_new r ->
  (get_queue node_id r = Some q -> (node_id, q) ∈ open_connections r) /\
  (overlap = false -> (node_id, q) ∈ open_connections r -> get_queue node_id r = Some q) /\
  inbound_queues r = inbound_receivers r.
Proof.
  intros Hr%receiver_reachable_inv. split_and!; [by apply Hr| |by apply Hr].
  intros Hov Hin. destruct (rv_exact _ _ Hr Hov) as [_ Hreg]. by apply Hreg.
Qed.

(** When a node reconnects before the end of its old connection was noticed, the clean up of the
    old connection takes the queue of the new one out of the tables, and the new connection
    stays open without a reader. *)
Theorem old_connection_unregisters_new node_id :
  exists r, rtc (receiver_step true) MessageReceiver_new r /\
    open_connections r = [(node_id, 1%nat)] /\ has_inbound_connection node_id r = false.
Proof.
  exists (unregister_connection node_id [(node_id, 1%nat)]
    (register_connection node_id (register_connection node_id MessageReceiver_new))). split_and!; [|done|].
  - eapply rtc_l; [by apply Receiver_accept; left|]. eapply rtc_l; [by apply Receiver_accept; left|].
    eapply rtc_l; [by apply (Receiver_close _ _ [] node_id 0 [(node_id, 1%nat)])|]. apply rtc_refl.
  - unfold has_inbound_connection, get_queue. simpl. by rewrite lookup_delete_eq.
Qed.

(** ** Concrete runs *)

Lemma streams_reach_configured_endpoints_witness :
  exists ch, (get_or_connect_start 2 (ClusterStreamManager_new 1 (other_nodes example_config))).1 = Opening ch /\
    node_addr (cluster_nodes example_config) 2 = Some (chan_addr ch).
Proof.
  destruct (streams_reach_configured_endpoints example_config _ 2 ltac:(vm_compute; done)
    (rtc_refl _ (ClusterStreamManager_new 1 (other_nodes example_config)))) as (_ & Hm & _).
  eexists. split; [vm_compute; reflexivity|]. vm_compute in Hm |- *. exact (proj2 Hm).
Defined.

Lemma late_cleanup_unregisters_connection_witness :
  exists m ch, rtc stream_step (ClusterStreamManager_new 1 (cluster_nodes example_config)) m /\
    outbound_senders m !! 2 = Some ch.
Proof.
  destruct (late_cleanup_unregisters_connection 1 (cluster_nodes example_config) 2) as (m & m' & ch & Hr & _ & Hm & _);
    [by eexists|]. by exists m, ch.
Defined.

Lemma inbound_table_is_exact_witness :
  (3, 0%nat) ∈ open_connections (register_connection 3 MessageReceiver_new).
Proof.
  apply (inbound_table_is_exact false (register_connection 3 MessageReceiver_new) 3 0); [|reflexivity].
  eapply rtc_l; [apply (Receiver_accept _ _ 3); right; apply not_elem_of_nil|apply rtc_refl].
Defined.
