(* ===== verification/TestSupport.v ===== *)
(** * Support for the unit tests of the repository

    The Rust code carries unit tests in its modules ([mod tests]).  The files [Tests*.v]
    translate them: a test is a definition of the same name that runs the definitions of the
    model on the inputs of the test and decides its assertions, and a theorem per file says
    that all of them hold.  They check the model against what the authors of the code expect
    of it; the expectations are theirs.  A clock is read as often as the code reads it, and
    time stands still during a test; the codec is that of [CapnpInstance.v]. *)
From stdpp Require Import strings.
From S2P Require Import Prelude Capnp CapnpInstance RaftTypes Bus Samples RaftSm.

(** [assert!] and [assert_eq!] of everything a test asserts. *)
Abbreviation asserts P := (bool_decide P).

(** A byte or text literal. *)
Definition lit (s : string) : list byte := String.list_byte_of_string s.

#[export] Instance OwnedLogEntry_eq_dec : EqDecision OwnedLogEntry.
Proof. solve_decision. Defined.
#[export] Instance OwnedWriteBatchResponse_eq_dec : EqDecision OwnedWriteBatchResponse.
Proof. solve_decision. Defined.
#[export] Instance LocalRaftWriteBatchResponse_eq_dec : EqDecision LocalRaftWriteBatchResponse.
Proof. solve_decision. Defined.
#[export] Instance LocalAppendEntriesCallbackResponse_eq_dec : EqDecision LocalAppendEntriesCallbackResponse.
Proof. solve_decision. Defined.
#[export] Instance LocalRaftResponsePayload_eq_dec : EqDecision LocalRaftResponsePayload.
Proof. solve_decision. Defined.
#[export] Instance PersistenceTaskType_eq_dec : EqDecision PersistenceTaskType.
Proof. solve_decision. Defined.
#[export] Instance OutstandingMessageType_eq_dec : EqDecision OutstandingMessageType.
Proof. solve_decision. Defined.

(** [build_owned_log_entry] with a builder that sets these fields. *)
Definition build_entry (index term prev_index prev_term message_id timestamp : Z)
    (commands : list InternalPutRequest) : OwnedLogEntry :=
  default (mkOwnedLogEntry [])
    (build_owned_log_entry (mkInternalLogEntry index term prev_index prev_term message_id timestamp
       (Some commands) (Some []))).

Definition put_request (id payload : string) (node_id : Z) : InternalPutRequest :=
  mkInternalPutRequest (Some (lit id)) (Some (lit payload)) node_id.

(** [build_owned_write_batch] with a builder that sets these fields. *)
Definition build_batch (batch_id : string) (requests : list InternalPutRequest) : OwnedWriteBatch :=
  default (mkOwnedWriteBatch []) (build_owned_write_batch (mkInternalWriteBatch (Some (lit batch_id)) (Some requests))).

(** The ids [for_each_command] visits. *)
Definition command_ids (e : OwnedLogEntry) : list Text :=
  for_each_command e (fun id _ _ ids => ids ++ [id]) [].

(** What the receiver of a callback gets. *)
Definition received {B} (cb : Callback) (s : SharedState B) : option LocalRaftResponsePayload :=
  head (omap (fun '(c, p) => if decide (c = cb) then Some p else None) (cb_sent (callbacks s))).

(** [matches!(result, RaftMessageStateChange::None)], and so on. *)
Definition is_none (sc : RaftMessageStateChange) : bool := match sc with SC_None => true | _ => false end.
Definition is_follower (sc : RaftMessageStateChange) : bool := match sc with SC_Follower _ => true | _ => false end.
Definition is_candidate (sc : RaftMessageStateChange) : bool := match sc with SC_Candidate _ => true | _ => false end.

(** A test that ends in a panic fails. *)
Definition no_panic {A} (r : option A) (check : A -> bool) : bool :=
  match r with Some a => check a | None => false end.

(** A bus that takes what it is given. *)
Definition open_bus : ScriptedBus := mkScriptedBus [] [].

(** The first [n] of the natural numbers. *)
Definition upto (n : nat) : list Z := Z.of_nat <$> seq 0 n.
