(* ===== verification/TestsLeader.v ===== *)
(** * The unit tests of the leader

    [mod tests] of [src/raft/leader/mod.rs]. *)
From stdpp Require Import strings.
From S2P Require Import Prelude Capnp CapnpInstance RaftTypes Bus Samples RaftSm Follower Leader TestSupport.

Definition test_volatile : RaftVolatileState := {|
  next_term := 2;
  last_log_term := 1;
  last_log_index := 0;
  commit_index := 0;
  replication_log := [];
  replication_log_term_starts := ∅;
  last_applied := 0;
  next_log_index := 1;
  commit_state := mkCommitState 0 0;
  last_broadcast_index := None;
  has_deferred_broadcast := false
|}.

(** The tests keep the receiver of the channel to the persistence worker. *)
Definition create_shared_state : SharedState ScriptedBus := {|
  server_state := mkRaftServerState 1 1;
  volatile_server_state := test_volatile;
  next_message_id := 1;
  outstanding_messages := ∅;
  quorum_size := 3;
  quorum_worker_tasks := [];
  persistence_work := mkSender true [];
  persistence_response := [];
  quorum_response := [];
  identity := 0;
  term_votes := ∅;
  max_message_size_bytes := 2048;
  log_entry_bus := open_bus;
  callbacks := mkCallbacks [] ∅
|}.

(** Here the receiver is dropped, so nothing can be queued for persistence. *)
Definition create_shared_state_with_quorum : SharedState ScriptedBus := {|
  server_state := mkRaftServerState 1 0;
  volatile_server_state := test_volatile;
  next_message_id := 1;
  outstanding_messages := ∅;
  quorum_size := 2;
  quorum_worker_tasks := [[]; []];
  persistence_work := mkSender false [];
  persistence_response := [];
  quorum_response := [];
  identity := 0;
  term_votes := ∅;
  max_message_size_bytes := 2048;
  log_entry_bus := open_bus;
  callbacks := mkCallbacks [] ∅
|}.

Definition new_delegate : RaftLeaderStateDelegate := RaftLeaderStateDelegate_new sample_env.
Definition initialized_delegate : RaftLeaderStateDelegate :=
  mkRaftLeaderStateDelegate (leader_election_timeout new_delegate) true.

Definition first_task (i : nat) (s : SharedState ScriptedBus) : option LocalQuorumWorkerTaskType :=
  mbind head (quorum_worker_tasks s !! i).

Definition test_append_entries_recognize_new_leader : bool :=
  let req := {| a_term := 2; a_leader_id := 2; a_prev_term := 1; a_prev_index := 0; a_commit_index := 0;
                a_request_id := 1; a_entry := None |} in
  let '(result, _, s) := append_entries sample_env req 0%nat new_delegate create_shared_state in
  asserts (received 0%nat s = Some (RP_AppendEntries AE_Ok) /\
           current_term (server_state s) = 2 /\ leader_id (server_state s) = 2 /\ is_follower result = true).

Definition test_request_vote_rejects_invalid_vote : bool :=
  let req := {| rv_term := 0; rv_candidate_id := 2; rv_last_log_term := 0; rv_last_log_index := 0 |} in
  let '(result, _, s) := request_vote req 0%nat new_delegate create_shared_state in
  asserts (received 0%nat s = Some (RP_RequestVote false) /\ is_none result = true).

(** [vec![Arc::new(SegQueue::new()); 3]] is one queue three times; only its first place is
    used. *)
Definition test_backfill_request_sends_truncate_signal_on_term_mismatch : bool :=
  let s := create_shared_state in
  let s := s <| server_state := mkRaftServerState 3 0 |> in
  let s := s <| volatile_server_state ; next_term := 4 |> in
  let s := s <| volatile_server_state ; replication_log_term_starts := <[3 := 3]> (<[2 := 0]> ∅) |> in
  let entry i :=
    build_entry i (if decide (i < 3) then 2 else 3) (if decide (0 < i) then i - 1 else 0)
      (if decide (i < 3) then 2 else if decide (i = 3) then 2 else 3) i 0 [] in
  let s := s <| volatile_server_state ; replication_log := map entry (upto 5) |> in
  let s := s <| quorum_worker_tasks := [[]; []; []] |> in
  let s := s <| quorum_response := [QR_BackfillLog 1 2 3] |> in
  no_panic (time_step sample_env initialized_delegate s) (fun '(result, _, _, s) =>
    asserts (is_none result = true /\ length <$> (quorum_worker_tasks s !! 0%nat) = Some 1%nat) &&
    match first_task 0 s with
    | Some (QT_TruncateLog _ prev_term prev_index) => asserts (prev_term = 2 /\ prev_index = 2)
    | _ => false
    end).

Definition test_backfill_request_sends_truncate_when_follower_ahead : bool :=
  let s := create_shared_state in
  let s := s <| server_state := mkRaftServerState 3 0 |> in
  let s := s <| volatile_server_state ; replication_log := [build_entry 0 1 0 0 0 0 []; build_entry 1 3 0 1 0 0 []] |> in
  let s := s <| quorum_worker_tasks := [[]; []; []] |> in
  let s := s <| quorum_response := [QR_BackfillLog 1 2 3] |> in
  no_panic (time_step sample_env initialized_delegate s) (fun '(result, _, _, s) =>
    asserts (is_none result = true /\ length <$> (quorum_worker_tasks s !! 0%nat) = Some 1%nat) &&
    match first_task 0 s with
    | Some (QT_TruncateLog _ prev_term prev_index) => asserts (prev_term = 3 /\ prev_index = 1)
    | _ => false
    end).

Definition test_backfill_request_succeeds_when_leader_has_entries : bool :=
  let s := create_shared_state in
  let s := s <| server_state := mkRaftServerState 3 0 |> in
  let s := s <| volatile_server_state ; replication_log_term_starts := <[3 := 6]> (<[2 := 0]> ∅) |> in
  let entry i := build_entry i (if decide (i < 6) then 2 else 3) 0 0 i 0 [] in
  let s := s <| volatile_server_state ; replication_log := map entry (upto 10) |> in
  let s := s <| quorum_worker_tasks := [[]; []; []] |> in
  let s := s <| quorum_response := [QR_BackfillLog 1 2 3] |> in
  no_panic (time_step sample_env initialized_delegate s) (fun '(result, _, _, s) =>
    asserts (is_none result = true /\ length <$> (quorum_worker_tasks s !! 0%nat) = Some 1%nat) &&
    match first_task 0 s with
    | Some (QT_BackfillLog data) => asserts (0 < vlen data)
    | _ => false
    end).

Definition test_truncate_log_response_handling : bool :=
  let s := create_shared_state <| quorum_response := [QR_TruncateLogResponse 123 true] |> in
  no_panic (time_step sample_env new_delegate s) (fun '(result, _, _, s) => is_none result).

Definition test_write_batch_happy_path : bool :=
  let message := build_batch "test_batch" [put_request "put_1" "payload" 1] in
  let s := create_shared_state <| quorum_worker_tasks := [[]] |> in
  no_panic (write_batch sample_env message 0%nat s) (fun s =>
    match replication_log (volatile_server_state s) with
    | [entry] =>
      asserts (index entry = 1 /\ term entry = current_term (server_state s) /\ command_count entry = 1 /\
               head (command_ids entry) = Some (lit "put_1") /\
               is_Some (outstanding_messages s !! (next_message_id s - 1)) /\
               is_Some (head (chan_queue (persistence_work s))) /\ is_Some (first_task 0 s))
    | _ => false
    end).

Definition test_write_batch_empty_requests_failure : bool :=
  let s := create_shared_state <| quorum_worker_tasks := [[]] |> in
  no_panic (write_batch sample_env (build_batch "empty_batch" []) 0%nat s) (fun s =>
    asserts (length (replication_log (volatile_server_state s)) = 0%nat)).

Definition test_time_step_initializes_leader_and_sends_heartbeats : bool :=
  negb (initialized new_delegate) &&
  no_panic (time_step sample_env new_delegate create_shared_state_with_quorum) (fun '(result, _, d, s) =>
    initialized d && is_none result &&
    forallb (fun queue : list LocalQuorumWorkerTaskType =>
      match head queue with
      | Some (QT_StartHeartbeats id term prev_term prev_log_index _) =>
        asserts (id = 1 /\ term = 1 /\ prev_term = 1 /\ prev_log_index = 0)
      | _ => false
      end) (quorum_worker_tasks s)).

Definition test_time_step_handles_log_persisted_and_quorum_ack_happy_path : bool :=
  let s := create_shared_state_with_quorum in
  let s := s <| volatile_server_state ; replication_log := [build_entry 0 1 0 0 0 0 []; build_entry 1 1 0 0 0 0 []] |> in
  let msg_id := next_message_id s in
  let s := s <| outstanding_messages ::= <[msg_id := mkOutstandingMessage msg_id 2 (OM_WriteBatch false 1 0%nat 1 0)]> |> in
  let s := s <| persistence_response := [PR_LogPersisted msg_id] |> in
  let s := s <| quorum_response := [QR_AppendEntries msg_id true] |> in
  no_panic (time_step sample_env new_delegate s) (fun '(result, _, _, s) =>
    asserts (commit_index (volatile_server_state s) = 1 /\ is_none result = true) &&
    match received 0%nat s with
    | Some (RP_WriteBatch r) => asserts (wbr_err r = None)
    | _ => false
    end).

Definition test_time_step_handles_backfill_log_request : bool :=
  let s := create_shared_state_with_quorum in
  let s := s <| volatile_server_state ; replication_log := [build_entry 0 1 0 0 0 0 []; build_entry 1 1 0 1 1 0 []] |> in
  let s := s <| volatile_server_state ; replication_log_term_starts := <[1 := 0]> ∅ |> in
  let s := s <| quorum_response := [QR_BackfillLog 1 1 0] |> in
  no_panic (time_step sample_env initialized_delegate s) (fun '(result, _, _, s) =>
    is_none result &&
    match first_task 0 s with
    | Some (QT_BackfillLog [entry]) => asserts (index entry = 1 /\ term entry = 1)
    | _ => false
    end).

(** The entries of a previous leader, all of term 2. *)
Definition old_entries (n : nat) : list OwnedLogEntry :=
  map (fun i => build_entry i 2 (if decide (0 < i) then i - 1 else 0) 2 i 0 []) (upto n).

Definition test_leader_initialization_does_not_advance_commit_index : bool :=
  let initial_commit_index := 3 in
  let s := create_shared_state_with_quorum in
  let s := s <| volatile_server_state ; last_log_index := 5 |> in
  let s := s <| volatile_server_state ; last_log_term := 2 |> in
  let s := s <| volatile_server_state ; commit_index := initial_commit_index |> in
  let s := s <| volatile_server_state ; commit_state := mkCommitState initial_commit_index 0 |> in
  let s := s <| server_state ; current_term := 3 |> in
  let s := s <| volatile_server_state ; replication_log := old_entries 6 |> in
  no_panic (time_step sample_env new_delegate s) (fun '(_, _, _, s) =>
    asserts (commit_index (volatile_server_state s) = initial_commit_index /\
             cs_commit_index (commit_state (volatile_server_state s)) = initial_commit_index)).

Definition test_leader_heartbeats_use_correct_commit_index : bool :=
  let s := create_shared_state_with_quorum in
  let s := s <| volatile_server_state ; last_log_index := 10 |> in
  let s := s <| volatile_server_state ; commit_index := 5 |> in
  let s := s <| server_state ; current_term := 3 |> in
  let s := s <| volatile_server_state ; replication_log := old_entries 11 |> in
  no_panic (time_step sample_env new_delegate s) (fun '(_, _, _, s) =>
    forallb (fun queue : list LocalQuorumWorkerTaskType =>
      match head queue with
      | Some (QT_StartHeartbeats _ _ _ _ commit_index) => asserts (commit_index = 5)
      | _ => false
      end) (quorum_worker_tasks s)).

Definition test_leader_init_creates_noop_entry : bool :=
  let s := create_shared_state_with_quorum in
  let s := s <| server_state ; current_term := 3 |> in
  let s := s <| volatile_server_state ; last_log_term := 2 |> in
  let s := s <| volatile_server_state ; last_log_index := 5 |> in
  let s := s <| volatile_server_state ; next_log_index := 6 |> in
  let s := s <| volatile_server_state ; commit_index := 3 |> in
  let s := s <| volatile_server_state ; replication_log := old_entries 6 |> in
  let initial_log_len := length (replication_log (volatile_server_state s)) in
  let noop_message_id := next_message_id s + 1 in
  no_panic (time_step sample_env new_delegate s) (fun '(_, _, _, s) =>
    let v := volatile_server_state s in
    match vlast (replication_log v) with
    | Some noop_entry =>
      asserts (length (replication_log v) = (initial_log_len + 1)%nat /\
               term noop_entry = 3 /\ index noop_entry = 6 /\ command_count noop_entry = 0 /\
               prev_log_index noop_entry = 5 /\ prev_log_term noop_entry = 2 /\
               last_log_index v = 6 /\ last_log_term v = 3 /\ next_log_index v = 7 /\
               message_type <$> (outstanding_messages s !! noop_message_id) = Some (OM_NoOp false 0 6))
    | None => false
    end &&
    forallb (fun queue : list LocalQuorumWorkerTaskType =>
      match queue with
      | QT_StartHeartbeats _ _ _ _ _ :: QT_AppendEntries id entry _ :: _ =>
        asserts (id = noop_message_id /\ command_count entry = 0)
      | _ => false
      end) (quorum_worker_tasks s)).

(** All tests of the leader pass. *)
Theorem leader_tests_pass :
  Forall (fun test => test = true)
    [ test_append_entries_recognize_new_leader;
      test_request_vote_rejects_invalid_vote;
      test_backfill_request_sends_truncate_signal_on_term_mismatch;
      test_backfill_request_sends_truncate_when_follower_ahead;
      test_backfill_request_succeeds_when_leader_has_entries;
      test_truncate_log_response_handling;
      test_write_batch_happy_path;
      test_write_batch_empty_requests_failure;
      test_time_step_initializes_leader_and_sends_heartbeats;
      test_time_step_handles_log_persisted_and_quorum_ack_happy_path;
      test_time_step_handles_backfill_log_request;
      test_leader_initialization_does_not_advance_commit_index;
      test_leader_heartbeats_use_correct_commit_index;
      test_leader_init_creates_noop_entry ].
Proof. repeat constructor; vm_compute; reflexivity. Qed.
