(* ===== verification/TestsFollower.v ===== *)
(** * The unit tests of the follower

    [mod tests] of [src/raft/follower/mod.rs] and [src/raft/follower/election.rs]. *)
From stdpp Require Import strings.
From S2P Require Import Prelude Capnp CapnpInstance RaftTypes Bus Samples RaftSm Follower TestSupport.

(** The tests keep the receiver of the channel to the persistence worker. *)
Definition create_shared_state : SharedState ScriptedBus := {|
  server_state := mkRaftServerState 1 1;
  volatile_server_state := {|
    next_term := 2;
    last_log_term := 1;
    last_log_index := 0;
    commit_index := 0;
    replication_log := [];
    replication_log_term_starts := ∅;
    last_applied := 0;
    next_log_index := 1;
    commit_state := mkCommitState 0 0;
    last_broadcast_index := None;
    has_deferred_broadcast := false
  |};
  next_message_id := 1;
  outstanding_messages := ∅;
  quorum_size := 3;
  quorum_worker_tasks := [];
  persistence_work := mkSender true [];
  persistence_response := [];
  quorum_response := [];
  identity := 0;
  term_votes := ∅;
  max_message_size_bytes := 2048;
  log_entry_bus := open_bus;
  callbacks := mkCallbacks [] ∅
|}.

Definition new_delegate : RaftFollowerStateDelegate := RaftFollowerStateDelegate_new sample_env.

(** ** [mod.rs] *)

Definition test_new_delegate_initializes_election_timeout : bool :=
  let t := election_timer new_delegate in
  asserts (0 < election_timeout t /\ election_timeout_min t < election_timeout_max t).

Definition test_append_entries_recognize_new_leader : bool :=
  let req := {| a_term := 2; a_leader_id := 2; a_prev_term := 1; a_prev_index := 0; a_commit_index := 0;
                a_request_id := 1; a_entry := None |} in
  let '(result, _, s) := append_entries sample_env req 0%nat new_delegate create_shared_state in
  asserts (received 0%nat s = Some (RP_AppendEntries AE_Ok) /\
           current_term (server_state s) = 2 /\ leader_id (server_state s) = 2 /\ is_none result = true).

Definition test_append_entries_heartbeat_updates_commit_index : bool :=
  let req := {| a_term := 1; a_leader_id := 1; a_prev_term := 1; a_prev_index := 0; a_commit_index := 5;
                a_request_id := 0; a_entry := None |} in
  let '(result, _, s) := append_entries sample_env req 0%nat new_delegate create_shared_state in
  asserts (received 0%nat s = Some (RP_AppendEntries AE_Ok) /\
           commit_index (volatile_server_state s) = 5 /\ is_none result = true).

Definition test_append_entries_appends_log_entry : bool :=
  let owned_entry := build_entry 1 1 0 0 100 123456789 [put_request "put_1" "test_payload" 42] in
  let req := {| a_term := 1; a_leader_id := 1; a_prev_term := 1; a_prev_index := 0; a_commit_index := 1;
                a_request_id := 1;
                a_entry := Some {| e_term := 1; e_index := 1; e_data := as_bytes owned_entry; e_batch_index := 0;
                                   e_message_id := 1; e_prev_log_index := 0; e_prev_log_term := 1 |} |} in
  let message_index := next_message_id create_shared_state in
  let '(result, d, s) := append_entries sample_env req 0%nat new_delegate create_shared_state in
  let s := s <| persistence_response := [PR_LogPersisted message_index] |> in
  no_panic (time_step sample_env d s) (fun '(_, _, _, s) =>
    let v := volatile_server_state s in
    asserts (received 0%nat s = Some (RP_AppendEntries AE_Ok) /\
             last_log_index v = 1 /\ last_log_term v = 1 /\ commit_index v = 1 /\ is_none result = true) &&
    match replication_log v with
    | [log_entry] =>
      asserts (index log_entry = 1 /\ term log_entry = 1 /\ command_count log_entry = 1 /\
               for_each_command log_entry (fun id payload _ found =>
                 found ++ [bool_decide (id = lit "put_1" /\ payload = lit "test_payload")]) [] = [true])
    | _ => false
    end).

Definition test_request_vote_rejects_invalid_vote : bool :=
  let req := {| rv_term := 0; rv_candidate_id := 2; rv_last_log_term := 0; rv_last_log_index := 0 |} in
  no_panic (request_vote req 0%nat new_delegate create_shared_state) (fun '(result, _, s) =>
    asserts (received 0%nat s = Some (RP_RequestVote false) /\ is_none result = true)).

Definition test_time_step_triggers_candidate_transition : bool :=
  let d := mkRaftFollowerStateDelegate ((election_timer new_delegate) <| election_timeout := 0 |>) in
  no_panic (time_step sample_env d create_shared_state) (fun '(state_change, _, _, _) => is_candidate state_change).

(** The terms whose start is known. *)
Definition has_term_start (t : Z) (s : SharedState ScriptedBus) : bool :=
  bool_decide (is_Some (replication_log_term_starts (volatile_server_state s) !! t)).

Definition test_truncate_log_basic_functionality : bool :=
  let s := create_shared_state in
  let s := s <| volatile_server_state ; replication_log_term_starts := <[3 := 8]> (<[2 := 3]> (<[1 := 0]> ∅)) |> in
  let term_of i := if decide (i < 3) then 1 else if decide (i < 8) then 2 else 3 in
  let entry i := build_entry i (term_of i) (if decide (0 < i) then i - 1 else 0) (term_of i) i 0 [] in
  let s := s <| volatile_server_state ; replication_log := map entry (upto 12) |> in
  let s := s <| volatile_server_state ; last_log_term := 3 |> in
  let s := s <| volatile_server_state ; last_log_index := 11 |> in
  let s := s <| volatile_server_state ; next_log_index := 12 |> in
  let s := truncate_log 2 4 s in
  let v := volatile_server_state s in
  asserts (length (replication_log v) = 5%nat /\ last_log_term v = 2 /\ last_log_index v = 4 /\ next_log_index v = 5 /\
           has_term_start 1 s = true /\ has_term_start 2 s = true /\ has_term_start 3 s = false /\
           head (chan_queue (persistence_work s)) = Some (PT_TruncateLog 5)).

Definition test_truncate_log_to_term_boundary : bool :=
  let s := create_shared_state in
  let s := s <| volatile_server_state ; replication_log_term_starts := <[2 := 5]> (<[1 := 0]> ∅) |> in
  let entry i := build_entry (i `mod` 5) (if decide (i < 5) then 1 else 2) 0 0 i 0 [] in
  let s := s <| volatile_server_state ; replication_log := map entry (upto 10) |> in
  let s := s <| volatile_server_state ; last_log_term := 2 |> in
  let s := s <| volatile_server_state ; last_log_index := 9 |> in
  let s := truncate_log 1 4 s in
  let v := volatile_server_state s in
  asserts (length (replication_log v) = 5%nat /\ last_log_term v = 1 /\ last_log_index v = 4 /\
           has_term_start 1 s = true /\ has_term_start 2 s = false).

Definition test_truncate_log_with_absolute_index : bool :=
  let s := create_shared_state in
  let s := s <| volatile_server_state ; replication_log_term_starts := <[3 := 0]> ∅ |> in
  let entry i := build_entry i 3 (if decide (0 < i) then i - 1 else 0) 3 i 0 [] in
  let s := s <| volatile_server_state ; replication_log := map entry (upto 5) |> in
  let s := s <| volatile_server_state ; last_log_term := 3 |> in
  let s := s <| volatile_server_state ; last_log_index := 4 |> in
  let s := truncate_log 3 1 s in
  let v := volatile_server_state s in
  asserts (length (replication_log v) = 2%nat /\ last_log_term v = 3 /\ last_log_index v = 1).

Definition test_truncate_log_no_truncation_needed : bool :=
  let s := create_shared_state in
  let s := s <| volatile_server_state ; replication_log_term_starts := <[2 := 0]> ∅ |> in
  let entry i := build_entry i 2 0 0 i 0 [] in
  let s := s <| volatile_server_state ; replication_log := map entry (upto 5) |> in
  let s := s <| volatile_server_state ; last_log_term := 2 |> in
  let s := s <| volatile_server_state ; last_log_index := 4 |> in
  let s := truncate_log 2 10 s in
  let v := volatile_server_state s in
  asserts (length (replication_log v) = 5%nat /\ last_log_term v = 2 /\ last_log_index v = 4 /\
           chan_queue (persistence_work s) = []).

Definition test_follower_handles_truncate_log_message : bool :=
  let s := create_shared_state in
  let s := s <| volatile_server_state ; replication_log_term_starts := <[3 := 5]> (<[2 := 0]> ∅) |> in
  let entry i := build_entry i (if decide (i < 5) then 2 else 3) 0 0 i 0 [] in
  let s := s <| volatile_server_state ; replication_log := map entry (upto 10) |> in
  let s := s <| volatile_server_state ; last_log_term := 3 |> in
  let s := s <| volatile_server_state ; last_log_index := 9 |> in
  let s := s <| quorum_response := [QR_TruncateLog 0 2 2] |> in
  no_panic (time_step sample_env new_delegate s) (fun '(state_change, _, _, s) =>
    let v := volatile_server_state s in
    asserts (is_none state_change = true /\
             length (replication_log v) = 3%nat /\ last_log_term v = 2 /\ last_log_index v = 2 /\ next_log_index v = 3 /\
             has_term_start 2 s = true /\ has_term_start 3 s = false /\
             head (chan_queue (persistence_work s)) = Some (PT_TruncateLog 3))).

(** All tests of the follower pass. *)
Theorem follower_tests_pass :
  Forall (fun test => test = true)
    [ test_new_delegate_initializes_election_timeout;
      test_append_entries_recognize_new_leader;
      test_append_entries_heartbeat_updates_commit_index;
      test_append_entries_appends_log_entry;
      test_request_vote_rejects_invalid_vote;
      test_time_step_triggers_candidate_transition;
      test_truncate_log_basic_functionality;
      test_truncate_log_to_term_boundary;
      test_truncate_log_with_absolute_index;
      test_truncate_log_no_truncation_needed;
      test_follower_handles_truncate_log_message ].
Proof. repeat constructor; vm_compute; reflexivity. Qed.

(** ** [election.rs]

    These hold for every clock and every random number. *)

Definition test_election_timer_new_initializes_within_bounds (env : Env) : bool :=
  let timer := ElectionTimer_new env in
  asserts (0 < election_timeout timer /\ election_timeout_min timer = 600 /\ election_timeout_max timer = 1300 /\
           election_timeout_min timer < election_timeout_max timer).

(** The environment of every reset is given. *)
Definition test_election_timer_reset_updates_timeout (env : Env) (resets : list Env) : bool :=
  snd (fold_left (fun '(timer, ok) env => let timer := reset env timer in (timer, ok && asserts (0 < election_timeout timer)))
         resets (ElectionTimer_new env, true)).

Definition test_check_timeout_returns_none_when_not_expired (env : Env) : bool :=
  match check_timeout env (ElectionTimer_new env) with None => true | Some _ => false end.

Definition test_check_timeout_returns_candidate_when_expired (env : Env) : bool :=
  let timer := (ElectionTimer_new env) <| election_timeout := 0 |> in
  match check_timeout env timer with Some (SC_Candidate _) => true | _ => false end.

Definition test_election_timer_reset_sets_future_timeout (env : Env) : bool :=
  let timer := (ElectionTimer_new env) <| election_timeout := 0 |> in
  match check_timeout env timer with Some _ => true | None => false end &&
  match check_timeout env (reset env timer) with None => true | Some _ => false end.

(** All tests of the election timer pass, whatever the clock shows (after 1970) and whatever
    numbers are drawn. *)
Theorem election_tests_pass env resets :
  0 < clock env 0%nat -> Forall (fun env => 0 < clock env 0%nat) resets ->
  test_election_timer_new_initializes_within_bounds env = true /\
  test_election_timer_reset_updates_timeout env resets = true /\
  test_check_timeout_returns_none_when_not_expired env = true /\
  test_check_timeout_returns_candidate_when_expired env = true /\
  test_election_timer_reset_sets_future_timeout env = true.
Proof.
  intros Hnow Hresets. pose proof (gen_range_bounds (rand env 0%nat) 600 1300 ltac:(lia)) as Hr. split_and!.
  - apply bool_decide_eq_true. simpl. unfold now_plus_duration_millis. lia.
  - unfold test_election_timer_reset_updates_timeout.
    assert (Hg : forall t ok, 0 <= election_timeout_min t < election_timeout_max t -> ok = true ->
      snd (fold_left (fun '(timer, ok) env => let timer := reset env timer in (timer, ok && asserts (0 < election_timeout timer)))
             resets (t, ok)) = true); [|by apply Hg; [simpl; lia|]].
    clear Hr. induction Hresets as [|e resets He _ IH]; intros t ok Ht ->; [done|].
    cbn [fold_left]. apply IH; [done|]. apply bool_decide_eq_true. simpl. unfold now_plus_duration_millis.
    pose proof (gen_range_bounds (rand e 0%nat) _ _ (proj2 Ht)). lia.
  - unfold test_check_timeout_returns_none_when_not_expired, check_timeout. rewrite decide_False; [done|].
    simpl. unfold now_plus_duration_millis. lia.
  - unfold test_check_timeout_returns_candidate_when_expired, check_timeout. by rewrite decide_True.
  - unfold test_election_timer_reset_sets_future_timeout, check_timeout. rewrite decide_True, decide_False; [done| |done].
    simpl. unfold now_plus_duration_millis. lia.
Qed.
