(* ===== verification/TestsOutstanding.v ===== *)
(** * The unit tests of the outstanding messages

    [mod tests] of [src/raft/leader/outstanding.rs]. *)
From stdpp Require Import strings.
From S2P Require Import Prelude Capnp CapnpInstance RaftTypes Bus Samples RaftSm Follower Leader TestSupport.

(** The receiver of the channel to the persistence worker is dropped. *)
Definition create_test_shared_state : SharedState ScriptedBus := {|
  server_state := mkRaftServerState 2 1;
  volatile_server_state := {|
    next_term := 3;
    last_log_term := 2;
    last_log_index := 5;
    commit_index := 3;
    replication_log := [];
    replication_log_term_starts := ∅;
    last_applied := 0;
    next_log_index := 6;
    commit_state := mkCommitState 3 0;
    last_broadcast_index := None;
    has_deferred_broadcast := false
  |};
  next_message_id := 100;
  outstanding_messages := ∅;
  quorum_size := 2;
  quorum_worker_tasks := [[]; []];
  persistence_work := mkSender false [];
  persistence_response := [];
  quorum_response := [];
  identity := 1;
  term_votes := ∅;
  max_message_size_bytes := 2048;
  log_entry_bus := open_bus;
  callbacks := mkCallbacks [] ∅
|}.

Implicit Types s : SharedState ScriptedBus.

(** The helpers that register a message; its callback is number 0. *)
Definition add_write_batch_outstanding_message (id index : Z) (persistence_done : bool) (quorum_acks : Z) s :=
  s <| outstanding_messages ::= <[id := mkOutstandingMessage id 3 (OM_WriteBatch persistence_done quorum_acks 0%nat index 10)]> |>.

Definition add_request_vote_outstanding_message (id : Z) s :=
  s <| outstanding_messages ::= <[id := mkOutstandingMessage id 1 (OM_RequestVote 0%nat)]> |>.

Definition add_noop_outstanding_message (id index : Z) (persistence_done : bool) (quorum_acks : Z) s :=
  s <| outstanding_messages ::= <[id := mkOutstandingMessage id 3 (OM_NoOp persistence_done quorum_acks index)]> |>.

(** One call on the queued responses. *)
Definition persistence_responses s : option (SharedState ScriptedBus) :=
  snd <$> process_persistence_responses (persistence_response s) 0 s.

Definition quorum_responses s : option (list (Z * Z * Z) * SharedState ScriptedBus) :=
  let* (backfill_requests, _, s) := process_quorum_responses (quorum_response s) [] 0 s in Some (backfill_requests, s).

Definition persisted (id : Z) s := s <| persistence_response := [PR_LogPersisted id] |>.
Definition acknowledged (id : Z) s := s <| quorum_response := [QR_AppendEntries id true] |>.

Definition outstanding (id : Z) s : option OutstandingMessageType := message_type <$> outstanding_messages s !! id.

Definition test_process_persistence_responses_log_persisted : bool :=
  no_panic (persistence_responses (persisted 42 (add_write_batch_outstanding_message 42 10 false 2 create_test_shared_state)))
    (fun s => asserts (outstanding 42 s = None /\ is_Some (received 0%nat s))).

Definition test_process_persistence_responses_waiting_for_quorum : bool :=
  no_panic (persistence_responses (persisted 42 (add_write_batch_outstanding_message 42 10 false 0 create_test_shared_state)))
    (fun s => match outstanding 42 s with
              | Some (OM_WriteBatch persistence_done _ _ _ _) => persistence_done
              | _ => false
              end).

Definition test_process_persistence_responses_vote_persisted : bool :=
  let s := add_request_vote_outstanding_message 42 create_test_shared_state in
  no_panic (persistence_responses (s <| persistence_response := [PR_VotePersisted 42 2 1] |>))
    (fun s => asserts (outstanding 42 s = None /\ received 0%nat s = Some (RP_RequestVote true))).

Definition test_process_quorum_responses_append_entries : bool :=
  no_panic (quorum_responses (acknowledged 42 (add_write_batch_outstanding_message 42 10 true 1 create_test_shared_state)))
    (fun '(backfill_requests, s) =>
       asserts (backfill_requests = [] /\ outstanding 42 s = None /\ is_Some (received 0%nat s))).

Definition test_process_quorum_responses_waiting_for_persistence : bool :=
  no_panic (quorum_responses (acknowledged 42 (add_write_batch_outstanding_message 42 10 false 1 create_test_shared_state)))
    (fun '(backfill_requests, s) =>
       asserts (backfill_requests = []) &&
       match outstanding 42 s with
       | Some (OM_WriteBatch _ quorum_acks _ _ _) => asserts (quorum_acks = 2)
       | _ => false
       end).

Definition test_process_quorum_responses_backfill_log : bool :=
  no_panic (quorum_responses (create_test_shared_state <| quorum_response := [QR_BackfillLog 2 1 3] |>))
    (fun '(backfill_requests, _) => asserts (backfill_requests = [(2, 1, 3)])).

Definition test_process_quorum_responses_multiple_backfill_requests : bool :=
  no_panic (quorum_responses (create_test_shared_state <| quorum_response := [QR_BackfillLog 2 1 3; QR_BackfillLog 3 1 5] |>))
    (fun '(backfill_requests, _) => asserts (length backfill_requests = 2%nat)).

Definition test_process_persistence_responses_no_outstanding_message : bool :=
  no_panic (persistence_responses (persisted 999 create_test_shared_state)) (fun _ => true).

Definition test_commit_index_updated_on_completion : bool :=
  let initial_commit := commit_index (volatile_server_state create_test_shared_state) in
  no_panic (persistence_responses (persisted 42 (add_write_batch_outstanding_message 42 10 true 2 create_test_shared_state)))
    (fun s => asserts (commit_index (volatile_server_state s) = 10 /\ initial_commit < commit_index (volatile_server_state s))).

(** The first task of every worker. *)
Definition every_worker_has (t : LocalQuorumWorkerTaskType -> bool) s : bool :=
  forallb (fun queue : list LocalQuorumWorkerTaskType => match head queue with Some task => t task | None => false end)
    (quorum_worker_tasks s).

Definition updates_commit_index (n : Z) (t : LocalQuorumWorkerTaskType) : bool :=
  match t with QT_UpdateCommitIndex commit_index => asserts (commit_index = n) | _ => false end.

Definition test_update_commit_index_dispatched_to_quorum_workers : bool :=
  let s := add_write_batch_outstanding_message 42 10 true 2 create_test_shared_state in
  asserts (length (quorum_worker_tasks s) = 2%nat) &&
  no_panic (persistence_responses (persisted 42 s)) (every_worker_has (updates_commit_index 10)).

Definition test_no_update_commit_index_when_index_not_advanced : bool :=
  let s := create_test_shared_state <| volatile_server_state ; commit_index := 10 |> in
  no_panic (persistence_responses (persisted 42 (add_write_batch_outstanding_message 42 10 true 2 s)))
    (fun s => asserts (Forall (fun queue => head queue = None) (quorum_worker_tasks s))).

Definition test_noop_completion_advances_commit_index : bool :=
  let initial_commit := commit_index (volatile_server_state create_test_shared_state) in
  no_panic (persistence_responses (persisted 42 (add_noop_outstanding_message 42 10 true 2 create_test_shared_state)))
    (fun s => asserts (commit_index (volatile_server_state s) = 10 /\ initial_commit < commit_index (volatile_server_state s) /\
                       outstanding 42 s = None)).

Definition test_noop_waits_for_quorum_after_persistence : bool :=
  no_panic (persistence_responses (persisted 42 (add_noop_outstanding_message 42 10 false 0 create_test_shared_state)))
    (fun s => asserts (commit_index (volatile_server_state s) = 3) &&
              match outstanding 42 s with
              | Some (OM_NoOp persistence_done _ _) => persistence_done
              | _ => false
              end).

Definition test_noop_quorum_ack_advances_commit_when_persisted : bool :=
  let initial_commit := commit_index (volatile_server_state create_test_shared_state) in
  no_panic (quorum_responses (acknowledged 42 (add_noop_outstanding_message 42 10 true 1 create_test_shared_state)))
    (fun '(backfill_requests, s) =>
       asserts (backfill_requests = [] /\ commit_index (volatile_server_state s) = 10 /\
                initial_commit < commit_index (volatile_server_state s) /\ outstanding 42 s = None)).

Definition test_noop_update_commit_index_dispatched_to_quorum_workers : bool :=
  let s := add_noop_outstanding_message 42 10 true 2 create_test_shared_state in
  asserts (length (quorum_worker_tasks s) = 2%nat) &&
  no_panic (persistence_responses (persisted 42 s)) (every_worker_has (updates_commit_index 10)).

(** All tests of the outstanding messages pass. *)
Theorem outstanding_tests_pass :
  Forall (fun test => test = true)
    [ test_process_persistence_responses_log_persisted;
      test_process_persistence_responses_waiting_for_quorum;
      test_process_persistence_responses_vote_persisted;
      test_process_quorum_responses_append_entries;
      test_process_quorum_responses_waiting_for_persistence;
      test_process_quorum_responses_backfill_log;
      test_process_quorum_responses_multiple_backfill_requests;
      test_process_persistence_responses_no_outstanding_message;
      test_commit_index_updated_on_completion;
      test_update_commit_index_dispatched_to_quorum_workers;
      test_no_update_commit_index_when_index_not_advanced;
      test_noop_completion_advances_commit_index;
      test_noop_waits_for_quorum_after_persistence;
      test_noop_quorum_ack_advances_commit_when_persisted;
      test_noop_update_commit_index_dispatched_to_quorum_workers ].
Proof. repeat constructor; vm_compute; reflexivity. Qed.
