(* ===== verification/TestsAppendEntries.v ===== *)
(** * The unit tests of the requests to append

    [mod tests] of [src/raft/follower/append_entries.rs]. *)
From stdpp Require Import strings.
From S2P Require Import Prelude Capnp CapnpInstance RaftTypes Bus Samples RaftSm Follower TestSupport.

(** The receiver of the channel to the persistence worker is dropped. *)
Definition create_test_shared_state : SharedState ScriptedBus := {|
  server_state := mkRaftServerState 1 1;
  volatile_server_state := {|
    next_term := 2;
    last_log_term := 1;
    last_log_index := 5;
    commit_index := 3;
    replication_log := [];
    replication_log_term_starts := ∅;
    last_applied := 0;
    next_log_index := 6;
    commit_state := mkCommitState 3 0;
    last_broadcast_index := None;
    has_deferred_broadcast := false
  |};
  next_message_id := 1;
  outstanding_messages := ∅;
  quorum_size := 3;
  quorum_worker_tasks := [];
  persistence_work := mkSender false [];
  persistence_response := [];
  quorum_response := [];
  identity := 0;
  term_votes := ∅;
  max_message_size_bytes := 2048;
  log_entry_bus := open_bus;
  callbacks := mkCallbacks [] ∅
|}.

Definition test_validate_append_entries_returns_true_when_consecutive : bool :=
  let request := {| a_term := 1; a_leader_id := 1; a_prev_term := 1; a_prev_index := 5; a_commit_index := 3;
                    a_request_id := 1; a_entry := None |} in
  validate_append_entries request 5 1.

Definition test_validate_append_entries_returns_false_when_index_mismatch : bool :=
  let request := {| a_term := 1; a_leader_id := 1; a_prev_term := 1; a_prev_index := 10; a_commit_index := 3;
                    a_request_id := 1; a_entry := None |} in
  negb (validate_append_entries request 5 1).

Definition test_validate_append_entries_returns_false_when_term_mismatch : bool :=
  let request := {| a_term := 1; a_leader_id := 1; a_prev_term := 2; a_prev_index := 5; a_commit_index := 3;
                    a_request_id := 1; a_entry := None |} in
  negb (validate_append_entries request 5 1).

Definition test_validate_append_entries_returns_false_when_both_mismatch : bool :=
  let request := {| a_term := 1; a_leader_id := 1; a_prev_term := 2; a_prev_index := 10; a_commit_index := 3;
                    a_request_id := 1; a_entry := None |} in
  negb (validate_append_entries request 5 1).

Definition test_handle_new_leader_updates_state : bool :=
  let request := {| a_term := 5; a_leader_id := 3; a_prev_term := 1; a_prev_index := 5; a_commit_index := 3;
                    a_request_id := 1; a_entry := None |} in
  let '(s, _) := handle_new_leader sample_env request 0%nat create_test_shared_state (ElectionTimer_new sample_env) in
  asserts (current_term (server_state s) = 5 /\ leader_id (server_state s) = 3 /\
           next_term (volatile_server_state s) = 6 /\ received 0%nat s = Some (RP_AppendEntries AE_Ok)).

Definition test_handle_heartbeat_consecutive_updates_commit_index : bool :=
  let request := {| a_term := 1; a_leader_id := 1; a_prev_term := 1; a_prev_index := 5; a_commit_index := 10;
                    a_request_id := 0; a_entry := None |} in
  let '(s, _) := handle_heartbeat sample_env request 0%nat create_test_shared_state (ElectionTimer_new sample_env) in
  asserts (commit_index (volatile_server_state s) = 10 /\ received 0%nat s = Some (RP_AppendEntries AE_Ok)).

Definition test_handle_heartbeat_non_consecutive_requests_backfill : bool :=
  let request := {| a_term := 1; a_leader_id := 1; a_prev_term := 1; a_prev_index := 100; a_commit_index := 10;
                    a_request_id := 0; a_entry := None |} in
  let '(s, _) := handle_heartbeat sample_env request 0%nat create_test_shared_state (ElectionTimer_new sample_env) in
  asserts (received 0%nat s = Some (RP_AppendEntries (AE_WantedPreviousEntry 1 5))).

Definition test_handle_non_consecutive_request_sends_wanted_previous_entry : bool :=
  let request := {| a_term := 1; a_leader_id := 1; a_prev_term := 2; a_prev_index := 10; a_commit_index := 3;
                    a_request_id := 5;
                    a_entry := Some {| e_index := 11; e_term := 1;
                                       e_data := [Init.Byte.x01; Init.Byte.x02; Init.Byte.x03]; e_batch_index := 0;
                                       e_message_id := 1; e_prev_log_index := 10; e_prev_log_term := 2 |} |} in
  let '(s, _) :=
    handle_non_consecutive_request sample_env request 0%nat create_test_shared_state (ElectionTimer_new sample_env) in
  asserts (received 0%nat s = Some (RP_AppendEntries (AE_WantedPreviousEntry 1 5))).

(** The request is only read for a log line. *)
Definition test_send_unrecognized_leader_response : bool :=
  let s := send_unrecognized_leader_response 0%nat create_test_shared_state in
  asserts (received 0%nat s = Some (RP_AppendEntries AE_UnrecognizedLeader)).

(** The bytes FF FE FD FC are no message of the codec of [CapnpInstance.v] either. *)
Definition test_malformed_entry_is_rejected_not_persisted : bool :=
  let malformed_data := [Init.Byte.xff; Init.Byte.xfe; Init.Byte.xfd; Init.Byte.xfc] in
  let request := {| a_term := 1; a_leader_id := 1; a_prev_term := 0; a_prev_index := 0; a_commit_index := 0;
                    a_request_id := 1;
                    a_entry := Some {| e_term := 1; e_index := 1; e_data := malformed_data; e_batch_index := 0;
                                       e_message_id := 1; e_prev_log_index := 0; e_prev_log_term := 0 |} |} in
  let initial_log_len := length (replication_log (volatile_server_state create_test_shared_state)) in
  let s := apply_log_entry request 0%nat create_test_shared_state in
  asserts (length (replication_log (volatile_server_state s)) = initial_log_len) &&
  match received 0%nat s with
  | Some (RP_AppendEntries AE_Ok) => false
  | Some _ => true
  | None => false
  end.

(** The receiver of the channel is kept. *)
Definition test_valid_entry_is_accepted_and_persisted : bool :=
  let s := create_test_shared_state <| persistence_work := mkSender true [] |> in
  let s := s <| volatile_server_state := {|
    next_term := 2;
    last_log_term := 0;
    last_log_index := 0;
    commit_index := 0;
    replication_log := [];
    replication_log_term_starts := ∅;
    last_applied := 0;
    next_log_index := 1;
    commit_state := mkCommitState 0 0;
    last_broadcast_index := None;
    has_deferred_broadcast := false
  |} |> in
  let owned_entry := build_entry 1 1 0 0 100 123456789 [put_request "test_key" "test_value" 1] in
  let request := {| a_term := 1; a_leader_id := 1; a_prev_term := 0; a_prev_index := 0; a_commit_index := 0;
                    a_request_id := 1;
                    a_entry := Some {| e_term := 1; e_index := 1; e_data := as_bytes owned_entry; e_batch_index := 0;
                                       e_message_id := 100; e_prev_log_index := 0; e_prev_log_term := 0 |} |} in
  let initial_log_len := length (replication_log (volatile_server_state s)) in
  let s := apply_log_entry request 0%nat s in
  asserts (length (replication_log (volatile_server_state s)) = (initial_log_len + 1)%nat) &&
  match replication_log (volatile_server_state s) !! initial_log_len with
  | Some stored_entry => asserts (index stored_entry = 1 /\ term stored_entry = 1)
  | None => false
  end.

(** All tests of the requests to append pass. *)
Theorem append_entries_tests_pass :
  Forall (fun test => test = true)
    [ test_validate_append_entries_returns_true_when_consecutive;
      test_validate_append_entries_returns_false_when_index_mismatch;
      test_validate_append_entries_returns_false_when_term_mismatch;
      test_validate_append_entries_returns_false_when_both_mismatch;
      test_handle_new_leader_updates_state;
      test_handle_heartbeat_consecutive_updates_commit_index;
      test_handle_heartbeat_non_consecutive_requests_backfill;
      test_handle_non_consecutive_request_sends_wanted_previous_entry;
      test_send_unrecognized_leader_response;
      test_malformed_entry_is_rejected_not_persisted;
      test_valid_entry_is_accepted_and_persisted ].
Proof. repeat constructor; vm_compute; reflexivity. Qed.
