(* ===== verification/TestsWriteBatch.v ===== *)
(** * The unit tests of the write batches of the leader

    [mod tests] of [src/raft/leader/write_batch.rs]. *)
From stdpp Require Import strings.
From S2P Require Import Prelude Capnp CapnpInstance RaftTypes Bus Samples RaftSm Follower Leader TestSupport.

(** The tests keep the receiver of the channel to the persistence worker. *)
Definition create_test_shared_state : SharedState ScriptedBus := {|
  server_state := mkRaftServerState 2 1;
  volatile_server_state := {|
    next_term := 3;
    last_log_term := 1;
    last_log_index := 5;
    commit_index := 3;
    replication_log := [];
    replication_log_term_starts := ∅;
    last_applied := 0;
    next_log_index := 6;
    commit_state := mkCommitState 3 0;
    last_broadcast_index := None;
    has_deferred_broadcast := false
  |};
  next_message_id := 100;
  outstanding_messages := ∅;
  quorum_size := 2;
  quorum_worker_tasks := [[]; []];
  persistence_work := mkSender true [];
  persistence_response := [];
  quorum_response := [];
  identity := 1;
  term_votes := ∅;
  max_message_size_bytes := 2048;
  log_entry_bus := open_bus;
  callbacks := mkCallbacks [] ∅
|}.

Definition create_write_batch_request_with_data : OwnedWriteBatch :=
  build_batch "test-batch-1" [put_request "req1" "payload1" 1; put_request "req2" "payload2" 1].

Definition create_empty_write_batch_request : OwnedWriteBatch := build_batch "empty-batch" [].

Definition test_validate_write_batch_valid_request : bool :=
  asserts (validate_write_batch create_write_batch_request_with_data = None).

Definition test_validate_write_batch_empty_request : bool :=
  asserts (validate_write_batch create_empty_write_batch_request = Some "Empty write batch request").

Definition test_create_and_append_log_entry_populates_fields_correctly : bool :=
  no_panic (create_and_append_log_entry sample_env create_write_batch_request_with_data 10 200 create_test_shared_state)
    (fun '(entry, _) =>
       asserts (index entry = 10 /\ term entry = 2 /\ prev_log_index entry = 5 /\ prev_log_term entry = 1 /\
                message_id entry = 200 /\ command_count entry = 2 /\ command_ids entry = [lit "req1"; lit "req2"])).

Definition test_create_and_append_log_entry_adds_to_replication_log : bool :=
  let initial_log_len := length (replication_log (volatile_server_state create_test_shared_state)) in
  no_panic (create_and_append_log_entry sample_env create_write_batch_request_with_data 6 100 create_test_shared_state)
    (fun '(entry, s) =>
       asserts (length (replication_log (volatile_server_state s)) = (initial_log_len + 1)%nat /\
                index entry = 6 /\ term entry = 2 /\ as_bytes entry <> [] /\
                is_Some (replication_log_term_starts (volatile_server_state s) !! 2))).

Definition test_queue_persistence_task_adds_to_queue : bool :=
  no_panic (create_and_append_log_entry sample_env create_write_batch_request_with_data 6 42 create_test_shared_state)
    (fun '(entry, s) =>
       match head ∘ chan_queue ∘ persistence_work <$> queue_persistence_task 42 entry s with
       | Some (Some (PT_AppendLog id data _)) => asserts (id = 42 /\ data <> [])
       | _ => false
       end).

Definition test_dispatch_to_quorum_sends_to_all_workers : bool :=
  let owned_entry :=
    default (mkOwnedLogEntry []) (build_owned_log_entry
      (mkInternalLogEntry 10 2 9 2 100 12345 (Some []) (Some [Init.Byte.x01; Init.Byte.x02; Init.Byte.x03]))) in
  let s := dispatch_to_quorum 100 owned_entry create_test_shared_state in
  forallb (fun queue : list LocalQuorumWorkerTaskType =>
    match head queue with
    | Some (QT_AppendEntries id _ commit_index) => asserts (id = 100 /\ commit_index = 3)
    | _ => false
    end) (quorum_worker_tasks s).

Definition test_register_outstanding_message_adds_to_map : bool :=
  let s := register_outstanding_message 42 10 5 0%nat create_test_shared_state in
  match outstanding_messages s !! 42 with
  | Some msg => asserts (om_id msg = 42 /\ outstanding_responses msg = 3)
  | None => false
  end.

Definition test_update_volatile_state_updates_indices : bool :=
  let v := volatile_server_state (update_volatile_state 10 create_test_shared_state) in
  asserts (last_log_index v = 10 /\ next_log_index v = 11 /\ last_log_term v = 2).

Definition test_send_error_response_sends_error : bool :=
  no_panic (send_error_response "Test error message" 0%nat create_test_shared_state) (fun s =>
    match received 0%nat s with
    | Some (RP_WriteBatch r) => asserts (wbr_err r = Some "Test error message")
    | _ => false
    end).

Definition test_create_and_append_noop_entry_zero_commands : bool :=
  no_panic (create_and_append_noop_entry sample_env 6 100 create_test_shared_state) (fun '(entry, s) =>
    asserts (command_count entry = 0 /\ index entry = 6 /\ term entry = 2 /\ prev_log_index entry = 5 /\
             prev_log_term entry = 1 /\ message_id entry = 100 /\
             length (replication_log (volatile_server_state s)) = 1%nat /\
             is_Some (replication_log_term_starts (volatile_server_state s) !! 2))).

Definition test_register_noop_outstanding_message : bool :=
  let s := register_noop_outstanding_message 42 10 create_test_shared_state in
  match outstanding_messages s !! 42 with
  | Some msg => asserts (om_id msg = 42 /\ outstanding_responses msg = 3 /\ message_type msg = OM_NoOp false 0 10)
  | None => false
  end.

(** All tests of the write batches pass. *)
Theorem write_batch_tests_pass :
  Forall (fun test => test = true)
    [ test_validate_write_batch_valid_request;
      test_validate_write_batch_empty_request;
      test_create_and_append_log_entry_populates_fields_correctly;
      test_create_and_append_log_entry_adds_to_replication_log;
      test_queue_persistence_task_adds_to_queue;
      test_dispatch_to_quorum_sends_to_all_workers;
      test_register_outstanding_message_adds_to_map;
      test_update_volatile_state_updates_indices;
      test_send_error_response_sends_error;
      test_create_and_append_noop_entry_zero_commands;
      test_register_noop_outstanding_message ].
Proof. repeat constructor; vm_compute; reflexivity. Qed.
