(* ===== verification/TestsReplication.v ===== *)
(** * The unit tests of log repair

    [mod tests] of [src/raft/leader/replication.rs] and [mod integration_tests] of
    [src/raft/raft_sm.rs], where a leader and a follower repair a log together. *)
From stdpp Require Import strings.
From S2P Require Import Prelude Capnp CapnpInstance RaftTypes Bus Samples RaftSm Follower Leader TestSupport.

(** ** [replication.rs] *)

(** The receiver of the channel to the persistence worker is dropped. *)
Definition create_test_shared_state_with_log (log_entries : list OwnedLogEntry) : SharedState ScriptedBus :=
  let last_log_index' := if decide (log_entries = []) then 0 else vlen log_entries - 1 in
  let last_log_term' := default 0 (term <$> vlast log_entries) in
  {|
    server_state := mkRaftServerState 2 1;
    volatile_server_state := {|
      next_term := 3;
      last_log_term := last_log_term';
      last_log_index := last_log_index';
      commit_index := 0;
      replication_log := log_entries;
      replication_log_term_starts := ∅;
      last_applied := 0;
      next_log_index := last_log_index' + 1;
      commit_state := mkCommitState 0 0;
      last_broadcast_index := None;
      has_deferred_broadcast := false
    |};
    next_message_id := 1;
    outstanding_messages := ∅;
    quorum_size := 2;
    quorum_worker_tasks := [[]; []];
    persistence_work := mkSender false [];
    persistence_response := [];
    quorum_response := [];
    identity := 1;
    term_votes := ∅;
    max_message_size_bytes := 2048;
    log_entry_bus := open_bus;
    callbacks := mkCallbacks [] ∅
  |}.

Definition create_log_entry (index term : Z) : OwnedLogEntry :=
  build_entry index term (if decide (0 < index) then index - 1 else 0) term index 0 [].

Definition first_task (s : SharedState ScriptedBus) : option LocalQuorumWorkerTaskType :=
  mbind head (quorum_worker_tasks s !! 0%nat).

Definition test_clone_subset_full_range : bool :=
  no_panic (clone_subset [1; 2; 3; 4] 0 4) (fun result =>
    asserts (length result = 4%nat /\ result !! 0%nat = Some 1 /\ result !! 3%nat = Some 4)).

Definition test_clone_subset_partial_range : bool :=
  no_panic (clone_subset [1; 2; 3; 4] 1 3) (fun result =>
    asserts (length result = 2%nat /\ result !! 0%nat = Some 2 /\ result !! 1%nat = Some 3)).

Definition test_clone_subset_empty_range : bool :=
  no_panic (clone_subset [1; 2; 3] 2 2) (fun result => asserts (length result = 0%nat)).

Definition test_get_quorum_worker_index_zero_node : bool := asserts (get_quorum_worker_index 0 1 = 0%nat).

Definition test_get_quorum_worker_index_node_greater_than_identity : bool :=
  asserts (get_quorum_worker_index 3 1 = 1%nat /\ get_quorum_worker_index 2 1 = 0%nat).

Definition test_get_quorum_worker_index_node_less_than_identity : bool :=
  asserts (get_quorum_worker_index 1 2 = 0%nat /\ get_quorum_worker_index 1 3 = 0%nat).

Definition test_send_truncate_signal_queues_task : bool :=
  let s := create_test_shared_state_with_log [create_log_entry 0 1; create_log_entry 1 1; create_log_entry 2 2] in
  match first_task (send_truncate_signal 2 1 1 s) with
  | Some (QT_TruncateLog _ prev_term prev_index) => asserts (prev_term = 1 /\ prev_index = 1)
  | _ => false
  end.

Definition test_handle_backfill_request_sends_backfill_data : bool :=
  let s := create_test_shared_state_with_log
             [create_log_entry 0 1; create_log_entry 1 1; create_log_entry 2 2; create_log_entry 3 2] in
  no_panic (handle_backfill_request 2 1 1 s) (fun s =>
    match first_task s with
    | Some (QT_BackfillLog [e1; e2]) => asserts (index e1 = 2 /\ index e2 = 3)
    | _ => false
    end).

Definition test_handle_backfill_request_empty_log_sends_truncate : bool :=
  let s := create_test_shared_state_with_log [create_log_entry 0 1; create_log_entry 1 1] in
  no_panic (handle_backfill_request 2 1 10 s) (fun s =>
    match first_task s with
    | Some (QT_TruncateLog _ _ prev_index) => asserts (prev_index = 1)
    | _ => false
    end).

Definition test_handle_backfill_request_term_mismatch_sends_truncate : bool :=
  let s := create_test_shared_state_with_log [create_log_entry 0 1; create_log_entry 1 1; create_log_entry 2 2] in
  no_panic (handle_backfill_request 2 3 2 s) (fun s =>
    match first_task s with
    | Some (QT_TruncateLog _ _ _) => true
    | _ => false
    end).

Definition test_handle_backfill_request_from_empty_follower : bool :=
  let s := create_test_shared_state_with_log [create_log_entry 0 1; create_log_entry 1 1; create_log_entry 2 2] in
  no_panic (handle_backfill_request 2 0 0 s) (fun s =>
    match first_task s with
    | Some (QT_BackfillLog data) => asserts (length data = 3%nat)
    | _ => false
    end).

(** All tests of [replication.rs] pass. *)
Theorem replication_tests_pass :
  Forall (fun test => test = true)
    [ test_clone_subset_full_range;
      test_clone_subset_partial_range;
      test_clone_subset_empty_range;
      test_get_quorum_worker_index_zero_node;
      test_get_quorum_worker_index_node_greater_than_identity;
      test_get_quorum_worker_index_node_less_than_identity;
      test_send_truncate_signal_queues_task;
      test_handle_backfill_request_sends_backfill_data;
      test_handle_backfill_request_empty_log_sends_truncate;
      test_handle_backfill_request_term_mismatch_sends_truncate;
      test_handle_backfill_request_from_empty_follower ].
Proof. repeat constructor; vm_compute; reflexivity. Qed.

(** ** [raft_sm.rs] *)

(** The three queues are one queue in the code; only its first place is used.  The receiver of
    the channel to the persistence worker is dropped. *)
Definition create_shared_state : SharedState ScriptedBus := {|
  server_state := mkRaftServerState 1 1;
  volatile_server_state := {|
    next_term := 2;
    last_log_term := 1;
    last_log_index := 0;
    commit_index := 0;
    replication_log := [];
    replication_log_term_starts := ∅;
    last_applied := 0;
    next_log_index := 1;
    commit_state := mkCommitState 0 0;
    last_broadcast_index := None;
    has_deferred_broadcast := false
  |};
  next_message_id := 1;
  outstanding_messages := ∅;
  quorum_size := 3;
  quorum_worker_tasks := [[]; []; []];
  persistence_work := mkSender false [];
  persistence_response := [];
  quorum_response := [];
  identity := 0;
  term_votes := ∅;
  max_message_size_bytes := 2048;
  log_entry_bus := open_bus;
  callbacks := mkCallbacks [] ∅
|}.

Definition leader_delegate : RaftLeaderStateDelegate :=
  mkRaftLeaderStateDelegate (leader_election_timeout (RaftLeaderStateDelegate_new sample_env)) true.

(** A node with these entries whose cursors are at the end. *)
Definition with_log (starts : gmap Z Z) (entry : Z -> OwnedLogEntry) (n : nat) (last_term : Z) (s : SharedState ScriptedBus) :=
  let s := s <| volatile_server_state ; replication_log_term_starts := starts |> in
  let s := s <| volatile_server_state ; replication_log := map entry (upto n) |> in
  let s := s <| volatile_server_state ; last_log_index := Z.of_nat n - 1 |> in
  let s := s <| volatile_server_state ; last_log_term := last_term |> in
  s <| volatile_server_state ; next_log_index := Z.of_nat n |>.

(** [prev_index] in the loops that build the logs. *)
Definition prev_index_of (i : Z) : Z := if decide (i = 0) then 0 else i - 1.

(** One time step of the leader on a response; the only task of the first queue is popped. *)
Definition leader_answers (r : LocalQuorumTaskResponseType) (s : SharedState ScriptedBus)
    : option (LocalQuorumWorkerTaskType * SharedState ScriptedBus) :=
  let* (result, _, _, s) := Leader.time_step sample_env leader_delegate (s <| quorum_response ::= fun q => q ++ [r] |>) in
  if negb (is_none result) then None
  else match quorum_worker_tasks s with
       | [task] :: queues => Some (task, s <| quorum_worker_tasks := [] :: queues |>)
       | _ => None
       end.

Definition test_complete_truncate_flow_leader_missing_entries : bool :=
  let leader_state := create_shared_state <| server_state := mkRaftServerState 3 0 |> in
  let leader_entry i :=
    build_entry i (if decide (i < 4) then 2 else 3) (prev_index_of i)
      (if decide (i = 0) then 0 else if decide (i <= 4) then 2 else 3) i 0 [] in
  let leader_state := with_log (<[3 := 4]> (<[2 := 0]> ∅)) leader_entry 7 3 leader_state in
  no_panic (leader_answers (QR_BackfillLog 1 2 5) leader_state) (fun '(truncate_task, leader_state) =>
    match truncate_task with
    | QT_TruncateLog _ truncate_prev_term truncate_prev_index =>
      asserts (truncate_prev_term = 2 /\ truncate_prev_index = 3) &&
      let follower_entry i := build_entry i 2 (prev_index_of i) (if decide (i = 0) then 0 else 2) i 0 [] in
      let follower_state := with_log (<[2 := 0]> ∅) follower_entry 6 2 create_shared_state in
      let follower_state := follower_state <| quorum_response := [QR_TruncateLog 0 truncate_prev_term truncate_prev_index] |> in
      no_panic (Follower.time_step sample_env (RaftFollowerStateDelegate_new sample_env) follower_state)
        (fun '(result, _, _, follower_state) =>
           let v := volatile_server_state follower_state in
           asserts (is_none result = true /\ length (replication_log v) = 4%nat /\ last_log_term v = 2 /\
                    last_log_index v = 3 /\ next_log_index v = 4)) &&
      no_panic (leader_answers (QR_BackfillLog 1 2 3) leader_state) (fun '(backfill_task, _) =>
        match backfill_task with
        | QT_BackfillLog data => asserts (length data = 3%nat)
        | _ => false
        end)
    | _ => false
    end).

Definition test_truncate_flow_with_new_leader_entries : bool :=
  let leader_state := create_shared_state <| server_state ; current_term := 4 |> in
  let leader_entry i :=
    build_entry i (if decide (i < 3) then 2 else if decide (i < 6) then 3 else 4) (prev_index_of i)
      (if decide (i = 0) then 0 else if decide (i <= 3) then 2 else if decide (i <= 6) then 3 else 4) i 0 [] in
  let leader_state := with_log (<[4 := 6]> (<[3 := 3]> (<[2 := 0]> ∅))) leader_entry 10 4 leader_state in
  no_panic (leader_answers (QR_BackfillLog 1 3 4) leader_state) (fun '(task, _) =>
    match task with
    | QT_BackfillLog data => asserts (length data = 5%nat)
    | _ => false
    end).

Definition test_truncate_flow_boundary_conditions : bool :=
  let leader_state := create_shared_state <| server_state ; current_term := 3 |> in
  let leader_entry i :=
    build_entry i (if decide (i < 5) then 2 else 3) (prev_index_of i)
      (if decide (i = 0) then 0 else if decide (i <= 5) then 2 else 3) i 0 [] in
  let leader_state := with_log (<[3 := 5]> (<[2 := 0]> ∅)) leader_entry 7 3 leader_state in
  no_panic (leader_answers (QR_BackfillLog 1 2 4) leader_state) (fun '(task, leader_state) =>
    match task with
    | QT_BackfillLog data => asserts (length data = 2%nat)
    | _ => false
    end &&
    no_panic (leader_answers (QR_BackfillLog 1 2 5) leader_state) (fun '(task, _) =>
      match task with
      | QT_TruncateLog _ prev_term prev_index => asserts (prev_term = 2 /\ prev_index = 4)
      | _ => false
      end)).

(** All integration tests pass. *)
Theorem integration_tests_pass :
  Forall (fun test => test = true)
    [ test_complete_truncate_flow_leader_missing_entries;
      test_truncate_flow_with_new_leader_entries;
      test_truncate_flow_boundary_conditions ].
Proof. repeat constructor; vm_compute; reflexivity. Qed.
