(* ===== verification/TestsPersistence.v ===== *)
(** * The unit tests of persistence, startup and recovery

    [mod tests] of [src/persistence/worker.rs], [src/startup/recovery.rs],
    [src/startup/state.rs] and [src/startup/queues.rs]. *)
From stdpp Require Import strings.
From S2P Require Import Prelude Capnp CapnpInstance RaftTypes Bus Samples Persistence PersistenceSpec Startup Main TestSupport.

(** ** [persistence/worker.rs]

    Every test sends its tasks, closes the channel and then calls [run], which takes all of
    them in one turn, flushes and returns. *)

(** The worker on the log file of a directory and an empty file of votes. *)
Definition create_test_worker (log_file : list byte) (entry_end_offsets : list Z) : PersistenceWorker :=
  PersistenceWorker_new log_file [] entry_end_offsets.

Definition run (tasks : list PersistenceTaskType) (w : PersistenceWorker) : option PersistenceWorker := run_turn tasks w.

Definition append_log (id : Z) (b : byte) (n : nat) : PersistenceTaskType := PT_AppendLog id (replicate n b) id.

Definition log_file_size (w : PersistenceWorker) : Z := vlen (bw_file (log_write_buffer w)).

Definition test_append_log_tracks_offsets : bool :=
  let tasks := [append_log 1 Init.Byte.x01 100; append_log 2 Init.Byte.x02 200; append_log 3 Init.Byte.x03 50] in
  no_panic (run tasks (create_test_worker [] [])) (fun worker =>
    asserts (entry_end_offsets worker = [100; 300; 350] /\ length (response_queue worker) = 3%nat /\
             log_file_size worker = 350)).

Definition test_truncate_log_shortens_file_and_offsets : bool :=
  let tasks := [append_log 1 Init.Byte.x01 100; append_log 2 Init.Byte.x02 200; append_log 3 Init.Byte.x03 50;
                PT_TruncateLog 2] in
  no_panic (run tasks (create_test_worker [] [])) (fun worker =>
    asserts (entry_end_offsets worker = [100; 300] /\ log_file_size worker = 300)).

Definition test_truncate_log_to_zero : bool :=
  let tasks := [append_log 1 Init.Byte.x01 100; append_log 2 Init.Byte.x02 200; PT_TruncateLog 0] in
  no_panic (run tasks (create_test_worker [] [])) (fun worker =>
    asserts (entry_end_offsets worker = [] /\ log_file_size worker = 0)).

Definition test_truncate_then_append : bool :=
  let tasks := [append_log 1 Init.Byte.x01 100; append_log 2 Init.Byte.x02 200; append_log 3 Init.Byte.x03 50;
                PT_TruncateLog 1; append_log 4 Init.Byte.x04 75] in
  no_panic (run tasks (create_test_worker [] [])) (fun worker =>
    asserts (entry_end_offsets worker = [100; 175] /\ log_file_size worker = 175)).

Definition test_worker_with_initial_offsets : bool :=
  let initial_offsets := [100; 300; 500] in
  no_panic (run [PT_TruncateLog 2] (create_test_worker (replicate 500 Init.Byte.x00) initial_offsets)) (fun worker =>
    asserts (entry_end_offsets worker = [100; 300] /\ log_file_size worker = 300)).

(** All tests of the persistence worker pass. *)
Theorem persistence_tests_pass :
  Forall (fun test => test = true)
    [ test_append_log_tracks_offsets;
      test_truncate_log_shortens_file_and_offsets;
      test_truncate_log_to_zero;
      test_truncate_then_append;
      test_worker_with_initial_offsets ].
Proof. repeat constructor; vm_compute; reflexivity. Qed.

(** ** [startup/recovery.rs] *)

Definition test_deserialize_empty_log : bool :=
  no_panic (deserialize_replication_log []) (fun '(log, term_starts, last_idx, last_term, end_offsets) =>
    asserts (log = [] /\ term_starts = ∅ /\ last_idx = 0 /\ last_term = 0 /\ end_offsets = [])).

Definition test_process_votes_empty : bool :=
  let '(term_votes, next_term) := process_votes [] 0 in asserts (term_votes = ∅ /\ next_term = 1).

Definition test_process_votes_with_data : bool :=
  let votes := [{| vote_term := 1; vote_candidate_id := 2 |}; {| vote_term := 3; vote_candidate_id := 1 |};
                {| vote_term := 2; vote_candidate_id := 3 |}] in
  let '(term_votes, next_term) := process_votes votes 2 in
  asserts (size term_votes = 3%nat /\ term_votes !! 1 = Some 2 /\ term_votes !! 3 = Some 1 /\ next_term = 4).

Definition test_process_votes_log_term_higher : bool :=
  let '(_, next_term) := process_votes [{| vote_term := 1; vote_candidate_id := 2 |}] 5 in asserts (next_term = 6).

Definition test_recover_persisted_data_empty : bool :=
  no_panic (recover_persisted_data [] []) (fun data =>
    asserts (rd_replication_log data = [] /\ rd_term_start_index data = ∅ /\ rd_last_log_index data = 0 /\
             rd_last_log_term data = 0 /\ rd_term_votes data = ∅ /\ rd_next_term data = 1 /\
             rd_log_entry_end_offsets data = [])).

(** All tests of recovery pass. *)
Theorem recovery_tests_pass :
  Forall (fun test => test = true)
    [ test_deserialize_empty_log;
      test_process_votes_empty;
      test_process_votes_with_data;
      test_process_votes_log_term_higher;
      test_recover_persisted_data_empty ].
Proof. repeat constructor; vm_compute; reflexivity. Qed.

(** ** [startup/state.rs] *)

Definition create_test_recovered_data : RecoveredData := {|
  rd_replication_log := [];
  rd_term_start_index := ∅;
  rd_last_log_index := 0;
  rd_last_log_term := 0;
  rd_term_votes := ∅;
  rd_next_term := 1;
  rd_log_entry_end_offsets := []
|}.

Definition test_create_commit_state : bool :=
  asserts (cs_commit_index create_commit_state = 0 /\ cs_version create_commit_state = 0).

Definition test_create_server_state : bool :=
  asserts (current_term create_server_state = 0 /\ leader_id create_server_state = 0).

Definition test_create_volatile_state : bool :=
  let recovered := {|
    rd_replication_log := [];
    rd_term_start_index := ∅;
    rd_last_log_index := 5;
    rd_last_log_term := 2;
    rd_term_votes := ∅;
    rd_next_term := 3;
    rd_log_entry_end_offsets := []
  |} in
  let volatile := create_volatile_state recovered create_commit_state in
  asserts (last_log_index volatile = 5 /\ last_log_term volatile = 2 /\ next_term volatile = 3 /\
           next_log_index volatile = 6 /\ commit_index volatile = 0 /\ last_applied volatile = 0).

(** The queues are those of [create_shared_state]. *)
Definition test_create_shared_state : bool :=
  let shared_state := create_shared_state create_test_recovered_data create_commit_state [[]] 1 2 1024 open_bus in
  asserts (identity shared_state = 1 /\ quorum_size shared_state = 2 /\ next_message_id shared_state = 0 /\
           max_message_size_bytes shared_state = 1024 /\ map_to_list (outstanding_messages shared_state) = []).

(** ** [startup/queues.rs] *)

Definition test_app_queues_creation : bool :=
  let queues := AppQueues_new in
  match queues with
  | {| task_queue := []; write_work_queue := []; query_queue := []; persistence_work_sender := sender;
       persistence_response_queue := []; quorum_work_queue := []; quorum_response_queue := [] |} =>
    asserts (chan_queue sender = [])
  | _ => false
  end.

(** All tests of the initial state pass. *)
Theorem state_tests_pass :
  Forall (fun test => test = true)
    [ test_create_commit_state;
      test_create_server_state;
      test_create_volatile_state;
      test_create_shared_state;
      test_app_queues_creation ].
Proof. repeat constructor; vm_compute; reflexivity. Qed.
