(* ===== verification/TestsConfig.v ===== *)
(** * The unit tests of the configuration

    [mod tests] of [src/config/config.rs]. *)
From S2P Require Import Prelude NetAddr Capnp RaftTypes Config TestSupport.
From Stdlib Require Import Ascii String.
From stdpp Require Import strings pretty.

#[local] Open Scope Z_scope.
#[local] Open Scope string_scope.

Definition create_valid_config : AppConfig := {|
  persistence_dir := "/tmp/test";
  metrics_port := 9090;
  cfg_node_id := 1;
  cluster_nodes := [{| endpoint := "127.0.0.1:50051"; cn_node_id := 2 |};
                    {| endpoint := "127.0.0.1:50052"; cn_node_id := 3 |}];
  max_message_size_bytes := 1024 * 1024;
  min_batch_interval_ms := 100;
  cfg_max_batch_size := 1000;
  enable_otel_tracing := false;
  cluster_port := 50050;
  tcp_datastore_port := 8080
|}.

(** The valid configuration with one field replaced. *)
Definition with_message_size (n : Z) (c : AppConfig) : AppConfig := {|
  persistence_dir := persistence_dir c; metrics_port := metrics_port c; cfg_node_id := cfg_node_id c;
  cluster_nodes := cluster_nodes c; max_message_size_bytes := n; min_batch_interval_ms := min_batch_interval_ms c;
  cfg_max_batch_size := cfg_max_batch_size c; enable_otel_tracing := enable_otel_tracing c;
  cluster_port := cluster_port c; tcp_datastore_port := tcp_datastore_port c |}.

Definition with_batch_size (n : Z) (c : AppConfig) : AppConfig := {|
  persistence_dir := persistence_dir c; metrics_port := metrics_port c; cfg_node_id := cfg_node_id c;
  cluster_nodes := cluster_nodes c; max_message_size_bytes := max_message_size_bytes c;
  min_batch_interval_ms := min_batch_interval_ms c;
  cfg_max_batch_size := n; enable_otel_tracing := enable_otel_tracing c;
  cluster_port := cluster_port c; tcp_datastore_port := tcp_datastore_port c |}.

Definition with_metrics_port (n : Z) (c : AppConfig) : AppConfig := {|
  persistence_dir := persistence_dir c; metrics_port := n; cfg_node_id := cfg_node_id c;
  cluster_nodes := cluster_nodes c; max_message_size_bytes := max_message_size_bytes c;
  min_batch_interval_ms := min_batch_interval_ms c;
  cfg_max_batch_size := cfg_max_batch_size c; enable_otel_tracing := enable_otel_tracing c;
  cluster_port := cluster_port c; tcp_datastore_port := tcp_datastore_port c |}.

Definition with_nodes (nodes : list ClusterNode) (c : AppConfig) : AppConfig := {|
  persistence_dir := persistence_dir c; metrics_port := metrics_port c; cfg_node_id := cfg_node_id c;
  cluster_nodes := nodes; max_message_size_bytes := max_message_size_bytes c;
  min_batch_interval_ms := min_batch_interval_ms c;
  cfg_max_batch_size := cfg_max_batch_size c; enable_otel_tracing := enable_otel_tracing c;
  cluster_port := cluster_port c; tcp_datastore_port := tcp_datastore_port c |}.

(** [str::contains]. *)
Definition contains (s sub : string) : bool := match String.index 0 sub s with Some _ => true | None => false end.

(** The result is an error and one of the errors satisfies [p]. *)
Definition any_error (p : ConfigValidationError -> bool) (c : AppConfig) : bool :=
  match validate c with
  | inl errors => existsb p errors
  | inr _ => false
  end.

Definition on_field (f : string) (e : ConfigValidationError) : bool := bool_decide (field e = f).

Definition test_validate_message_size_too_small : bool :=
  any_error (on_field "max_message_size_bytes") (with_message_size 100 create_valid_config).

Definition test_validate_message_size_too_large : bool :=
  any_error (on_field "max_message_size_bytes") (with_message_size (100 * 1024 * 1024) create_valid_config).

Definition test_validate_batch_size_zero : bool :=
  any_error (on_field "max_batch_size") (with_batch_size 0 create_valid_config).

Definition test_validate_batch_size_too_large : bool :=
  any_error (on_field "max_batch_size") (with_batch_size 20000 create_valid_config).

Definition test_validate_invalid_port : bool :=
  any_error (on_field "metrics_port") (with_metrics_port 70000 create_valid_config).

Definition test_validate_duplicate_node_ids : bool :=
  let nodes := [{| endpoint := "127.0.0.1:50051"; cn_node_id := 2 |};
                {| endpoint := "127.0.0.1:50052"; cn_node_id := 2 |}] in
  any_error (fun e => on_field "cluster_nodes" e && contains (message e) "Duplicate") (with_nodes nodes create_valid_config).

Definition test_validate_invalid_endpoint_format : bool :=
  let nodes := [{| endpoint := "not-a-valid-endpoint"; cn_node_id := 2 |}] in
  any_error (fun e => on_field "cluster_nodes" e && contains (message e) "invalid endpoint")
    (with_nodes nodes create_valid_config).

Definition test_validate_empty_endpoint : bool :=
  let nodes := [{| endpoint := ""; cn_node_id := 2 |}] in
  any_error (fun e => on_field "cluster_nodes" e && contains (message e) "empty endpoint")
    (with_nodes nodes create_valid_config).

Definition test_valid_config_passes : bool :=
  match validate create_valid_config with inr _ => true | inl _ => false end.

Definition test_safe_display_format : bool :=
  let display := safe_display create_valid_config in
  contains display "node_id: 1" && contains display "cluster_port: 50050" && contains display "2 nodes" &&
  negb (contains display "127.0.0.1:50051").

(** All tests of the configuration pass. *)
Theorem config_tests_pass :
  Forall (fun test => test = true)
    [ test_validate_message_size_too_small;
      test_validate_message_size_too_large;
      test_validate_batch_size_zero;
      test_validate_batch_size_too_large;
      test_validate_invalid_port;
      test_validate_duplicate_node_ids;
      test_validate_invalid_endpoint_format;
      test_validate_empty_endpoint;
      test_valid_config_passes;
      test_safe_display_format ].
Proof. repeat constructor; vm_compute; reflexivity. Qed.
