(* ===== verification/TestsTransport.v ===== *)
(** * The unit tests of the transport

    [mod tests] of [src/transport/datastore/codec.rs], [src/transport/capnp/message_sender.rs],
    [src/transport/write_proxy/batch.rs], [src/quorum/quorum_worker/outbound.rs] and
    [src/runtime_core/task_buffer.rs]. *)
From stdpp Require Import strings.
From Stdlib Require Import Sorting.
From stdpp Require Import sorting.
From S2P Require Import Prelude Capnp CapnpInstance RaftTypes Bus Samples QuorumMessage QuorumWorker WriteProxy Codec.
From S2P Require Import ServiceError TaskBuffer TestSupport.

(** ** [datastore/codec.rs] *)

(** Reading back what was written is the whole test. *)
Definition frame_reads_back (rpc_type request_id : Z) (payload : list byte) : bool :=
  match write_frame rpc_type request_id payload [] with
  | inr buf =>
    match read_frame buf with
    | inr (read_rpc_type, read_request_id, read_payload, _) =>
      asserts (read_rpc_type = rpc_type /\ read_request_id = request_id /\ read_payload = payload)
    | inl _ => false
    end
  | inl _ => false
  end.

Definition test_read_write_frame : bool := frame_reads_back 1 12345 (lit "test payload").

Definition test_empty_payload : bool := frame_reads_back 2 0 [].

Definition test_encode_frame : bool :=
  let buf := encode_frame 1 100 (lit "hello") in
  asserts (length buf = 18%nat /\ le_value (take 4 buf) = 14).

(** All tests of the frames pass. *)
Theorem codec_tests_pass :
  Forall (fun test => test = true) [ test_read_write_frame; test_empty_payload; test_encode_frame ].
Proof. repeat constructor; vm_compute; reflexivity. Qed.

(** ** [capnp/message_sender.rs] *)

(** The test asks for an error that mentions the limit: the kind [InvalidData] before any of the
    message is read. *)
Definition test_read_message_rejects_oversized_message : bool :=
  let oversized_length := 100 * 1024 * 1024 in
  match read_message (be_bytes 4 oversized_length) with inl InvalidData => true | _ => false end.

(** Zero bytes are not refused for their number. *)
Definition test_read_message_accepts_valid_size : bool :=
  let valid_length := 1024 in
  match read_message (be_bytes 4 valid_length ++ replicate 1024 Init.Byte.x00) with
  | inl InvalidData => false
  | _ => true
  end.

Definition test_max_message_size_is_64mb : bool := asserts (MAX_MESSAGE_SIZE = 64 * 1024 * 1024).

Definition test_read_message_boundary_exactly_at_limit : bool :=
  match read_message (be_bytes 4 MAX_MESSAGE_SIZE) with inl _ => true | inr _ => false end.

Definition test_read_message_boundary_one_over_limit : bool :=
  match read_message (be_bytes 4 (MAX_MESSAGE_SIZE + 1)) with inl InvalidData => true | _ => false end.

Lemma read_message_without_body len :
  be_value (be_bytes 4 len) = len -> 0 < len -> exists e, read_message (be_bytes 4 len) = inl e.
Proof.
  intros Hlen Hpos. unfold read_message. unfold read_exact at 1.
  assert (length (be_bytes 4 len) = 4%nat) as Hl by (unfold be_bytes; rewrite length_rev; done).
  rewrite decide_True by lia. cbn [read_bind]. rewrite take_ge, Hlen by lia. rewrite drop_ge by lia.
  case_decide; [by eexists|]. unfold read_exact. rewrite decide_False; [by eexists|]. simpl. lia.
Qed.

(** All tests of the messages between nodes pass. *)
Theorem message_sender_tests_pass :
  Forall (fun test => test = true)
    [ test_read_message_rejects_oversized_message;
      test_read_message_accepts_valid_size;
      test_max_message_size_is_64mb;
      test_read_message_boundary_exactly_at_limit;
      test_read_message_boundary_one_over_limit ].
Proof.
  constructor; [vm_compute; reflexivity|]. constructor; [vm_compute; reflexivity|]. constructor; [vm_compute; reflexivity|].
  constructor; [|constructor; [vm_compute; reflexivity|constructor]].
  unfold test_read_message_boundary_exactly_at_limit.
  destruct (read_message_without_body MAX_MESSAGE_SIZE) as [e ->]; [vm_compute; reflexivity|done|done].
Qed.

(** ** [write_proxy/batch.rs] *)

Definition create_test_write_batch (batch_id : string) (requests : list InternalPutRequest) (callback : Callback) : WriteBatch :=
  mkWriteBatch (lit batch_id) (build_batch batch_id requests) callback.

(** The number of requests of a combined batch. *)
Definition count_requests (combined : OwnedWriteBatch) : Z :=
  default 0 (batch_with_message combined (fun r => default 0 (vlen <$> wb_requests r))).

Definition test_prepare_batch_and_callbacks_single_batch : bool :=
  let batch := create_test_write_batch "batch-1" [put_request "req1" "payload1" 1; put_request "req2" "payload2" 2] 1%nat in
  no_panic (prepare_batch_and_callbacks (lit "combined-1") [batch]) (fun '(combined, callbacks) =>
    asserts (size callbacks = 1%nat /\ is_Some (callbacks !! lit "batch-1") /\ count_requests combined = 2)).

Definition test_prepare_batch_and_callbacks_multiple_batches : bool :=
  let batch1 := create_test_write_batch "batch-1" [put_request "req1" "payload1" 1] 1%nat in
  let batch2 := create_test_write_batch "batch-2" [put_request "req2" "payload2" 2] 2%nat in
  let batch3 := create_test_write_batch "batch-3" [put_request "req3" "payload3" 3; put_request "req4" "payload4" 4] 3%nat in
  no_panic (prepare_batch_and_callbacks (lit "combined-all") [batch1; batch2; batch3]) (fun '(combined, callbacks) =>
    asserts (size callbacks = 3%nat /\ is_Some (callbacks !! lit "batch-1") /\ is_Some (callbacks !! lit "batch-2") /\
             is_Some (callbacks !! lit "batch-3") /\ count_requests combined = 4)).

Definition test_prepare_batch_and_callbacks_empty_batches : bool :=
  let batch := create_test_write_batch "empty-batch" [] 1%nat in
  no_panic (prepare_batch_and_callbacks (lit "combined-empty") [batch]) (fun '(combined, callbacks) =>
    asserts (size callbacks = 1%nat /\ count_requests combined = 0)).

Definition test_respond_to_batch_callbacks_sends_responses : bool :=
  let callbacks := <[lit "batch-2" := 2%nat]> (<[lit "batch-1" := 1%nat]> ∅) in
  let response :=
    default (mkOwnedWriteBatchResponse []) (build_owned_write_batch_response (mkInternalWriteBatchResponse
      (Some [mkInternalPutResponse (Some (lit "resp1")) (Some ROk) (Some (lit "success")) 1 (Some [])])
      (Some (lit "combined")))) in
  no_panic (respond_to_batch_callbacks response callbacks) (fun sent =>
    forallb (fun callback =>
      match list_find (fun p : Callback * WriteResponse => p.1 = callback) sent with
      | Some (_, (_, r)) => match response_status r with WS_Ok => true | _ => false end
      | None => false
      end) [1%nat; 2%nat]).

(** All tests of the batches of the write proxy pass. *)
Theorem batch_tests_pass :
  Forall (fun test => test = true)
    [ test_prepare_batch_and_callbacks_single_batch;
      test_prepare_batch_and_callbacks_multiple_batches;
      test_prepare_batch_and_callbacks_empty_batches;
      test_respond_to_batch_callbacks_sends_responses ].
Proof. repeat constructor; vm_compute; reflexivity. Qed.

(** ** [quorum_worker/outbound.rs]

    The arguments of [send_heartbeat_if_needed] are fields of the worker; the tests hold for
    every reading of the clock. *)

Definition heartbeat_worker (send_heartbeats : bool) (last_heartbeat commit_index : Z) : QuorumWorker :=
  (QuorumWorker_new 1 0 2 2048)
    <| qw_send_heartbeats := send_heartbeats |> <| qw_last_heartbeat := last_heartbeat |>
    <| qw_term := 1 |> <| qw_prev_log_index := 0 |> <| qw_prev_log_term := 0 |> <| qw_commit_index := commit_index |>
    <| qw_outbound_tx := Some (mkSender true []) |>.

(** The messages in the outbound channel. *)
Definition sent_messages (w : QuorumWorker) : nat :=
  match qw_outbound_tx w with Some tx => length (chan_queue tx) | None => 0%nat end.

Definition test_send_heartbeat_when_last_heartbeat_is_zero (now : Z) : bool :=
  let w := send_heartbeat_if_needed now (heartbeat_worker true 0 5) in
  asserts (sent_messages w = 1%nat /\ 0 < qw_last_heartbeat w).

(** [now] is the second reading of the clock. *)
Definition test_no_heartbeat_when_recently_sent (sent now : Z) : bool :=
  let w := send_heartbeat_if_needed now (heartbeat_worker true sent 5) in
  asserts (sent_messages w = 0%nat).

Definition test_no_heartbeat_when_disabled (now : Z) : bool :=
  let w := send_heartbeat_if_needed now (heartbeat_worker false 0 5) in
  asserts (sent_messages w = 0%nat /\ qw_last_heartbeat w = 0).

Definition test_heartbeat_after_interval_elapsed (before now : Z) : bool :=
  let last_heartbeat := saturating_sub before (HEARTBEAT_INTERVAL_MS + 10) in
  let w := send_heartbeat_if_needed now (heartbeat_worker true last_heartbeat 5) in
  asserts (sent_messages w = 1%nat).

Definition test_resetting_last_heartbeat_forces_immediate_send (now1 now2 now3 : Z) : bool :=
  let w := send_heartbeat_if_needed now1 (heartbeat_worker true 0 5) in
  let w' := send_heartbeat_if_needed now2 w in
  let w'' := send_heartbeat_if_needed now3 (w' <| qw_last_heartbeat := 0 |> <| qw_commit_index := 10 |>) in
  asserts (sent_messages w = 1%nat /\ sent_messages w' = 1%nat /\ sent_messages w'' = 2%nat).

Lemma u128_sub_small a b : 0 <= b <= a -> a < 2 ^ 128 -> u128_sub a b = a - b.
Proof. intros. unfold u128_sub. rewrite Z.mod_small; lia. Qed.

(** A worker that sends heartbeats on an open channel. *)
Definition beating (w : QuorumWorker) : Prop :=
  qw_send_heartbeats w = true /\ exists q, qw_outbound_tx w = Some (mkSender true q).

Lemma heartbeat_due now w :
  beating w -> 0 <= qw_last_heartbeat w <= now -> now < 2 ^ 128 -> 100 <= now - qw_last_heartbeat w ->
  let w' := send_heartbeat_if_needed now w in
  beating w' /\ qw_last_heartbeat w' = now /\ sent_messages w' = S (sent_messages w).
Proof.
  intros [Hs [q Hq]] Hl Hn Hi. unfold send_heartbeat_if_needed, beating, sent_messages, send_message. rewrite Hs. simpl.
  rewrite u128_sub_small by lia. rewrite decide_False by (unfold HEARTBEAT_INTERVAL_MS; lia). rewrite Hq. simpl.
  rewrite length_app. simpl. split_and!; [done|by eexists|done|lia].
Qed.

Lemma heartbeat_early now w :
  0 <= qw_last_heartbeat w <= now -> now < 2 ^ 128 -> now - qw_last_heartbeat w < 100 -> send_heartbeat_if_needed now w = w.
Proof.
  intros Hl Hn Hi. unfold send_heartbeat_if_needed. destruct (negb _); [done|].
  rewrite u128_sub_small by lia. by rewrite decide_True by (unfold HEARTBEAT_INTERVAL_MS; lia).
Qed.

Lemma reset_forces_send w now2 now3 c :
  beating w -> 0 <= qw_last_heartbeat w <= now2 -> now2 < 2 ^ 128 -> now2 - qw_last_heartbeat w < 100 ->
  100 <= now3 -> now3 < 2 ^ 128 ->
  let w' := send_heartbeat_if_needed now2 w in
  sent_messages w' = sent_messages w /\
  sent_messages (send_heartbeat_if_needed now3 (w' <| qw_last_heartbeat := 0 |> <| qw_commit_index := c |>)) =
  S (sent_messages w).
Proof.
  intros Hb Hl Hn Hi Hn3 Hlt. cbv zeta. rewrite heartbeat_early by done. split; [done|].
  destruct (heartbeat_due now3 (w <| qw_last_heartbeat := 0 |> <| qw_commit_index := c |>)) as (_ & _ & Hs);
    [by destruct w|simpl; lia..|]. cbv zeta in Hs. rewrite Hs. by destruct w.
Qed.

Lemma heartbeat_worker_beating last c : beating (heartbeat_worker true last c).
Proof. split; [done|]. by eexists. Qed.

(** All tests of the heartbeats pass, whatever the clock shows, as long as it does not go back
    and, where the test expects no second heartbeat, less than the interval has passed. *)
Theorem outbound_tests_pass now1 now2 now3 :
  HEARTBEAT_INTERVAL_MS + 10 <= now1 <= now2 -> now2 <= now3 < 2 ^ 128 -> now2 - now1 < HEARTBEAT_INTERVAL_MS ->
  test_send_heartbeat_when_last_heartbeat_is_zero now1 = true /\
  test_no_heartbeat_when_recently_sent now1 now2 = true /\
  test_no_heartbeat_when_disabled now1 = true /\
  test_heartbeat_after_interval_elapsed now1 now2 = true /\
  test_resetting_last_heartbeat_forces_immediate_send now1 now2 now3 = true.
Proof.
  unfold HEARTBEAT_INTERVAL_MS. intros H1 H2 H3.
  assert (Hdue : forall now last c, 0 <= last <= now -> now < 2 ^ 128 -> 100 <= now - last ->
    let w := send_heartbeat_if_needed now (heartbeat_worker true last c) in
    beating w /\ qw_last_heartbeat w = now /\ sent_messages w = 1%nat).
  { intros. apply heartbeat_due; [apply heartbeat_worker_beating|done..]. }
  split_and!; apply bool_decide_eq_true.
  - destruct (Hdue now1 0 5) as (_ & -> & ->); lia.
  - by rewrite heartbeat_early by (simpl; lia).
  - done.
  - apply Hdue; unfold saturating_sub, HEARTBEAT_INTERVAL_MS; lia.
  - destruct (Hdue now1 0 5) as (Hb & Hl & Hs); [lia..|].
    destruct (reset_forces_send _ now2 now3 10 Hb) as [H2' H3']; [lia..|]. cbv zeta in *. by rewrite H3', H2', Hs.
Qed.

(** ** [runtime_core/task_buffer.rs] *)

(** Claims one after the other. *)
Fixpoint claim_spots (n : nat) (w : Z) : list Claim * Z :=
  match n with
  | O => ([], w)
  | S n => let '(w, c) := claim_spot w in let '(cs, w) := claim_spots n w in (c :: cs, w)
  end.

Definition test_claim_spot_sequential : bool :=
  match (claim_spots 3 0).1 with
  | [Returned (inr spot1); Returned (inr spot2); Returned (inr spot3)] => asserts (spot1 = 0 /\ spot2 = 1 /\ spot3 = 2)
  | _ => false
  end.

(** Eight threads claim a hundred spots each; [final] are their claims when they have returned. *)
Definition test_claim_spot_concurrent (final : list Claim) : bool :=
  let all_spots := merge_sort Z.le (claimed final) in
  let original_len := length all_spots in
  let all_spots := remove_dups all_spots in
  asserts (original_len = length all_spots /\ all_spots = upto (length all_spots)).

Definition test_claim_spot_overflow_protection : bool :=
  match (claim_spot (2 ^ 64 - 1)).2 with
  | Returned (inl (ThrottlingError msg)) => match String.index 0 "overflow" msg with Some _ => true | None => false end
  | _ => false
  end.

Definition test_peek_size : bool :=
  let buffer w : TaskBufferImpl Z := mkTaskBufferImpl 0 w [] in
  asserts (peek_size (TaskBufferImpl_new : TaskBufferImpl Z) = 0 /\
           peek_size (buffer (claim_spots 1 0).2) = 1 /\
           peek_size (buffer (claim_spots 3 0).2) = 3).

(** The tests of the task buffer pass. *)
Theorem task_buffer_tests_pass :
  Forall (fun test => test = true) [ test_claim_spot_sequential; test_claim_spot_overflow_protection; test_peek_size ].
Proof. repeat constructor; vm_compute; reflexivity. Qed.

Lemma remove_dups_id (l : list Z) : NoDup l -> remove_dups l = l.
Proof. induction 1 as [|x l Hx _ IH]; simpl; [done|]. destruct (decide_rel _ _ _); [done|]. by rewrite IH. Qed.

Lemma sorted_from m n : StronglySorted Z.le (seqZ m n).
Proof.
  unfold seqZ. generalize (Z.to_nat n) as k. intros k. generalize 0%nat as i. induction k as [|k IH]; intros i; simpl; constructor.
  - apply IH.
  - apply Forall_fmap, Forall_forall. intros j Hj. apply in_seq in Hj. simpl. lia.
Qed.

(** The concurrent test passes in every interleaving of the 800 claims. *)
Theorem concurrent_test_passes w final :
  rtc claim_system_step (0, replicate 800 claim_start) (w, final) -> test_claim_spot_concurrent final = true.
Proof.
  intros Hr. apply (claim_system_exact 0) in Hr; [|apply claims_exact_start; done].
  destruct Hr as [[Hw Hw0] Hspots _]. simpl in *. rewrite Z.sub_0_r in Hspots.
  assert (Hs : merge_sort Z.le (claimed final) = seqZ 0 w).
  { apply (StronglySorted_unique Z.le).
    - apply StronglySorted_merge_sort; apply _.
    - apply (sorted_from 0).
    - by rewrite merge_sort_Permutation. }
  unfold test_claim_spot_concurrent. rewrite Hs. apply bool_decide_eq_true.
  rewrite (remove_dups_id (seqZ 0 w)) by apply NoDup_seqZ. split; [done|].
  unfold upto. rewrite length_seqZ. unfold seqZ. apply list_fmap_ext. intros. lia.
Qed.
